(* ===== verification/_CoqProject ===== *)
-Q . S2P
Prelude.v
JsValue.v
Engine.v
Json.v
Signal.v
SignalGraph.v
Effect.v
StateAlg.v
Time.v
Fetch.v
Plugins.v
DemoSignal.v
SignalLib.v
Hooks.v
MockReact.v
Vue.v
Adapters.v
TimeTests.v
CoreTests.v
SvelteApp.v
Solid.v
SvelteAdapter.v
Qwik.v
Excel.v
Demos.v
Regex.v
ReactDemos.v
QwikDemo.v
AsyncDemo.v
DevTool.v
Showcase.v
SvelteDemo.v
