(* ===== verification/Prelude.v ===== *)
(** * A verification development for resig.js (Signal-Σ)

    resig.js is a reactive-value library written in TypeScript.  Its core
    (the part this development models) is six cooperating modules:

    - [src/src/core/signal.ts]: the reactive container.  A signal holds a
      value and a JS [Set] of subscriber callbacks; [_set] compares the new
      value with the current one by [!==] and, when they differ, stores it
      and calls every subscriber in insertion order ([notify]); [map]
      derives a new signal and subscribes to the source forever.
    - the Effect module (its text is the second part of
      [src/src/react/adapter.ts], lines 170-250): [effect] is a signal with
      [bind]/[chain]; [pureEffect], [flatten], [apply], [sequence].
    - [src/unnamed/part_011] (the [algebras/state] module): the State
      wrapper ([state], [get], [put], [modify]), reducer machines
      ([machine]), transition-table machines ([fsm]), [combine], [lens].
    - [src/src/algebras/time.ts]: [delay], [timeout], [interval],
      [debounce], [throttle] on top of platform timers.
    - [src/src/algebras/fetch.ts]: [fetch] with [retry], [cache],
      [refetch] over an asynchronous fetcher.
    - [src/src/plugins/index.ts] and its later revision in the second part
      of [src/src/adapters/universal.ts]: plugins [Signal -> Signal] and
      their composition.

    Around the core sit the framework integrations, which this
    development models too: the universal adapter (first part of
    [adapters/universal.ts]: [FrameworkAdapter] and the [usePlugin*]
    hooks) with its React implementation ([src/src/react/adapter.ts]);
    the concatenated [src/src/vue/hooks.ts], which holds a Vue adapter
    (lines 1-259), hooks over a mock React (lines 260-457) and the React
    hooks proper (lines 458-891); and the React demo, which ships its own
    copy of the library ([src/unnamed/part_007]) and of the hooks
    ([src/unnamed/part_008]).

    The components interact only through the signal interface: every
    layer allocates signals, reads them, writes them with [_set] and
    subscribes closures to them; timers and the network re-enter the
    synchronous world by running a closure that calls [_set].  The
    framework layers add the framework's own state (React's hook slots,
    Vue's refs and effect queue) on the same store.

    ** How the program is modelled

    Every value is a JS value ([JsValue.jsval]) and strict equality [!==]
    is [JsValue.js_same] (NaN is unequal to itself; objects compare by
    identity).  The JS runtime the library runs on is [Engine]: a program
    is a term of [Engine.prog], a continuation-passing syntax with one
    constructor per primitive the library uses (allocate a signal, read
    it, [_set] it, subscribe, unsubscribe, create an object identity,
    emit an observable event, [Date.now], timers, [localStorage],
    invoking an asynchronous function).  Subscriber callbacks are stored
    in the state as functions [jsval -> prog], so a closure that
    subscribes further closures, writes other signals or starts timers is
    modelled as it is written.  [Engine.exec] runs a program with fuel;
    [Engine.notify] is [notify] of [signal.ts] with the iteration
    semantics of a JS [Set] (entries added during the iteration are
    visited, deleted ones are skipped).  The library functions are
    definitions of the continuation monad [Engine.M] and read like the
    TypeScript (one definition per function, same names).

    Files, in dependency order:
    - [Prelude] (this file): the continuation monad and its notation in
      [resig_scope], the shared tactics and the [resig] hint database.
    - [JsValue]: JS values, [===] ([js_same]), [typeof], truthiness,
      [+] on numbers, object spread and property update.  A number is an
      integer count of units of [10^-6] ([num z] is [z]).
    - [Engine]: programs ([prog]), the store (cells, subscriber lists
      with stamps, counter, clock, timers, pending calls, storage,
      trace), the fuelled interpreter [exec] with [notify], the big-step
      relation [big] and the computations that return ([returns]); the
      event loop ([run_until], [advance]: timers fire in order of due
      time, then of creation, with Node's delay clamp [node_delay]) and
      scripts ([run_script]) that interleave program runs, the passage
      of time and the settlement of pending asynchronous calls.
    - [Json]: the JavaScript runtime functions the network cache calls,
      which are not code of the repository: [JSON.stringify]
      ([to_json], [print]), [JSON.parse] ([parse], [of_json]),
      [parseInt], [String].  The printer writes numbers in plain
      decimal (V8 switches to exponent notation from [1e21] on, far
      beyond what the cache stores) and strings of Latin-1 code units,
      so [\u] escapes above [00FF] do not arise.
    - [Signal] (Module [Signal]): [signal], [value], [notify],
      [subscribe], [_set], [map], [id], [compose], [pure] of
      [src/src/core/signal.ts], one definition per function.
    - [SignalGraph] (Module [SignalGraph]): clients that create signals,
      derive them with [map], subscribe callbacks and write roots, as a
      step relation [client_step]; the forest invariant [good].
    - [Effect] (Module [Effect]): [effect], [bind] (with its subscriber
      closure [bind_listener]), [chain], [pureEffect], [flatten],
      [apply], [sequence] of the effect module.
    - [StateAlg] (Modules [StateWrapper], [Machine], [Fsm], [Combine]):
      [state]/[get]/[put]/[modify]/[lens], [machine], [fsm] with guarded
      rows, [combine] of [src/unnamed/part_011]; the closure variables
      [currentState] are cells of the store.
    - [Time] (Module [Time]): [time], [delay], [timeout], [interval]
      (the closure variables [subscriberCount], [intervalId],
      [tickCount] are cells), [debounce], [throttle] of
      [src/src/algebras/time.ts].
    - [Fetch] (Module [Fetch]): [fetch], [executeFetch], [retry],
      [cache], [refetch], [get], [post], [withTimeout] of
      [src/src/algebras/fetch.ts]; a fetcher is an asynchronous function
      that leaves a pending call, settled later by a script step.
    - [Plugins] (Modules [Plugins], [Universal]): every plugin of
      [plugins/index.ts] and of the plugin part of
      [adapters/universal.ts] as a program [nat -> M nat], [compose] as
      a left fold, [when], [switchPlugin], the composite plugins.
    - [DemoSignal] (Module [Demo]): the demo copy of the library; its
      subscribers get no argument and its plugins throw ([OThrow]).
    - [SignalLib]: the interface [SignalLib] the hooks are written
      against (a [Class] of operations) and its laws [SignalLibLaws];
      the library of [src/src] ([core_lib]) and the demo copy
      ([demo_lib]) are instances and discharge the laws.
    - [Hooks] (Modules [Hooks], [Part008]): the React hooks over any
      [SignalLib]; a ref that only the render writes is threaded from
      render to render as an [option], a ref written by callbacks is a
      cell.
    - [MockReact] (Module [MockReact]): the hooks over the mock
      [React.useMemo] of [vue/hooks.ts].
    - [Vue] (Modules [VueRt], [VueHooks]): the part of Vue's reactivity
      the adapter calls ([ref], [watchEffect] with its job queue and
      cleanup, [computed], [onUnmounted]) and the Vue hooks.
    - [Adapters] (Modules [ReactRt], [Universal], [ReactAdapter]): a
      model of React's per-component hook list, [FrameworkAdapter] as a
      [Record] of operations, the [usePlugin*] hooks against it and
      [reactAdapter] with its wrappers.
    - [TimeTests] (Module [TimeTests]): the thirteen tests of the time
      layer ([src/unnamed/part_010]) as scripts with their assertions.
    - [CoreTests] (Modules [EffectSpec], [SignalSpec], [BasicSpec],
      [RepoTests]): the tests of [src/src/core/effect.spec.ts] and
      [src/src/basic.spec.ts] the same way.
    - [SvelteApp] (Modules [SvelteRt], [UPlugins], [SvelteHooks]): the
      Svelte 5 runes ([$state], [$derived], queued [$effect]) and the
      plugins and hooks of [examples/svelte-app/src/lib/universal-plugins.js].
    - [Solid] (Modules [SolidRt], [SolidHooks]): Solid's
      [createSignal], [createEffect] (synchronous reruns on the signals
      read), [createMemo], [onCleanup] with owners, and the Solid hooks
      of [src/unnamed/part_009].
    - [SvelteAdapter] (Module [SvelteAdapter]): [svelteAdapter] of
      [src/svelte/adapter.ts], a [FrameworkAdapter] whose [$effect]
      notes the [$state]s its first run reads, and its hooks.
    - [Qwik] (Modules [QwikRt], [QwikHooks]): [useSignal], [useTask$]
      and [useVisibleTask$] on the frame scheduler of [Vue], and the
      hooks of [src/qwik/hooks.ts].
    - [Excel] (Modules [JsNum], [JsExpr], [Grid]): the spreadsheet demo
      [ExcelGridDemo.tsx]: JavaScript numbers on the integers up to
      2^53 with [-0], infinities and NaN, the evaluator [Function]
      applies to arithmetic text (lexer and recursive-descent parser with
      fuel), the formulas, the statistics and the handlers as a step
      function [Grid.step] on the component's state.
    - [Demos] (Modules [MachineDemo], [EffectReplacement], [PluginDemo],
      [EffectMonadDemo]): the state machine demo ([part_004]), the
      [useEffect] replacement demo, the plugin demo ([part_005]) and the
      effect monad demo, each render or handler a program of the engine
      over the hooks of [Hooks], or a step function.
    - [Regex] (Modules [Regex], [RegexFacts]): the regular expressions
      the demos test, their language [in_re], a matcher by Brzozowski
      derivatives proved to decide it, and the e-mail pattern of the
      validators.
    - [ReactDemos] (Modules [FetchDemoApp], [BasicDemo], [EffectDemo],
      [AdvancedDemo]): the React components of [FetchDemo.tsx] and
      [EffectDemo.tsx] as renders over the hooks, with their handlers.
    - [QwikDemo] (Modules [QwikDemo], [QwikDemoFacts],
      [QwikDemoScenarios]): the Qwik example of [src/unnamed/part_008]
      (lines 185-411) over the hooks of [Qwik].
    - [AsyncDemo] (Module [AsyncDemo]): [AsyncSignalDemo.tsx], a render
      over the async hooks of [Hooks] with its fetchers and handlers.
    - [DevTool] (Modules [DevToolApi], [DevTool], [ComputedDemo]): the
      module state of [SignalDevTool.tsx] (registry, event log and the
      timers its API functions set), the component as a step function,
      and [ComputedSignalDemo].
    - [Showcase] (Modules [ShowcasePlugins], [VueExample]): the plugin
      showcase of [src/unnamed/part_003], whose load throws, and its Vue
      example over the hooks of [Vue].
    - [SvelteDemo] (Module [UniversalDemo]): the Svelte component of
      lines 747-1198 of [universal-plugins.js] over [SvelteApp]'s hooks:
      its script as [setup], its handlers and its status texts.

    ** What the theorems show

    - [Engine.exec_big_iff]: the interpreter and the big-step relation
      agree; [exec] is deterministic and monotone in fuel, so any run
      proved with [big] is a run of [exec] with some fuel.
    - [Signal]: [_set] is silent on a value [===] to the current one and
      otherwise stores it and calls every subscriber in insertion order
      ([set_same_noop], [set_changed]); NaN re-notifies
      ([set_NaN_renotifies]); [map] allocates, seeds and subscribes as
      written ([map_run]); unsubscribe undoes subscribe.
    - [SignalGraph]: in every state a client can reach, every derived
      signal equals [f] of its source ([map_coherent_reachable]); writing
      a root terminates and restores this ([set_root_terminates]); hence
      [map(compose(g, f))] agrees with [map(f).map(g)] at every instant,
      not only at creation ([functor_composition]).
    - [Effect]: the three monad laws hold at creation; right identity
      keeps holding after writes to the source; left identity fails at
      later instants, because [bind] never subscribes to the first
      inner effect; for any [n] changes of the source, [n] inner
      effects keep a live subscription to the result and a write to
      any of them overwrites it ([bind_inner_subscriptions_accumulate],
      by induction on the changes with the invariant [bound_inv]);
      [sequence] collects the
      current values and is a snapshot; [apply] ignores later writes to
      its argument.
    - [Json]: the runtime facts the cache round trip uses:
      [parse (print j) = Some j] for every JSON value
      ([json_roundtrip]); [JSON.parse] builds a value whose JSON is the
      text's when its objects have distinct keys ([of_json_to_json]);
      [parseInt] reads back [String(n)] ([parse_int_pretty]).
    - [StateAlg]: [put] then [get] sees the new state; [modify]
      composes; [machine.send] is [_set] of the reducer output; [fsm]
      finds the first matching row whose guard holds, [send] is a no-op
      when there is none and notifies (even on a self-loop) when there
      is one, and [can] agrees with [send].
    - [Time]: debounce keeps a single pending timer holding the latest
      value; throttle is a gate on the clock; interval keeps its
      reference count and runs its timer exactly while it has
      subscribers.  Scenarios on the event loop show where the code
      departs from its contract: [timeout] is not terminal, string
      intervals never notify, [interval.map] never starts the timer, a
      double unsubscribe stops the timer early, [delay] reorders.
    - [Fetch]: [fetch] starts in [{loading: true}], calls the fetcher
      once and turns its completion into [{data, loading: false}];
      scenarios show the retry call count (five calls for [retry(2)],
      not three), the network call on a cache hit, the stale overwrite
      without a generation guard, HTTP errors of [get] and the double
      call of [refetch]; what the listener of [cache] writes to
      [localStorage] for a settled state is served by a later [cache]
      within its [ttl] ([cache_roundtrip]); the backoff delay of
      [retry] leaves Node's
      32-bit timer range from the 22nd doubling on
      ([backoff_delay_clamped]).
    - [Plugins]: a rejected value passes [filterPlugin]; the
      state-machine plugin folds the reducer
      over the actions; a persisted plugin is frozen; scenarios for the
      async, fetch, cache and validation plugins.
    - [Hooks]: over any library satisfying [SignalLibLaws], [useSignal]
      refines [useState]: every sequence of renders and setter calls
      renders the values [useState] would ([useSignal_refines_useState]);
      the validated setter on both branches; scenarios: a stale answer
      passes the abort guard of [useAsyncSignal], [refetch] of
      [useFetch] is never shown, the demo [retry] writes [undefined],
      [usePersistentSignal] round-trips through [localStorage].
    - [MockReact]: the mock hooks keep no state between renders.
    - [Vue]: the debounced hook follows only the first value, the async
      computed hook calls its function again after each answer,
      [refetch] of [useFetch]
      is overwritten by the first call's answer.
    - [Adapters]: the React [useSignal] of the universal adapter loses
      its state at every render, plugins behind [toSignal] never see a
      change, [createEffect] starts a timer per render.
    - [CoreTests]: the 47 unit tests of the repository (effect, signal,
      basic and time layer), evaluated on their fixed inputs, pass on
      the model ([repository_tests_pass]), although [effect.spec.ts]
      cannot be run as the repository configures it.
    - [SvelteApp]: [historyPlugin] keeps at most [maxHistory] entries;
      the throttle never throttles, the batch never settles, two hooks
      throw on the undefined [compose].
    - [Solid], [SvelteAdapter], [Qwik]: scenarios of each adapter's
      hooks: the debounced hooks of Solid and of the universal hooks over
      Svelte follow the first write only, Qwik's follow the last; Solid's
      [refetch] survives disposal; Svelte's [toSignal] setter throws a
      [TypeError]; Qwik's persistent signal overwrites the stored value
      and its [useMachine] loses a [send] before the component is
      visible.
    - [Excel]: every event keeps the grid 20 x 10 and the selection in
      it ([step_preserves_bounds], [reachable_bounds]); every event but
      the sample fill keeps the formula bar in step with the selected
      cell ([step_preserves_bar]); [parseCellRef] inverts the grid's
      labels ([parseCellRef_label]); the [fx] mark is hidden on the
      whole row and column of the selected cell ([fx_mark_selected]);
      a formula cell counts as [0] in
      the formulas that read it ([formula_cell_reads_zero]), so the
      demo's sum of sums shows 0; [A-B] with a negative [B] is an
      error.
    - [Demos]: the machine demo's reducer implements its transition
      table and a button is disabled exactly when its action is ignored;
      the chained effects handler of the effect monad demo never
      returns ([chained_effects_diverge], by well-founded induction on
      the fuel: each step writes a longer string into the effect it is
      subscribed to); the [useEffect] replacement stacks an interval per
      render; the plugin demo restarts its debounce at every render.
    - [Regex]: the matcher decides the language ([matches_correct]) and
      the e-mail pattern accepts exactly the texts [a@b.c] with three
      non-empty parts free of white space and [@] ([email_re_spec]).
    - [ReactDemos]: the e-mail input of [AdvancedDemo] cannot be filled
      by typing ([email_typing_stays_empty]); [FetchDemo] keeps asking
      for the first user after another is picked.
    - [QwikDemo]: the Qwik counter shows the net count of its clicks
      with its double and parity ([counter_shows_clicks]); its machine's
      reducer is the React demo's ([qwik_reducer_agrees]); typing an
      address key by key validates it a frame later.
    - [AsyncDemo]: the user id the component says it loads at mount is
      never loaded, and once loaded by hand the page shows it while
      keeping another user's posts.
    - [DevTool]: the API runs its deferred work in call order and counts
      accesses ([access_counts]); the tool never lists more than 50
      events ([shown_events_bounded]); "Clear" is not shown until the
      next render; the computed demo's parity is right for negative
      results.
    - [Showcase]: the showcase module throws when loaded; the Vue
      example counts and runs its machine, while its debounced search
      keeps the first text.
    - [SvelteDemo]: the setter of the Svelte [useSignal] bypasses the
      debounce plugin, the suggestion machine never leaves [success],
      and [resetDemo] removes a key the persist plugin never writes.

    ** Fuel

    Notification can recurse without bound in JS (a subscriber that
    writes its own source with a fresh value each time overflows the
    stack), so [Engine.exec] takes fuel and returns [None] when it runs
    out.  Termination theorems are stated as existence of a run of the
    big-step relation, which [exec_big_iff] turns into enough fuel.  The
    concrete programs run with fuel [100] ([Engine.run_prog]); each
    needs fewer than [40] steps, and [Engine.runs] checks by evaluation
    that the run finished.  Scripts run with fuel [200]
    ([Engine.script_result]): each program a script step runs (a client
    program, a timer callback, a settled continuation) gets at most
    [200] steps and each [Wait] fires at most [200] timers;
    [Engine.script_result_ok] turns an evaluated script into a run, and
    every scenario is checked to finish, so the bound is never what
    ends a run.  [Json.parse]
    takes fuel [2 * length + 2], enough for any printed text
    ([jsize_le_print]).

    ** Not modelled

    JS exceptions beyond an uncaught one ending the task
    ([Engine.throw_error], the [TypeError]s of the demo plugins): the
    library throws none on the modelled paths except the [HTTP] error of
    [get] and [post], which is a rejected call here, and [flatten]
    applied to a non-effect value, outside its TypeScript type, would
    throw and is read as effect [0].  [svelte/adapter.js] does not
    parse (import declarations inside function bodies).  The demo
    applications [App.tsx] (a layout of the components modelled) and
    [part_006] are not modelled, nor is
    [TimeSignalDemo] (it imports [use] from a module that is not in the
    repository), nor the JSX of any component: the models stop at the
    handlers and the hook calls.
    Vue's effects are not stopped at unmount.  IEEE rounding of
    numbers (numbers are multiples of [10^-6], enough for the tick
    nudge of [interval]), garbage collection, the [this] binding of
    [chain] (every call site calls it as a method of the effect), and
    [window.fetch] and [Response.json] beyond their results (opaque
    asynchronous functions).

    ** Simplifications of the definitions

    - [js_same] compares identity and contents; the two agree on every
      value the engine builds, since each allocation draws a fresh
      identity and the modelled code never mutates an object in place.
    - [Engine.node_delay] is Node's clamp of [setTimeout] delays
      (outside [1 .. 2^31 - 1] the delay is 1 ms); browsers also run an
      overflowing delay at once, with 0 ms.
    - [Fetch.backoff_delay] is exact integer arithmetic; the doubles of
      [Math.pow(2, k) * 1000] are exact while finite ([k <= 1013]).
    - [Fetch.executeFetch]: the fetcher's rejection is caught; an
      exception thrown by a subscriber of [_set] inside the [try] is not
      modelled (the engine has no exceptions a closure can catch).
    - [Hooks]: [useSyncExternalStore] is modelled by its [getSnapshot]
      read at render; the re-render its subscription requests is the
      next render of a scenario.
    - [JsValue.spread] of a signal object gives no field, where
      JavaScript copies its four methods [value], [map], [subscribe]
      and [_set]; the only caller that could meet a signal is
      [Time.nudge], for an interval over a signal-valued source, which
      no code of the repository builds.
    - [DevTool.render] keeps the registry entries as the render read
      them: the component shares the entry objects that
      [accessSignal] later updates in place, but the page shows only
      what a render read, and the next render reads them again.
    - [Grid.handleCellClick] returns [None] outside the grid, which no
      click of the rendered table reaches.
    - [Regex.is_space] is [\s] on Latin-1: space, the five controls
      [\t \n \v \f \r] and U+00A0.
*)

From stdpp Require Import base list.

(** ** The continuation monad

    Library functions return a value to a continuation: [cont R A] is a
    computation producing an [A] inside a program of type [R]. *)

Definition cont (R A : Type) : Type := (A -> R) -> R.

Definition cret {R A : Type} (a : A) : cont R A := fun k => k a.

Definition cbind {R A B : Type} (m : cont R A) (f : A -> cont R B) : cont R B :=
  fun k => m (fun a => f a k).

Declare Scope resig_scope.
Delimit Scope resig_scope with resig.

Notation "x <- m ;; f" := (cbind m (fun x => f))
  (at level 100, m at next level, right associativity) : resig_scope.
Notation "m ;;; f" := (cbind m (fun _ => f))
  (at level 100, right associativity) : resig_scope.

Open Scope resig_scope.

(** The monad laws of [cont] hold definitionally. *)
Lemma cbind_cret_l {R A B} (a : A) (f : A -> cont R B) : cbind (cret a) f = f a.
Proof. reflexivity. Qed.

Lemma cbind_cret_r {R A} (m : cont R A) : cbind m cret = m.
Proof. reflexivity. Qed.

Lemma cbind_assoc {R A B C} (m : cont R A) (f : A -> cont R B) (g : B -> cont R C) :
  cbind (cbind m f) g = cbind m (fun a => cbind (f a) g).
Proof. reflexivity. Qed.

(** ** Shared automation *)

Create HintDb resig discriminated.

Ltac invc H := inversion H; subst; clear H.

(** Destruct the scrutinee of the first [match] in the goal, keeping the
    equation. *)
Ltac case_goal :=
  match goal with
  | |- context [match ?x with _ => _ end] =>
      let E := fresh "E" in destruct x eqn:E
  end.

(** ** Generic lemmas on options and lists *)

Lemma option_bind_Some {A B} (o : option A) (f : A -> option B) (b : B) :
  (o ≫= f) = Some b <-> exists a, o = Some a /\ f a = Some b.
Proof. destruct o; simpl; naive_solver. Qed.


Lemma filter_Forall_id {A} (P : A -> Prop) `{!forall x, Decision (P x)} (l : list A) :
  Forall P l -> filter P l = l.
Proof.
  induction 1 as [|x l Hx _ IH]; [done|].
  rewrite filter_cons_True by done. by rewrite IH.
Qed.

(** The last element of a non-empty list does not depend on the
    default. *)
Lemma last_cons_indep {A} (x : A) (l : list A) (d1 d2 : A) :
  List.last (x :: l) d1 = List.last (x :: l) d2.
Proof. revert x. induction l as [|y l IH]; intros x; [done|]. apply IH. Qed.
