(* ===== verification/JsValue.v ===== *)
(** * JS values and strict equality

    The library is dynamically typed: a signal holds any JS value, and
    [_set] decides whether to notify with [value !== current].  This file
    gives the values the modelled code handles, [===] ([js_same]),
    [typeof] (used by [interval]) and truthiness (used by [fetch]'s cache
    and the plugins).

    Numbers are finite numbers in units of 10^-6, enough for every
    number the library computes (the [interval] nudge adds
    [tickCount * 0.000001]); [JNaN] is NaN.  Rounding of IEEE doubles is
    not modelled.  Objects, arrays and errors carry the identity they got
    at allocation and their contents; [===] on them compares identity
    (and contents, which agree for values the engine allocates, since
    every allocation draws a fresh identity and the library never
    mutates an object in place). *)

From Stdlib Require Import ZArith String.
From stdpp Require Import base list strings pretty.
From S2P Require Import Prelude.

Inductive jsval : Type :=
| JUndef
| JNull
| JBool (b : bool)
| JNum (m : Z)
| JNaN
| JStr (s : string)
| JObj (id : nat) (fields : list (string * jsval))
| JArr (id : nat) (elems : list jsval)
| JSig (c : nat)
| JFun (id : nat)
| JErr (id : nat) (msg : string).

(** The number [z] (an integer), in the unit of [JNum]. *)
Definition num (z : Z) : jsval := JNum (z * 1000000).

(** ** Induction through the nested lists of objects and arrays *)

Section jsval_ind_nested.
Variable P : jsval -> Prop.
Hypothesis HUndef : P JUndef.
Hypothesis HNull : P JNull.
Hypothesis HBool : forall b, P (JBool b).
Hypothesis HNum : forall m, P (JNum m).
Hypothesis HNaN : P JNaN.
Hypothesis HStr : forall s, P (JStr s).
Hypothesis HObj : forall i fs, Forall (fun kv => P kv.2) fs -> P (JObj i fs).
Hypothesis HArr : forall i xs, Forall P xs -> P (JArr i xs).
Hypothesis HSig : forall c, P (JSig c).
Hypothesis HFun : forall i, P (JFun i).
Hypothesis HErr : forall i m, P (JErr i m).

Fixpoint jsval_ind_nested (v : jsval) : P v :=
  match v with
  | JUndef => HUndef
  | JNull => HNull
  | JBool b => HBool b
  | JNum m => HNum m
  | JNaN => HNaN
  | JStr s => HStr s
  | JObj i fs =>
      HObj i fs ((fix go (l : list (string * jsval)) : Forall (fun kv => P kv.2) l :=
                    match l with
                    | [] => Forall_nil_2 _
                    | kv :: l' => Forall_cons_2 _ kv l' (jsval_ind_nested kv.2) (go l')
                    end) fs)
  | JArr i xs =>
      HArr i xs ((fix go (l : list jsval) : Forall P l :=
                    match l with
                    | [] => Forall_nil_2 _
                    | x :: l' => Forall_cons_2 _ x l' (jsval_ind_nested x) (go l')
                    end) xs)
  | JSig c => HSig c
  | JFun i => HFun i
  | JErr i m => HErr i m
  end.
End jsval_ind_nested.

(** ** Structural equality *)

Fixpoint jsval_beq (a b : jsval) {struct a} : bool :=
  match a, b with
  | JUndef, JUndef | JNull, JNull | JNaN, JNaN => true
  | JBool x, JBool y => Bool.eqb x y
  | JNum x, JNum y => Z.eqb x y
  | JStr x, JStr y => String.eqb x y
  | JObj i fs, JObj j gs =>
      Nat.eqb i j &&
      (fix go (l1 l2 : list (string * jsval)) : bool :=
         match l1, l2 with
         | [], [] => true
         | (k1, x) :: l1', (k2, y) :: l2' => String.eqb k1 k2 && jsval_beq x y && go l1' l2'
         | _, _ => false
         end) fs gs
  | JArr i xs, JArr j ys =>
      Nat.eqb i j &&
      (fix go (l1 l2 : list jsval) : bool :=
         match l1, l2 with
         | [], [] => true
         | x :: l1', y :: l2' => jsval_beq x y && go l1' l2'
         | _, _ => false
         end) xs ys
  | JSig c, JSig d => Nat.eqb c d
  | JFun i, JFun j => Nat.eqb i j
  | JErr i m, JErr j n => Nat.eqb i j && String.eqb m n
  | _, _ => false
  end.

Lemma jsval_beq_spec (a b : jsval) : jsval_beq a b = true <-> a = b.
Proof.
  revert b.
  induction a as [| | x | x | | x | i fs IH | i xs IH | c | i | i m]
    using jsval_ind_nested; intros []; simpl;
    rewrite ?andb_true_iff, ?Nat.eqb_eq, ?Z.eqb_eq, ?String.eqb_eq;
    try (split; congruence).
  - destruct x, b; simpl; split; congruence.
  - match goal with |- _ /\ ?g = true <-> _ => rename fields into gs end.
    assert (Hfs : forall gs, (fix go (l1 l2 : list (string * jsval)) : bool :=
         match l1, l2 with
         | [], [] => true
         | (k1, x) :: l1', (k2, y) :: l2' => String.eqb k1 k2 && jsval_beq x y && go l1' l2'
         | _, _ => false
         end) fs gs = true <-> fs = gs).
    { induction IH as [| [k x] fs Hx _ IHfs]; intros [| [k' y] gs']; simpl;
        try (split; congruence).
      rewrite !andb_true_iff, String.eqb_eq, Hx, IHfs. naive_solver. }
    rewrite Hfs. naive_solver.
  - match goal with |- _ /\ ?g = true <-> _ => rename elems into ys end.
    assert (Hxs : forall ys, (fix go (l1 l2 : list jsval) : bool :=
         match l1, l2 with
         | [], [] => true
         | x :: l1', y :: l2' => jsval_beq x y && go l1' l2'
         | _, _ => false
         end) xs ys = true <-> xs = ys).
    { induction IH as [| x xs Hx _ IHxs]; intros [| y ys']; simpl;
        try (split; congruence).
      rewrite !andb_true_iff, Hx, IHxs. naive_solver. }
    rewrite Hxs. naive_solver.
  - naive_solver.
Qed.

#[export] Instance jsval_eq_dec : EqDecision jsval.
Proof.
  intros a b. destruct (jsval_beq a b) eqn:E.
  - left. by apply jsval_beq_spec.
  - right. intros ->. assert (jsval_beq b b = true) by by apply jsval_beq_spec.
    congruence.
Defined.

(** ** Strict equality [===]

    [js_same a b] is [a === b]: NaN is not equal to anything, itself
    included; every other value is equal exactly to itself. *)
Definition js_same (a b : jsval) : bool :=
  match a with
  | JNaN => false
  | _ => jsval_beq a b
  end.

Lemma js_same_eq a b : js_same a b = true -> a = b.
Proof. intros H. destruct a; try discriminate; apply jsval_beq_spec; exact H. Qed.

Lemma js_same_refl a : a <> JNaN -> js_same a a = true.
Proof. intros H. destruct a; try congruence; by apply jsval_beq_spec. Qed.

Lemma js_same_NaN v : js_same JNaN v = false.
Proof. reflexivity. Qed.

Lemma js_same_false_ne a b : a <> JNaN -> js_same a b = false -> a <> b.
Proof. intros Ha Hs ->. by rewrite js_same_refl in Hs. Qed.

#[export] Hint Resolve js_same_eq js_same_refl : resig.

(** ** [typeof] and truthiness *)

Definition typeof (v : jsval) : string :=
  match v with
  | JUndef => "undefined"
  | JBool _ => "boolean"
  | JNum _ | JNaN => "number"
  | JStr _ => "string"
  | JFun _ => "function"
  | JNull | JObj _ _ | JArr _ _ | JSig _ | JErr _ _ => "object"
  end.

(** [if (v)]: [undefined], [null], [false], [0], [NaN] and [""] are
    falsy; everything else is truthy. *)
Definition truthy (v : jsval) : bool :=
  match v with
  | JUndef | JNull | JNaN => false
  | JBool b => b
  | JNum m => negb (Z.eqb m 0)
  | JStr s => negb (String.eqb s "")
  | _ => true
  end.

(** [v.k] on an object, [undefined] when the field is missing; the
    [message] of an error; [undefined] on other values. *)
Definition get_field (v : jsval) (k : string) : jsval :=
  match v with
  | JObj _ fs => default JUndef (snd <$> List.find (fun kv => String.eqb kv.1 k) fs)
  | JErr _ msg => if String.eqb k "message" then JStr msg else JUndef
  | _ => JUndef
  end.

(** [x * k] for an integer literal [k]: a number is scaled and NaN stays
    NaN.  ToNumber of other values is not needed: the examples only
    multiply numbers. *)
Definition js_scale (k : Z) (v : jsval) : jsval :=
  match v with
  | JNum m => JNum (k * m)
  | _ => JNaN
  end.

(** [x + y] on two numbers. *)
Definition js_add (a b : jsval) : jsval :=
  match a, b with
  | JNum x, JNum y => JNum (x + y)
  | _, _ => JNaN
  end.

(** The integer a number holds, for counters kept as JS numbers. *)
Definition int_of (v : jsval) : Z :=
  match v with
  | JNum m => Z.quot m 1000000
  | _ => 0
  end.

(** [{ ...v }]: the own enumerable fields of [v].  Primitives, functions
    and errors (whose [message] is not enumerable) spread to nothing;
    an array spreads to its indices. *)
Definition spread (v : jsval) : list (string * jsval) :=
  match v with
  | JObj _ fs => fs
  | JArr _ xs => imap (fun i x => (pretty (N.of_nat i), x)) xs
  | _ => []
  end.

(** [{ ...fields, k: x }]: an existing key keeps its place. *)
Definition set_field (fs : list (string * jsval)) (k : string) (x : jsval) : list (string * jsval) :=
  if existsb (fun kv => String.eqb kv.1 k) fs
  then List.map (fun kv => if String.eqb kv.1 k then (k, x) else kv) fs
  else fs ++ [(k, x)].

Lemma js_add_num a b : js_add (num a) (num b) = num (a + b).
Proof. unfold num. simpl. f_equal. lia. Qed.

Lemma js_same_num a b : js_same (num a) (num b) = (a =? b)%Z.
Proof.
  unfold num. simpl. destruct (Z.eqb_spec (a * 1000000) (b * 1000000)), (Z.eqb_spec a b);
    try reflexivity; lia.
Qed.

Lemma int_of_num z : int_of (num z) = z.
Proof. unfold int_of, num. by rewrite Z.quot_mul by lia. Qed.

(** [n % 2 === 0] on a number of the model is [Z.even n]. *)
Lemma rem_scaled n : (Z.rem (n * 1000000) 2000000 =? 0)%Z = Z.even n.
Proof.
  change 2000000%Z with (2 * 1000000)%Z. rewrite Z.mul_rem_distr_r by lia.
  apply Bool.eq_true_iff_eq. rewrite Z.eqb_eq, Z.even_spec.
  assert (H : (Z.rem n 2 * 1000000 = 0)%Z <-> Z.rem n 2 = 0%Z) by lia. rewrite H, Z.rem_divide by lia.
  split; [intros [z ->]; exists z; lia | intros [z ->]; exists z; lia].
Qed.

Create Rewrite HintDb js_simpl.
#[export] Hint Rewrite js_add_num js_same_num int_of_num : js_simpl.
