(* ===== verification/Engine.v ===== *)
(** * The JS runtime under the library

    The library is written against a handful of runtime primitives:
    objects with a mutable [current] and a JS [Set] of subscriber
    callbacks ([signal], [machine], [fsm], [combine] each allocate one),
    fresh object identities, [console], [Date.now], [setTimeout] /
    [setInterval], [localStorage] and calls to asynchronous functions.
    [prog] has one constructor per primitive, in continuation-passing
    style, and [exec] runs a program against a [store].

    [Notify c arg] is the [notify] closure of [signal.ts] (and of
    [machine], [fsm] and [combine]):
    [subscribers.forEach(fn => fn(<arg>))].  It walks the subscriber set
    of [c] with the semantics of [Set.prototype.forEach]: entries are
    visited in insertion order, an entry deleted before it is reached is
    skipped and an entry added during the walk is visited.  Every
    subscription draws a fresh stamp from the global counter, so "the
    next live entry whose stamp is at least [from]" is exactly the next
    entry [forEach] visits.  The argument passed to each subscriber is
    computed when that subscriber is called (the source reads [current]
    inside the arrow function), from the values of all cells and a fresh
    object identity (which [combine] uses for the object it builds).

    Every subscribe call site of the library passes a freshly created
    closure, so [Set.add] never meets a function already present; each
    subscription is a new entry.

    Timers and pending asynchronous calls are recorded in the store (the
    primitives the time and network layers need).  The event loop
    ([run_until], [advance]) fires due timers in Node's order (due time,
    then creation) and moves the clock; a script ([run_script])
    interleaves client programs, waits and the settlement of pending
    calls, which is how the environment answers [fetcher()]. *)

From Stdlib Require Import ZArith String.
From stdpp Require Import base list gmap strings.
From S2P Require Import Prelude JsValue.

(** ** Observable events *)
Inductive obs : Type :=
| OCall (fn : nat) (v : jsval)      (** the client callback [fn] ran with [v] *)
| OLog (tag : string) (v : jsval)   (** [console.log(tag, v)] / [console.warn] *)
| OInvoke (fn : nat) (arg : jsval)  (** the asynchronous function [fn] was called with [arg] *)
| OThrow (msg : string).            (** an exception [msg] nothing catches ended the task *)

(** ** Programs *)
Inductive prog : Type :=
| Done
| Alloc (v : jsval) (k : nat -> prog)
| Read (c : nat) (k : jsval -> prog)
| Assign (c : nat) (v : jsval) (k : prog)
| Notify (c : nat) (arg : gmap nat jsval -> nat -> jsval) (k : prog)
| Subscribe (c : nat) (l : jsval -> prog) (k : nat -> prog)
| Unsubscribe (c : nat) (h : nat) (k : prog)
| NewId (k : nat -> prog)
| Emit (o : obs) (k : prog)
| Now (k : Z -> prog)
| SetTimer (ms : Z) (every : bool) (cb : prog) (k : nat -> prog)
| ClearTimer (t : nat) (k : prog)
| StorageGet (key : string) (k : option string -> prog)
| StorageSet (key val : string) (k : prog)
| StorageDel (key : string) (k : prog)
| Invoke (fn : nat) (arg : jsval) (ok err : jsval -> prog) (k : prog).

(** ** The store *)

Record timer : Type := mk_timer {
  tm_id : nat;
  tm_due : Z;
  tm_every : option Z;
  tm_cb : prog
}.

Record pending : Type := mk_pending {
  pd_id : nat;
  pd_fn : nat;
  pd_ok : jsval -> prog;
  pd_err : jsval -> prog
}.

Definition entry : Type := (nat * (jsval -> prog))%type.

Record store : Type := mk_store {
  vals : gmap nat jsval;
  subs : gmap nat (list entry);
  next : nat;
  clock : Z;
  timers : list timer;
  pendings : list pending;
  storage : gmap string string;
  trace : list obs
}.

Definition init_store (now : Z) : store :=
  mk_store ∅ ∅ 0 now [] [] ∅ [].

Definition cur (s : store) (c : nat) : jsval := default JUndef (vals s !! c).
Definition subs_of (s : store) (c : nat) : list entry := default [] (subs s !! c).

Definition with_vals (s : store) (vs : gmap nat jsval) : store :=
  mk_store vs (subs s) (next s) (clock s) (timers s) (pendings s) (storage s) (trace s).
Definition with_subs (s : store) (ss : gmap nat (list entry)) : store :=
  mk_store (vals s) ss (next s) (clock s) (timers s) (pendings s) (storage s) (trace s).
Definition bump (s : store) : store :=
  mk_store (vals s) (subs s) (S (next s)) (clock s) (timers s) (pendings s) (storage s) (trace s).
Definition emit_obs (o : obs) (s : store) : store :=
  mk_store (vals s) (subs s) (next s) (clock s) (timers s) (pendings s) (storage s) (trace s ++ [o]).

(** [signal(v)]: a new object with [current = v] and an empty set. *)
Definition alloc_cell (v : jsval) (s : store) : store :=
  bump (with_subs (with_vals s (<[next s := v]> (vals s))) (<[next s := []]> (subs s))).

Definition assign_cell (c : nat) (v : jsval) (s : store) : store :=
  with_vals s (<[c := v]> (vals s)).

(** [subscribers.add(fn)]: append a new entry stamped [next s]. *)
Definition add_entry (c : nat) (l : jsval -> prog) (s : store) : store :=
  bump (with_subs s (<[c := subs_of s c ++ [(next s, l)]]> (subs s))).

(** [subscribers.delete(fn)]. *)
Definition del_entry (c : nat) (h : nat) (s : store) : store :=
  with_subs s (<[c := filter (fun e => e.1 <> h) (subs_of s c)]> (subs s)).

(** The entry [forEach] visits next: the first one stamped [from] or later. *)
Definition next_entry (from : nat) (l : list entry) : option entry :=
  List.find (fun e => Nat.leb from e.1) l.

Arguments next_entry : simpl never.

Lemma next_entry_nil from : next_entry from [] = None.
Proof. reflexivity. Qed.

Lemma next_entry_cons_ge from h l rest :
  from <= h -> next_entry from ((h, l) :: rest) = Some (h, l).
Proof. intros H. unfold next_entry. simpl. by rewrite (proj2 (Nat.leb_le _ _) H). Qed.

Lemma next_entry_cons_lt from h l rest :
  h < from -> next_entry from ((h, l) :: rest) = next_entry from rest.
Proof. intros H. unfold next_entry. simpl. by rewrite (proj2 (Nat.leb_gt _ _) H). Qed.

(** The delay Node uses for [setTimeout(cb, ms)] and [setInterval]:
    a delay below 1 or above [TIMEOUT_MAX = 2^31 - 1] becomes 1. *)
Definition node_delay (ms : Z) : Z :=
  if (1 <=? ms)%Z && (ms <=? 2147483647)%Z then ms else 1%Z.

Definition add_timer (ms : Z) (every : bool) (cb : prog) (s : store) : store :=
  mk_store (vals s) (subs s) (S (next s)) (clock s)
    (timers s ++ [mk_timer (next s) (clock s + node_delay ms)
                           (if every then Some (node_delay ms) else None) cb])
    (pendings s) (storage s) (trace s).

Definition clear_timer (t : nat) (s : store) : store :=
  mk_store (vals s) (subs s) (next s) (clock s)
    (filter (fun tm => tm_id tm <> t) (timers s)) (pendings s) (storage s) (trace s).

Definition storage_set (key val : string) (s : store) : store :=
  mk_store (vals s) (subs s) (next s) (clock s) (timers s) (pendings s)
    (<[key := val]> (storage s)) (trace s).

Definition storage_del (key : string) (s : store) : store :=
  mk_store (vals s) (subs s) (next s) (clock s) (timers s) (pendings s)
    (delete key (storage s)) (trace s).

(** Calling an asynchronous function: the call is observable, and its
    settlement is left to the environment. *)
Definition add_pending (fn : nat) (arg : jsval) (ok err : jsval -> prog) (s : store) : store :=
  mk_store (vals s) (subs s) (S (next s)) (clock s) (timers s)
    (pendings s ++ [mk_pending (next s) fn ok err]) (storage s) (trace s ++ [OInvoke fn arg]).

(** ** The interpreter *)

Fixpoint exec (n : nat) (p : prog) (s : store) {struct n} : option store :=
  match n with
  | O => None
  | S n =>
    match p with
    | Done => Some s
    | Alloc v k => exec n (k (next s)) (alloc_cell v s)
    | Read c k => exec n (k (cur s c)) s
    | Assign c v k => exec n k (assign_cell c v s)
    | Notify c arg k => notify n c arg 0 s ≫= exec n k
    | Subscribe c l k => exec n (k (next s)) (add_entry c l s)
    | Unsubscribe c h k => exec n k (del_entry c h s)
    | NewId k => exec n (k (next s)) (bump s)
    | Emit o k => exec n k (emit_obs o s)
    | Now k => exec n (k (clock s)) s
    | SetTimer ms every cb k => exec n (k (next s)) (add_timer ms every cb s)
    | ClearTimer t k => exec n k (clear_timer t s)
    | StorageGet key k => exec n (k (storage s !! key)) s
    | StorageSet key v k => exec n k (storage_set key v s)
    | StorageDel key k => exec n k (storage_del key s)
    | Invoke fn arg ok err k => exec n k (add_pending fn arg ok err s)
    end
  end
with notify (n : nat) (c : nat) (arg : gmap nat jsval -> nat -> jsval) (from : nat)
    (s : store) {struct n} : option store :=
  match n with
  | O => None
  | S n =>
    match next_entry from (subs_of s c) with
    | None => Some s
    | Some (h, l) => exec n (l (arg (vals s) (next s))) (bump s) ≫= notify n c arg (S h)
    end
  end.

(** ** The library's monad: computations inside a program *)

Abbreviation M := (cont prog).

Definition alloc (v : jsval) : M nat := fun k => Alloc v k.
Definition read (c : nat) : M jsval := fun k => Read c k.
Definition assign (c : nat) (v : jsval) : M unit := fun k => Assign c v (k tt).
Definition notify_with (c : nat) (arg : gmap nat jsval -> nat -> jsval) : M unit :=
  fun k => Notify c arg (k tt).
Definition subscribe_raw (c : nat) (l : jsval -> prog) : M nat := fun k => Subscribe c l k.
Definition unsubscribe_raw (c : nat) (h : nat) : M unit := fun k => Unsubscribe c h (k tt).
Definition new_id : M nat := fun k => NewId k.
Definition emit (o : obs) : M unit := fun k => Emit o (k tt).
(** [throw new TypeError(msg)] where nothing catches it: the rest of the
    task (the continuation) is dropped. *)
Definition throw_error {A : Type} (msg : string) : M A := fun _ => Emit (OThrow msg) Done.
Definition now : M Z := fun k => Now k.
Definition set_timer (ms : Z) (every : bool) (cb : prog) : M nat := fun k => SetTimer ms every cb k.
Definition clear_timer_m (t : nat) : M unit := fun k => ClearTimer t (k tt).
Definition storage_get (key : string) : M (option string) := fun k => StorageGet key k.
Definition storage_set_m (key val : string) : M unit := fun k => StorageSet key val (k tt).
Definition storage_del_m (key : string) : M unit := fun k => StorageDel key (k tt).

(** Calling an asynchronous function [fn] with [arg]: [ok] or [err] runs
    when the environment settles the call. *)
Definition invoke (fn : nat) (arg : jsval) (ok err : jsval -> M unit) : M unit :=
  fun k => Invoke fn arg (fun v => ok v (fun _ => Done)) (fun e => err e (fun _ => Done)) (k tt).

(** The body of a callback: a computation run to its end. *)
Definition body (m : M unit) : prog := m (fun _ => Done).

(** ** The event loop

    [run_until fuel limit s] fires, in order, every timer due at or
    before [limit]: the one due first, and among equal due times the
    one created first (Node keeps one list per delay, in creation
    order).  An interval timer is put back one period later before its
    callback runs, so a [clearInterval] inside the callback removes it.
    The clock then reads [limit]. *)
Definition timer_before (a b : timer) : bool :=
  (tm_due a <? tm_due b)%Z || ((tm_due a =? tm_due b)%Z && (tm_id a <? tm_id b)).

Definition next_due (limit : Z) (ts : list timer) : option timer :=
  foldr (fun t acc =>
           if (tm_due t <=? limit)%Z then
             match acc with
             | Some u => if timer_before t u then Some t else Some u
             | None => Some t
             end
           else acc) None ts.

Definition fire_timer (t : timer) (s : store) : store :=
  mk_store (vals s) (subs s) (next s) (tm_due t)
    (filter (fun u => tm_id u <> tm_id t) (timers s) ++
     match tm_every t with
     | Some p => [mk_timer (tm_id t) (tm_due t + p) (Some p) (tm_cb t)]
     | None => []
     end)
    (pendings s) (storage s) (trace s).

Definition set_clock (z : Z) (s : store) : store :=
  mk_store (vals s) (subs s) (next s) (Z.max (clock s) z) (timers s) (pendings s)
    (storage s) (trace s).

Fixpoint run_until (fuel : nat) (limit : Z) (s : store) : option store :=
  match fuel with
  | O => None
  | S n =>
      match next_due limit (timers s) with
      | None => Some (set_clock limit s)
      | Some t => exec n (tm_cb t) (fire_timer t s) ≫= run_until n limit
      end
  end.

(** [ms] milliseconds pass. *)
Definition advance (fuel : nat) (ms : Z) (s : store) : option store :=
  run_until fuel (clock s + ms) s.

(** The environment settles the pending call [pid]: its promise
    resolves ([ok = true]) or rejects with [v]. *)
Definition settle (pid : nat) (ok : bool) (v : jsval) (s : store) : option (prog * store) :=
  match List.find (fun p => Nat.eqb (pd_id p) pid) (pendings s) with
  | Some p =>
      Some ((if ok then pd_ok p else pd_err p) v,
            mk_store (vals s) (subs s) (next s) (clock s) (timers s)
              (filter (fun q => pd_id q <> pid) (pendings s)) (storage s) (trace s))
  | None => None
  end.

(** A client script: synchronous programs, waits and settlements, in
    order. *)
Inductive script_step : Type :=
| Run (p : prog)
| Wait (ms : Z)
| Resolve (pid : nat) (v : jsval)
| Reject (pid : nat) (v : jsval).

Fixpoint run_script (fuel : nat) (sc : list script_step) (s : store) : option store :=
  match sc with
  | [] => Some s
  | Run p :: rest => exec fuel p s ≫= run_script fuel rest
  | Wait ms :: rest => advance fuel ms s ≫= run_script fuel rest
  | Resolve pid v :: rest =>
      match settle pid true v s with
      | Some (p, s1) => exec fuel p s1 ≫= run_script fuel rest
      | None => None
      end
  | Reject pid v :: rest =>
      match settle pid false v s with
      | Some (p, s1) => exec fuel p s1 ≫= run_script fuel rest
      | None => None
      end
  end.

(** The store a script leaves with fuel [200], and whether it finishes. *)
Definition script_result (sc : list script_step) (s : store) : store :=
  default s (run_script 200 sc s).
Definition script_runs (sc : list script_step) (s : store) : bool :=
  match run_script 200 sc s with Some _ => true | None => false end.

(** ** Fuel *)

Lemma exec_notify_mono n :
  (forall p s s' m, exec n p s = Some s' -> n <= m -> exec m p s = Some s') /\
  (forall c arg from s s' m, notify n c arg from s = Some s' -> n <= m ->
     notify m c arg from s = Some s').
Proof.
  induction n as [|n [IHe IHn]]; split; intros *; try discriminate;
    intros H Hle; destruct m as [|m]; try lia; simpl in *.
  - destruct p; eauto with lia.
    destruct (notify n c arg 0 s) eqn:E; simpl in *; [|discriminate].
    erewrite IHn by eauto with lia. simpl. eauto with lia.
  - destruct (next_entry from (subs_of s c)) as [[h l]|]; [|done].
    destruct (exec n _ _) eqn:E; simpl in *; [|discriminate].
    erewrite IHe by eauto with lia. simpl. eauto with lia.
Qed.

Lemma exec_mono n m p s s' : exec n p s = Some s' -> n <= m -> exec m p s = Some s'.
Proof. apply exec_notify_mono. Qed.

Lemma notify_mono n m c arg from s s' :
  notify n c arg from s = Some s' -> n <= m -> notify m c arg from s = Some s'.
Proof. apply exec_notify_mono. Qed.

(** Running out of fuel is the only way [exec] fails, so two runs that
    both succeed agree. *)
Lemma exec_det n m p s s1 s2 :
  exec n p s = Some s1 -> exec m p s = Some s2 -> s1 = s2.
Proof.
  intros H1 H2. destruct (Nat.le_ge_cases n m) as [Hle|Hle].
  - apply (exec_mono _ m) in H1; congruence.
  - apply (exec_mono _ n) in H2; congruence.
Qed.

(** ** Big-step semantics

    [big p s s'] holds when [p] run from [s] finishes in [s'];
    [big_notify c arg from s s'] when the [forEach] walk from stamp
    [from] finishes.  It is the relation [exec] computes (theorem
    [exec_big_iff]); invariants are proved by induction on it. *)

Inductive big : prog -> store -> store -> Prop :=
| big_done s : big Done s s
| big_alloc v k s s' : big (k (next s)) (alloc_cell v s) s' -> big (Alloc v k) s s'
| big_read c k s s' : big (k (cur s c)) s s' -> big (Read c k) s s'
| big_assign c v k s s' : big k (assign_cell c v s) s' -> big (Assign c v k) s s'
| big_notify_run c arg k s s1 s' :
    big_notify c arg 0 s s1 -> big k s1 s' -> big (Notify c arg k) s s'
| big_subscribe c l k s s' : big (k (next s)) (add_entry c l s) s' -> big (Subscribe c l k) s s'
| big_unsubscribe c h k s s' : big k (del_entry c h s) s' -> big (Unsubscribe c h k) s s'
| big_newid k s s' : big (k (next s)) (bump s) s' -> big (NewId k) s s'
| big_emit o k s s' : big k (emit_obs o s) s' -> big (Emit o k) s s'
| big_now k s s' : big (k (clock s)) s s' -> big (Now k) s s'
| big_settimer ms every cb k s s' :
    big (k (next s)) (add_timer ms every cb s) s' -> big (SetTimer ms every cb k) s s'
| big_cleartimer t k s s' : big k (clear_timer t s) s' -> big (ClearTimer t k) s s'
| big_storageget key k s s' : big (k (storage s !! key)) s s' -> big (StorageGet key k) s s'
| big_storageset key v k s s' : big k (storage_set key v s) s' -> big (StorageSet key v k) s s'
| big_storagedel key k s s' : big k (storage_del key s) s' -> big (StorageDel key k) s s'
| big_invoke fn arg ok err k s s' :
    big k (add_pending fn arg ok err s) s' -> big (Invoke fn arg ok err k) s s'
with big_notify : nat -> (gmap nat jsval -> nat -> jsval) -> nat -> store -> store -> Prop :=
| bn_end c arg from s :
    next_entry from (subs_of s c) = None -> big_notify c arg from s s
| bn_step c arg from s h l s1 s' :
    next_entry from (subs_of s c) = Some (h, l) ->
    big (l (arg (vals s) (next s))) (bump s) s1 ->
    big_notify c arg (S h) s1 s' ->
    big_notify c arg from s s'.

Scheme big_ind2 := Induction for big Sort Prop
  with big_notify_ind2 := Induction for big_notify Sort Prop.
Combined Scheme big_mutind from big_ind2, big_notify_ind2.

#[export] Hint Constructors big big_notify : resig.

Lemma exec_notify_big n :
  (forall p s s', exec n p s = Some s' -> big p s s') /\
  (forall c arg from s s', notify n c arg from s = Some s' -> big_notify c arg from s s').
Proof.
  induction n as [|n [IHe IHn]]; split; intros *; try discriminate; simpl.
  - destruct p; intros H; [injection H as <-; constructor|..];
      try (econstructor; by eauto).
    apply option_bind_Some in H as (s1 & H1 & H2). eauto with resig.
  - destruct (next_entry from (subs_of s c)) as [[h l]|] eqn:E; intros H.
    + apply option_bind_Some in H as (s1 & H1 & H2). eauto with resig.
    + injection H as <-. eauto with resig.
Qed.

Lemma big_exec_notify :
  (forall p s s', big p s s' -> exists n, exec n p s = Some s') /\
  (forall c arg from s s', big_notify c arg from s s' ->
     exists n, notify n c arg from s = Some s').
Proof.
  apply big_mutind; intros;
    repeat match goal with H : exists _, _ |- _ => destruct H end;
    try (exists (S x); simpl; done).
  - exists 1. done.
  - exists (S (x `max` x0)). simpl.
    erewrite notify_mono; [|eassumption|lia]. simpl. eapply exec_mono; [eassumption|lia].
  - exists 1. simpl. by rewrite e.
  - exists (S (x `max` x0)). simpl. rewrite e.
    erewrite exec_mono; [|eassumption|lia]. simpl. eapply notify_mono; [eassumption|lia].
Qed.

(** refinement of the runtime: the fuelled interpreter [exec]
    (with [notify]'s [forEach] walk) finishes in [s'] for some fuel
    exactly when the big-step relation relates [p], [s] and [s']. *)
Lemma exec_big_iff p s s' : (exists n, exec n p s = Some s') <-> big p s s'.
Proof.
  split.
  - intros [n H]. by apply (proj1 (exec_notify_big n)).
  - apply big_exec_notify.
Qed.

Lemma exec_big n p s s' : exec n p s = Some s' -> big p s s'.
Proof. intros H. apply exec_big_iff. eauto. Qed.

Lemma big_det p s s1 s2 : big p s s1 -> big p s s2 -> s1 = s2.
Proof.
  intros H1 H2. apply exec_big_iff in H1 as [n1 H1], H2 as [n2 H2].
  eauto using exec_det.
Qed.

(** ** One step of the big-step relation per primitive *)

Create Rewrite HintDb big_simpl.

Ltac big_iff_tac := split; [intros H; inversion H; subst; eauto | intros; econstructor; eauto].

Lemma big_done_iff s s' : big Done s s' <-> s' = s.
Proof. split; [intros H; by inversion H | intros ->; constructor]. Qed.
Lemma big_alloc_iff v k s s' : big (Alloc v k) s s' <-> big (k (next s)) (alloc_cell v s) s'.
Proof. big_iff_tac. Qed.
Lemma big_read_iff c k s s' : big (Read c k) s s' <-> big (k (cur s c)) s s'.
Proof. big_iff_tac. Qed.
Lemma big_assign_iff c v k s s' : big (Assign c v k) s s' <-> big k (assign_cell c v s) s'.
Proof. big_iff_tac. Qed.
Lemma big_notify_iff c arg k s s' :
  big (Notify c arg k) s s' <-> exists s1, big_notify c arg 0 s s1 /\ big k s1 s'.
Proof. split; [intros H; inversion H; subst; eauto | intros (? & ? & ?); econstructor; eauto]. Qed.
Lemma big_subscribe_iff c l k s s' :
  big (Subscribe c l k) s s' <-> big (k (next s)) (add_entry c l s) s'.
Proof. big_iff_tac. Qed.
Lemma big_unsubscribe_iff c h k s s' : big (Unsubscribe c h k) s s' <-> big k (del_entry c h s) s'.
Proof. big_iff_tac. Qed.
Lemma big_newid_iff k s s' : big (NewId k) s s' <-> big (k (next s)) (bump s) s'.
Proof. big_iff_tac. Qed.
Lemma big_emit_iff o k s s' : big (Emit o k) s s' <-> big k (emit_obs o s) s'.
Proof. big_iff_tac. Qed.
Lemma big_now_iff k s s' : big (Now k) s s' <-> big (k (clock s)) s s'.
Proof. big_iff_tac. Qed.

Lemma big_notify_step_iff c arg from s s' :
  big_notify c arg from s s' <->
  match next_entry from (subs_of s c) with
  | None => s' = s
  | Some (h, l) => exists s1, big (l (arg (vals s) (next s))) (bump s) s1 /\
                              big_notify c arg (S h) s1 s'
  end.
Proof.
  split.
  - intros H; inversion H; subst;
      match goal with E : next_entry _ _ = _ |- _ => rewrite E end; eauto.
  - destruct (next_entry from (subs_of s c)) as [[h l]|] eqn:E.
    + intros (s1 & ? & ?). econstructor; eauto.
    + intros ->. by constructor.
Qed.

#[export] Hint Rewrite big_done_iff big_alloc_iff big_read_iff big_assign_iff big_notify_iff
  big_subscribe_iff big_unsubscribe_iff big_newid_iff big_emit_iff big_now_iff : big_simpl.

(** A client callback [fn]: its only effect is to be observed. *)
Definition callback (fn : nat) (v : jsval) : M unit := emit (OCall fn v).

(** The counter of fresh identities never decreases. *)
Lemma big_next_mono :
  (forall p s s', big p s s' -> next s <= next s') /\
  (forall c arg from s s', big_notify c arg from s s' -> next s <= next s').
Proof. apply big_mutind; intros; simpl in *; lia. Qed.

(** ** Projections of the store updates *)

Create Rewrite HintDb store_simpl.

Section Projections.
Variables (s : store) (c h : nat) (v : jsval) (l : jsval -> prog) (o : obs).

Lemma vals_alloc : vals (alloc_cell v s) = <[next s := v]> (vals s).
Proof. reflexivity. Qed.
Lemma subs_alloc : subs (alloc_cell v s) = <[next s := []]> (subs s).
Proof. reflexivity. Qed.
Lemma next_alloc : next (alloc_cell v s) = S (next s).
Proof. reflexivity. Qed.
Lemma vals_assign : vals (assign_cell c v s) = <[c := v]> (vals s).
Proof. reflexivity. Qed.
Lemma subs_assign : subs (assign_cell c v s) = subs s.
Proof. reflexivity. Qed.
Lemma next_assign : next (assign_cell c v s) = next s.
Proof. reflexivity. Qed.
Lemma vals_add_entry : vals (add_entry c l s) = vals s.
Proof. reflexivity. Qed.
Lemma subs_add_entry : subs (add_entry c l s) = <[c := subs_of s c ++ [(next s, l)]]> (subs s).
Proof. reflexivity. Qed.
Lemma next_add_entry : next (add_entry c l s) = S (next s).
Proof. reflexivity. Qed.
Lemma vals_del_entry : vals (del_entry c h s) = vals s.
Proof. reflexivity. Qed.
Lemma next_del_entry : next (del_entry c h s) = next s.
Proof. reflexivity. Qed.
Lemma vals_bump : vals (bump s) = vals s.
Proof. reflexivity. Qed.
Lemma subs_bump : subs (bump s) = subs s.
Proof. reflexivity. Qed.
Lemma next_bump : next (bump s) = S (next s).
Proof. reflexivity. Qed.
Lemma vals_emit : vals (emit_obs o s) = vals s.
Proof. reflexivity. Qed.
Lemma subs_emit : subs (emit_obs o s) = subs s.
Proof. reflexivity. Qed.
Lemma next_emit : next (emit_obs o s) = next s.
Proof. reflexivity. Qed.
Lemma trace_emit : trace (emit_obs o s) = trace s ++ [o].
Proof. reflexivity. Qed.
End Projections.

#[export] Hint Rewrite vals_alloc subs_alloc next_alloc vals_assign subs_assign next_assign
  vals_add_entry subs_add_entry next_add_entry vals_del_entry next_del_entry
  vals_bump subs_bump next_bump vals_emit subs_emit next_emit trace_emit : store_simpl.

Lemma cur_assign_eq s c v : cur (assign_cell c v s) c = v.
Proof. unfold cur. by rewrite vals_assign, lookup_insert_eq. Qed.

Lemma cur_assign_ne s c x v : x <> c -> cur (assign_cell c v s) x = cur s x.
Proof. intros H. unfold cur. by rewrite vals_assign, lookup_insert_ne. Qed.

(** The store a program leaves, run with fuel [100]; for the concrete
    scenarios of the witnesses. *)
Definition run_prog (p : prog) (s : store) : store := default s (exec 100 p s).

(** Whether that run finishes within the fuel. *)
Definition runs (p : prog) (s : store) : bool :=
  match exec 100 p s with Some _ => true | None => false end.

(** ** Computations that return

    [returns m s a s1]: run from [s], the computation [m] passes [a] to
    its continuation in store [s1], whatever the continuation is.  This
    is the big-step meaning of a library function, composed with
    [returns_bind]. *)

Definition returns {A} (m : M A) (s : store) (a : A) (s1 : store) : Prop :=
  forall k s', big (m k) s s' <-> big (k a) s1 s'.

Lemma returns_ret {A} (a : A) s : returns (cret a) s a s.
Proof. done. Qed.

Lemma returns_bind {A B} (m : M A) (f : A -> M B) s a s1 b s2 :
  returns m s a s1 -> returns (f a) s1 b s2 -> returns (cbind m f) s b s2.
Proof. intros H1 H2 k s'. unfold cbind. rewrite (H1 (fun a => f a k) s'). apply H2. Qed.

Lemma returns_alloc v s : returns (alloc v) s (next s) (alloc_cell v s).
Proof. intros k s'. apply big_alloc_iff. Qed.

Lemma returns_read c s : returns (read c) s (cur s c) s.
Proof. intros k s'. apply big_read_iff. Qed.

Lemma returns_assign c v s : returns (assign c v) s tt (assign_cell c v s).
Proof. intros k s'. apply big_assign_iff. Qed.

Lemma returns_subscribe_raw c l s : returns (subscribe_raw c l) s (next s) (add_entry c l s).
Proof. intros k s'. apply big_subscribe_iff. Qed.

Lemma returns_new_id s : returns new_id s (next s) (bump s).
Proof. intros k s'. apply big_newid_iff. Qed.

Lemma returns_emit o s : returns (emit o) s tt (emit_obs o s).
Proof. intros k s'. apply big_emit_iff. Qed.

Lemma returns_now s : returns now s (clock s) s.
Proof. intros k s'. apply big_now_iff. Qed.

Lemma returns_unsubscribe_raw c h s : returns (unsubscribe_raw c h) s tt (del_entry c h s).
Proof. intros k s'. apply big_unsubscribe_iff. Qed.

Lemma returns_set_timer ms every cb s :
  returns (set_timer ms every cb) s (next s) (add_timer ms every cb s).
Proof. intros k s'. split; [intros H; by invc H | intros H; by constructor]. Qed.

Lemma returns_clear_timer t s : returns (clear_timer_m t) s tt (clear_timer t s).
Proof. intros k s'. split; [intros H; by invc H | intros H; by constructor]. Qed.

Lemma returns_invoke fn arg ok err s :
  returns (invoke fn arg ok err) s tt
    (add_pending fn arg (fun v => ok v (fun _ => Done)) (fun e => err e (fun _ => Done)) s).
Proof. intros k s'. split; [intros H; by invc H | intros H; by constructor]. Qed.

Lemma returns_storage_get key s : returns (storage_get key) s (storage s !! key) s.
Proof. intros k s'. split; [intros H; by invc H | intros H; by constructor]. Qed.

Lemma returns_storage_set key v s : returns (storage_set_m key v) s tt (storage_set key v s).
Proof. intros k s'. split; [intros H; by invc H | intros H; by constructor]. Qed.

Lemma returns_storage_del key s : returns (storage_del_m key) s tt (storage_del key s).
Proof. intros k s'. split; [intros H; by invc H | intros H; by constructor]. Qed.

(** A computation that returns runs to completion inside [body]. *)
Lemma returns_body (m : M unit) s s1 : returns m s tt s1 -> big (body m) s s1.
Proof. intros H. unfold body. apply H. constructor. Qed.

#[export] Hint Resolve returns_ret returns_alloc returns_read returns_assign
  returns_subscribe_raw returns_new_id returns_emit : resig.

Lemma run_prog_big p s : runs p s = true -> big p s (run_prog p s).
Proof.
  unfold runs, run_prog. destruct (exec 100 p s) eqn:E; [|discriminate].
  intros _. by apply (exec_big 100).
Qed.

Lemma script_result_ok sc s :
  script_runs sc s = true -> run_script 200 sc s = Some (script_result sc s).
Proof. unfold script_runs, script_result. by destruct (run_script 200 sc s). Qed.

(** A scenario's claim about the store a script leaves: the script is
    run, checked to finish, and the claim is evaluated. *)
Ltac run_script_tac :=
  match goal with
  | |- exists s', run_script 200 ?sc ?s = Some s' /\ _ =>
      exists (script_result sc s); split; [apply script_result_ok|split_and?]; vm_compute; reflexivity
  end.
