(* ===== verification/Json.v ===== *)
(** * [JSON.stringify] and [JSON.parse]

    The fetch cache and the persist plugin keep values in
    [localStorage] as JSON text.  [to_json] is the value
    [JSON.stringify] serialises ([undefined] and functions are dropped
    from objects and become [null] in arrays, NaN becomes [null], errors
    and signals have no enumerable data fields); [print] writes the
    text; [parse] is [JSON.parse] (whitespace, escapes, the number
    grammar with its leading-zero rule); [of_json] builds the JS value,
    with a fresh identity for every object and array and, as in JS, a
    repeated key keeping its first place and its last value.

    Text is a list of 8-bit characters.  Numbers are in units of 10^-6:
    [print] writes them as JS does below 10^21 (no exponent, no trailing
    zeros), and [parse] truncates a literal to that unit.  A [\u]
    escape above [00FF] is outside the model and fails to parse.

    These are JavaScript runtime functions, not code of the repository;
    the file proves the facts the cache round trip of [Fetch] uses:
    [parse (print j) = Some j] ([json_roundtrip]), [to_json] inverts
    [of_json] on JSON values whose objects have distinct keys
    ([of_json_to_json]), and [parseInt] reads back [String(n)]
    ([parse_int_pretty]). *)

From Stdlib Require Import ZArith String Ascii.
From stdpp Require Import base list pretty.
From S2P Require Import Prelude JsValue Engine.

Local Open Scope resig_scope.

Inductive json : Type :=
| JSNull
| JSBool (b : bool)
| JSNum (m : Z)
| JSStr (s : list ascii)
| JSArr (xs : list json)
| JSObj (fs : list (list ascii * json)).

Section json_ind_nested.
Variable P : json -> Prop.
Hypothesis HNull : P JSNull.
Hypothesis HBool : forall b, P (JSBool b).
Hypothesis HNum : forall m, P (JSNum m).
Hypothesis HStr : forall s, P (JSStr s).
Hypothesis HArr : forall xs, Forall P xs -> P (JSArr xs).
Hypothesis HObj : forall fs, Forall (fun kv => P kv.2) fs -> P (JSObj fs).

Fixpoint json_ind_nested (j : json) : P j :=
  match j with
  | JSNull => HNull
  | JSBool b => HBool b
  | JSNum m => HNum m
  | JSStr s => HStr s
  | JSArr xs =>
      HArr xs ((fix go (l : list json) : Forall P l :=
                  match l with
                  | [] => Forall_nil_2 _
                  | x :: l' => Forall_cons_2 _ x l' (json_ind_nested x) (go l')
                  end) xs)
  | JSObj fs =>
      HObj fs ((fix go (l : list (list ascii * json)) : Forall (fun kv => P kv.2) l :=
                  match l with
                  | [] => Forall_nil_2 _
                  | kv :: l' => Forall_cons_2 _ kv l' (json_ind_nested kv.2) (go l')
                  end) fs)
  end.
End json_ind_nested.

(** ** Characters *)

Definition chr (n : nat) : ascii := ascii_of_nat n.
Definition code (c : ascii) : nat := nat_of_ascii c.

Definition is_digit (c : ascii) : bool := (48 <=? code c) && (code c <=? 57).
Definition digit_val (c : ascii) : Z := Z.of_nat (code c - 48).
Definition digit (d : Z) : ascii := chr (48 + Z.to_nat d).

Definition is_ws (c : ascii) : bool :=
  (code c =? 32) || (code c =? 9) || (code c =? 10) || (code c =? 13).

Definition hex_digit (n : nat) : ascii := if n <? 10 then chr (48 + n) else chr (87 + n).

Definition hex_val (c : ascii) : option nat :=
  let n := code c in
  if (48 <=? n) && (n <=? 57) then Some (n - 48)
  else if (97 <=? n) && (n <=? 102) then Some (n - 87)
  else if (65 <=? n) && (n <=? 70) then Some (n - 55)
  else None.

(** ** Printing *)

(** The decimal digits of [n >= 0]; [fuel] bounds their number. *)
Fixpoint digits_aux (fuel : nat) (n : Z) : list ascii :=
  match fuel with
  | O => []
  | S f => if (n <? 10)%Z then [digit n] else digits_aux f (n / 10) ++ [digit (n mod 10)]
  end.

Definition digits (n : Z) : list ascii := digits_aux (S (Z.to_nat n)) n.

(** The six digits of a fraction [0 < r < 10^6], without its trailing
    zeros. *)
Fixpoint drop_zeros (l : list ascii) : list ascii :=
  match l with
  | c :: r => if bool_decide (c = "0"%char) then drop_zeros r else l
  | [] => []
  end.

Definition strip_zeros (l : list ascii) : list ascii := rev (drop_zeros (rev l)).

Definition frac_digits (r : Z) : list ascii :=
  let d := digits r in strip_zeros (repeat "0"%char (6 - length d) ++ d).

(** [String(x)] of a number [x = m * 10^-6]. *)
Definition print_num (m : Z) : list ascii :=
  let a := Z.abs m in
  let q := (a / 1000000)%Z in
  let r := (a mod 1000000)%Z in
  (if (m <? 0)%Z then ["-"%char] else []) ++ digits q ++
  (if (r =? 0)%Z then [] else "."%char :: frac_digits r).

(** How [JSON.stringify] writes a character of a string. *)
Definition escape (c : ascii) : list ascii :=
  let n := code c in
  if n =? 34 then ["\"%char; "034"%char]
  else if n =? 92 then ["\"%char; "\"%char]
  else if n =? 8 then ["\"%char; "b"%char]
  else if n =? 12 then ["\"%char; "f"%char]
  else if n =? 10 then ["\"%char; "n"%char]
  else if n =? 13 then ["\"%char; "r"%char]
  else if n =? 9 then ["\"%char; "t"%char]
  else if n <? 32 then ["\"%char; "u"%char; "0"%char; "0"%char; hex_digit (n / 16); hex_digit (n mod 16)]
  else [c].

Definition print_str (s : list ascii) : list ascii :=
  "034"%char :: flat_map escape s ++ ["034"%char].

(** [l1 ++ "," ++ l2 ++ "," ++ ...]. *)
Fixpoint sep (ls : list (list ascii)) : list ascii :=
  match ls with
  | [] => []
  | [l] => l
  | l :: rest => l ++ ","%char :: sep rest
  end.

Fixpoint print (j : json) : list ascii :=
  match j with
  | JSNull => list_ascii_of_string "null"
  | JSBool true => list_ascii_of_string "true"
  | JSBool false => list_ascii_of_string "false"
  | JSNum m => print_num m
  | JSStr s => print_str s
  | JSArr xs => "["%char :: sep (List.map print xs) ++ ["]"%char]
  | JSObj fs =>
      "{"%char :: sep (List.map (fun kv => print_str kv.1 ++ ":"%char :: print kv.2) fs) ++ ["}"%char]
  end.

(** ** Parsing *)

Fixpoint skip_ws (cs : list ascii) : list ascii :=
  match cs with
  | c :: r => if is_ws c then skip_ws r else cs
  | [] => []
  end.

(** The longest prefix of digits. *)
Fixpoint take_digits (cs : list ascii) : list ascii * list ascii :=
  match cs with
  | c :: r => if is_digit c then let '(ds, r') := take_digits r in (c :: ds, r') else ([], cs)
  | [] => ([], [])
  end.

Definition digits_value (ds : list ascii) : Z :=
  fold_left (fun acc c => acc * 10 + digit_val c)%Z ds 0%Z.

(** [int = "0" | [1-9] digit*]. *)
Definition parse_int_part (cs : list ascii) : option (list ascii * list ascii) :=
  match cs with
  | c :: r =>
      if bool_decide (c = "0"%char) then Some (["0"%char], r)
      else if is_digit c then let '(ds, r') := take_digits r in Some (c :: ds, r')
      else None
  | [] => None
  end.

(** [frac = ("." digit+)?]. *)
Definition parse_frac (cs : list ascii) : option (list ascii * list ascii) :=
  match cs with
  | c :: r =>
      if bool_decide (c = "."%char) then
        match take_digits r with
        | ([], _) => None
        | (ds, r') => Some (ds, r')
        end
      else Some ([], cs)
  | [] => Some ([], [])
  end.

(** [exp = ([eE] [+-]? digit+)?]. *)
Definition parse_exp (cs : list ascii) : option (Z * list ascii) :=
  let digits_after (neg : bool) (r : list ascii) :=
    match take_digits r with
    | ([], _) => None
    | (ds, r') => Some (if neg then (- digits_value ds)%Z else digits_value ds, r')
    end in
  match cs with
  | c :: r =>
      if bool_decide (c = "e"%char) || bool_decide (c = "E"%char) then
        match r with
        | s :: r2 =>
            if bool_decide (s = "+"%char) then digits_after false r2
            else if bool_decide (s = "-"%char) then digits_after true r2
            else digits_after false r
        | [] => None
        end
      else Some (0%Z, cs)
  | [] => Some (0%Z, [])
  end.

(** A number literal, in units of 10^-6, truncated. *)
Definition number_value (neg : bool) (int frac : list ascii) (e : Z) : Z :=
  let mant := (digits_value int * 10 ^ Z.of_nat (length frac) + digits_value frac)%Z in
  let scale := (e + 6 - Z.of_nat (length frac))%Z in
  let a := if (0 <=? scale)%Z then (mant * 10 ^ scale)%Z else Z.quot mant (10 ^ (- scale)) in
  if neg then (- a)%Z else a.

Definition parse_number (cs : list ascii) : option (Z * list ascii) :=
  let '(neg, r) := match cs with
                   | c :: r => if bool_decide (c = "-"%char) then (true, r) else (false, cs)
                   | [] => (false, [])
                   end in
  match parse_int_part r with
  | None => None
  | Some (int, r1) =>
      match parse_frac r1 with
      | None => None
      | Some (frac, r2) =>
          match parse_exp r2 with
          | None => None
          | Some (e, r3) => Some (number_value neg int frac e, r3)
          end
      end
  end.

(** The body of a string literal, after its opening quote. *)
Fixpoint parse_chars (cs : list ascii) : option (list ascii * list ascii) :=
  match cs with
  | [] => None
  | c :: r =>
      let n := code c in
      if n =? 34 then Some ([], r)
      else if n =? 92 then
        match r with
        | e :: r2 =>
            let esc (x : ascii) := option_map (fun '(s, r3) => (x :: s, r3)) (parse_chars r2) in
            match code e with
            | 34 => esc "034"%char
            | 92 => esc "\"%char
            | 47 => esc "/"%char
            | 98 => esc (chr 8)
            | 102 => esc (chr 12)
            | 110 => esc (chr 10)
            | 114 => esc (chr 13)
            | 116 => esc (chr 9)
            | 117 =>
                match r2 with
                | h1 :: h2 :: h3 :: h4 :: r3 =>
                    match hex_val h1, hex_val h2, hex_val h3, hex_val h4 with
                    | Some a, Some b, Some c', Some d =>
                        let v := ((a * 16 + b) * 16 + c') * 16 + d in
                        if v <? 256
                        then option_map (fun '(s, r4) => (chr v :: s, r4)) (parse_chars r3)
                        else None
                    | _, _, _, _ => None
                    end
                | _ => None
                end
            | _ => None
            end
        | [] => None
        end
      else if n <? 32 then None
      else option_map (fun '(s, r2) => (c :: s, r2)) (parse_chars r)
  end.

Definition parse_string (cs : list ascii) : option (list ascii * list ascii) :=
  match cs with
  | c :: r => if bool_decide (c = "034"%char) then parse_chars r else None
  | [] => None
  end.

(** [cs] with the prefix [p] removed, when it starts with it. *)
Fixpoint strip_prefix (p cs : list ascii) : option (list ascii) :=
  match p, cs with
  | [], _ => Some cs
  | c :: p', d :: cs' => if bool_decide (c = d) then strip_prefix p' cs' else None
  | _ :: _, [] => None
  end.

(** What follows the character [c] that [cs] starts with. *)
Definition after (c : ascii) (cs : list ascii) : option (list ascii) := strip_prefix [c] cs.

Fixpoint parse_value (fuel : nat) (cs : list ascii) : option (json * list ascii) :=
  match fuel with
  | O => None
  | S f =>
      let cs1 := skip_ws cs in
      match strip_prefix (list_ascii_of_string "null") cs1 with
      | Some r => Some (JSNull, r)
      | None =>
      match strip_prefix (list_ascii_of_string "true") cs1 with
      | Some r => Some (JSBool true, r)
      | None =>
      match strip_prefix (list_ascii_of_string "false") cs1 with
      | Some r => Some (JSBool false, r)
      | None =>
      match after "034"%char cs1 with
      | Some r => option_map (fun '(s, r') => (JSStr s, r')) (parse_chars r)
      | None =>
      match after "["%char cs1 with
      | Some r =>
          match after "]"%char (skip_ws r) with
          | Some r' => Some (JSArr [], r')
          | None => option_map (fun '(xs, r') => (JSArr xs, r')) (parse_elems f r)
          end
      | None =>
      match after "{"%char cs1 with
      | Some r =>
          match after "}"%char (skip_ws r) with
          | Some r' => Some (JSObj [], r')
          | None => option_map (fun '(fs, r') => (JSObj fs, r')) (parse_members f r)
          end
      | None => option_map (fun '(m, r) => (JSNum m, r)) (parse_number cs1)
      end end end end end end
  end
with parse_elems (fuel : nat) (cs : list ascii) : option (list json * list ascii) :=
  match fuel with
  | O => None
  | S f =>
      match parse_value f cs with
      | None => None
      | Some (x, r) =>
          match after ","%char (skip_ws r) with
          | Some r' => option_map (fun '(xs, r2) => (x :: xs, r2)) (parse_elems f r')
          | None =>
              match after "]"%char (skip_ws r) with
              | Some r' => Some ([x], r')
              | None => None
              end
          end
      end
  end
with parse_members (fuel : nat) (cs : list ascii) : option (list (list ascii * json) * list ascii) :=
  match fuel with
  | O => None
  | S f =>
      match parse_string (skip_ws cs) with
      | None => None
      | Some (k, r) =>
          match after ":"%char (skip_ws r) with
          | None => None
          | Some r1 =>
              match parse_value f r1 with
              | None => None
              | Some (v, r2) =>
                  match after ","%char (skip_ws r2) with
                  | Some r' =>
                      option_map (fun '(fs, r3) => ((k, v) :: fs, r3)) (parse_members f r')
                  | None =>
                      match after "}"%char (skip_ws r2) with
                      | Some r' => Some ([(k, v)], r')
                      | None => None
                      end
                  end
              end
          end
      end
  end.

(** [JSON.parse(text)]: one value and nothing but whitespace after it. *)
Definition parse (cs : list ascii) : option json :=
  match parse_value (2 * length cs + 2) cs with
  | Some (j, r) => if bool_decide (skip_ws r = []) then Some j else None
  | None => None
  end.

(** ** Between JS values and JSON *)

(** The JSON value [JSON.stringify] writes for [v]; [None] is
    [undefined] (for [undefined] and functions). *)
Fixpoint to_json (v : jsval) : option json :=
  match v with
  | JUndef | JFun _ => None
  | JNull | JNaN => Some JSNull
  | JBool b => Some (JSBool b)
  | JNum m => Some (JSNum m)
  | JStr s => Some (JSStr (list_ascii_of_string s))
  | JObj _ fs =>
      Some (JSObj ((fix go (l : list (string * jsval)) : list (list ascii * json) :=
                      match l with
                      | [] => []
                      | (k, x) :: l' =>
                          match to_json x with
                          | Some j => (list_ascii_of_string k, j) :: go l'
                          | None => go l'
                          end
                      end) fs))
  | JArr _ xs =>
      Some (JSArr ((fix go (l : list jsval) : list json :=
                      match l with
                      | [] => []
                      | x :: l' => default JSNull (to_json x) :: go l'
                      end) xs))
  | JSig _ | JErr _ _ => Some (JSObj [])
  end.

(** [JSON.stringify(v)]. *)
Definition stringify (v : jsval) : option string :=
  option_map (fun j => string_of_list_ascii (print j)) (to_json v).

(** [JSON.parse(text)]; [None] is a thrown [SyntaxError]. *)
Definition json_parse (text : string) : option json := parse (list_ascii_of_string text).

(** The JS value [JSON.parse] builds: a new object for every object and
    array; a repeated key keeps its first place and takes its last
    value. *)
Fixpoint of_json (j : json) : M jsval :=
  match j with
  | JSNull => cret JNull
  | JSBool b => cret (JBool b)
  | JSNum m => cret (JNum m)
  | JSStr s => cret (JStr (string_of_list_ascii s))
  | JSArr xs =>
      i <- new_id ;;
      vs <- (fix go (l : list json) : M (list jsval) :=
               match l with
               | [] => cret []
               | x :: l' => v <- of_json x ;; vs <- go l' ;; cret (v :: vs)
               end) xs ;;
      cret (JArr i vs)
  | JSObj fs =>
      i <- new_id ;;
      fields <- (fix go (l : list (list ascii * json)) (acc : list (string * jsval))
                   : M (list (string * jsval)) :=
                   match l with
                   | [] => cret acc
                   | (k, x) :: l' =>
                       v <- of_json x ;; go l' (set_field acc (string_of_list_ascii k) v)
                   end) fs [] ;;
      cret (JObj i fields)
  end.

(** ** [String(v)] and [parseInt(s)] *)

(** [String(v)]; a function's source text is not modelled. *)
Fixpoint js_string (v : jsval) : string :=
  match v with
  | JUndef => "undefined"%string
  | JNull => "null"%string
  | JBool true => "true"%string
  | JBool false => "false"%string
  | JNum m => string_of_list_ascii (print_num m)
  | JNaN => "NaN"%string
  | JStr s => s
  | JObj _ _ | JSig _ => "[object Object]"%string
  | JArr _ xs =>
      (fix join (l : list jsval) : string :=
         match l with
         | [] => ""%string
         | [x] => match x with JUndef | JNull => ""%string | _ => js_string x end
         | x :: l' =>
             ((match x with JUndef | JNull => ""%string | _ => js_string x end) ++ "," ++ join l')%string
         end) xs
  | JFun _ => "function"%string
  | JErr _ msg => if String.eqb msg "" then "Error"%string else ("Error: " ++ msg)%string
  end.

Definition is_js_space (c : ascii) : bool := is_ws c || (code c =? 11) || (code c =? 12).

Fixpoint skip_js_space (cs : list ascii) : list ascii :=
  match cs with
  | c :: r => if is_js_space c then skip_js_space r else cs
  | [] => []
  end.

(** The digits of radix [radix] at the front of [cs], as a number. *)
Fixpoint radix_digits (radix : nat) (cs : list ascii) (acc : option Z) : option Z :=
  match cs with
  | c :: r =>
      match hex_val c with
      | Some d => if d <? radix
                  then radix_digits radix r (Some (default 0 acc * Z.of_nat radix + Z.of_nat d)%Z)
                  else acc
      | None => acc
      end
  | [] => acc
  end.

(** [parseInt(s)]: [None] is NaN. *)
Definition parse_int (s : string) : option Z :=
  let cs := skip_js_space (list_ascii_of_string s) in
  let '(neg, r) := match cs with
                   | c :: r => if bool_decide (c = "-"%char) then (true, r)
                               else if bool_decide (c = "+"%char) then (false, r) else (false, cs)
                   | [] => (false, [])
                   end in
  let v := match r with
           | z :: x :: r' =>
               if bool_decide (z = "0"%char) && (bool_decide (x = "x"%char) || bool_decide (x = "X"%char))
               then radix_digits 16 r' None else radix_digits 10 r None
           | _ => radix_digits 10 r None
           end in
  option_map (fun n => if neg then (- n)%Z else n) v.

(** ** Round trip: [parse (print j) = Some j] *)

(** *** Characters, by evaluation on all 256 of them *)

Lemma code_chr n : n < 256 -> code (chr n) = n.
Proof. intros H. unfold code, chr. by apply nat_ascii_embedding. Qed.

Lemma digit_is_digit d : (0 <= d < 10)%Z -> is_digit (digit d) = true.
Proof.
  intros H. unfold is_digit, digit. rewrite code_chr by lia.
  apply andb_true_intro. split; apply Nat.leb_le; lia.
Qed.

Lemma digit_val_digit d : (0 <= d < 10)%Z -> digit_val (digit d) = d.
Proof. intros H. unfold digit_val, digit. rewrite code_chr by lia. lia. Qed.

Lemma digit_zero d : (0 <= d < 10)%Z -> digit d = "0"%char -> d = 0%Z.
Proof.
  intros H E. apply (f_equal code) in E. unfold digit in E. rewrite code_chr in E by lia.
  change (code "0"%char) with 48 in E. lia.
Qed.

(** A digit is none of the characters the grammar dispatches on. *)
Lemma digit_not_special c :
  is_digit c = true ->
  c <> "n"%char /\ c <> "t"%char /\ c <> "f"%char /\ c <> "034"%char /\ c <> "["%char /\
  c <> "{"%char /\ c <> "-"%char /\ c <> "."%char /\ c <> "e"%char /\ c <> "E"%char /\
  c <> ","%char /\ c <> "]"%char /\ c <> "}"%char /\ is_ws c = false.
Proof.
  destruct c as [[] [] [] [] [] [] [] []]; vm_compute; intros H;
    try discriminate H; split_and!; (discriminate || reflexivity).
Qed.

(** *** Digits *)

Lemma digits_value_app l c : digits_value (l ++ [c]) = (digits_value l * 10 + digit_val c)%Z.
Proof. unfold digits_value. by rewrite fold_left_app. Qed.

Lemma digits_aux_value f n : (0 <= n)%Z -> Z.to_nat n < f -> digits_value (digits_aux f n) = n.
Proof.
  revert n. induction f as [|f IH]; intros n Hn Hf; [lia|]. simpl.
  destruct (Z.ltb_spec n 10).
  - unfold digits_value. simpl. rewrite digit_val_digit by lia. lia.
  - rewrite digits_value_app, IH, digit_val_digit.
    + pose proof (Z.div_mod n 10). lia.
    + pose proof (Z.mod_pos_bound n 10). lia.
    + apply Z.div_pos; lia.
    + assert (n / 10 < n)%Z by (apply Z.div_lt; lia). lia.
Qed.

Lemma digits_aux_digits f n : (0 <= n)%Z -> Forall (fun c => is_digit c = true) (digits_aux f n).
Proof.
  revert n. induction f as [|f IH]; intros n Hn; simpl; [constructor|].
  destruct (Z.ltb_spec n 10).
  - constructor; [apply digit_is_digit; lia|constructor].
  - apply Forall_app. split; [apply IH, Z.div_pos; lia|].
    constructor; [apply digit_is_digit, Z.mod_pos_bound; lia|constructor].
Qed.

(** The first digit of a positive number is not [0]. *)
Lemma digits_aux_head f n :
  (0 < n)%Z -> Z.to_nat n < S f -> exists c r, digits_aux (S f) n = c :: r /\ c <> "0"%char.
Proof.
  revert n. induction f as [|f IH]; intros n Hn Hf; [lia|]. simpl.
  destruct (Z.ltb_spec n 10).
  - eexists _, _. split; [reflexivity|]. intros E. apply digit_zero in E; lia.
  - destruct (IH (n / 10)%Z) as (c & r & E & Hc).
    + apply Z.div_str_pos. lia.
    + assert (n / 10 < n)%Z by (apply Z.div_lt; lia). lia.
    + simpl in E. rewrite E. eexists _, _. split; [reflexivity|exact Hc].
Qed.

Lemma digits_aux_length f n k :
  (0 <= n < 10 ^ Z.of_nat (S k))%Z -> length (digits_aux f n) <= S k.
Proof.
  revert n k. induction f as [|f IH]; intros n k Hn; simpl; [lia|].
  destruct (Z.ltb_spec n 10); simpl; [lia|].
  rewrite length_app. simpl. destruct k as [|k].
  - simpl in Hn. lia.
  - enough (length (digits_aux f (n / 10)) <= S k) by lia. apply IH. split.
    + apply Z.div_pos; lia.
    + apply Z.div_lt_upper_bound; [lia|]. rewrite Nat2Z.inj_succ, Z.pow_succ_r in Hn; lia.
Qed.

Lemma digits_value_zeros_l t l : digits_value (repeat "0"%char t ++ l) = digits_value l.
Proof. unfold digits_value. induction t as [|t IH]; [done|]. simpl. exact IH. Qed.

Lemma digits_value_zeros_r l t :
  digits_value (l ++ repeat "0"%char t) = (digits_value l * 10 ^ Z.of_nat t)%Z.
Proof.
  induction t as [|t IH]; simpl; [rewrite app_nil_r; lia|].
  rewrite repeat_cons, app_assoc, digits_value_app, IH. change (digit_val "0"%char) with 0%Z.
  rewrite Nat2Z.inj_succ, Z.pow_succ_r by lia. lia.
Qed.

Lemma drop_zeros_spec l : exists t, l = repeat "0"%char t ++ drop_zeros l.
Proof.
  induction l as [|c l [t IH]]; [by exists 0|]. simpl. case_bool_decide as E.
  - exists (S t). simpl. by rewrite E, <- IH.
  - by exists 0.
Qed.

Lemma strip_zeros_spec l : exists t, l = strip_zeros l ++ repeat "0"%char t.
Proof.
  destruct (drop_zeros_spec (rev l)) as [t Ht]. exists t. unfold strip_zeros.
  set (D := drop_zeros (rev l)) in *. apply (f_equal (@rev _)) in Ht.
  by rewrite rev_involutive, rev_app_distr, rev_repeat in Ht.
Qed.

(** The fraction digits read back: [r = 0.d1...dL] with [1 <= L <= 6]. *)
Lemma frac_digits_spec r :
  (0 < r < 10 ^ 6)%Z ->
  (digits_value (frac_digits r) * 10 ^ (6 - Z.of_nat (length (frac_digits r))) = r)%Z /\
  1 <= length (frac_digits r) <= 6 /\ Forall (fun c => is_digit c = true) (frac_digits r).
Proof.
  intros Hr. unfold frac_digits, digits.
  set (d := digits_aux (S (Z.to_nat r)) r).
  assert (Hd : digits_value d = r) by (apply digits_aux_value; lia).
  assert (Hlen : length d <= 6) by (apply digits_aux_length; simpl; lia).
  assert (Hdig : Forall (fun c => is_digit c = true) d) by (apply digits_aux_digits; lia).
  set (P := repeat "0"%char (6 - length d) ++ d).
  assert (HP : length P = 6) by (unfold P; rewrite length_app, repeat_length; lia).
  assert (HvP : digits_value P = r) by (unfold P; by rewrite digits_value_zeros_l).
  destruct (strip_zeros_spec P) as [t Ht]. set (S' := strip_zeros P) in *.
  assert (HL : length S' + t = 6) by (rewrite <- HP, Ht, length_app, repeat_length; lia).
  rewrite Ht, digits_value_zeros_r in HvP.
  split_and!.
  - replace (6 - Z.of_nat (length S'))%Z with (Z.of_nat t) by lia. exact HvP.
  - destruct S' as [|c l] eqn:ES; simpl; [|lia].
    unfold digits_value in HvP. simpl in HvP. lia.
  - lia.
  - assert (HPd : Forall (fun c => is_digit c = true) P).
    { unfold P. apply Forall_app. split; [|exact Hdig]. apply List.Forall_forall.
      intros x Hx. apply repeat_spec in Hx as ->. reflexivity. }
    rewrite Ht in HPd. by apply Forall_app in HPd as [].
Qed.

Lemma take_digits_app ds rest :
  Forall (fun c => is_digit c = true) ds ->
  (forall c r, rest = c :: r -> is_digit c = false) ->
  take_digits (ds ++ rest) = (ds, rest).
Proof.
  intros Hds Hr. induction Hds as [|c ds Hc _ IH]; cbn [app take_digits].
  - destruct rest as [|c r]; [done|]. cbn [take_digits]. by rewrite (Hr c r eq_refl).
  - by rewrite Hc, IH.
Qed.

(** What may follow a number literal. *)
Definition num_delim (rest : list ascii) : Prop :=
  forall c r, rest = c :: r -> is_digit c = false /\ c <> "."%char /\ c <> "e"%char /\ c <> "E"%char.

Lemma digits_spec q :
  (0 <= q)%Z ->
  digits_value (digits q) = q /\ Forall (fun c => is_digit c = true) (digits q) /\
  exists c r, digits q = c :: r /\ (c = "0"%char -> q = 0%Z /\ r = []).
Proof.
  intros Hq. split_and!.
  - apply digits_aux_value; lia.
  - apply digits_aux_digits; lia.
  - destruct (Z.eq_dec q 0%Z) as [->|Hne]; [by eexists _, _|].
    destruct (digits_aux_head (Z.to_nat q) q) as (c & r & E & Hc); [lia|lia|].
    exists c, r. unfold digits. rewrite E. split; [done|]. intros ->. done.
Qed.

Lemma parse_int_part_digits q tail :
  (0 <= q)%Z -> (forall c r, tail = c :: r -> is_digit c = false) ->
  parse_int_part (digits q ++ tail) = Some (digits q, tail).
Proof.
  intros Hq Ht. destruct (digits_spec q Hq) as (_ & Hd & c & r & E & H0). rewrite E in *.
  simpl. case_bool_decide as Hc.
  - destruct (H0 Hc) as [_ ->]. by subst c.
  - apply Forall_cons in Hd as [-> Hd]. by rewrite take_digits_app.
Qed.

(** [print_num] reads back. *)
Lemma parse_number_print m rest : num_delim rest -> parse_number (print_num m ++ rest) = Some (m, rest).
Proof.
  intros Hrest. unfold print_num.
  set (a := Z.abs m). set (q := (a / 1000000)%Z). set (r := (a mod 1000000)%Z).
  assert (Hq : (0 <= q)%Z) by (apply Z.div_pos; lia).
  assert (Hr : (0 <= r < 10 ^ 6)%Z) by (apply Z.mod_pos_bound; lia).
  assert (Ha : a = (q * 1000000 + r)%Z) by (pose proof (Z.div_mod a 1000000); lia).
  set (fd := if (r =? 0)%Z then [] else frac_digits r).
  assert (HF : (if (r =? 0)%Z then [] else "."%char :: frac_digits r) ++ rest =
               (if (r =? 0)%Z then rest else "."%char :: fd ++ rest))
    by (unfold fd; by destruct (r =? 0)%Z).
  assert (Htail : forall c r', (if (r =? 0)%Z then rest else "."%char :: fd ++ rest) = c :: r' ->
                               is_digit c = false).
  { intros c r' E. destruct (r =? 0)%Z; [by apply (Hrest c r')|]. by injection E as <-. }
  assert (Hfrac : parse_frac (if (r =? 0)%Z then rest else "."%char :: fd ++ rest) = Some (fd, rest)).
  { unfold fd. destruct (Z.eqb_spec r 0) as [Hr0|Hr0].
    - destruct rest as [|c r']; [done|]. simpl.
      destruct (Hrest c r' eq_refl) as (_ & Hdot & _). by rewrite bool_decide_false.
    - simpl. destruct (frac_digits_spec r ltac:(lia)) as (_ & Hlen & Hdig).
      rewrite take_digits_app; [|done|intros c r' ->; apply (Hrest c r' eq_refl)].
      by destruct (frac_digits r); [simpl in Hlen; lia|]. }
  assert (Hexp : parse_exp rest = Some (0%Z, rest)).
  { destruct rest as [|c r']; [done|]. simpl. destruct (Hrest c r' eq_refl) as (_ & _ & He & HE).
    by rewrite !bool_decide_false. }
  assert (Hval : number_value false (digits q) fd 0 = a).
  { unfold number_value. destruct (digits_spec q Hq) as (Hv & _). rewrite Hv.
    unfold fd. destruct (Z.eqb_spec r 0) as [Hr0|Hr0]; simpl; [change (10 ^ Z.of_nat 0)%Z with 1%Z; change (10 ^ (0 + 6 - Z.of_nat 0))%Z with 1000000%Z; change (digits_value []) with 0%Z; rewrite Ha, Hr0; lia|].
    destruct (frac_digits_spec r ltac:(lia)) as (Hfv & Hlen & _).
    set (L := Z.of_nat (length (frac_digits r))) in *.
    rewrite (proj2 (Z.leb_le 0 (0 + 6 - L))) by lia.
    replace (0 + 6 - L)%Z with (6 - L)%Z by lia.
    rewrite Z.mul_add_distr_r, Hfv, <- Z.mul_assoc, <- Z.pow_add_r by lia.
    replace (L + (6 - L))%Z with 6%Z by lia. rewrite Ha. lia. }
  destruct (Z.ltb_spec m 0) as [Hneg|Hpos].
  - rewrite <- !app_assoc, HF. unfold parse_number. cbn [app]. cbv beta iota.
    rewrite bool_decide_true by done. cbv beta iota.
    rewrite parse_int_part_digits, Hfrac, Hexp by done.
    change (number_value true (digits q) fd 0) with (- number_value false (digits q) fd 0)%Z.
    rewrite Hval. do 2 f_equal. lia.
  - rewrite app_nil_l, <- !app_assoc, HF. unfold parse_number.
    destruct (digits_spec q Hq) as (_ & Hd & c & r' & E & _). rewrite E in Hd |- *.
    apply Forall_cons in Hd as [Hc _]. destruct (digit_not_special c Hc) as (_ & _ & _ & _ & _ & _ & Hm & _).
    cbn [app]. cbv beta iota. rewrite bool_decide_false by done. cbv beta iota. rewrite app_comm_cons, <- E.
    rewrite parse_int_part_digits, Hfrac, Hexp by done. rewrite Hval. do 2 f_equal. lia.
Qed.

(** *** Strings *)

(** Every character's escape reads back as that character. *)
Lemma parse_chars_escape c tail :
  parse_chars (escape c ++ tail) = option_map (fun '(s, r) => (c :: s, r)) (parse_chars tail).
Proof. destruct c as [[] [] [] [] [] [] [] []]; reflexivity. Qed.

Lemma parse_chars_print s rest : parse_chars (flat_map escape s ++ "034"%char :: rest) = Some (s, rest).
Proof.
  induction s as [|c s IH]; [reflexivity|]. cbn [flat_map].
  rewrite <- app_assoc, parse_chars_escape, IH. reflexivity.
Qed.

Lemma parse_string_print s rest : parse_string (print_str s ++ rest) = Some (s, rest).
Proof.
  unfold print_str. cbn [app]. unfold parse_string. rewrite bool_decide_true by done.
  rewrite <- app_assoc. apply parse_chars_print.
Qed.

(** *** Values *)

(** A bound on the recursion [parse_value] needs for [j]. *)
Fixpoint jsize (j : json) : nat :=
  match j with
  | JSArr xs => 2 + list_sum (List.map (fun x => 2 + jsize x) xs)
  | JSObj fs => 2 + list_sum (List.map (fun kv => 2 + jsize kv.2) fs)
  | _ => 1
  end.

(** What may follow a value inside a document. *)
Definition delim (rest : list ascii) : Prop :=
  forall c r, rest = c :: r -> c = ","%char \/ c = "]"%char \/ c = "}"%char.

Lemma delim_num rest : delim rest -> num_delim rest.
Proof. intros H c r E. destruct (H c r E) as [-> | [-> | ->]]; split_and!; done. Qed.

Lemma skip_ws_cons c r : is_ws c = false -> skip_ws (c :: r) = c :: r.
Proof. intros H. simpl. by rewrite H. Qed.

Lemma print_num_head m :
  exists c r, print_num m = c :: r /\ (c = "-"%char \/ is_digit c = true).
Proof.
  unfold print_num. destruct (Z.ltb_spec m 0); [by eexists _, _; split; [reflexivity|left]|].
  destruct (digits_spec (Z.abs m / 1000000) ltac:(apply Z.div_pos; lia)) as (_ & Hd & c & r & E & _).
  rewrite E in Hd |- *. apply Forall_cons in Hd as [Hc _].
  eexists _, _. split; [reflexivity|by right].
Qed.

(** A printed value starts with a character that is not whitespace nor
    a closing bracket nor a comma. *)
Lemma print_head j :
  exists c r, print j = c :: r /\ is_ws c = false /\ c <> "]"%char /\ c <> "}"%char /\ c <> ","%char.
Proof.
  destruct j as [| [] | m | s | xs | fs];
    try (eexists _, _; split; [reflexivity|]; split_and!; (discriminate || reflexivity)).
  destruct (print_num_head m) as (c & r & E & Hc). exists c, r. split; [exact E|].
  destruct Hc as [-> | Hc].
  - split_and!; (discriminate || reflexivity).
  - destruct (digit_not_special c Hc) as (_ & _ & _ & _ & _ & _ & _ & _ & _ & _ & ? & ? & ? & ?). done.
Qed.

(** [parse_value] reaches its number case on a character that is a
    digit or [-]. *)
Lemma parse_value_num f c r :
  c = "-"%char \/ is_digit c = true ->
  parse_value (S f) (c :: r) = option_map (fun '(m, r') => (JSNum m, r')) (parse_number (c :: r)).
Proof.
  intros Hc. assert (Hs : c <> "n"%char /\ c <> "t"%char /\ c <> "f"%char /\ c <> "034"%char /\
                          c <> "["%char /\ c <> "{"%char /\ is_ws c = false).
  { destruct Hc as [->|Hc]; [split_and!; (discriminate || reflexivity)|].
    destruct (digit_not_special c Hc) as (? & ? & ? & ? & ? & ? & _ & _ & _ & _ & _ & _ & _ & ?). done. }
  destruct Hs as (Hn & Ht & Hf & Hq & Hb & Hc' & Hw).
  cbn [parse_value]. rewrite skip_ws_cons by done. cbn [strip_prefix list_ascii_of_string after].
  by rewrite !bool_decide_false by done.
Qed.

(** [j] reads back from its text, whatever follows it in a document. *)
Definition reads_back (j : json) : Prop :=
  forall f rest, jsize j < f -> delim rest -> parse_value f (print j ++ rest) = Some (j, rest).

Lemma after_ws_same c X : is_ws c = false -> after c (skip_ws (c :: X)) = Some X.
Proof. intros H. rewrite skip_ws_cons by done. unfold after. simpl. by rewrite bool_decide_true. Qed.

Lemma after_ws_other c d X : is_ws d = false -> c <> d -> after c (skip_ws (d :: X)) = None.
Proof. intros H Hne. rewrite skip_ws_cons by done. unfold after. simpl. by rewrite bool_decide_false. Qed.

Lemma skip_ws_print_str k X : skip_ws (print_str k ++ X) = print_str k ++ X.
Proof. done. Qed.

Lemma sep_one l : sep [l] = l.
Proof. done. Qed.

Lemma sep_cons2 a b l : sep (a :: b :: l) = a ++ ","%char :: sep (b :: l).
Proof. done. Qed.

Lemma parse_elems_print xs :
  Forall reads_back xs -> xs <> [] ->
  forall f rest, list_sum (List.map (fun x => 2 + jsize x) xs) <= f ->
  parse_elems f (sep (List.map print xs) ++ "]"%char :: rest) = Some (xs, rest).
Proof.
  induction 1 as [|x xs Hx Hxs IH]; intros Hne f rest Hf; [done|].
  destruct f as [|f]; [simpl in Hf; lia|]. cbn [parse_elems].
  destruct xs as [|y ys].
  - cbn [List.map]. rewrite sep_one. rewrite Hx by (simpl in Hf; lia || (intros ? ? [= <- _]; auto)).
    cbv beta iota. rewrite after_ws_other, after_ws_same by done. done.
  - cbn [List.map]. rewrite sep_cons2, <- app_assoc. cbn [app].
    rewrite Hx by (simpl in Hf; lia || (intros ? ? [= <- _]; auto)).
    cbv beta iota. rewrite after_ws_same by done.
    change (print y :: List.map print ys) with (List.map print (y :: ys)).
    rewrite (IH ltac:(done) f rest) by (simpl in *; lia). done.
Qed.

Lemma parse_members_print fs :
  Forall (fun kv => reads_back kv.2) fs -> fs <> [] ->
  forall f rest, list_sum (List.map (fun kv => 2 + jsize kv.2) fs) <= f ->
  parse_members f (sep (List.map (fun kv => print_str kv.1 ++ ":"%char :: print kv.2) fs) ++
                   "}"%char :: rest) = Some (fs, rest).
Proof.
  induction 1 as [|[k v] fs Hv Hfs IH]; intros Hne f rest Hf; [done|].
  destruct f as [|f]; [simpl in Hf; lia|]. cbn [parse_members].
  destruct fs as [|kv' fs'].
  - cbn [List.map fst snd]. rewrite sep_one, <- app_assoc. cbn [app].
    rewrite skip_ws_print_str, parse_string_print. cbv beta iota.
    rewrite after_ws_same by done.
    rewrite Hv by (cbn in *; lia || (intros ? ? [= <- _]; auto)).
    cbv beta iota. rewrite after_ws_other, after_ws_same by done. done.
  - cbn [List.map fst snd]. rewrite sep_cons2, <- !app_assoc. cbn [app].
    rewrite skip_ws_print_str, parse_string_print. cbv beta iota.
    rewrite after_ws_same by done.
    rewrite Hv by (cbn in *; lia || (intros ? ? [= <- _]; auto)).
    cbv beta iota. rewrite after_ws_same by done.
    replace (sep ((print_str kv'.1 ++ ":"%char :: print kv'.2) ::
               List.map (fun kv => print_str kv.1 ++ ":"%char :: print kv.2) fs'))
      with (sep (List.map (fun kv => print_str kv.1 ++ ":"%char :: print kv.2) (kv' :: fs')))
      by reflexivity.
    rewrite (IH ltac:(done) f rest) by (simpl in *; lia). done.
Qed.

Lemma parse_value_str f X :
  parse_value (S f) ("034"%char :: X) = option_map (fun '(s, r') => (JSStr s, r')) (parse_chars X).
Proof. reflexivity. Qed.

Lemma parse_value_arr f X :
  parse_value (S f) ("["%char :: X) =
  match after "]"%char (skip_ws X) with
  | Some r' => Some (JSArr [], r')
  | None => option_map (fun '(xs, r') => (JSArr xs, r')) (parse_elems f X)
  end.
Proof. reflexivity. Qed.

Lemma parse_value_obj f X :
  parse_value (S f) ("{"%char :: X) =
  match after "}"%char (skip_ws X) with
  | Some r' => Some (JSObj [], r')
  | None => option_map (fun '(fs, r') => (JSObj fs, r')) (parse_members f X)
  end.
Proof. reflexivity. Qed.

Lemma sep_head c r ls : exists t, sep ((c :: r) :: ls) = c :: t.
Proof. destruct ls; eexists; reflexivity. Qed.

Lemma sep_length ls : list_sum (List.map (fun l => S (length l)) ls) <= S (length (sep ls)).
Proof.
  induction ls as [|l ls IH]; simpl; [lia|]. destruct ls as [|l' ls']; simpl in *; [lia|].
  rewrite length_app. simpl. lia.
Qed.

(** Every value reads back from its text. *)
Lemma parse_value_print j : reads_back j.
Proof.
  induction j as [| b | m | s | xs IH | fs IH] using json_ind_nested; intros f rest Hf Hr;
    (destruct f as [|f]; [simpl in Hf; lia|]).
  - reflexivity.
  - destruct b; reflexivity.
  - cbn [print]. destruct (print_num_head m) as (c & r & E & Hc). rewrite E. cbn [app].
    rewrite parse_value_num by done. rewrite app_comm_cons, <- E, parse_number_print; [done|].
    by apply delim_num.
  - cbn [print]. unfold print_str. cbn [app]. rewrite parse_value_str, <- app_assoc.
    cbn [app]. by rewrite parse_chars_print.
  - destruct xs as [|x xs']; [reflexivity|]. cbn [print]. cbn [app].
    rewrite parse_value_arr, <- app_assoc. cbn [app].
    destruct (print_head x) as (c & r & E & Hw & Hb & _ & _).
    cbn [List.map]. rewrite E. destruct (sep_head c r (List.map print xs')) as [t Et].
    rewrite Et. cbn [app]. rewrite after_ws_other by done. rewrite app_comm_cons, <- Et, <- E.
    change (print x :: List.map print xs') with (List.map print (x :: xs')).
    rewrite (parse_elems_print (x :: xs') IH ltac:(done) f rest) by (cbn [jsize] in Hf; lia). done.
  - destruct fs as [|[k v] fs']; [reflexivity|]. cbn [print]. cbn [app].
    rewrite parse_value_obj, <- app_assoc. cbn [app List.map fst snd].
    assert (Eh : print_str k ++ ":"%char :: print v =
                 "034"%char :: ((flat_map escape k ++ ["034"%char]) ++ ":"%char :: print v))
      by reflexivity.
    rewrite Eh. destruct (sep_head "034"%char ((flat_map escape k ++ ["034"%char]) ++ ":"%char :: print v)
      (List.map (fun kv => print_str kv.1 ++ ":"%char :: print kv.2) fs')) as [t Et].
    rewrite Et. cbn [app]. rewrite after_ws_other by done. rewrite app_comm_cons, <- Et, <- Eh.
    change ((print_str k ++ ":"%char :: print v) ::
            List.map (fun kv => print_str kv.1 ++ ":"%char :: print kv.2) fs')
      with (List.map (fun kv => print_str kv.1 ++ ":"%char :: print kv.2) ((k, v) :: fs')).
    rewrite (parse_members_print ((k, v) :: fs') IH ltac:(done) f rest) by (cbn [jsize] in Hf; lia).
    done.
Qed.

Lemma print_length_pos j : 1 <= length (print j).
Proof. destruct (print_head j) as (c & r & E & _). rewrite E. simpl. lia. Qed.

Lemma jsize_le_print j : jsize j <= 2 * length (print j).
Proof.
  induction j as [| b | m | s | xs IH | fs IH] using json_ind_nested.
  - simpl. lia.
  - destruct b; simpl; lia.
  - pose proof (print_length_pos (JSNum m)). simpl in *. lia.
  - pose proof (print_length_pos (JSStr s)). simpl in *. lia.
  - cbn [jsize print]. simpl length. rewrite length_app. simpl length.
    pose proof (sep_length (List.map print xs)) as Hsep. rewrite map_map in Hsep.
    enough (list_sum (List.map (fun x => 2 + jsize x) xs) <=
            2 * list_sum (List.map (fun x => S (length (print x))) xs)) by lia.
    clear Hsep. induction IH as [|x xs Hx _ IHxs]; simpl in *; lia.
  - cbn [jsize print length]. rewrite length_app. cbn [length].
    pose proof (sep_length (List.map (fun kv => print_str kv.1 ++ ":"%char :: print kv.2) fs))
      as Hsep. rewrite map_map in Hsep. cbv beta in Hsep.
    enough (list_sum (List.map (fun kv => 2 + jsize kv.2) fs) <=
            2 * list_sum (List.map (fun kv => S (length (print_str kv.1 ++ ":"%char :: print kv.2))) fs))
      by lia.
    clear Hsep. induction IH as [|[k v] fs Hv _ IHfs]; simpl in *; [lia|].
    rewrite length_app. simpl. lia.
Qed.

(** [JSON.parse(JSON.stringify-text of j)] gives back [j]: the text
    [print] writes for any JSON value parses to that value. *)
Theorem json_roundtrip j : parse (print j) = Some j.
Proof.
  unfold parse. pose proof (jsize_le_print j) as Hs.
  rewrite <- (app_nil_r (print j)) at 2.
  rewrite parse_value_print; [done|lia|intros c r [=]].
Qed.

(** [JSON.parse(JSON.stringify(v))] is the JSON value of [v]. *)
Corollary stringify_parse v text :
  stringify v = Some text -> exists j, to_json v = Some j /\ json_parse text = Some j.
Proof.
  unfold stringify, json_parse. destruct (to_json v) as [j|]; [|discriminate].
  intros [= <-]. exists j. split; [done|]. by rewrite list_ascii_of_string_of_list_ascii, json_roundtrip.
Qed.

(** ** What [JSON.parse] does to the store *)

(** The store after [n] fresh object identities. *)
Definition bumps (n : nat) (s : store) : store :=
  mk_store (vals s) (subs s) (n + next s) (clock s) (timers s) (pendings s) (storage s) (trace s).

Lemma bumps_0 s : bumps 0 s = s.
Proof. by destruct s. Qed.

Lemma bump_bumps n s : bump (bumps n s) = bumps (S n) s.
Proof. reflexivity. Qed.

Lemma bumps_bumps m n s : bumps m (bumps n s) = bumps (m + n) s.
Proof. unfold bumps. simpl. f_equal. lia. Qed.

Lemma bumps_bump n s : bumps n (bump s) = bumps (n + 1) s.
Proof. unfold bumps. simpl. f_equal. lia. Qed.

#[export] Hint Rewrite bumps_0 bump_bumps bumps_bumps bumps_bump : store_simpl.

(** The values that are JSON data: [null], booleans, numbers, strings,
    and arrays and objects of JSON data.  [undefined], [NaN], functions,
    signals and errors are not. *)
Fixpoint json_typed (v : jsval) : bool :=
  match v with
  | JNull | JBool _ | JNum _ | JStr _ => true
  | JArr _ xs => (fix go (l : list jsval) : bool :=
                    match l with [] => true | x :: l' => json_typed x && go l' end) xs
  | JObj _ fs => (fix go (l : list (string * jsval)) : bool :=
                    match l with [] => true | (_, x) :: l' => json_typed x && go l' end) fs
  | _ => false
  end.

Definition fields_typed (fs : list (string * jsval)) : bool := json_typed (JObj 0 fs).

Lemma set_field_typed fs k x :
  fields_typed fs = true -> json_typed x = true -> fields_typed (set_field fs k x) = true.
Proof.
  unfold fields_typed, set_field. simpl. intros Hfs Hx.
  destruct (existsb _ fs).
  - induction fs as [|[k' x'] fs IH]; simpl in *; [done|].
    apply andb_true_iff in Hfs as [H1 H2]. destruct (String.eqb k' k); simpl; rewrite ?Hx, ?H1; simpl; auto.
  - induction fs as [|[k' x'] fs IH]; simpl in *; [by rewrite Hx|].
    apply andb_true_iff in Hfs as [H1 H2]. rewrite H1. simpl. auto.
Qed.

(** The type of [JSON.parse]'s result.  Building the JS value of any
    JSON text's value takes fresh object identities and nothing else,
    and yields JSON data: never [undefined], [NaN], a function, a signal
    or an error, at any depth. *)
Theorem of_json_typed j s : exists v n, returns (of_json j) s v (bumps n s) /\ json_typed v = true.
Proof.
  revert s. induction j as [| b | m | str | xs IH | fs IH] using json_ind_nested; intros s;
    try (eexists _, 0; rewrite bumps_0; split; [apply returns_ret|done]).
  - assert (Hgo : forall s0, exists vs n, returns ((fix go (l : list json) : M (list jsval) :=
                    match l with
                    | [] => cret []
                    | x :: l' => v <- of_json x ;; vs <- go l' ;; cret (v :: vs)
                    end) xs) s0 vs (bumps n s0) /\ json_typed (JArr 0 vs) = true).
    { induction IH as [|x xs' Hx _ IHxs]; intros s0.
      - exists [], 0. rewrite bumps_0. split; [apply returns_ret|done].
      - destruct (Hx s0) as (v & n & Hv & Htv). destruct (IHxs (bumps n s0)) as (vs & n' & Hvs & Htvs).
        exists (v :: vs), (n' + n). rewrite <- bumps_bumps. split.
        + eapply returns_bind; [exact Hv|]. eapply returns_bind; [exact Hvs|apply returns_ret].
        + simpl in *. by rewrite Htv, Htvs. }
    destruct (Hgo (bump s)) as (vs & n & Hvs & Htvs). exists (JArr (next s) vs), (n + 1). split; [|done].
    cbn [of_json]. eapply returns_bind; [apply returns_new_id|].
    eapply returns_bind; [exact Hvs|]. rewrite bumps_bump. apply returns_ret.
  - assert (Hgo : forall s0 acc, fields_typed acc = true -> exists vs n,
               returns ((fix go (l : list (list ascii * json)) (acc : list (string * jsval))
                           : M (list (string * jsval)) :=
                   match l with
                   | [] => cret acc
                   | (k, x) :: l' => v <- of_json x ;; go l' (set_field acc (string_of_list_ascii k) v)
                   end) fs acc) s0 vs (bumps n s0) /\ fields_typed vs = true).
    { induction IH as [|[k x] fs' Hx _ IHfs]; intros s0 acc Hacc.
      - exists acc, 0. rewrite bumps_0. split; [apply returns_ret|done].
      - destruct (Hx s0) as (v & n & Hv & Htv).
        destruct (IHfs (bumps n s0) (set_field acc (string_of_list_ascii k) v)) as (vs & n' & Hvs & Htvs);
          [by apply set_field_typed|].
        exists vs, (n' + n). rewrite <- bumps_bumps. split; [|done].
        eapply returns_bind; [exact Hv|exact Hvs]. }
    destruct (Hgo (bump s) [] eq_refl) as (vs & n & Hvs & Htvs). exists (JObj (next s) vs), (n + 1). split; [|exact Htvs].
    cbn [of_json]. eapply returns_bind; [apply returns_new_id|].
    eapply returns_bind; [exact Hvs|]. rewrite bumps_bump. apply returns_ret.
Qed.

(** ** [JSON.parse] gives back the JSON value it read

    A JS object has distinct keys; a JSON text may repeat one, which
    [JSON.parse] merges.  On JSON values whose objects have distinct
    keys, the JS value [of_json] builds converts back to the same JSON
    value. *)

Fixpoint keys_nodup (j : json) : bool :=
  match j with
  | JSArr xs => (fix go (l : list json) : bool :=
                   match l with [] => true | x :: l' => keys_nodup x && go l' end) xs
  | JSObj fs => bool_decide (NoDup (List.map fst fs)) &&
                (fix go (l : list (list ascii * json)) : bool :=
                   match l with [] => true | (_, x) :: l' => keys_nodup x && go l' end) fs
  | _ => true
  end.

(** The fields [JSON.stringify] writes for an object. *)
Fixpoint to_json_fields (l : list (string * jsval)) : list (list ascii * json) :=
  match l with
  | [] => []
  | (k, x) :: l' =>
      match to_json x with
      | Some j => (list_ascii_of_string k, j) :: to_json_fields l'
      | None => to_json_fields l'
      end
  end.

Lemma to_json_obj i fs : to_json (JObj i fs) = Some (JSObj (to_json_fields fs)).
Proof. reflexivity. Qed.

(** A JS field and the JSON field it is written as. *)
Definition field_rel (kv : string * jsval) (kj : list ascii * json) : Prop :=
  list_ascii_of_string kv.1 = kj.1 /\ to_json kv.2 = Some kj.2.

Lemma to_json_fields_rel acc pre : Forall2 field_rel acc pre -> to_json_fields acc = pre.
Proof.
  induction 1 as [|[k x] [k' j] acc pre [Hk Hx] _ IH]; [done|]. simpl in *.
  by rewrite Hx, Hk, IH.
Qed.

Lemma field_rel_key acc pre k :
  Forall2 field_rel acc pre ->
  existsb (fun kv => String.eqb kv.1 (string_of_list_ascii k)) acc = true -> In k (List.map fst pre).
Proof.
  induction 1 as [|[k1 x] [k2 j] acc pre [Hk _] _ IH]; [done|]. simpl in *.
  intros [Heq%String.eqb_eq|Hin]%orb_true_iff; [left|right; auto].
  rewrite <- Hk, Heq. apply list_ascii_of_string_of_list_ascii.
Qed.

Lemma set_field_fresh fs k x :
  existsb (fun kv => String.eqb kv.1 k) fs = false -> set_field fs k x = fs ++ [(k, x)].
Proof. unfold set_field. by intros ->. Qed.

Lemma of_json_to_json j s :
  keys_nodup j = true -> exists v n, returns (of_json j) s v (bumps n s) /\ to_json v = Some j.
Proof.
  revert s. induction j as [| b | m | str | xs IH | fs IH] using json_ind_nested; intros s Hk;
    try (eexists _, 0; rewrite bumps_0; split; [apply returns_ret|done]).
  - eexists _, 0. rewrite bumps_0. split; [apply returns_ret|]. simpl.
    by rewrite list_ascii_of_string_of_list_ascii.
  - assert (Hgo : forall s0, exists vs n, returns ((fix go (l : list json) : M (list jsval) :=
                    match l with
                    | [] => cret []
                    | x :: l' => v <- of_json x ;; vs <- go l' ;; cret (v :: vs)
                    end) xs) s0 vs (bumps n s0) /\
                    (fix go (l : list jsval) : list json :=
                      match l with [] => [] | x :: l' => default JSNull (to_json x) :: go l' end) vs = xs).
    { simpl in Hk. induction IH as [|x xs' Hx _ IHxs]; intros s0.
      - exists [], 0. rewrite bumps_0. split; [apply returns_ret|done].
      - apply andb_true_iff in Hk as [Hk1 Hk2].
        destruct (Hx s0 Hk1) as (v & n & Hv & Htv). destruct (IHxs Hk2 (bumps n s0)) as (vs & n' & Hvs & Htvs).
        exists (v :: vs), (n' + n). rewrite <- bumps_bumps. split.
        + eapply returns_bind; [exact Hv|]. eapply returns_bind; [exact Hvs|apply returns_ret].
        + simpl. by rewrite Htv, Htvs. }
    destruct (Hgo (bump s)) as (vs & n & Hvs & Htvs). exists (JArr (next s) vs), (n + 1). split.
    + cbn [of_json]. eapply returns_bind; [apply returns_new_id|].
      eapply returns_bind; [exact Hvs|]. rewrite bumps_bump. apply returns_ret.
    + simpl. by rewrite Htvs.
  - simpl in Hk. apply andb_true_iff in Hk as [Hnd%bool_decide_eq_true Hk].
    assert (Hgo : forall fs' s0 acc pre, Forall (fun kv => forall s, keys_nodup kv.2 = true ->
                     exists v n, returns (of_json kv.2) s v (bumps n s) /\ to_json v = Some kv.2) fs' ->
               (fix go (l : list (list ascii * json)) : bool :=
                  match l with [] => true | (_, x) :: l' => keys_nodup x && go l' end) fs' = true ->
               NoDup (List.map fst (pre ++ fs')) -> Forall2 field_rel acc pre ->
               exists vs n,
               returns ((fix go (l : list (list ascii * json)) (acc : list (string * jsval))
                           : M (list (string * jsval)) :=
                   match l with
                   | [] => cret acc
                   | (k, x) :: l' => v <- of_json x ;; go l' (set_field acc (string_of_list_ascii k) v)
                   end) fs' acc) s0 vs (bumps n s0) /\ to_json_fields vs = pre ++ fs').
    { induction fs' as [|[k x] fs' IHfs]; intros s0 acc pre Hall Hks Hnd' Hrel.
      - exists acc, 0. rewrite bumps_0, app_nil_r. split; [apply returns_ret|]. by apply to_json_fields_rel.
      - inversion Hall as [|? ? Hx Hall']; subst. simpl in Hks. apply andb_true_iff in Hks as [Hk1 Hk2].
        destruct (Hx s0 Hk1) as (v & n & Hv & Htv).
        assert (Hfresh : existsb (fun kv => String.eqb kv.1 (string_of_list_ascii k)) acc = false).
        { apply not_true_iff_false. intros Hin%(field_rel_key acc pre k Hrel).
          rewrite List.map_app in Hnd'. simpl in Hnd'.
          apply NoDup_app in Hnd' as (_ & Hdis & _).
          apply (Hdis k); [by apply list_elem_of_In|by left]. }
        destruct (IHfs (bumps n s0) (acc ++ [(string_of_list_ascii k, v)]) (pre ++ [(k, x)]) Hall' Hk2)
          as (vs & n' & Hvs & Htvs).
        { by rewrite <- app_assoc. }
        { apply Forall2_app; [done|]. constructor; [|constructor].
          split; [apply list_ascii_of_string_of_list_ascii|done]. }
        exists vs, (n' + n). rewrite <- bumps_bumps. split.
        + eapply returns_bind; [exact Hv|]. rewrite set_field_fresh by done. exact Hvs.
        + by rewrite Htvs, <- app_assoc. }
    destruct (Hgo fs (bump s) [] [] IH Hk Hnd ltac:(constructor))  as (vs & n & Hvs & Htvs).
    exists (JObj (next s) vs), (n + 1). split.
    + cbn [of_json]. eapply returns_bind; [apply returns_new_id|].
      eapply returns_bind; [exact Hvs|]. rewrite bumps_bump. apply returns_ret.
    + by rewrite to_json_obj, Htvs.
Qed.

(** ** [parseInt] reads back what [String(n)] wrote *)

(** A decimal digit [String(n)] writes is no space, sign or [x]. *)
Lemma pretty_N_char_digit d :
  (d < 10)%N ->
  hex_val (pretty_N_char d) = Some (N.to_nat d) /\ is_js_space (pretty_N_char d) = false /\
  pretty_N_char d <> "-"%char /\ pretty_N_char d <> "+"%char /\
  pretty_N_char d <> "x"%char /\ pretty_N_char d <> "X"%char.
Proof.
  intros Hd. assert (d = 0 \/ d = 1 \/ d = 2 \/ d = 3 \/ d = 4 \/ d = 5 \/ d = 6 \/ d = 7 \/
                     d = 8 \/ d = 9)%N as Hcases by lia.
  repeat destruct Hcases as [->|Hcases]; subst; vm_compute; split_and!; congruence.
Qed.

Definition is_pretty_digit (c : ascii) : Prop := exists d, (d < 10)%N /\ c = pretty_N_char d.

(** [pretty_N_go x s] puts the digits of [x] in front of [s], and they
    read as [x] in front of whatever [radix_digits] had read. *)
Lemma pretty_N_go_digits x s :
  exists ds, list_ascii_of_string (pretty_N_go x s) = ds ++ list_ascii_of_string s /\
             Forall is_pretty_digit ds /\ ((0 < x)%N -> ds <> []).
Proof.
  revert s. induction (N.lt_wf_0 x) as [x _ IH]; intros s.
  destruct (N.eq_dec x 0%N) as [->|Hx].
  - exists []. rewrite pretty_N_go_0. split_and!; [done|constructor|lia].
  - rewrite pretty_N_go_step by lia.
    destruct (IH (x `div` 10)%N ltac:(apply N.div_lt; lia) (String (pretty_N_char (x `mod` 10)) s))
      as (ds & Hds & Hall & _).
    exists (ds ++ [pretty_N_char (x `mod` 10)]). rewrite Hds, <- app_assoc. split_and!; [done| |].
    + apply Forall_app. split; [done|]. constructor; [|constructor].
      exists (x `mod` 10)%N. split; [apply N.mod_lt; lia|done].
    + intros _. destruct ds; discriminate.
Qed.

Lemma radix_digits_pretty_N_go x s acc :
  (0 < x)%N ->
  exists k, radix_digits 10 (list_ascii_of_string (pretty_N_go x s)) acc =
            radix_digits 10 (list_ascii_of_string s) (Some (default 0 acc * 10 ^ Z.of_nat k + Z.of_N x))%Z.
Proof.
  revert s acc. induction (N.lt_wf_0 x) as [x _ IH]; intros s acc Hx.
  rewrite pretty_N_go_step by done.
  destruct (pretty_N_char_digit (x `mod` 10)%N ltac:(apply N.mod_lt; lia)) as (Hv & _).
  assert (Hstep : forall a, radix_digits 10 (list_ascii_of_string (String (pretty_N_char (x `mod` 10)) s)) a =
            radix_digits 10 (list_ascii_of_string s) (Some (default 0 a * 10 + Z.of_N (x `mod` 10)))%Z).
  { intros a. simpl. rewrite Hv. rewrite (proj2 (Nat.ltb_lt _ 10)) by (pose proof (N.mod_lt x 10); lia).
    do 3 f_equal. lia. }
  pose proof (N.div_mod x 10 ltac:(lia)).
  destruct (N.eq_dec (x `div` 10)%N 0%N) as [H0|H0].
  - exists 1%nat. rewrite H0, pretty_N_go_0, Hstep. do 2 f_equal. lia.
  - assert (Hpos : (0 < x `div` 10)%N) by (apply N.neq_0_lt_0; exact H0).
    destruct (IH (x `div` 10)%N ltac:(apply N.div_lt; lia) (String (pretty_N_char (x `mod` 10)) s) acc
      Hpos) as [k Hk].
    exists (S k). rewrite Hk, Hstep. simpl default. do 2 f_equal.
    rewrite Nat2Z.inj_succ, Z.pow_succ_r by lia. lia.
Qed.

Lemma parse_int_pretty (n : Z) : (0 <= n)%Z -> parse_int (pretty n) = Some n.
Proof.
  intros Hn. destruct n as [|p|p]; [done| |lia].
  change (pretty (Z.pos p)) with (pretty_N_go (N.pos p) "").
  destruct (radix_digits_pretty_N_go (N.pos p) "" None ltac:(lia)) as [k Hk].
  destruct (pretty_N_go_digits (N.pos p) "") as (ds & Hds & Hall & Hne).
  unfold parse_int. rewrite Hds in *. rewrite app_nil_r in *. simpl in Hk.
  destruct ds as [|c ds]; [by destruct (Hne eq_refl)|].
  inversion Hall as [|? ? (d & Hd & ->) Hall']; subst.
  destruct (pretty_N_char_digit d Hd) as (_ & Hsp & Hm & Hp & _).
  simpl. rewrite Hsp. rewrite !bool_decide_false by done.
  assert (Hv : radix_digits 10 (pretty_N_char d :: ds) None = Some (Z.pos p)) by (rewrite Hk; simpl; f_equal; lia).
  destruct ds as [|c' ds]; [by rewrite Hv|].
  inversion Hall' as [|? ? (d' & Hd' & ->) _]; subst.
  destruct (pretty_N_char_digit d' Hd') as (_ & _ & _ & _ & Hx & HX).
  rewrite (bool_decide_false (pretty_N_char d' = "x"%char)), (bool_decide_false (pretty_N_char d' = "X"%char)) by done.
  rewrite andb_false_r. by rewrite Hv.
Qed.
