(* ===== verification/Signal.v ===== *)
(** * The reactive container: [src/src/core/signal.ts]

    A signal is a cell of the engine: [current] is its value and
    [subscribers] its entry list.  [_set] is the only writer; it compares
    with [!==] and runs [notify].  [map] derives a signal and subscribes
    a closure that pushes [f(newValue)] into it. *)

From Stdlib Require Import ZArith String.
From stdpp Require Import base list gmap.
From S2P Require Import Prelude JsValue Engine.

Local Open Scope resig_scope.

Module Signal.

(** [signal(initial)] (lines 18-20, 54): a new object whose [current]
    is [initial] and whose subscriber set is empty. *)
Definition signal (initial : jsval) : M nat := alloc initial.

(** [value: () => current] (line 27). *)
Definition value (c : nat) : M jsval := read c.

(** The argument [notify] passes: [current], read when each subscriber
    is called. *)
Definition current_of (c : nat) (vs : gmap nat jsval) (_ : nat) : jsval :=
  default JUndef (vs !! c).

(** [notify] (lines 22-24): [subscribers.forEach(fn => fn(current))]. *)
Definition notify (c : nat) : M unit := notify_with c (current_of c).

(** [_set] (lines 46-51). *)
Definition _set (c : nat) (v : jsval) : M unit :=
  current <- value c ;;
  if negb (js_same v current) then assign c v ;;; notify c else cret tt.

(** [subscribe] (lines 41-44): add [fn], return the closure that
    deletes it. *)
Definition subscribe (c : nat) (fn : jsval -> M unit) : M (M unit) :=
  h <- subscribe_raw c (fun v => body (fn v)) ;;
  cret (unsubscribe_raw c h).

(** A JS function passed to [map] runs arbitrary code (it may read
    signals or allocate objects) and returns a value: [jsval -> M jsval].
    [lift g] is a function without effects. *)
Definition lift (g : jsval -> jsval) : jsval -> M jsval := fun v => cret (g v).

(** The closure [map] subscribes (lines 34-36). *)
Definition map_listener (derived : nat) (f : jsval -> M jsval) : jsval -> prog :=
  fun newValue => body (fv <- f newValue ;; _set derived fv).

(** [map] (lines 29-39). *)
Definition map (c : nat) (f : jsval -> M jsval) : M nat :=
  current <- value c ;;
  fc <- f current ;;
  derived <- signal fc ;;
  _ <- subscribe c (fun newValue => fv <- f newValue ;; _set derived fv) ;;
  cret derived.

(** [id] (line 60), [compose] (line 65), [pure] (line 70). *)
Definition id (a : jsval) : jsval := a.
Definition compose (f g : jsval -> jsval) : jsval -> jsval := fun a => f (g a).
Definition pure (v : jsval) : M nat := signal v.

(** Every stamp of the subscriber lists is below the counter. *)
Definition stamps_fresh (s : store) : Prop :=
  map_Forall (fun _ l => Forall (fun e : entry => e.1 < next s) l) (subs s).

(** The scenario of the specification: [create(5).map(x => x * 2)], a
    client subscribed to the mapped signal, then the base set to [10]. *)
Definition scenario_map : prog :=
  body (c <- signal (num 5) ;;
        d <- map c (lift (js_scale 2)) ;;
        _ <- subscribe d (callback 7) ;;
        _set c (num 10)).

(** ** Running [_set] *)

Lemma set_unfold c v k s s' :
  big (_set c v k) s s' <->
  if js_same v (cur s c) then big (k tt) s s'
  else big (Notify c (current_of c) (k tt)) (assign_cell c v s) s'.
Proof.
  unfold _set, value, read, cbind, assign, notify, notify_with. rewrite big_read_iff.
  destruct (js_same v (cur s c)); simpl; [done|]. by rewrite big_assign_iff.
Qed.

(** C4: change suppression.  [_set] with a value that is [===] to the
    current one changes nothing and notifies no subscriber: the run
    continues in the same store. *)
Theorem set_same_noop c v k s s' :
  js_same v (cur s c) = true ->
  big (_set c v k) s s' <-> big (k tt) s s'.
Proof. intros H. rewrite set_unfold, H. done. Qed.

(** C5: a changed value is stored first, then every subscriber is
    called in insertion order with the new [current]. *)
Theorem set_changed c v k s s' :
  js_same v (cur s c) = false ->
  big (_set c v k) s s' <->
  exists s1, big_notify c (current_of c) 0 (assign_cell c v s) s1 /\ big (k tt) s1 s'.
Proof. intros H. rewrite set_unfold, H, big_notify_iff. done. Qed.

(** NaN is a primitive value that is not [===] to itself, so [_set]
    with NaN on a signal holding NaN notifies its subscribers again. *)
Theorem set_NaN_renotifies c h fn s :
  cur s c = JNaN ->
  subs_of s c = [(h, fun v => body (callback fn v))] ->
  exists s', big (body (_set c JNaN)) s s' /\ trace s' = trace s ++ [OCall fn JNaN].
Proof.
  intros Hc Hs. eexists. split.
  - unfold body. rewrite set_unfold, Hc, js_same_NaN, big_notify_iff. eexists. split; [|constructor].
    eapply bn_step.
    + unfold subs_of in *. simpl. rewrite Hs. apply next_entry_cons_ge. lia.
    + unfold callback, emit, body. constructor. constructor.
    + apply bn_end. unfold subs_of in *. simpl. rewrite Hs.
      rewrite next_entry_cons_lt by lia. apply next_entry_nil.
  - unfold current_of. simpl. by rewrite lookup_insert_eq.
Qed.

(** the scenario of the specification: after the base is set to
    [10], the mapped signal holds [20] and its subscriber was called
    once, with [20]. *)
Example scenario_map_run :
  exists s', big scenario_map (init_store 0) s' /\
             cur s' 1 = num 20 /\ trace s' = [OCall 7 (num 20)].
Proof.
  exists (default (init_store 0) (exec 20 scenario_map (init_store 0))).
  split; [|split; vm_compute; reflexivity].
  apply (exec_big 20). vm_compute. reflexivity.
Qed.

(** ** Subscribing and unsubscribing *)

(** [subscribe] then calling the returned closure restores the
    subscriber set of an allocated signal. *)
Theorem subscribe_unsubscribe c fn l s :
  subs s !! c = Some l -> stamps_fresh s ->
  subs (del_entry c (next s) (add_entry c (fun v => body (fn v)) s)) = subs s.
Proof.
  intros Hc Hf. unfold del_entry, add_entry, subs_of, with_subs, bump; simpl.
  rewrite lookup_insert_eq, insert_insert_eq, Hc; simpl.
  rewrite filter_app, filter_cons_False by (simpl; lia). rewrite app_nil_r.
  rewrite filter_Forall_id.
  - by apply insert_id.
  - eapply Forall_forall. intros e He. specialize (Hf c l Hc).
    rewrite Forall_forall in Hf. apply Hf in He. simpl. lia.
Qed.

Lemma subscribe_run c fn k s s' :
  big (subscribe c fn k) s s' <->
  big (k (unsubscribe_raw c (next s))) (add_entry c (fun v => body (fn v)) s) s'.
Proof. unfold subscribe, subscribe_raw, cbind, cret. apply big_subscribe_iff. Qed.

(** [map] with a function [g] allocates the derived signal seeded
    with [g(current)], subscribes the closure that writes [g(newValue)]
    into it, and returns it. *)
Theorem map_run c g k s s' :
  big (map c (lift g) k) s s' <->
  big (k (next s)) (add_entry c (map_listener (next s) (lift g)) (alloc_cell (g (cur s c)) s)) s'.
Proof.
  unfold map, lift, value, signal, read, alloc, subscribe, subscribe_raw, cbind, cret.
  by rewrite big_read_iff, big_alloc_iff, big_subscribe_iff.
Qed.

(** ** Signal operations as returning computations *)

Lemma cur_alloc_new v s : cur (alloc_cell v s) (next s) = v.
Proof. unfold cur. by rewrite vals_alloc, lookup_insert_eq. Qed.

Lemma cur_alloc_old s v x : x < next s -> cur (alloc_cell v s) x = cur s x.
Proof. intros Hx. unfold cur. rewrite vals_alloc, lookup_insert_ne by lia. done. Qed.

Lemma cur_add_entry s c l x : cur (add_entry c l s) x = cur s x.
Proof. done. Qed.

Lemma cur_bump s x : cur (bump s) x = cur s x.
Proof. done. Qed.

Lemma next_alloc_le s v : next s < next (alloc_cell v s).
Proof. simpl. lia. Qed.

#[export] Hint Rewrite cur_alloc_new cur_add_entry cur_bump : store_simpl.

Lemma returns_value c s : returns (value c) s (cur s c) s.
Proof. apply returns_read. Qed.

Lemma returns_signal v s : returns (signal v) s (next s) (alloc_cell v s).
Proof. apply returns_alloc. Qed.

Lemma returns_subscribe c fn s :
  returns (subscribe c fn) s (unsubscribe_raw c (next s)) (add_entry c (fun v => body (fn v)) s).
Proof. intros k s'. apply subscribe_run. Qed.

Lemma returns_set_same c v s : js_same v (cur s c) = true -> returns (_set c v) s tt s.
Proof. intros H k s'. by rewrite set_unfold, H. Qed.

Lemma returns_set_changed c v s s1 :
  js_same v (cur s c) = false -> big_notify c (current_of c) 0 (assign_cell c v s) s1 ->
  returns (_set c v) s tt s1.
Proof.
  intros H Hn k s'. rewrite set_unfold, H, big_notify_iff. split.
  - intros (s2 & Hn2 & Hk). assert (s2 = s1) as -> by
      (eapply big_det; [econstructor; [exact Hn2|constructor]|econstructor; [exact Hn|constructor]]).
    done.
  - intros Hk. eauto.
Qed.

Lemma subs_of_alloc_new s v : subs_of (alloc_cell v s) (next s) = [].
Proof. unfold subs_of. by rewrite subs_alloc, lookup_insert_eq. Qed.

Lemma subs_of_alloc_old s v x : x <> next s -> subs_of (alloc_cell v s) x = subs_of s x.
Proof. intros Hx. unfold subs_of. by rewrite subs_alloc, lookup_insert_ne. Qed.

Lemma subs_of_add_entry_eq s c l : subs_of (add_entry c l s) c = subs_of s c ++ [(next s, l)].
Proof. unfold subs_of. by rewrite subs_add_entry, lookup_insert_eq. Qed.

Lemma subs_of_add_entry_ne s c l x : x <> c -> subs_of (add_entry c l s) x = subs_of s x.
Proof. intros Hx. unfold subs_of. by rewrite subs_add_entry, lookup_insert_ne. Qed.

Lemma subs_of_assign s c v x : subs_of (assign_cell c v s) x = subs_of s x.
Proof. done. Qed.

Lemma subs_of_bump s x : subs_of (bump s) x = subs_of s x.
Proof. done. Qed.

Lemma cur_assign_other s c v x : x <> c -> cur (assign_cell c v s) x = cur s x.
Proof. apply cur_assign_ne. Qed.

#[export] Hint Rewrite subs_of_alloc_new subs_of_add_entry_eq subs_of_assign subs_of_bump
  cur_assign_eq : store_simpl.

Lemma current_of_assign c v s n : current_of c (vals (assign_cell c v s)) n = v.
Proof. unfold current_of. by rewrite vals_assign, lookup_insert_eq. Qed.

#[export] Hint Rewrite current_of_assign : store_simpl.

(** The store [_set c v] leaves when [c] has no subscriber. *)
Definition set_quiet (c : nat) (v : jsval) (s : store) : store :=
  if js_same v (cur s c) then s else assign_cell c v s.

Lemma returns_set_quiet c v s : subs_of s c = [] -> returns (_set c v) s tt (set_quiet c v s).
Proof.
  intros Hs. unfold set_quiet. destruct (js_same v (cur s c)) eqn:E.
  - by apply returns_set_same.
  - apply returns_set_changed; [done|]. apply bn_end.
    by rewrite subs_of_assign, Hs, next_entry_nil.
Qed.

Lemma cur_set_quiet_eq c v s : cur (set_quiet c v s) c = v.
Proof.
  unfold set_quiet. destruct (js_same v (cur s c)) eqn:E.
  - symmetry. by apply js_same_eq.
  - apply cur_assign_eq.
Qed.

Lemma cur_set_quiet_ne c v s x : x <> c -> cur (set_quiet c v s) x = cur s x.
Proof. intros Hx. unfold set_quiet. case_goal; [done|]. by apply cur_assign_ne. Qed.

Lemma subs_of_set_quiet c v s x : subs_of (set_quiet c v s) x = subs_of s x.
Proof. unfold set_quiet. by case_goal. Qed.

Lemma next_set_quiet c v s : next (set_quiet c v s) = next s.
Proof. unfold set_quiet. by case_goal. Qed.

Lemma subs_of_add_pending fn arg ok err s x : subs_of (add_pending fn arg ok err s) x = subs_of s x.
Proof. reflexivity. Qed.

Lemma cur_add_pending fn arg ok err s x : cur (add_pending fn arg ok err s) x = cur s x.
Proof. reflexivity. Qed.

#[export] Hint Rewrite subs_of_add_pending cur_add_pending : store_simpl.

Lemma trace_set_quiet c v s : trace (set_quiet c v s) = trace s.
Proof. unfold set_quiet. by case_goal. Qed.

Lemma pendings_set_quiet c v s : pendings (set_quiet c v s) = pendings s.
Proof. unfold set_quiet. by case_goal. Qed.

Lemma storage_set_quiet c v s : storage (set_quiet c v s) = storage s.
Proof. unfold set_quiet. by case_goal. Qed.

#[export] Hint Rewrite cur_set_quiet_eq subs_of_set_quiet next_set_quiet
  trace_set_quiet pendings_set_quiet storage_set_quiet : store_simpl.

(** [map] with any function: the function runs once, on the current
    value, before the derived signal is allocated. *)
Lemma returns_map c f s v1 s1 :
  returns (f (cur s c)) s v1 s1 ->
  returns (map c f) s (next s1)
    (add_entry c (fun x => body (fv <- f x ;; _set (next s1) fv)) (alloc_cell v1 s1)).
Proof.
  intros Hf. unfold map. eapply returns_bind; [apply returns_value|].
  eapply returns_bind; [exact Hf|].
  eapply returns_bind; [apply returns_signal|].
  eapply returns_bind; [apply returns_subscribe|]. apply returns_ret.
Qed.

(** [_set] of a new value on a signal with one subscriber [l]: [l]
    runs with the new value, and the walk ends when [l] added no later
    subscriber. *)
Lemma returns_set_one c v h l s s1 :
  js_same v (cur s c) = false -> subs_of s c = [(h, l)] ->
  big (l v) (bump (assign_cell c v s)) s1 -> next_entry (S h) (subs_of s1 c) = None ->
  returns (_set c v) s tt s1.
Proof.
  intros Hne Hs Hl Hend. apply returns_set_changed; [done|].
  eapply bn_step; [| |by apply bn_end].
  - rewrite subs_of_assign, Hs. apply next_entry_cons_ge. lia.
  - by rewrite current_of_assign.
Qed.

(** The same with two subscribers, the first leaving the value and
    both leaving the subscriber list as they found it. *)
Lemma returns_set_two c v h1 l1 h2 l2 s s1 s2 :
  js_same v (cur s c) = false -> subs_of s c = [(h1, l1); (h2, l2)] -> h1 < h2 ->
  big (l1 v) (bump (assign_cell c v s)) s1 -> subs_of s1 c = subs_of s c -> cur s1 c = v ->
  big (l2 v) (bump s1) s2 -> subs_of s2 c = subs_of s c ->
  returns (_set c v) s tt s2.
Proof.
  intros Hne Hs Hlt Hl1 Hs1 Hc1 Hl2 Hs2. apply returns_set_changed; [done|].
  apply (bn_step _ _ _ _ h1 l1 s1).
  - rewrite subs_of_assign, Hs. apply next_entry_cons_ge. lia.
  - by rewrite current_of_assign.
  - apply (bn_step _ _ _ _ h2 l2 s2).
    + rewrite Hs1, Hs, next_entry_cons_lt by lia. apply next_entry_cons_ge. lia.
    + unfold current_of, cur in *. by rewrite Hc1.
    + apply bn_end. rewrite Hs2, Hs, !next_entry_cons_lt by lia. apply next_entry_nil.
Qed.

(** ** Witnesses *)

(** A signal [0] holding [5] with one client subscriber [7]. *)
Definition store_five : store :=
  mk_store {[0 := num 5]} {[0 := [(1, fun v => body (callback 7 v))]]} 2 0 [] [] ∅ [].

Lemma set_same_noop_witness :
  js_same (num 5) (cur store_five 0) = true /\
  (big (_set 0 (num 5) (fun _ => Done)) store_five store_five <->
   big Done store_five store_five).
Proof. split; [reflexivity|]. apply set_same_noop. reflexivity. Defined.

Lemma set_changed_witness :
  js_same (num 6) (cur store_five 0) = false /\
  (big (_set 0 (num 6) (fun _ => Done)) store_five
       (emit_obs (OCall 7 (num 6)) (bump (assign_cell 0 (num 6) store_five))) <->
   exists s1, big_notify 0 (current_of 0) 0 (assign_cell 0 (num 6) store_five) s1 /\
              big Done s1 (emit_obs (OCall 7 (num 6)) (bump (assign_cell 0 (num 6) store_five)))).
Proof. split; [reflexivity|]. apply set_changed. reflexivity. Defined.

Definition store_nan : store :=
  mk_store {[0 := JNaN]} {[0 := [(1, fun v => body (callback 7 v))]]} 2 0 [] [] ∅ [].

Lemma set_NaN_renotifies_witness :
  cur store_nan 0 = JNaN /\
  subs_of store_nan 0 = [(1, fun v => body (callback 7 v))] /\
  exists s', big (body (_set 0 JNaN)) store_nan s' /\
             trace s' = trace store_nan ++ [OCall 7 JNaN].
Proof.
  split; [reflexivity|]. split; [reflexivity|].
  apply (set_NaN_renotifies 0 1 7); reflexivity.
Defined.

Lemma subscribe_unsubscribe_witness :
  subs store_five !! 0 = Some [(1, fun v => body (callback 7 v))] /\ stamps_fresh store_five /\
  subs (del_entry 0 (next store_five) (add_entry 0 (fun v => body (callback 8 v)) store_five)) =
  subs store_five.
Proof.
  assert (Hf : stamps_fresh store_five).
  { unfold stamps_fresh, store_five. simpl. apply map_Forall_singleton.
    repeat constructor. }
  split; [reflexivity|]. split; [exact Hf|].
  apply (subscribe_unsubscribe 0 (callback 8) [(1, fun v => body (callback 7 v))]); [reflexivity|exact Hf].
Defined.

End Signal.
