(* ===== verification/SignalGraph.v ===== *)
(** * Signals derived with [map]: the functor laws at every instant

    A program that only creates signals, derives them with [map],
    subscribes client callbacks and writes root signals with [_set]
    builds a forest: each derived signal has exactly one [map] closure
    writing it, subscribed on its source.  This file names the role of
    every subscriber entry ([role]), states when a store realises a
    table of roles ([wired]), and proves that writing a root
    terminates and leaves every derived signal equal to [f] of its
    source ([coherent]).  The functor laws of [signal.ts] (lines 12-17)
    follow for every reachable state of the client step relation. *)

From Stdlib Require Import ZArith String Sorting.Sorted.
From stdpp Require Import base list gmap.
From S2P Require Import Prelude JsValue Engine Signal.

Local Open Scope resig_scope.

Module SignalGraph.
Import Signal.

(** What a subscriber entry does: the [map] closure writing [dst], or a
    client callback. *)
Inductive role : Type :=
| RMap (dst : nat) (f : jsval -> jsval)
| RClient (fn : nat).

Definition role_listener (r : role) : jsval -> prog :=
  match r with
  | RMap d f => map_listener d (lift f)
  | RClient fn => fun v => body (callback fn v)
  end.

Abbreviation net := (gmap nat (list (nat * role))).

Definition roles_of (rs : net) (c : nat) : list (nat * role) := default [] (rs !! c).

Definition realize (l : list (nat * role)) : list entry :=
  List.map (fun e => (e.1, role_listener e.2)) l.

(** The store's subscriber sets are the listeners of the role table. *)
Definition wired (s : store) (rs : net) : Prop :=
  forall c, subs_of s c = realize (roles_of rs c).

(** [map] edges of the table. *)
Definition edge (rs : net) (c d : nat) (f : jsval -> jsval) : Prop :=
  exists h, In (h, RMap d f) (roles_of rs c).

(** [x] is [c] or lies under [c] along [map] edges. *)
Inductive below (rs : net) (c : nat) : nat -> Prop :=
| below_refl : below rs c c
| below_step p x f : below rs c p -> edge rs p x f -> below rs c x.

(** The table is a forest of [map] edges with stamps fresh for the store. *)
Record wf (s : store) (rs : net) : Prop := {
  wf_sorted : forall c, StronglySorted lt (List.map fst (roles_of rs c));
  wf_parent : forall c c' h h' d f f',
      In (h, RMap d f) (roles_of rs c) -> In (h', RMap d f') (roles_of rs c') ->
      c = c' /\ h = h' /\ f = f';
  wf_rank : exists rank : nat -> nat, forall c d f, edge rs c d f -> rank d < rank c;
  wf_fresh : forall c, next s <= c -> roles_of rs c = [];
  wf_stamps : forall c h r, In (h, r) (roles_of rs c) -> h < next s;
  wf_dst : forall c h d f, In (h, RMap d f) (roles_of rs c) -> d < next s
}.

(** Every [map] edge under [c] holds: the target is [f] of the source. *)
Definition coh_below (rs : net) (c : nat) (s : store) : Prop :=
  forall x y f, below rs c x -> edge rs x y f -> cur s y = f (cur s x).

Definition coherent (rs : net) (s : store) : Prop :=
  forall x y f, edge rs x y f -> cur s y = f (cur s x).

Definition root (rs : net) (c : nat) : Prop := forall p f, ~ edge rs p c f.

Definition add_role (rs : net) (c h : nat) (r : role) : net :=
  <[c := roles_of rs c ++ [(h, r)]]> rs.

(** ** The client's steps *)

Inductive client_step : store * net -> store * net -> Prop :=
| cs_signal s rs v :
    client_step (s, rs) (alloc_cell v s, rs)
| cs_map s rs c f s' :
    c < next s ->
    big (body (_ <- map c (lift f) ;; cret tt)) s s' ->
    client_step (s, rs) (s', add_role rs c (S (next s)) (RMap (next s) f))
| cs_subscribe s rs c fn s' :
    c < next s ->
    big (body (_ <- subscribe c (callback fn) ;; cret tt)) s s' ->
    client_step (s, rs) (s', add_role rs c (next s) (RClient fn))
| cs_set s rs c v s' :
    root rs c ->
    big (body (_set c v)) s s' ->
    client_step (s, rs) (s', rs).

Inductive reachable (t0 : Z) : store * net -> Prop :=
| reach_init : reachable t0 (init_store t0, ∅)
| reach_step st st' : reachable t0 st -> client_step st st' -> reachable t0 st'.

(** ** The shape of a forest *)

Section Forest.
Variable rs : net.
Variable rank : nat -> nat.
Hypothesis Hrank : forall c d f, edge rs c d f -> rank d < rank c.
Hypothesis Hparent : forall c c' d f f', edge rs c d f -> edge rs c' d f' -> c = c'.

Lemma below_rank c x : below rs c x -> rank x <= rank c.
Proof. induction 1 as [|p x f _ IH He]; [lia|]. apply Hrank in He. lia. Qed.

Lemma below_edge_rank c d f x : edge rs c d f -> below rs d x -> rank x < rank c.
Proof. intros He Hb. apply Hrank in He. apply below_rank in Hb. lia. Qed.

Lemma below_trans a b x : below rs a b -> below rs b x -> below rs a x.
Proof. intros Hab. induction 1; [done|]. eapply below_step; eauto. Qed.

Lemma below_edge c d f : edge rs c d f -> below rs c d.
Proof. intros He. eapply below_step; [constructor|eauto]. Qed.

(** Two cells above the same cell are on one branch. *)
Lemma below_ancestors a b x :
  below rs a x -> below rs b x -> below rs a b \/ below rs b a.
Proof.
  intros Ha. revert b. induction Ha as [|p x f Hap IH He]; intros b Hb.
  - by right.
  - inversion Hb as [|p' x' f' Hbp' He']; subst.
    + left. eapply below_step; eauto.
    + assert (p' = p) as -> by eauto. auto.
Qed.

(** Two different children of a cell have disjoint subtrees. *)
Lemma children_disjoint c d d' f f' x :
  edge rs c d f -> edge rs c d' f' -> d <> d' ->
  below rs d x -> below rs d' x -> False.
Proof.
  intros He He' Hne Hb Hb'.
  destruct (below_ancestors _ _ _ Hb Hb') as [H|H].
  - inversion H as [|p y g Hp Hy]; subst; [done|].
    assert (p = c) as -> by eauto. pose proof (below_edge_rank _ _ _ _ He Hp). lia.
  - inversion H as [|p y g Hp Hy]; subst; [done|].
    assert (p = c) as -> by eauto. pose proof (below_edge_rank _ _ _ _ He' Hp). lia.
Qed.

(** Under [c] is [c] itself or the subtree of one of its children. *)
Lemma below_split c x : below rs c x -> x = c \/ exists d f, edge rs c d f /\ below rs d x.
Proof.
  induction 1 as [|p x f Hp IH He]; [by left|right].
  destruct IH as [->|(d & g & Hd & Hb)].
  - exists x, f. split; [done|constructor].
  - exists d, g. split; [done|]. eapply below_step; eauto.
Qed.

(** The source of an edge into the subtree of [c] (other than [c]) is in it. *)
Lemma below_edge_src c x y f : below rs c y -> y <> c -> edge rs x y f -> below rs c x.
Proof.
  intros Hb Hne He. inversion Hb as [|p y' g Hp Hy]; subst; [done|].
  assert (p = x) as -> by eauto. done.
Qed.

End Forest.

(** ** The subscriber walk over a role list *)

Lemma next_entry_realize_none from l :
  Forall (fun e => e.1 < from) l -> next_entry from (realize l) = None.
Proof.
  induction 1 as [|[h r] l Hh _ IH]; [done|]. simpl in *.
  rewrite next_entry_cons_lt by lia. done.
Qed.

Lemma next_entry_realize_app from pre h r post :
  Forall (fun e => e.1 < from) pre -> from <= h ->
  next_entry from (realize (pre ++ (h, r) :: post)) = Some (h, role_listener r).
Proof.
  intros Hpre Hh. induction Hpre as [|[h' r'] pre Hh' _ IH]; simpl in *.
  - by apply next_entry_cons_ge.
  - rewrite next_entry_cons_lt by lia. done.
Qed.

Lemma sorted_after (pre post : list (nat * role)) h r :
  StronglySorted lt (List.map fst (pre ++ (h, r) :: post)) -> Forall (fun e => h < e.1) post.
Proof.
  induction pre as [|e pre IH]; simpl; intros Hs.
  - apply StronglySorted_inv in Hs as [_ Hs]. rewrite List.Forall_forall in Hs |- *.
    intros e He. apply Hs, in_map, He.
  - apply StronglySorted_inv in Hs as [Hs _]. auto.
Qed.

(** Edges under [c] only read cells under [c]. *)
Lemma coh_below_frame rs c t t1 :
  (forall x, below rs c x -> cur t1 x = cur t x) -> coh_below rs c t -> coh_below rs c t1.
Proof.
  intros Hf Hc x y f Hx He.
  rewrite (Hf y), (Hf x) by (done || (eapply below_step; eauto)). eauto.
Qed.

Lemma coh_below_sub rs c d t : below rs c d -> coh_below rs c t -> coh_below rs d t.
Proof. intros Hcd Hc x y f Hx He. eapply Hc; [eapply below_trans|]; eauto. Qed.

Lemma wired_subs s s' rs : subs s' = subs s -> wired s rs -> wired s' rs.
Proof. intros Hs Hw c. unfold subs_of. rewrite Hs. apply Hw. Qed.

(** What a completed [_set d w] guarantees. *)
Definition set_post (rs : net) (d : nat) (w : jsval) (u u' : store) : Prop :=
  subs u' = subs u /\ cur u' d = w /\ coh_below rs d u' /\
  (forall x, below rs d x \/ cur u' x = cur u x).

Section Propagation.
Variable rs : net.
Variable rank : nat -> nat.
Hypothesis Hrank : forall c d f, edge rs c d f -> rank d < rank c.
Hypothesis Hunique : forall c c' h h' d f f',
  In (h, RMap d f) (roles_of rs c) -> In (h', RMap d f') (roles_of rs c') ->
  c = c' /\ h = h' /\ f = f'.
Hypothesis Hsorted : forall c, StronglySorted lt (List.map fst (roles_of rs c)).

Lemma Hparent c c' d f f' : edge rs c d f -> edge rs c' d f' -> c = c'.
Proof. intros [h H] [h' H']. by destruct (Hunique _ _ _ _ _ _ _ H H') as (-> & _). Qed.

Lemma child_not_below_sibling c h d f post x :
  In (h, RMap d f) (roles_of rs c) -> Forall (fun e => h < e.1) post ->
  (forall e, In e post -> In e (roles_of rs c)) ->
  below rs d x -> forall h' d' f', In (h', RMap d' f') post -> ~ below rs d' x.
Proof.
  intros Hin Hpost Hsub Hb h' d' f' Hin' Hb'.
  assert (Hdd : d <> d').
  { intros <-. destruct (Hunique _ _ _ _ _ _ _ Hin (Hsub _ Hin')) as (_ & <- & _).
    rewrite List.Forall_forall in Hpost. apply Hpost in Hin'. simpl in Hin'. lia. }
  eapply (children_disjoint rs rank Hrank Hparent c d d'); eauto; eexists; eauto.
Qed.

Lemma walk c v
  (IH : forall d f, edge rs c d f -> forall w u, wired u rs -> coh_below rs d u ->
        exists u', big (body (_set d w)) u u' /\ set_post rs d w u u') :
  forall post pre from t,
  roles_of rs c = pre ++ post ->
  Forall (fun e => e.1 < from) pre -> Forall (fun e => from <= e.1) post ->
  wired t rs -> cur t c = v ->
  (forall h d f, In (h, RMap d f) post -> coh_below rs d t) ->
  exists t', big_notify c (current_of c) from t t' /\ subs t' = subs t /\
    (forall h d f, In (h, RMap d f) post -> cur t' d = f v /\ coh_below rs d t') /\
    (forall x, (exists h d f, In (h, RMap d f) post /\ below rs d x) \/ cur t' x = cur t x).
Proof.
  induction post as [|[h r] post IHp]; intros pre from t Hroles Hpre Hpost Hw Hc Hcoh.
  - exists t. split; [|split_and!; by auto].
    apply bn_end. rewrite Hw, Hroles, app_nil_r. by apply next_entry_realize_none.
  - apply Forall_cons in Hpost as [Hh Hpost']. simpl in Hh.
    assert (Hafter : Forall (fun e => h < e.1) post).
    { eapply sorted_after. rewrite <- Hroles. apply Hsorted. }
    assert (Hnext : next_entry from (subs_of t c) = Some (h, role_listener r)).
    { rewrite Hw, Hroles. by apply next_entry_realize_app. }
    assert (Hin : In (h, r) (roles_of rs c)).
    { rewrite Hroles. apply in_or_app. right. by left. }
    assert (Hsub : forall e, In e post -> In e (roles_of rs c)).
    { intros e He. rewrite Hroles. apply in_or_app. right. by right. }
    assert (Hpre' : Forall (fun e => e.1 < S h) (pre ++ [(h, r)])).
    { apply Forall_app. split; [|repeat constructor; simpl; lia].
      eapply Forall_impl; [exact Hpre|]. simpl. intros; lia. }
    assert (Hpost'' : Forall (fun e => S h <= e.1) post).
    { eapply Forall_impl; [exact Hafter|]. simpl. intros; lia. }
    assert (Hroles' : roles_of rs c = (pre ++ [(h, r)]) ++ post) by
      by rewrite Hroles, <- app_assoc.
    destruct r as [d f|fn].
    + (* a [map] closure: propagate into the child's subtree *)
      assert (He : edge rs c d f) by (eexists; eauto).
      destruct (IH d f He (f v) (bump t)) as (u & Hu & Hus & Hud & Hucoh & Hufr).
      { eapply wired_subs; [|exact Hw]. done. }
      { apply (Hcoh h d f). by left. }
      assert (Hnb : forall x, below rs d x -> forall h' d' f', In (h', RMap d' f') post ->
                      ~ below rs d' x).
      { intros x Hx. eapply child_not_below_sibling; eauto. }
      assert (Hdc : ~ below rs d c).
      { intros Hb. pose proof (below_edge_rank _ _ Hrank _ _ _ _ He Hb). lia. }
      destruct (IHp (pre ++ [(h, RMap d f)]) (S h) u Hroles' Hpre' Hpost'')
        as (t' & Ht' & Hts & Htch & Htfr).
      { eapply wired_subs; [|exact Hw]. by rewrite Hus. }
      { destruct (Hufr c) as [Hb|Heq]; [by destruct Hdc|by rewrite Heq]. }
      { intros h' d' f' Hin'. eapply coh_below_frame; [|apply (Hcoh h' d' f'); by right].
        intros x Hx. destruct (Hufr x) as [Hb| ->]; [|done]. by destruct (Hnb x Hb h' d' f' Hin'). }
      exists t'. split_and!.
      * eapply bn_step; [exact Hnext| |exact Ht']. simpl. unfold map_listener.
        change (current_of c (vals t) (next t)) with (cur t c). rewrite Hc. exact Hu.
      * by rewrite Hts, Hus.
      * intros h' d' f' [Heq|Hin'].
        -- injection Heq as <- <- <-. split.
           ++ destruct (Htfr d) as [(h' & d' & f' & Hin' & Hb)| ->]; [|done].
              by destruct (Hnb d (below_refl _ _) h' d' f' Hin').
           ++ eapply coh_below_frame; [|exact Hucoh]. intros x Hx.
              destruct (Htfr x) as [(h' & d' & f' & Hin' & Hb)| ->]; [|done].
              by destruct (Hnb x Hx h' d' f' Hin').
        -- by apply Htch with h'.
      * intros x. destruct (Htfr x) as [(h' & d' & f' & Hin' & Hb)| ->].
        -- left. exists h', d', f'. split; [by right|done].
        -- destruct (Hufr x) as [Hb| ->]; [|by right].
           left. exists h, d, f. split; [by left|done].
    + (* a client callback: one observable call, no cell changes *)
      destruct (IHp (pre ++ [(h, RClient fn)]) (S h)
                  (emit_obs (OCall fn (current_of c (vals t) (next t))) (bump t))
                  Hroles' Hpre' Hpost'') as (t' & Ht' & Hts & Htch & Htfr).
      { eapply wired_subs; [|exact Hw]. done. }
      { done. }
      { intros h' d' f' Hin'. apply (Hcoh h' d' f'). by right. }
      exists t'. split_and!.
      * eapply bn_step; [exact Hnext| |exact Ht']. simpl. repeat constructor.
      * by rewrite Hts.
      * intros h' d' f' [Heq|Hin']; [discriminate|]. by apply Htch with h'.
      * intros x. destruct (Htfr x) as [(h' & d' & f' & Hin' & Hb)| ->].
        -- left. exists h', d', f'. split; [by right|done].
        -- by right.
Qed.

(** [_set c w] terminates and leaves every edge under [c] coherent,
    with [c] holding [w]; cells outside the subtree of [c] keep their
    values and no subscriber set changes. *)
Lemma set_below c w u :
  wired u rs -> coh_below rs c u ->
  exists u', big (body (_set c w)) u u' /\ set_post rs c w u u'.
Proof.
  remember (rank c) as n eqn:Hn. revert c w u Hn.
  induction n as [n IHn] using lt_wf_ind. intros c w u Hn Hw Hcoh.
  unfold body. destruct (js_same w (cur u c)) eqn:Hsame.
  - exists u. split; [rewrite set_unfold, Hsame; apply big_done|].
    split_and!; try done; [|by right]. symmetry. by apply js_same_eq.
  - set (t0 := assign_cell c w u).
    assert (Ht0c : cur t0 c = w) by apply cur_assign_eq.
    assert (Ht0x : forall x, x <> c -> cur t0 x = cur u x) by (intros; by apply cur_assign_ne).
    assert (Hnc : forall d f x, edge rs c d f -> below rs d x -> x <> c).
    { intros d f x He Hb ->. pose proof (below_edge_rank _ _ Hrank _ _ _ _ He Hb). lia. }
    assert (IHc : forall d f, edge rs c d f -> forall w' u', wired u' rs -> coh_below rs d u' ->
              exists u'', big (body (_set d w')) u' u'' /\ set_post rs d w' u' u'').
    { intros d f He w' u' Hw' Hc'. eapply (IHn (rank d)); [|reflexivity|exact Hw'|exact Hc'].
      subst n. by apply Hrank in He. }
    assert (Hf0 : Forall (fun e : nat * role => 0 <= e.1) (roles_of rs c)).
    { apply List.Forall_forall. intros; lia. }
    assert (Hwt0 : wired t0 rs) by (eapply wired_subs; [|exact Hw]; done).
    assert (Hc0 : forall h d f, In (h, RMap d f) (roles_of rs c) -> coh_below rs d t0).
    { intros h d f Hin. assert (He : edge rs c d f) by (eexists; eauto).
      eapply coh_below_frame; [|eapply coh_below_sub; [eapply below_edge|]; eauto].
      intros x Hx. apply Ht0x. eauto. }
    destruct (walk c w IHc (roles_of rs c) [] 0 t0 eq_refl (Forall_nil_2 _) Hf0 Hwt0 Ht0c Hc0)
      as (t' & Ht' & Hts & Htch & Htfr).
    assert (Htc : cur t' c = w).
    { destruct (Htfr c) as [(h & d & f & Hin & Hb)| ->]; [|done].
      by destruct (Hnc d f c (ex_intro _ h Hin) Hb). }
    exists t'. split; [|split_and!].
    + rewrite set_unfold, Hsame, big_notify_iff. exists t'. split; [exact Ht'|constructor].
    + by rewrite Hts.
    + done.
    + intros x y f Hx [h Hin]. destruct (below_split rs c x Hx)
        as [->|(d & g & Hd & Hb)].
      * rewrite Htc. by apply (Htch h y f).
      * destruct Hd as [h' Hd]. eapply (proj2 (Htch h' d g Hd)); [exact Hb|]. by exists h.
    + intros x. destruct (Htfr x) as [(h & d & f & Hin & Hb)| ->].
      * left. eapply below_trans; [|exact Hb]. eapply below_edge. by exists h.
      * destruct (decide (x = c)) as [->|Hne]; [left; constructor|right; by apply Ht0x].
Qed.

End Propagation.

(** ** The client's steps preserve the invariant *)

Definition good (st : store * net) : Prop :=
  wired st.1 st.2 /\ wf st.1 st.2 /\ coherent st.2 st.1.

Lemma roles_of_add_role rs c h r x :
  roles_of (add_role rs c h r) x = if decide (x = c) then roles_of rs c ++ [(h, r)] else roles_of rs x.
Proof.
  unfold roles_of, add_role. case_decide as Hx.
  - subst. by rewrite lookup_insert_eq.
  - by rewrite lookup_insert_ne.
Qed.

Lemma in_roles_add_role rs c h r x e :
  In e (roles_of (add_role rs c h r) x) <-> In e (roles_of rs x) \/ (x = c /\ e = (h, r)).
Proof.
  rewrite roles_of_add_role. destruct (decide (x = c)) as [->|Hne].
  - rewrite in_app_iff. simpl. naive_solver.
  - naive_solver.
Qed.

Lemma edge_add_role rs c h r x y g :
  edge (add_role rs c h r) x y g -> edge rs x y g \/ (x = c /\ r = RMap y g).
Proof.
  intros [h' Hin]. apply in_roles_add_role in Hin as [Hin|[-> Heq]].
  - left. by exists h'.
  - right. injection Heq as -> ->. done.
Qed.

Lemma edge_add_role_old rs c h r x y g : edge rs x y g -> edge (add_role rs c h r) x y g.
Proof. intros [h' Hin]. exists h'. apply in_roles_add_role. by left. Qed.

Lemma sorted_snoc (l : list nat) x :
  StronglySorted lt l -> Forall (fun y => y < x) l -> StronglySorted lt (l ++ [x]).
Proof.
  induction 1 as [|y l Hl IH Hy]; intros Hx; simpl.
  - repeat constructor.
  - apply Forall_cons in Hx as [Hyx Hx]. constructor; [by apply IH|].
    apply Forall_app. split; [done|]. by repeat constructor.
Qed.

(** A cell with subscribers was allocated. *)
Lemma wf_roles_lt s rs x e : wf s rs -> In e (roles_of rs x) -> x < next s.
Proof.
  intros Hwf Hin. destruct (decide (x < next s)) as [|Hge]; [done|].
  rewrite (wf_fresh _ _ Hwf x) in Hin by lia. done.
Qed.

Lemma wf_edge_lt s rs x y g : wf s rs -> edge rs x y g -> x < next s /\ y < next s.
Proof.
  intros Hwf [h Hin]. split; [by eapply wf_roles_lt|]. by eapply wf_dst.
Qed.

Lemma wired_alloc s rs v : wf s rs -> wired s rs -> wired (alloc_cell v s) rs.
Proof.
  intros Hwf Hw x. unfold subs_of. rewrite subs_alloc. destruct (decide (x = next s)) as [->|Hne].
  - rewrite lookup_insert_eq, (wf_fresh _ _ Hwf (next s)) by lia. done.
  - rewrite lookup_insert_ne by done. apply Hw.
Qed.

Lemma wired_add s rs c r : wired s rs -> wired (add_entry c (role_listener r) s) (add_role rs c (next s) r).
Proof.
  intros Hw x. unfold subs_of at 1. rewrite subs_add_entry, roles_of_add_role.
  destruct (decide (x = c)) as [->|Hne].
  - rewrite lookup_insert_eq. simpl. rewrite Hw.
    unfold realize. by rewrite List.map_app.
  - rewrite lookup_insert_ne by done. apply Hw.
Qed.

Lemma wf_alloc s rs v : wf s rs -> wf (alloc_cell v s) rs.
Proof.
  intros [Hs Hp Hr Hf Hst Hd]. split; rewrite ?next_alloc; try done.
  - intros x Hx. apply Hf. lia.
  - intros x h r Hin. specialize (Hst _ _ _ Hin). lia.
  - intros x h d f Hin. specialize (Hd _ _ _ _ Hin). lia.
Qed.

Lemma coherent_alloc s rs v : wf s rs -> coherent rs s -> coherent rs (alloc_cell v s).
Proof.
  intros Hwf Hc x y g He. destruct (wf_edge_lt _ _ _ _ _ Hwf He).
  rewrite !cur_alloc_old by done. by apply Hc.
Qed.

Lemma good_alloc s rs v : good (s, rs) -> good (alloc_cell v s, rs).
Proof.
  intros (Hw & Hwf & Hc). split_and!; simpl.
  - by apply wired_alloc.
  - by apply wf_alloc.
  - by apply coherent_alloc.
Qed.

Lemma wf_add_role t rs c r :
  wf t rs -> c < next t ->
  (forall d f, r = RMap d f ->
     d < next t /\ d <> c /\ roles_of rs d = [] /\
     forall x h g, ~ In (h, RMap d g) (roles_of rs x)) ->
  wf (add_entry c (role_listener r) t) (add_role rs c (next t) r).
Proof.
  intros Hwf Hc Hr. pose proof Hwf as [Hs Hp [rank Hrk] Hf Hst Hd].
  split; rewrite ?next_add_entry.
  - intros x. rewrite roles_of_add_role. case_decide; [subst|apply Hs].
    rewrite List.map_app. apply sorted_snoc; [apply Hs|].
    apply List.Forall_forall. intros y Hy. apply in_map_iff in Hy as ([h r'] & <- & Hin).
    by apply Hst in Hin.
  - intros x x' h h' d f f' Hin Hin'.
    apply in_roles_add_role in Hin as [Hin|[-> Heq]];
      apply in_roles_add_role in Hin' as [Hin'|[-> Heq']].
    + eauto.
    + injection Heq' as Hh Hrr. subst r. destruct (Hr d f' eq_refl) as (_ & _ & _ & Hno).
      by destruct (Hno _ _ _ Hin).
    + injection Heq as Hh Hrr. subst r. destruct (Hr d f eq_refl) as (_ & _ & _ & Hno).
      by destruct (Hno _ _ _ Hin').
    + rewrite <- Heq in Heq'. injection Heq' as Hh Hff. subst. done.
  - destruct r as [d f|fn].
    + destruct (Hr d f eq_refl) as (Hdlt & Hdc & Hdr & Hno).
      exists (fun x => if decide (x = d) then 0 else S (rank x)).
      intros x y g He. apply edge_add_role in He as [[h Hin]|[-> Heq]].
      * assert (x <> d) by (intros ->; by rewrite Hdr in Hin).
        assert (y <> d) by (intros ->; by apply (Hno x h g)).
        assert (rank y < rank x) by (apply (Hrk x y g); by exists h).
        repeat case_decide; try done; lia.
      * injection Heq as -> ->. repeat case_decide; try done; lia.
    + exists rank. intros x y g He. apply edge_add_role in He as [He|[_ Heq]]; [by apply (Hrk x y g)|discriminate].
  - intros x Hx. rewrite roles_of_add_role. case_decide; [lia|]. apply Hf. lia.
  - intros x h r' Hin. apply in_roles_add_role in Hin as [Hin|[_ Heq]].
    + specialize (Hst _ _ _ Hin). lia.
    + injection Heq as Hh Hrr. subst. lia.
  - intros x h d f Hin. apply in_roles_add_role in Hin as [Hin|[_ Heq]].
    + specialize (Hd _ _ _ _ Hin). lia.
    + injection Heq as Hh Hrr. subst. destruct (Hr d f eq_refl). lia.
Qed.

Lemma wf_next_mono s s' rs : wf s rs -> next s <= next s' -> subs s' = subs s -> wf s' rs.
Proof.
  intros [Hs Hp Hr Hf Hst Hd] Hle _. split; try done.
  - intros x Hx. apply Hf. lia.
  - intros x h r Hin. specialize (Hst _ _ _ Hin). lia.
  - intros x h d f Hin. specialize (Hd _ _ _ _ Hin). lia.
Qed.

Lemma good_map s rs c f :
  c < next s -> good (s, rs) ->
  good (add_entry c (map_listener (next s) (lift f)) (alloc_cell (f (cur s c)) s),
        add_role rs c (S (next s)) (RMap (next s) f)).
Proof.
  intros Hc (Hw & Hwf & Hcoh). simpl in *.
  set (t := alloc_cell (f (cur s c)) s).
  assert (Hnt : next t = S (next s)) by apply next_alloc.
  rewrite <- Hnt. split_and!; cbn [fst snd].
  - apply (wired_add _ _ _ (RMap (next s) f)). by apply wired_alloc.
  - apply (wf_add_role _ _ _ (RMap (next s) f)); [by apply wf_alloc|lia|].
    intros d g Heq. injection Heq as <- <-. split_and!; [lia|lia| |].
    + apply (wf_fresh _ _ Hwf). lia.
    + intros x h g Hin. apply (wf_dst _ _ Hwf) in Hin. lia.
  - intros x y g He. unfold cur. rewrite vals_add_entry. fold (cur t x) (cur t y).
    apply edge_add_role in He as [He|[-> Heq]].
    + destruct (wf_edge_lt _ _ _ _ _ Hwf He). unfold t.
      rewrite !cur_alloc_old by done. by apply Hcoh.
    + injection Heq as <- <-. unfold t, cur. rewrite !vals_alloc, lookup_insert_eq.
      rewrite lookup_insert_ne by lia. done.
Qed.

Lemma good_subscribe s rs c fn :
  c < next s -> good (s, rs) ->
  good (add_entry c (fun v => body (callback fn v)) s, add_role rs c (next s) (RClient fn)).
Proof.
  intros Hc (Hw & Hwf & Hcoh). simpl in *. split_and!; simpl.
  - apply (wired_add _ _ _ (RClient fn)). done.
  - apply (wf_add_role _ _ _ (RClient fn)); [done|done|discriminate].
  - intros x y g He. unfold cur. rewrite vals_add_entry.
    apply edge_add_role in He as [He|[_ Heq]]; [by apply Hcoh|done].
Qed.

Lemma good_set s rs c v s' :
  good (s, rs) -> root rs c -> big (body (_set c v)) s s' ->
  good (s', rs) /\ cur s' c = v.
Proof.
  intros (Hw & Hwf & Hcoh) Hroot Hrun. simpl in *.
  pose proof Hwf as [Hs Hp [rank Hrk] _ _ _].
  destruct (set_below rs rank Hrk Hp Hs c v s Hw) as (u & Hu & Hus & Huc & Hucoh & Hufr).
  { intros x y f _ He. by apply Hcoh. }
  assert (u = s') as -> by eauto using big_det.
  unfold good. cbn [fst snd]. split_and!; [by eapply wired_subs| | |done].
  - eapply wf_next_mono; [exact Hwf| |exact Hus]. by apply (proj1 big_next_mono) in Hrun.
  - intros x y f He. destruct (Hufr x) as [Hx|Hx]; [by apply Hucoh|].
    destruct (Hufr y) as [Hy|Hy].
    + apply Hucoh; [|done]. eapply below_edge_src; eauto.
      * eapply Hparent; eauto.
      * intros ->. by apply (Hroot x f).
    + rewrite Hx, Hy. by apply Hcoh.
Qed.

Lemma good_init t0 : good (init_store t0, ∅).
Proof.
  split_and!; simpl.
  - intros c. done.
  - split; try done; simpl.
    + intros c. constructor.
    + exists (fun _ => 0). by intros c d f [h Hin].
  - by intros x y f [h Hin].
Qed.

Lemma good_step st st' : good st -> client_step st st' -> good st'.
Proof.
  intros Hg Hs.
  inversion Hs as [s rs v|s rs c f s' Hc Hrun|s rs c fn s' Hc Hrun|s rs c v s' Hroot Hrun];
    subst.
  - by apply good_alloc.
  - change (big (map c (lift f) (fun _ => Done)) s s') in Hrun.
    apply map_run, big_done_iff in Hrun. subst. by apply good_map.
  - change (big (subscribe c (callback fn) (fun _ => Done)) s s') in Hrun.
    apply subscribe_run, big_done_iff in Hrun. subst. by apply good_subscribe.
  - by apply (good_set s rs c v s').
Qed.

Lemma reachable_good t0 st : reachable t0 st -> good st.
Proof. induction 1; [apply good_init|by eapply good_step]. Qed.

(** C1: at every point of a run of the client, every signal derived
    with [map] holds [f] of the current value of its source. *)
Theorem map_coherent_reachable t0 s rs c d f :
  reachable t0 (s, rs) -> edge rs c d f -> cur s d = f (cur s c).
Proof. intros Hr He. apply reachable_good in Hr as (_ & _ & Hc). by apply Hc. Qed.

(** C2: functor composition: [map(compose(g, f))] equals [map(f).map(g)]
    at every point of the run. *)
Theorem functor_composition t0 s rs c e d1 d2 f g :
  reachable t0 (s, rs) ->
  edge rs c e (compose g f) -> edge rs c d1 f -> edge rs d1 d2 g ->
  cur s e = cur s d2.
Proof.
  intros Hr He H1 H2. apply reachable_good in Hr as (_ & _ & Hc).
  simpl in Hc. by rewrite (Hc c e _ He), (Hc d1 d2 _ H2), (Hc c d1 _ H1).
Qed.

(** C3: writing a root signal always terminates, whatever the derived
    signals hanging under it, and the root then holds the value. *)
Theorem set_root_terminates t0 s rs c v :
  reachable t0 (s, rs) -> root rs c ->
  exists s', big (body (_set c v)) s s' /\ cur s' c = v /\ reachable t0 (s', rs).
Proof.
  intros Hr Hroot. pose proof (reachable_good _ _ Hr) as (Hw & Hwf & Hc). simpl in *.
  pose proof Hwf as [Hs Hp [rank Hrk] _ _ _].
  destruct (set_below rs rank Hrk Hp Hs c v s Hw) as (s' & Hrun & _ & Hc' & _).
  { intros x y f _ He. by apply Hc. }
  exists s'. split_and!; [done|done|]. eapply reach_step; [exact Hr|]. by apply (cs_set s rs c v s').
Qed.

(** ** Witnesses *)

Definition st_one : store := alloc_cell (num 5) (init_store 0).
Lemma reach_one : reachable 0 (st_one, ∅).
Proof. apply (reach_step _ (init_store 0, ∅)); [apply reach_init|apply cs_signal]. Qed.

Definition fw : jsval -> jsval := js_scale 2.
Definition gw : jsval -> jsval := js_add (num 1).
Definition st_c1 : store := run_prog (body (_ <- map 0 (lift (compose gw fw)) ;; cret tt)) st_one.
Definition st_c2 : store := run_prog (body (_ <- map 0 (lift fw) ;; cret tt)) st_c1.
Definition st_c3 : store := run_prog (body (_ <- map 3 (lift gw) ;; cret tt)) st_c2.
Definition st_c4 : store := run_prog (body (_set 0 (num 7))) st_c3.
Definition net_c : net :=
  add_role (add_role (add_role ∅ 0 2 (RMap 1 (compose gw fw))) 0 4 (RMap 3 fw)) 3 6 (RMap 5 gw).

Lemma root_net_c : root net_c 0.
Proof.
  intros p f [h Hin]. unfold net_c in Hin.
  repeat (apply in_roles_add_role in Hin as [Hin|[_ Heq]]; [|done]). done.
Qed.

Lemma reach_c4 : reachable 0 (st_c4, net_c).
Proof.
  set (n1 := add_role ∅ 0 2 (RMap 1 (compose gw fw))).
  set (n2 := add_role n1 0 4 (RMap 3 fw)).
  assert (H1 : reachable 0 (st_c1, n1)).
  { apply (reach_step _ (st_one, ∅)); [exact reach_one|].
    apply (cs_map st_one ∅ 0 _ st_c1); [apply Nat.ltb_lt; reflexivity|].
    apply (exec_big 100). reflexivity. }
  assert (H2 : reachable 0 (st_c2, n2)).
  { apply (reach_step _ (st_c1, n1)); [exact H1|].
    apply (cs_map st_c1 n1 0 _ st_c2); [apply Nat.ltb_lt; reflexivity|].
    apply (exec_big 100). reflexivity. }
  assert (H3 : reachable 0 (st_c3, net_c)).
  { apply (reach_step _ (st_c2, n2)); [exact H2|].
    apply (cs_map st_c2 n2 3 _ st_c3); [apply Nat.ltb_lt; reflexivity|].
    apply (exec_big 100). reflexivity. }
  apply (reach_step _ (st_c3, net_c)); [exact H3|].
  apply (cs_set st_c3 net_c 0 (num 7)); [apply root_net_c|]. apply (exec_big 100). reflexivity.
Qed.

Lemma functor_composition_witness :
  reachable 0 (st_c4, net_c) /\ edge net_c 0 1 (compose gw fw) /\
  edge net_c 0 3 fw /\ edge net_c 3 5 gw /\ cur st_c4 1 = cur st_c4 5.
Proof.
  assert (H1 : edge net_c 0 1 (compose gw fw)) by (exists 2; left; reflexivity).
  assert (H2 : edge net_c 0 3 fw) by (exists 4; simpl; right; left; reflexivity).
  assert (H3 : edge net_c 3 5 gw) by (exists 6; left; reflexivity).
  split_and!; [exact reach_c4|exact H1|exact H2|exact H3|].
  exact (functor_composition 0 st_c4 net_c 0 1 3 5 fw gw reach_c4 H1 H2 H3).
Defined.

Lemma map_coherent_reachable_witness :
  reachable 0 (st_c4, net_c) /\ edge net_c 0 3 fw /\ cur st_c4 3 = fw (cur st_c4 0).
Proof.
  assert (H2 : edge net_c 0 3 fw) by (exists 4; simpl; right; left; reflexivity).
  split_and!; [exact reach_c4|exact H2|].
  exact (map_coherent_reachable 0 st_c4 net_c 0 3 fw reach_c4 H2).
Defined.

Lemma set_root_terminates_witness :
  reachable 0 (st_c4, net_c) /\ root net_c 0 /\
  exists s', big (body (_set 0 (num 9))) st_c4 s' /\ cur s' 0 = num 9 /\ reachable 0 (s', net_c).
Proof.
  split_and!; [exact reach_c4|exact root_net_c|].
  exact (set_root_terminates 0 st_c4 net_c 0 (num 9) reach_c4 root_net_c).
Defined.

End SignalGraph.
