(* ===== verification/Effect.v ===== *)
(** * The Effect monad: [effect.ts]

    The module's text is the second part of [src/src/react/adapter.ts]
    (lines 170-250).  An effect object copies [value], [map],
    [subscribe] and [_set] from a fresh signal, so an effect is that
    signal's cell; [bind] adds the subscriptions that make the result
    follow the source and each inner effect. *)

From Stdlib Require Import ZArith String.
From stdpp Require Import base list gmap.
From S2P Require Import Prelude JsValue Engine Signal.

Local Open Scope resig_scope.

Module Effect.
Import Signal.

(** [effect(initial)] (lines 188-222). *)
Definition effect (initial : jsval) : M nat := signal initial.

(** The closure [bind] subscribes to its source (lines 202-210): build
    the inner effect for the new value, copy its value into the result,
    and subscribe to the inner effect. *)
Definition bind_listener (resultEffect : nat) (f : jsval -> M nat) (newValue : jsval) : M unit :=
  newEffect <- f newValue ;;
  nv <- value newEffect ;;
  _set resultEffect nv ;;;
  _ <- subscribe newEffect (fun boundValue => _set resultEffect boundValue) ;;
  cret tt.

(** [bind] (lines 197-213). *)
Definition bind (e : nat) (f : jsval -> M nat) : M nat :=
  v <- value e ;;
  first <- f v ;;
  fv <- value first ;;
  resultEffect <- effect fv ;;
  _ <- subscribe e (bind_listener resultEffect f) ;;
  cret resultEffect.

(** [chain] (lines 215-217): [this.bind(f)]. *)
Definition chain (e : nat) (f : jsval -> M nat) : M nat := bind e f.

(** [pureEffect] (line 226). *)
Definition pureEffect (v : jsval) : M nat := effect v.

(** The effect object a value denotes.  [flatten] is typed
    [Effect<Effect<A>>]: its values are effects ([JSig c]); other values
    are outside the type (the code would throw a [TypeError]). *)
Definition effect_of (v : jsval) : nat :=
  match v with
  | JSig c => c
  | _ => 0
  end.

(** [flatten] (lines 231-233). *)
Definition flatten (nested : nat) : M nat := bind nested (fun inner => cret (effect_of inner)).

(** [apply] (lines 238-240); [call f] is the JS call [f(x)] of a
    function value [f]. *)
Definition apply (call : jsval -> jsval -> M jsval) (effectF effectA : nat) : M nat :=
  bind effectF (fun f => map effectA (call f)).

Definition elems_of (v : jsval) : list jsval :=
  match v with
  | JArr _ xs => xs
  | _ => []
  end.

(** [val => [...arr, val]]: a new array object. *)
Definition snoc_array (arr val : jsval) : M jsval :=
  i <- new_id ;; cret (JArr i (elems_of arr ++ [val])).

(** The [reduce] of [sequence] (lines 246-249). *)
Fixpoint sequence_from (acc : nat) (effects : list nat) : M nat :=
  match effects with
  | [] => cret acc
  | curr :: rest =>
      acc' <- bind acc (fun arr => map curr (snoc_array arr)) ;;
      sequence_from acc' rest
  end.

(** [sequence] (lines 245-250): the initial [pureEffect([])] is built
    first, with a fresh empty array. *)
Definition sequence (effects : list nat) : M nat :=
  i <- new_id ;; acc <- pureEffect (JArr i []) ;; sequence_from acc effects.

(** [x => effect(g(x))]: a function returning a fresh effect. *)
Definition fresh (g : jsval -> jsval) : jsval -> M nat := fun x => effect (g x).

(** ** Scenarios *)

(** [pureEffect(0).bind(_ => e2)] where [e2] already exists, followed by
    a write to [e2]: cells [e2 = 0], [m = 1], result [2]. *)
Definition scenario_left_identity : prog :=
  body (e2 <- effect (num 1) ;;
        _ <- (m <- pureEffect (num 0) ;; bind m (fun _ => cret e2)) ;;
        _set e2 (num 2)).

(** A bound effect whose function picks [i1] for [1] and [i2] otherwise;
    the source emits [1] then [2], then the earlier inner [i1] is
    written: cells [src = 0], [i1 = 1], [i2 = 2], result [3]. *)
Definition pick (i1 i2 : nat) (v : jsval) : M nat :=
  cret (if js_same v (num 1) then i1 else i2).

Definition scenario_stale_inner : prog :=
  body (src <- effect (num 0) ;; i1 <- effect (num 10) ;; i2 <- effect (num 20) ;;
        _ <- bind src (pick i1 i2) ;;
        _set src (num 1) ;;; _set src (num 2) ;;; _set i1 (num 11)).

(** [flatten] of an effect holding effect [0], then switched to a new
    inner effect holding [4]: cells [inner = 0], [nested = 1], result [2]. *)
Definition scenario_flatten : prog :=
  body (inner <- effect (num 3) ;; nested <- effect (JSig inner) ;; _ <- flatten nested ;;
        inner2 <- effect (num 4) ;; _set nested (JSig inner2)).

(** The function value [JFun 0] doubles numbers. *)
Definition call_double (f x : jsval) : M jsval :=
  cret (match f with JFun 0 => js_scale 2 x | _ => JUndef end).

(** [apply(effectF, effectA)] with [effectF] holding the doubling
    function and [effectA] holding [5], then [effectA] set to [6]: cells
    [effectF = 0], [effectA = 1], the inner [map] effect [2], result [3]. *)
Definition scenario_apply : prog :=
  body (ef <- effect (JFun 0) ;; ea <- effect (num 5) ;; _ <- apply call_double ef ea ;;
        _set ea (num 6)).

(** [sequence([a, b])] with [a = 1], [b = 2], then [a] set to [5];
    cells [a = 0], [b = 1]; the result is the last cell allocated. *)
Definition scenario_sequence : prog :=
  body (a <- effect (num 1) ;; b <- effect (num 2) ;; r <- sequence [a; b] ;;
        _set a (num 5) ;;; v <- value r ;; emit (OLog "sequence" v)).

(** ** Running [bind] *)

Lemma returns_effect v s : returns (effect v) s (next s) (alloc_cell v s).
Proof. apply returns_signal. Qed.

Lemma returns_fresh g x s : returns (fresh g x) s (next s) (alloc_cell (g x) s).
Proof. apply returns_signal. Qed.

(** [bind e f] runs [f] once on the current value, copies the value of
    the effect it returns into a new result effect, and subscribes
    [bind_listener] to [e]; the first inner effect gets no subscriber. *)
Lemma returns_bind_effect e f s r0 s0 :
  returns (f (cur s e)) s r0 s0 ->
  returns (bind e f) s (next s0)
    (add_entry e (fun x => body (bind_listener (next s0) f x)) (alloc_cell (cur s0 r0) s0)).
Proof.
  intros Hf. unfold bind. eapply returns_bind; [apply returns_value|].
  eapply returns_bind; [exact Hf|].
  eapply returns_bind; [apply returns_value|].
  eapply returns_bind; [apply returns_effect|].
  eapply returns_bind; [apply returns_subscribe|]. apply returns_ret.
Qed.

Ltac run_bind :=
  repeat first
    [ apply returns_bind_effect
    | apply returns_fresh
    | apply returns_effect
    | apply returns_ret
    | eapply returns_bind;
        [first [apply returns_signal | apply returns_bind_effect | apply returns_fresh]|] ].

Lemma returns_snoc_array arr v s :
  returns (snoc_array arr v) s (JArr (next s) (elems_of arr ++ [v])) (bump s).
Proof. unfold snoc_array. eapply returns_bind; [apply returns_new_id|apply returns_ret]. Qed.

(** One step of the [reduce] of [sequence]: a new accumulator effect
    holding a fresh array with [curr]'s value appended; the cells that
    existed keep their values. *)
Lemma returns_sequence_step acc curr s :
  exists r s1,
    returns (bind acc (fun arr => map curr (snoc_array arr))) s r s1 /\
    cur s1 r = JArr (next s) (elems_of (cur s acc) ++ [cur s curr]) /\
    next s < r < next s1 /\ forall x, x < next s -> cur s1 x = cur s x.
Proof.
  eexists _, _. split; [|split; [|split]].
  - apply returns_bind_effect. apply returns_map. apply returns_snoc_array.
  - autorewrite with store_simpl. done.
  - simpl. lia.
  - intros x Hx. rewrite cur_add_entry, cur_alloc_old, cur_add_entry, cur_alloc_old
      by (simpl; lia). done.
Qed.

Lemma sequence_from_values es acc s :
  Forall (fun c => c < next s) es -> acc < next s ->
  exists r s1, returns (sequence_from acc es) s r s1 /\
    elems_of (cur s1 r) = elems_of (cur s acc) ++ List.map (cur s) es /\
    next s <= next s1 /\ forall x, x < next s -> cur s1 x = cur s x.
Proof.
  revert acc s. induction es as [|c es IH]; intros acc s Hes Hacc; simpl.
  - exists acc, s. rewrite app_nil_r. split_and!; [apply returns_ret|done|lia|done].
  - inversion Hes as [|? ? Hc Hes']; subst.
    destruct (returns_sequence_step acc c s) as (r1 & s1 & Hr1 & Hv1 & Hlt & Hf1).
    destruct (IH r1 s1) as (r & s2 & Hr & Hv & Hle & Hf2); [|lia|].
    { eapply Forall_impl; [exact Hes'|]. simpl. lia. }
    exists r, s2. split_and!.
    + eapply returns_bind; [exact Hr1|exact Hr].
    + rewrite Hv, Hv1. simpl. rewrite <- app_assoc. f_equal. simpl. f_equal.
      apply map_ext_in. intros x Hx. apply Hf1.
      rewrite List.Forall_forall in Hes'. auto.
    + lia.
    + intros x Hx. rewrite Hf2 by lia. auto.
Qed.

(** ** The monad laws at creation *)

(** C7: left identity, as the tests check it: the value of
    [pureEffect(a).bind(x => effect(g(x)))] is the value of
    [effect(g(a))], namely [g(a)]. *)
Theorem bind_left_identity a g s :
  exists r1 s1 r2 s2,
    returns (m <- pureEffect a ;; bind m (fresh g)) s r1 s1 /\
    returns (fresh g a) s r2 s2 /\ cur s1 r1 = g a /\ cur s2 r2 = g a.
Proof.
  do 4 eexists. refine (conj _ (conj _ (conj _ _))); [run_bind.. |];
    by autorewrite with store_simpl.
Qed.

(** Right identity at creation: [m.bind(pureEffect)] holds the value
    of [m]. *)
Theorem bind_right_identity e s :
  exists r s1, returns (bind e pureEffect) s r s1 /\ cur s1 r = cur s e.
Proof.
  do 2 eexists. split; [run_bind|]. by autorewrite with store_simpl.
Qed.

(** C8: associativity at creation: both bracketings of two binds with
    functions returning fresh effects hold [g(f(value))]. *)
Theorem bind_assoc e f g s :
  exists r1 s1 r2 s2,
    returns (m <- bind e (fresh f) ;; bind m (fresh g)) s r1 s1 /\
    returns (bind e (fun a => m <- fresh f a ;; bind m (fresh g))) s r2 s2 /\
    cur s1 r1 = g (f (cur s e)) /\ cur s2 r2 = g (f (cur s e)).
Proof.
  do 4 eexists. refine (conj _ (conj _ (conj _ _))); [run_bind.. | |];
    by autorewrite with store_simpl.
Qed.

(** The subscription [bind_listener] gives each new inner effect:
    [boundValue => resultEffect._set(boundValue)]. *)
Definition inner_listener (r : nat) : jsval -> prog := fun v => body (_set r v).

(** [bind_listener] for a function returning a fresh effect, on a
    result effect without subscribers: a fresh inner effect holding
    [g(x)], the result set to [g(x)] quietly, and a subscription to the
    inner effect. *)
Lemma returns_bind_listener_fresh r g x t :
  subs_of t r = [] -> r < next t ->
  returns (bind_listener r (fresh g) x) t tt
    (add_entry (next t) (inner_listener r) (set_quiet r (g x) (alloc_cell (g x) t))).
Proof.
  intros Hr Hlt. unfold bind_listener.
  eapply returns_bind; [apply returns_fresh|].
  eapply returns_bind; [apply returns_value|]. rewrite cur_alloc_new.
  eapply returns_bind; [apply returns_set_quiet|].
  - by rewrite subs_of_alloc_old by lia.
  - eapply returns_bind; [apply returns_subscribe|apply returns_ret].
Qed.

(** C6: right identity over time: after [r = m.bind(pureEffect)], a
    write of [v] to [m] (without other subscribers) leaves [r] holding
    [v], whether or not [v] differs from the old value. *)
Theorem bind_right_identity_tracks e v s :
  e < next s -> subs_of s e = [] ->
  exists r s1, returns (r <- bind e pureEffect ;; _set e v ;;; cret r) s r s1 /\
               cur s1 r = v /\ cur s1 e = v.
Proof.
  intros He Hs.
  assert (Hcur : forall l w1 w2, cur (add_entry e l (alloc_cell w2 (alloc_cell w1 s))) e = cur s e)
    by (intros; rewrite cur_add_entry, !cur_alloc_old by (simpl; lia); done).
  destruct (js_same v (cur s e)) eqn:E; eexists _, _; split.
  - eapply returns_bind; [run_bind|]. eapply returns_bind; [|apply returns_ret].
    apply returns_set_same. by rewrite Hcur.
  - apply js_same_eq in E. subst v. specialize (Hcur (fun _ => Done) (cur s e) (cur s e)).
    autorewrite with store_simpl in *. done.
  - eapply returns_bind; [run_bind|]. eapply returns_bind; [|apply returns_ret].
    eapply returns_set_changed; [by rewrite Hcur|]. eapply bn_step.
    + rewrite subs_of_assign, subs_of_add_entry_eq, !subs_of_alloc_old, Hs by (simpl; lia).
      apply next_entry_cons_ge. lia.
    + apply returns_body. apply (returns_bind_listener_fresh _ (fun v => v)); [|simpl; lia].
      rewrite subs_of_bump, subs_of_assign, subs_of_add_entry_ne, subs_of_alloc_new by (simpl; lia).
      done.
    + apply bn_end.
      rewrite subs_of_add_entry_ne, subs_of_set_quiet, subs_of_alloc_old, subs_of_bump,
        subs_of_assign, subs_of_add_entry_eq, !subs_of_alloc_old, Hs by (simpl; lia).
      simpl. rewrite next_entry_cons_lt by lia. apply next_entry_nil.
  - split; autorewrite with store_simpl; [done|].
    rewrite cur_set_quiet_ne, cur_alloc_old by (simpl; lia). by autorewrite with store_simpl.
Qed.

(** [sequence(effects)] holds, at creation, a fresh array of the
    current values of [effects], in order. *)
Theorem sequence_values es s :
  Forall (fun c => c < next s) es ->
  exists r s1, returns (sequence es) s r s1 /\ elems_of (cur s1 r) = List.map (cur s) es.
Proof.
  intros Hes. unfold sequence.
  destruct (sequence_from_values es (S (next s)) (alloc_cell (JArr (next s) []) (bump s)))
    as (r & s1 & Hr & Hv & _ & Hf).
  - eapply Forall_impl; [exact Hes|]. simpl. lia.
  - simpl. lia.
  - exists r, s1. split.
    + eapply returns_bind; [apply returns_new_id|].
      eapply returns_bind; [apply returns_effect|exact Hr].
    + rewrite Hv. autorewrite with store_simpl. simpl.
      apply map_ext_in. intros x Hx. rewrite List.Forall_forall in Hes.
      specialize (Hes x Hx). rewrite cur_alloc_old by (simpl; lia). done.
Qed.

(** ** [bind] at later instants *)

(** Left identity fails at later instants: when [f] returns an
    effect [e2] that exists already, [pureEffect(0).bind(f)] is seeded
    with [e2]'s value but never subscribes to [e2], so after [e2] is set
    to [2] the bound effect still holds [1]. *)
Example bind_left_identity_later :
  exists s', big scenario_left_identity (init_store 0) s' /\
             cur s' 0 = num 2 /\ cur s' 2 = num 1.
Proof.
  exists (run_prog scenario_left_identity (init_store 0)).
  split; [apply run_prog_big|split]; vm_compute; reflexivity.
Qed.

(** Stale inner subscriptions, as a run: after the source emitted
    twice, the first inner effect [i1] still has its subscription, and writing it
    overwrites the result with [11] although the latest inner effect
    [i2] holds [20]. *)
Example bind_stale_inner :
  exists s', big scenario_stale_inner (init_store 0) s' /\
             cur s' 3 = num 11 /\ cur s' 2 = num 20 /\
             length (subs_of s' 1) = 1 /\ length (subs_of s' 2) = 1.
Proof.
  exists (run_prog scenario_stale_inner (init_store 0)).
  split; [apply run_prog_big|split_and!]; vm_compute; reflexivity.
Qed.

(** [flatten] follows its outer effect: switched to a new inner
    effect holding [4], the flattened effect holds [4]. *)
Example flatten_switch :
  exists s', big scenario_flatten (init_store 0) s' /\ cur s' 2 = num 4.
Proof.
  exists (run_prog scenario_flatten (init_store 0)).
  split; [apply run_prog_big|]; vm_compute; reflexivity.
Qed.

(** [apply] reads [effectA] through the first inner [map] effect,
    which [bind] does not subscribe to: after [effectA] is set to [6]
    the inner effect holds [12] but the result still holds [10]. *)
Example apply_ignores_argument_updates :
  exists s', big scenario_apply (init_store 0) s' /\
             cur s' 2 = num 12 /\ cur s' 4 = num 10.
Proof.
  exists (run_prog scenario_apply (init_store 0)).
  split; [apply run_prog_big|split]; vm_compute; reflexivity.
Qed.

(** [sequence] is a snapshot: after [a] is set to [5], the sequenced
    effect still holds the array [[1, 2]]. *)
Example sequence_snapshot :
  exists s' i, big scenario_sequence (init_store 0) s' /\
               trace s' = [OLog "sequence" (JArr i [num 1; num 2])].
Proof.
  exists (run_prog scenario_sequence (init_store 0)), 9.
  split; [apply run_prog_big|]; vm_compute; reflexivity.
Qed.

(** ** Emissions of a bound source

    The source [e] of [r = e.bind(x => effect(g(x)))] has one
    subscriber, stamped [h]: [bind_listener].  Each change of [e] runs
    it once, which allocates an inner effect and subscribes [r]'s
    writer to it; no subscription is ever removed. *)

(** A client writing [vs] into [e] in turn. *)
Fixpoint emissions (e : nat) (vs : list jsval) : M unit :=
  match vs with
  | [] => cret tt
  | v :: vs' => _set e v ;;; emissions e vs'
  end.

(** Each value differs from the one before it. *)
Fixpoint changes (prev : jsval) (vs : list jsval) : bool :=
  match vs with
  | [] => true
  | v :: vs' => negb (js_same v prev) && changes v vs'
  end.

Section Emissions.
Context (e r h : nat) (g : jsval -> jsval).

Definition bound_listener : jsval -> prog := fun x => body (bind_listener r (fresh g) x).

(** The shape [bind] leaves and every emission keeps. *)
Definition bound_inv (s : store) : Prop :=
  e < r /\ r < next s /\ h < next s /\
  subs_of s e = [(h, bound_listener)] /\ subs_of s r = [].

(** The store one change [v] of [e] leaves: [e] assigned, the walk's
    stamp, the inner effect [S (next s)] holding [g(v)], [r] set, and
    the inner effect's subscription. *)
Definition emit_store (s : store) (v : jsval) : store :=
  add_entry (S (next s)) (inner_listener r)
    (set_quiet r (g v) (alloc_cell (g v) (bump (assign_cell e v s)))).

Lemma next_emit_store s v : next (emit_store s v) = S (S (S (next s))).
Proof. unfold emit_store. by autorewrite with store_simpl. Qed.

Lemma subs_of_emit_store_old s v x :
  x < next s -> subs_of (emit_store s v) x = subs_of s x.
Proof.
  intros Hx. unfold emit_store.
  rewrite subs_of_add_entry_ne, subs_of_set_quiet, subs_of_alloc_old by (simpl; lia).
  by autorewrite with store_simpl.
Qed.

Lemma subs_of_emit_store_inner s v :
  subs_of (emit_store s v) (S (next s)) = [(S (S (next s)), inner_listener r)].
Proof.
  unfold emit_store. rewrite subs_of_add_entry_eq, subs_of_set_quiet.
  change (S (next s)) with (next (bump (assign_cell e v s))) at 1 2.
  rewrite subs_of_alloc_new. by rewrite next_set_quiet.
Qed.

Lemma cur_emit_store_r s v : cur (emit_store s v) r = g v.
Proof. unfold emit_store. by autorewrite with store_simpl. Qed.

Lemma cur_emit_store_e s v : bound_inv s -> cur (emit_store s v) e = v.
Proof.
  intros (Her & Hr & _). unfold emit_store.
  rewrite cur_add_entry, cur_set_quiet_ne, cur_alloc_old by (simpl; lia).
  by autorewrite with store_simpl.
Qed.

Lemma bound_inv_emit_store s v : bound_inv s -> bound_inv (emit_store s v).
Proof.
  intros Hi. pose proof Hi as (Her & Hr & Hh & He & Hrs).
  unfold bound_inv. rewrite next_emit_store, !subs_of_emit_store_old by lia.
  split_and!; done || lia.
Qed.

(** One change of [e]. *)
Lemma returns_emit_one s v :
  bound_inv s -> js_same v (cur s e) = false ->
  returns (_set e v) s tt (emit_store s v).
Proof.
  intros Hi Hne. pose proof Hi as (Her & Hr & Hh & He & Hrs).
  eapply returns_set_one; [done|exact He| |].
  - unfold bound_listener. apply returns_body. apply returns_bind_listener_fresh.
    + by autorewrite with store_simpl.
    + simpl. lia.
  - rewrite subs_of_emit_store_old, He by lia.
    rewrite next_entry_cons_lt by lia. apply next_entry_nil.
Qed.

(** The changes [vs] of [e]: one inner effect per change, each still
    subscribed, and [r] holding [g] of the last. *)
Lemma emissions_run vs s :
  bound_inv s -> changes (cur s e) vs = true ->
  exists inners s', returns (emissions e vs) s tt s' /\ bound_inv s' /\
    length inners = length vs /\ NoDup inners /\
    Forall (fun i => next s <= i < next s' /\ subs_of s' i = [(S i, inner_listener r)]) inners /\
    (forall x, x < next s -> subs_of s' x = subs_of s x) /\ next s <= next s' /\
    cur s' r = List.last (List.map g vs) (cur s r).
Proof.
  revert s. induction vs as [|v vs IH]; intros s Hi Hc; simpl in Hc.
  - exists [], s. split_and!; [apply returns_ret|done..|constructor|constructor|done|lia|done].
  - apply andb_true_iff in Hc as [Hne Hc]. apply negb_true_iff in Hne.
    set (s1 := emit_store s v).
    destruct (IH s1) as (inners & s' & Hrun & Hi' & Hlen & Hnd & Hall & Hold & Hle & Hcur).
    { by apply bound_inv_emit_store. }
    { unfold s1. by rewrite cur_emit_store_e. }
    assert (Hn1 : next s1 = S (S (S (next s)))) by apply next_emit_store.
    exists (S (next s) :: inners), s'. split_and!.
    + eapply returns_bind; [apply returns_emit_one; done|exact Hrun].
    + done.
    + simpl. by rewrite Hlen.
    + constructor; [|done]. intros Hin%list_elem_of_In. rewrite List.Forall_forall in Hall.
      destruct (Hall _ Hin) as [[Hlo _] _]. lia.
    + constructor.
      * split; [lia|]. rewrite Hold by lia. apply subs_of_emit_store_inner.
      * eapply Forall_impl; [exact Hall|]. intros i [[Hlo Hhi] Hs]. split; [lia|done].
    + intros x Hx. rewrite Hold by lia. by apply subs_of_emit_store_old.
    + lia.
    + rewrite Hcur. destruct vs as [|v' vs']; [apply cur_emit_store_r|].
      apply (last_cons_indep (g v') (List.map g vs')).
Qed.

(** A write of [w] to an inner effect [i] still subscribed overwrites
    [r], however old [i] is. *)
Lemma stale_inner_write s i w :
  subs_of s i = [(S i, inner_listener r)] -> subs_of s r = [] -> i <> r ->
  js_same w (cur s i) = false ->
  returns (_set i w) s tt (set_quiet r w (bump (assign_cell i w s))).
Proof.
  intros Hs Hrs Hir Hne. eapply returns_set_one; [done|exact Hs| |].
  - apply returns_body. apply returns_set_quiet. by autorewrite with store_simpl.
  - rewrite subs_of_set_quiet. autorewrite with store_simpl. rewrite Hs.
    rewrite next_entry_cons_lt by lia. apply next_entry_nil.
Qed.

End Emissions.

(** [bind] leaves its source with one subscriber, [bind_listener],
    and the result effect with none. *)
Lemma returns_bind_fresh_inv e g s :
  e < next s -> subs_of s e = [] ->
  exists s1, returns (bind e (fresh g)) s (S (next s)) s1 /\
    bound_inv e (S (next s)) (S (S (next s))) g s1 /\
    cur s1 e = cur s e /\ cur s1 (S (next s)) = g (cur s e) /\ next s1 = S (S (S (next s))).
Proof.
  intros He Hs. eexists. split; [exact (returns_bind_effect e (fresh g) s _ _ (returns_fresh g (cur s e) s))|].
  assert (Hn0 : next (alloc_cell (g (cur s e)) s) = S (next s)) by reflexivity.
  unfold bound_inv. rewrite cur_alloc_new, Hn0. split_and!.
  - lia.
  - simpl. lia.
  - simpl. lia.
  - rewrite subs_of_add_entry_eq, !subs_of_alloc_old, Hs by (simpl; lia). reflexivity.
  - rewrite subs_of_add_entry_ne by lia. rewrite <- Hn0 at 1. apply subs_of_alloc_new.
  - rewrite cur_add_entry, !cur_alloc_old by (simpl; lia). done.
  - rewrite cur_add_entry. rewrite <- Hn0 at 1. apply cur_alloc_new.
  - reflexivity.
Qed.

(** C20: [bind] keeps every inner subscription: after [n] changes of
    the source, [n] inner effects, all distinct, each still carry the
    subscription that writes the result, which holds [g] of the last
    value; a write to any of them, however stale, overwrites the
    result.  Only the latest inner effect should be live. *)
Theorem bind_inner_subscriptions_accumulate e g vs s :
  e < next s -> subs_of s e = [] -> changes (cur s e) vs = true ->
  exists r inners s',
    returns (r <- bind e (fresh g) ;; emissions e vs ;;; cret r) s r s' /\
    length inners = length vs /\ NoDup inners /\
    Forall (fun i => i <> r /\ subs_of s' i = [(S i, inner_listener r)]) inners /\
    cur s' r = List.last (List.map g vs) (g (cur s e)) /\
    forall i w, In i inners -> js_same w (cur s' i) = false ->
      exists s'', returns (_set i w) s' tt s'' /\ cur s'' r = w.
Proof.
  intros He Hs Hc.
  destruct (returns_bind_fresh_inv e g s He Hs) as (s1 & Hb & Hi & Hce & Hcr & Hn).
  destruct (emissions_run e (S (next s)) (S (S (next s))) g vs s1 Hi) as
    (inners & s' & Hrun & Hi' & Hlen & Hnd & Hall & _ & _ & Hcur); [by rewrite Hce|].
  exists (S (next s)), inners, s'. split_and!.
  - eapply returns_bind; [exact Hb|]. eapply returns_bind; [exact Hrun|apply returns_ret].
  - done.
  - done.
  - eapply Forall_impl; [exact Hall|]. intros i [Hrange Hsub]. split; [lia|done].
  - by rewrite Hcur, Hcr.
  - intros i w Hin Hne. rewrite List.Forall_forall in Hall.
    destruct (Hall i Hin) as [Hrange Hsub]. destruct Hi' as (_ & _ & _ & _ & Hrs).
    eexists. split; [apply stale_inner_write; done || lia|].
    apply cur_set_quiet_eq.
Qed.

(** ** Witnesses *)

(** Two effects [0 := 1] and [1 := 2] without subscribers. *)
Definition st_two : store := alloc_cell (num 2) (alloc_cell (num 1) (init_store 0)).

Lemma bind_right_identity_tracks_witness :
  0 < next st_two /\ subs_of st_two 0 = [] /\
  exists r s1, returns (r <- bind 0 pureEffect ;; _set 0 (num 7) ;;; cret r) st_two r s1 /\
               cur s1 r = num 7 /\ cur s1 0 = num 7.
Proof.
  split; [simpl; lia|]. split; [reflexivity|].
  apply (bind_right_identity_tracks 0 (num 7) st_two); [simpl; lia|reflexivity].
Defined.

Lemma sequence_values_witness :
  Forall (fun c => c < next st_two) [0; 1] /\
  exists r s1, returns (sequence [0; 1]) st_two r s1 /\
               elems_of (cur s1 r) = List.map (cur st_two) [0; 1].
Proof.
  assert (H : Forall (fun c => c < next st_two) [0; 1]) by (repeat constructor; simpl; lia).
  split; [exact H|]. apply (sequence_values [0; 1] st_two). exact H.
Defined.

Lemma bind_inner_subscriptions_accumulate_witness :
  0 < next st_two /\ subs_of st_two 0 = [] /\ changes (cur st_two 0) [num 3; num 4] = true /\
  exists r inners s',
    returns (r <- bind 0 (fresh (js_scale 2)) ;; emissions 0 [num 3; num 4] ;;; cret r) st_two r s' /\
    length inners = length [num 3; num 4] /\ NoDup inners /\
    Forall (fun i => i <> r /\ subs_of s' i = [(S i, inner_listener r)]) inners /\
    cur s' r = List.last (List.map (js_scale 2) [num 3; num 4]) (js_scale 2 (cur st_two 0)) /\
    forall i w, In i inners -> js_same w (cur s' i) = false ->
      exists s'', returns (_set i w) s' tt s'' /\ cur s'' r = w.
Proof.
  split; [simpl; lia|]. split; [reflexivity|]. split; [reflexivity|].
  apply (bind_inner_subscriptions_accumulate 0 (js_scale 2) [num 3; num 4] st_two);
    [simpl; lia|reflexivity|reflexivity].
Defined.

End Effect.
