(* ===== verification/StateAlg.v ===== *)
(** * The state layer: [algebras/state] ([src/unnamed/part_011])

    [machine] and [fsm] keep their current state in a closure variable
    next to a JS [Set] of subscribers; here that pair is an engine cell.
    The state of an [fsm] is a string, held as [JStr].  [combine] owns a
    subscriber set of its own (a cell whose value is not used) and
    subscribes its [notify] to both machines.  The [state] wrapper keeps
    [currentState] in a closure variable that no one subscribes to,
    again a cell, beside the effect it copies its methods from.

    Reducers are JS functions without effects ([jsval -> jsval -> jsval]);
    guards of [fsm] rows may run any code ([M bool]). *)

From Stdlib Require Import ZArith String.
From stdpp Require Import base list gmap.
From S2P Require Import Prelude JsValue Engine Signal Effect.

Local Open Scope resig_scope.

(** ** [state] (lines 17-54) *)

Module StateWrapper.
Import Signal Effect.

Record state_obj : Type := mk_state {
  st_current : nat;   (** the cell of [let currentState] *)
  st_effect : nat     (** [baseEffect] *)
}.

(** [state(initialState, initialValue)] (lines 17-23). *)
Definition state (initialState initialValue : jsval) : M state_obj :=
  cs <- alloc initialState ;;
  baseEffect <- effect initialValue ;;
  cret (mk_state cs baseEffect).

(** [get] (lines 31-33). *)
Definition get (w : state_obj) : M state_obj :=
  currentState <- read (st_current w) ;; state currentState currentState.

(** [put] (lines 35-39): the new wrapper is built first, then the
    caller's [currentState] is overwritten. *)
Definition put (w : state_obj) (newState : jsval) : M state_obj :=
  putState <- state newState JUndef ;;
  assign (st_current w) newState ;;;
  cret putState.

(** [modify] (lines 41-44). *)
Definition modify (w : state_obj) (f : jsval -> jsval) : M state_obj :=
  currentState <- read (st_current w) ;; put w (f currentState).

(** [_setState] (lines 46-48) and [_setValue] (line 50). *)
Definition _setState (w : state_obj) (s : jsval) : M unit := assign (st_current w) s.
Definition _setValue (w : state_obj) (v : jsval) : M unit := _set (st_effect w) v.

(** [lens(f)(stateEffect)] (lines 165-167). *)
Definition lens (f : jsval -> M jsval) (w : state_obj) : M nat := map (st_effect w) f.

Lemma returns_state v1 v2 s :
  returns (state v1 v2) s (mk_state (next s) (S (next s))) (alloc_cell v2 (alloc_cell v1 s)).
Proof.
  unfold state. eapply returns_bind; [apply returns_alloc|].
  eapply returns_bind; [apply returns_effect|apply returns_ret].
Qed.

Lemma returns_put w v s :
  returns (put w v) s (mk_state (next s) (S (next s)))
    (assign_cell (st_current w) v (alloc_cell JUndef (alloc_cell v s))).
Proof.
  unfold put. eapply returns_bind; [apply returns_state|].
  eapply returns_bind; [apply returns_assign|apply returns_ret].
Qed.

(** [put] then [get] on the same wrapper: [put(v)] overwrites the
    caller's [currentState], so the wrapper [get()] returns holds [v]
    both as state and as value. *)
Theorem put_then_get w v s :
  exists g s1, returns (_ <- put w v ;; get w) s g s1 /\
               cur s1 (st_current g) = v /\ cur s1 (st_effect g) = v.
Proof.
  eexists _, _. split.
  - eapply returns_bind; [apply returns_put|]. unfold get.
    eapply returns_bind; [apply returns_read|]. apply returns_state.
  - simpl. rewrite cur_assign_eq. split.
    + rewrite cur_alloc_old, cur_alloc_new by (simpl; lia). done.
    + by rewrite cur_alloc_new.
Qed.

(** two [modify] calls on one wrapper compose: the caller's
    [currentState] ends as [g(f(s))]. *)
Theorem modify_modify w f g s :
  exists w1 w2 s1, returns (w1 <- modify w f ;; w2 <- modify w g ;; cret (w1, w2)) s (w1, w2) s1 /\
                   cur s1 (st_current w) = g (f (cur s (st_current w))) /\
                   cur s1 (st_current w2) = g (f (cur s (st_current w))).
Proof.
  do 3 eexists. split.
  - unfold modify. eapply returns_bind.
    { eapply returns_bind; [apply returns_read|apply returns_put]. }
    eapply returns_bind.
    { eapply returns_bind; [apply returns_read|apply returns_put]. }
    apply returns_ret.
  - rewrite !cur_assign_eq. split; [done|].
    destruct (decide (st_current w = next (assign_cell (st_current w) (f (cur s (st_current w)))
       (alloc_cell JUndef (alloc_cell (f (cur s (st_current w))) s))))) as [->|Hne].
    + by rewrite cur_assign_eq.
    + rewrite cur_assign_ne by done. by rewrite cur_alloc_old, cur_alloc_new by (simpl; lia).
Qed.

End StateWrapper.

(** ** [machine] (lines 68-97) *)

Module Machine.
Import Signal.

Record machine_obj : Type := mk_machine {
  m_cell : nat;
  m_reducer : jsval -> jsval -> jsval
}.

(** [machine(initialState, reducer)] (lines 68-73). *)
Definition machine (initialState : jsval) (reducer : jsval -> jsval -> jsval) : M machine_obj :=
  c <- alloc initialState ;; cret (mk_machine c reducer).

(** [notify] (lines 75-77): [currentState] is read at each call. *)
Definition notify (m : machine_obj) : M unit := notify_with (m_cell m) (current_of (m_cell m)).

(** [get state()] (lines 80-82). *)
Definition state (m : machine_obj) : M jsval := read (m_cell m).

(** [send] (lines 84-90). *)
Definition send (m : machine_obj) (action : jsval) : M unit :=
  currentState <- read (m_cell m) ;;
  let newState := m_reducer m currentState action in
  if negb (js_same newState currentState)
  then assign (m_cell m) newState ;;; notify m
  else cret tt.

(** [subscribe] (lines 92-95). *)
Definition subscribe (m : machine_obj) (fn : jsval -> M unit) : M (M unit) :=
  Signal.subscribe (m_cell m) fn.

(** The machine of the specification's scenario: [('idle', 'start')]
    goes to ['loading'], every other pair keeps the state. *)
Definition demo_reducer (st action : jsval) : jsval :=
  if js_same st (JStr "idle") && js_same action (JStr "start") then JStr "loading" else st.

Definition scenario_machine : prog :=
  body (m <- machine (JStr "idle") demo_reducer ;;
        _ <- subscribe m (callback 7) ;;
        send m (JStr "start") ;;; send m (JStr "start")).

(** C19: [send] is [_set] of the reducer's output: a machine notifies its
    subscribers exactly when [reducer(state, action) !== state], with
    the same walk as a signal. *)
Theorem send_is_set m action k s s' :
  big (send m action k) s s' <->
  big (_set (m_cell m) (m_reducer m (cur s (m_cell m)) action) k) s s'.
Proof.
  unfold send, _set, value, read, cbind, cret, assign, notify, Signal.notify.
  by rewrite !big_read_iff.
Qed.

(** the scenario of the specification: [machine('idle', reducer)]
    sent ['start'] holds ['loading'] and notified its subscriber once;
    the second ['start'] leaves ['loading'] unchanged and silent. *)
Example scenario_machine_run :
  exists s', big scenario_machine (init_store 0) s' /\
             cur s' 0 = JStr "loading" /\ trace s' = [OCall 7 (JStr "loading")].
Proof.
  exists (run_prog scenario_machine (init_store 0)).
  split; [apply run_prog_big|split]; vm_compute; reflexivity.
Qed.

End Machine.

(** ** [fsm] (lines 119-160) *)

Module Fsm.
Import Signal.

(** A row of the transition table (lines 109-114). *)
Record transition : Type := mk_transition {
  tr_from : string;
  tr_to : string;
  tr_on : jsval;
  tr_guard : option (M bool)
}.

Record fsm_obj : Type := mk_fsm {
  f_cell : nat;
  f_transitions : list transition
}.

Definition str_of (v : jsval) : string :=
  match v with
  | JStr s => s
  | _ => EmptyString
  end.

(** [fsm(initialState, transitions)] (lines 119-124). *)
Definition fsm (initialState : string) (transitions : list transition) : M fsm_obj :=
  c <- alloc (JStr initialState) ;; cret (mk_fsm c transitions).

(** [notify] (lines 126-128). *)
Definition notify (f : fsm_obj) : M unit := notify_with (f_cell f) (current_of (f_cell f)).

(** The predicate [find] applies to a row, before the guard:
    [t.from === currentState && t.on === action]. *)
Definition row_matches (currentState : string) (action : jsval) (t : transition) : bool :=
  String.eqb (tr_from t) currentState && js_same (tr_on t) action.

(** [transitions.find(...)] of [getTransition] (lines 130-136): rows are
    tried in order, a guard runs only when its row matches, and the
    search stops at the first success. *)
Fixpoint find_transition (currentState : string) (action : jsval) (ts : list transition)
    : M (option transition) :=
  match ts with
  | [] => cret None
  | t :: rest =>
      if row_matches currentState action t then
        match tr_guard t with
        | None => cret (Some t)
        | Some guard =>
            ok <- guard ;;
            if ok then cret (Some t) else find_transition currentState action rest
        end
      else find_transition currentState action rest
  end.

(** [getTransition] (lines 130-136). *)
Definition getTransition (f : fsm_obj) (action : jsval) : M (option transition) :=
  currentState <- read (f_cell f) ;; find_transition (str_of currentState) action (f_transitions f).

(** [get current()] (lines 139-141). *)
Definition current (f : fsm_obj) : M jsval := read (f_cell f).

(** [send] (lines 143-149). *)
Definition send (f : fsm_obj) (action : jsval) : M unit :=
  transition <- getTransition f action ;;
  match transition with
  | Some t => assign (f_cell f) (JStr (tr_to t)) ;;; notify f
  | None => cret tt
  end.

(** [can] (lines 151-153). *)
Definition can (f : fsm_obj) (action : jsval) : M bool :=
  transition <- getTransition f action ;; cret (bool_decide (is_Some transition)).

(** [subscribe] (lines 155-158). *)
Definition subscribe (f : fsm_obj) (fn : jsval -> M unit) : M (M unit) :=
  Signal.subscribe (f_cell f) fn.

(** The search of [getTransition] as a pure function, given the value
    [gv t] each guard returns. *)
Definition find_row (gv : transition -> bool) (currentState : string) (action : jsval)
    (ts : list transition) : option transition :=
  List.find (fun t => row_matches currentState action t &&
                      match tr_guard t with None => true | Some _ => gv t end) ts.

(** The table of the specification: [idle -> loading] on ['start'], and
    a self-loop [loading -> loading] on ['tick']. *)
Definition demo_rows : list transition :=
  [mk_transition "idle" "loading" (JStr "start") None;
   mk_transition "loading" "loading" (JStr "tick") None].

Definition scenario_fsm (actions : list jsval) : prog :=
  body (f <- fsm "idle" demo_rows ;;
        _ <- subscribe f (callback 7) ;;
        foldr (fun a m => send f a ;;; m) (cret tt) actions).

(** A guarded table: the first row's guard returns [false]. *)
Definition guarded_rows : list transition :=
  [mk_transition "idle" "loading" (JStr "start") (Some (cret false));
   mk_transition "idle" "error" (JStr "start") None].

Definition st_fsm : store := alloc_cell (JStr "idle") (init_store 0).

(** ** Theorems *)

(** [find] with guards: when every guard of the table returns [gv t]
    without touching the store, [find_transition] returns the first row
    that matches and whose guard holds, as [find_row] computes. *)
Theorem find_transition_spec gv cs action ts s :
  (forall t g, In t ts -> tr_guard t = Some g -> returns g s (gv t) s) ->
  returns (find_transition cs action ts) s (find_row gv cs action ts) s.
Proof.
  induction ts as [|t ts IH]; intros Hg; [apply returns_ret|]. simpl.
  assert (IH' : returns (find_transition cs action ts) s (find_row gv cs action ts) s)
    by (apply IH; intros; eapply Hg; eauto using in_cons).
  destruct (row_matches cs action t); simpl; [|exact IH'].
  destruct (tr_guard t) as [g|] eqn:Eg; [|apply returns_ret].
  eapply returns_bind; [eapply Hg; [left|]; eauto|].
  destruct (gv t); [apply returns_ret|exact IH'].
Qed.

Section Send.
Variables (f : fsm_obj) (gv : transition -> bool) (action : jsval) (s : store).
Hypothesis Hguards :
  forall t g, In t (f_transitions f) -> tr_guard t = Some g -> returns g s (gv t) s.

Lemma returns_getTransition :
  returns (getTransition f action) s
    (find_row gv (str_of (cur s (f_cell f))) action (f_transitions f)) s.
Proof.
  unfold getTransition. eapply returns_bind; [apply returns_read|].
  by apply find_transition_spec.
Qed.

(** C18: the no-op guarantee: when no row matches the current state and
    the action with a guard that holds, [send] changes nothing and calls
    no subscriber. *)
Theorem send_noop :
  find_row gv (str_of (cur s (f_cell f))) action (f_transitions f) = None ->
  returns (send f action) s tt s.
Proof.
  intros Hn. unfold send. eapply returns_bind; [apply returns_getTransition|].
  rewrite Hn. apply returns_ret.
Qed.

(** C17: a matching row [t] moves the machine to [t.to] and calls every
    subscriber, even when [t.to] is the current state. *)
Theorem send_fires t k s' :
  find_row gv (str_of (cur s (f_cell f))) action (f_transitions f) = Some t ->
  big (send f action k) s s' <->
  exists s1, big_notify (f_cell f) (current_of (f_cell f)) 0
               (assign_cell (f_cell f) (JStr (tr_to t)) s) s1 /\ big (k tt) s1 s'.
Proof.
  intros Ht. unfold send, cbind at 1. rewrite (returns_getTransition _ s'). cbv beta.
  rewrite Ht. unfold assign, notify, notify_with, cbind. by rewrite big_assign_iff, big_notify_iff.
Qed.

(** [can(action)] is true exactly when a row would fire, and asking
    changes nothing. *)
Theorem can_spec :
  returns (can f action) s
    (bool_decide (is_Some (find_row gv (str_of (cur s (f_cell f))) action (f_transitions f)))) s.
Proof. unfold can. eapply returns_bind; [apply returns_getTransition|apply returns_ret]. Qed.

End Send.

(** the specification's example: [fsm('idle', rows).send('bogus')]
    leaves ['idle'] and calls no subscriber. *)
Example fsm_bogus_noop :
  exists s', big (scenario_fsm [JStr "bogus"]) (init_store 0) s' /\
             cur s' 0 = JStr "idle" /\ trace s' = [].
Proof.
  exists (run_prog (scenario_fsm [JStr "bogus"]) (init_store 0)).
  split; [apply run_prog_big|split]; vm_compute; reflexivity.
Qed.

(** a self-loop row notifies: after ['start'], a ['tick'] keeps
    ['loading'] but calls the subscriber again with the same state,
    unlike [machine], which is silent when the state does not change. *)
Example fsm_self_loop_notifies :
  exists s', big (scenario_fsm [JStr "start"; JStr "tick"]) (init_store 0) s' /\
             cur s' 0 = JStr "loading" /\
             trace s' = [OCall 7 (JStr "loading"); OCall 7 (JStr "loading")].
Proof.
  exists (run_prog (scenario_fsm [JStr "start"; JStr "tick"]) (init_store 0)).
  split; [apply run_prog_big|split]; vm_compute; reflexivity.
Qed.

(** ** Witnesses *)

Lemma guarded_rows_guards :
  forall t g, In t guarded_rows -> tr_guard t = Some g -> returns g st_fsm ((fun _ => false) t) st_fsm.
Proof.
  intros t g Hin Hg. destruct Hin as [<-|[<-|[]]]; simpl in Hg; [|discriminate].
  injection Hg as <-. apply returns_ret.
Qed.

Lemma demo_rows_guards :
  forall t g, In t demo_rows -> tr_guard t = Some g -> returns g st_fsm ((fun _ => true) t) st_fsm.
Proof. intros t g Hin Hg. destruct Hin as [<-|[<-|[]]]; discriminate. Qed.

Lemma find_transition_spec_witness :
  returns (find_transition "idle" (JStr "start") guarded_rows) st_fsm
    (find_row (fun _ => false) "idle" (JStr "start") guarded_rows) st_fsm /\
  find_row (fun _ => false) "idle" (JStr "start") guarded_rows =
    Some (mk_transition "idle" "error" (JStr "start") None).
Proof.
  split; [|reflexivity].
  apply (find_transition_spec (fun _ => false) "idle" (JStr "start") guarded_rows st_fsm).
  apply guarded_rows_guards.
Defined.

Lemma send_noop_witness :
  find_row (fun _ => true) (str_of (cur st_fsm 0)) (JStr "bogus") demo_rows = None /\
  returns (send (mk_fsm 0 demo_rows) (JStr "bogus")) st_fsm tt st_fsm.
Proof.
  split; [reflexivity|].
  apply (send_noop (mk_fsm 0 demo_rows) (fun _ => true) (JStr "bogus") st_fsm).
  - apply demo_rows_guards.
  - reflexivity.
Defined.

Lemma send_fires_witness :
  find_row (fun _ => true) (str_of (cur st_fsm 0)) (JStr "start") demo_rows =
    Some (mk_transition "idle" "loading" (JStr "start") None) /\
  (big (send (mk_fsm 0 demo_rows) (JStr "start") (fun _ => Done)) st_fsm
       (assign_cell 0 (JStr "loading") st_fsm) <->
   exists s1, big_notify 0 (current_of 0) 0 (assign_cell 0 (JStr "loading") st_fsm) s1 /\
              big Done s1 (assign_cell 0 (JStr "loading") st_fsm)).
Proof.
  split; [reflexivity|].
  apply (send_fires (mk_fsm 0 demo_rows) (fun _ => true) (JStr "start") st_fsm
           demo_rows_guards (mk_transition "idle" "loading" (JStr "start") None)
           (fun _ => Done)).
  reflexivity.
Defined.

Lemma can_spec_witness :
  returns (can (mk_fsm 0 guarded_rows) (JStr "start")) st_fsm true st_fsm.
Proof.
  apply (can_spec (mk_fsm 0 guarded_rows) (fun _ => false) (JStr "start") st_fsm).
  apply guarded_rows_guards.
Defined.

End Fsm.

(** ** [combine] (lines 172-203) *)

Module Combine.
Import Signal Machine.

Record combined_obj : Type := mk_combined {
  c_cell : nat;   (** the cell holding [combine]'s own subscriber set *)
  c_m1 : machine_obj;
  c_m2 : machine_obj
}.

(** [{ m1: machine1.state, m2: machine2.state }]: a new object. *)
Definition pair_obj (m1 m2 : machine_obj) (vs : gmap nat jsval) (id : nat) : jsval :=
  JObj id [("m1"%string, default JUndef (vs !! m_cell m1)); ("m2"%string, default JUndef (vs !! m_cell m2))].

(** [notify] (lines 178-180). *)
Definition notify (c : nat) (m1 m2 : machine_obj) : M unit := notify_with c (pair_obj m1 m2).

(** [combine(machine1, machine2)] (lines 172-183). *)
Definition combine (m1 m2 : machine_obj) : M combined_obj :=
  c <- alloc JUndef ;;
  _ <- Machine.subscribe m1 (fun _ => notify c m1 m2) ;;
  _ <- Machine.subscribe m2 (fun _ => notify c m1 m2) ;;
  cret (mk_combined c m1 m2).

(** [get state()] (lines 186-188). *)
Definition state (cm : combined_obj) : M jsval :=
  s1 <- Machine.state (c_m1 cm) ;; s2 <- Machine.state (c_m2 cm) ;;
  i <- new_id ;; cret (JObj i [("m1"%string, s1); ("m2"%string, s2)]).

(** [send] (lines 190-196). *)
Definition send (cm : combined_obj) (action : jsval) : M unit :=
  if js_same (get_field action "type"%string) (JStr "m1")
  then Machine.send (c_m1 cm) (get_field action "action"%string)
  else Machine.send (c_m2 cm) (get_field action "action"%string).

(** [subscribe] (lines 198-201). *)
Definition subscribe (cm : combined_obj) (fn : jsval -> M unit) : M (M unit) :=
  Signal.subscribe (c_cell cm) fn.

(** A second machine: ['toggle'] flips ['off'] and ['on']. *)
Definition toggle (st action : jsval) : jsval :=
  if js_same action (JStr "toggle")
  then (if js_same st (JStr "off") then JStr "on" else JStr "off")
  else st.

(** [{ type: ty, action: a }], a new object. *)
Definition tagged (ty : string) (a : jsval) : M jsval :=
  i <- new_id ;; cret (JObj i [("type"%string, JStr ty); ("action"%string, a)]).

(** Two machines combined, a client on the product, then one action
    for each machine that changes it and one that does not. *)
Definition scenario_combine : prog :=
  body (m1 <- machine (JStr "idle") demo_reducer ;; m2 <- machine (JStr "off") toggle ;;
        cm <- combine m1 m2 ;; _ <- subscribe cm (callback 7) ;;
        a1 <- tagged "m1" (JStr "start") ;; send cm a1 ;;;
        a2 <- tagged "m2" (JStr "start") ;; send cm a2 ;;;
        a3 <- tagged "m2" (JStr "toggle") ;; send cm a3).

(** [combine] routes each tagged action to its machine and calls the
    product's subscribers with a new [{m1, m2}] object of the current
    states on each change of either machine, and only then. *)
Example scenario_combine_run :
  exists s' i j, big scenario_combine (init_store 0) s' /\
    trace s' = [OCall 7 (JObj i [("m1"%string, JStr "loading"); ("m2"%string, JStr "off")]);
                OCall 7 (JObj j [("m1"%string, JStr "loading"); ("m2"%string, JStr "on")])].
Proof.
  exists (run_prog scenario_combine (init_store 0)), 8, 12.
  split; [apply run_prog_big|]; vm_compute; reflexivity.
Qed.

End Combine.
