(* ===== verification/Time.v ===== *)
(** * The time layer: [src/src/algebras/time.ts]

    Timers are the engine's ([Engine.set_timer], [Engine.clear_timer_m])
    and fire from the event loop [Engine.run_until].  A [time] value is
    an effect.  The closure variables of the operators ([hasCompleted],
    [timeoutId], [lastExecution], and [intervalId], [subscriberCount],
    [tickCount] of [interval]) are cells nobody subscribes to; counters
    hold JS numbers.  A timer handle is an object whose identity is the
    timer's id (Node's [Timeout] objects are always truthy).  Numbers are
    in units of 10^-6, so the nudge [tickCount * 0.000001] of [interval]
    adds [tickCount] units. *)

From Stdlib Require Import ZArith String.
From stdpp Require Import base list gmap strings pretty.
From S2P Require Import Prelude JsValue Engine Signal Effect.

Local Open Scope resig_scope.

Module Time.
Import Signal Effect.

(** The value [setTimeout] returns. *)
Definition handle (id : nat) : jsval := JObj id [].

(** [clearTimeout(h)] / [clearInterval(h)]; [undefined] is ignored. *)
Definition clear_handle (h : jsval) : M unit :=
  match h with
  | JObj id _ => clear_timer_m id
  | _ => cret tt
  end.

(** [time(initial)] (lines 17-18, 116): an effect. *)
Definition time (initial : jsval) : M nat := effect initial.

(** [delay(ms)] (lines 28-43). *)
Definition delay_m (base : nat) (ms : Z) : M nat :=
  v <- value base ;;
  delayed <- time v ;;
  _ <- set_timer ms false (body (bv <- value base ;; _set delayed bv)) ;;
  _ <- subscribe base (fun newValue =>
         _ <- set_timer ms false (body (_set delayed newValue)) ;; cret tt) ;;
  cret delayed.

Definition timeout_msg (ms : Z) : string := "Timeout after " +:+ pretty ms +:+ "ms".

(** [timeout(ms)] (lines 45-66). *)
Definition timeout_m (base : nat) (ms : Z) : M nat :=
  v <- value base ;;
  timedOut <- time v ;;
  hasCompleted <- alloc (JBool false) ;;
  timeoutId <- set_timer ms false
    (body (hc <- read hasCompleted ;;
           if negb (truthy hc)
           then (i <- new_id ;; _set timedOut (JErr i (timeout_msg ms)))
           else cret tt)) ;;
  _ <- subscribe base (fun newValue =>
         hc <- read hasCompleted ;;
         if negb (truthy hc)
         then assign hasCompleted (JBool true) ;;; clear_timer_m timeoutId ;;; _set timedOut newValue
         else cret tt) ;;
  cret timedOut.

(** The value a tick writes (lines 86-97 and 155-162): a number is
    nudged by [tickCount] units, a string is concatenated with [''], any
    other value becomes a new object with a [_tick] field. *)
Definition nudge (tickCount : Z) (v : jsval) : M jsval :=
  match v with
  | JNum m => cret (JNum (m + tickCount))
  | JNaN => cret JNaN
  | JStr s => cret (JStr (s +:+ ""))
  | _ => i <- new_id ;; cret (JObj i (set_field (spread v) "_tick" (num tickCount)))
  end.

(** The callback of [setInterval] (lines 82-98 and 152-163); [current]
    is [baseEffect.value()] in the method and the captured [value] in
    the standalone [interval]. *)
Definition tick_body (intervalTime tickCount : nat) (current : M jsval) : prog :=
  body (tc <- read tickCount ;; assign tickCount (js_add tc (num 1)) ;;;
        tc' <- read tickCount ;;
        v <- current ;;
        nv <- nudge (int_of tc') v ;;
        _set intervalTime nv).

(** [customIntervalTime]: [intervalTime]'s methods with its own
    [subscribe]. *)
Record interval_obj : Type := mk_interval {
  iv_time : nat;      (** [intervalTime] *)
  iv_id : nat;        (** [let intervalId] *)
  iv_count : nat;     (** [let subscriberCount] *)
  iv_ticks : nat;     (** [let tickCount] *)
  iv_ms : Z;
  iv_tick : prog
}.

(** The [unsubscribe] closure it returns (lines 102-108). *)
Definition iv_unsubscribe (o : interval_obj) (unsubscribe : M unit) : M unit :=
  c <- read (iv_count o) ;; assign (iv_count o) (js_add c (num (-1))) ;;;
  c' <- read (iv_count o) ;;
  i <- read (iv_id o) ;;
  (if js_same c' (num 0) && truthy i then clear_handle i else cret tt) ;;;
  unsubscribe.

(** Its [subscribe] (lines 77-109 and 147-174). *)
Definition iv_subscribe (o : interval_obj) (fn : jsval -> M unit) : M (M unit) :=
  c <- read (iv_count o) ;; assign (iv_count o) (js_add c (num 1)) ;;;
  c' <- read (iv_count o) ;;
  (if js_same c' (num 1)
   then (id <- set_timer (iv_ms o) true (iv_tick o) ;; assign (iv_id o) (handle id))
   else cret tt) ;;;
  unsubscribe <- subscribe (iv_time o) fn ;;
  cret (iv_unsubscribe o unsubscribe).

(** [interval(ms)] (lines 68-113). *)
Definition interval_m (base : nat) (ms : Z) : M interval_obj :=
  v <- value base ;;
  intervalTime <- time v ;;
  intervalId <- alloc JUndef ;;
  subscriberCount <- alloc (num 0) ;;
  tickCount <- alloc (num 0) ;;
  cret (mk_interval intervalTime intervalId subscriberCount tickCount ms
          (tick_body intervalTime tickCount (value base))).

(** [delay(ms, value)] (lines 122-124). *)
Definition delay (ms : Z) (v : jsval) : M nat :=
  t <- time v ;; delay_m t ms.

(** [timeout(ms, effect)] (lines 129-133). *)
Definition timeout (ms : Z) (e : nat) : M nat :=
  v <- value e ;;
  timeEffect <- time v ;;
  _ <- subscribe e (fun x => _set timeEffect x) ;;
  timeout_m timeEffect ms.

(** [interval(ms, value)] (lines 138-178). *)
Definition interval (ms : Z) (v : jsval) : M interval_obj :=
  intervalTime <- time v ;;
  intervalId <- alloc JUndef ;;
  subscriberCount <- alloc (num 0) ;;
  tickCount <- alloc (num 0) ;;
  cret (mk_interval intervalTime intervalId subscriberCount tickCount ms
          (tick_body intervalTime tickCount (cret v))).

(** The closure [debounce] subscribes (lines 187-192). *)
Definition debounce_listener (debounced timeoutId : nat) (ms : Z) (newValue : jsval) : M unit :=
  tid <- read timeoutId ;;
  clear_handle tid ;;;
  id <- set_timer ms false (body (_set debounced newValue)) ;;
  assign timeoutId (handle id).

(** [debounce(ms, effect)] (lines 183-195). *)
Definition debounce (ms : Z) (e : nat) : M nat :=
  v <- value e ;;
  debounced <- time v ;;
  timeoutId <- alloc JUndef ;;
  _ <- subscribe e (debounce_listener debounced timeoutId ms) ;;
  cret debounced.

(** The closure [throttle] subscribes (lines 204-210). *)
Definition throttle_listener (throttled lastExecution : nat) (ms : Z) (newValue : jsval) : M unit :=
  n <- now ;;
  le <- read lastExecution ;;
  if (ms <=? n - int_of le)%Z
  then _set throttled newValue ;;; assign lastExecution (num n)
  else cret tt.

(** [throttle(ms, effect)] (lines 200-213). *)
Definition throttle (ms : Z) (e : nat) : M nat :=
  v <- value e ;;
  throttled <- time v ;;
  lastExecution <- alloc (num 0) ;;
  _ <- subscribe e (throttle_listener throttled lastExecution ms) ;;
  cret throttled.

(** The store after [clearTimeout(h)]. *)
Definition cleared (h : jsval) (s : store) : store :=
  match h with
  | JObj id _ => clear_timer id s
  | _ => s
  end.

(** A pending timer that writes a value into [debounced]. *)
Definition debounce_pending (debounced : nat) (t : timer) : Prop :=
  exists x, tm_cb t = body (_set debounced x).

(** Every pending write into [debounced] is the timer [timeoutId] holds. *)
Definition debounce_inv (debounced timeoutId : nat) (s : store) : Prop :=
  forall t, In t (timers s) -> debounce_pending debounced t -> cur s timeoutId = handle (tm_id t).

(** The interval's timer is running: [intervalId] holds the handle of a
    pending timer. *)
Definition iv_active (o : interval_obj) (s : store) : Prop :=
  exists id, cur s (iv_id o) = handle id /\ exists t, In t (timers s) /\ tm_id t = id.

(** The reference count: [subscriberCount] is [n], and the timer runs
    exactly when [n > 0]. *)
Definition iv_inv (o : interval_obj) (n : nat) (s : store) : Prop :=
  cur s (iv_count o) = num (Z.of_nat n) /\ (iv_active o s <-> 0 < n).

(** ** Scenarios (the clock starts at [1000] ms) *)

Definition st0 : store := init_store 1000.

(** The specification's debounce example: [0], [1], [2] 10 ms apart,
    then 200 ms of silence. *)
Definition sc_debounce : list script_step :=
  [Run (body (e <- effect JUndef ;; d <- debounce 100 e ;; _ <- subscribe d (callback 7) ;;
              _set e (num 0)));
   Wait 10; Run (body (_set 0 (num 1))); Wait 10; Run (body (_set 0 (num 2))); Wait 200].

(** Values at 1000, 1050 and 1100 ms through [throttle(100)]. *)
Definition sc_throttle : list script_step :=
  [Run (body (e <- effect JUndef ;; d <- throttle 100 e ;; _ <- subscribe d (callback 7) ;;
              _set e (num 1)));
   Wait 50; Run (body (_set 0 (num 2))); Wait 50; Run (body (_set 0 (num 3)))].

(** [timeout(100, e)]: the source emits at 50 ms, or at 150 ms. *)
Definition sc_timeout (at_ms : Z) : list script_step :=
  [Run (body (e <- effect JUndef ;; d <- timeout 100 e ;; _ <- subscribe d (callback 7) ;; cret tt));
   Wait at_ms; Run (body (_set 0 (num 5))); Wait 200].

(** [interval(100, v)] with one subscriber, for 250 ms. *)
Definition sc_interval (v : jsval) : list script_step :=
  [Run (body (o <- interval 100 v ;; _ <- iv_subscribe o (callback 7) ;; cret tt)); Wait 250].

(** A client of [interval(100, 5).map(id)]. *)
Definition sc_interval_map : list script_step :=
  [Run (body (o <- interval 100 (num 5) ;; d <- map (iv_time o) (lift Signal.id) ;;
              _ <- subscribe d (callback 7) ;; cret tt)); Wait 350].

(** Two subscribers; the first one's [unsubscribe] is called twice.
    Cells: [intervalTime = 0], [intervalId = 1], [subscriberCount = 2]. *)
Definition sc_interval_double : list script_step :=
  [Run (body (o <- interval 100 (num 5) ;; u <- iv_subscribe o (callback 7) ;;
              _ <- iv_subscribe o (callback 8) ;; u ;;; u)); Wait 350].

(** [delay(100)] of an effect written at 30 ms and at 60 ms. *)
Definition sc_delay : list script_step :=
  [Run (body (e <- effect (num 0) ;; d <- delay_m e 100 ;; _ <- subscribe d (callback 7) ;; cret tt));
   Wait 30; Run (body (_set 0 (num 1))); Wait 30; Run (body (_set 0 (num 2))); Wait 200].

(** debounce correctness (the specification's example): [0], [1],
    [2] within the window, then silence: one notification, with [2]. *)
Example debounce_last_value :
  exists s', run_script 200 sc_debounce st0 = Some s' /\ trace s' = [OCall 7 (num 2)].
Proof. run_script_tac. Qed.

(** throttle is a leading-edge gate: the value at 1050 ms, 50 ms after
    a delivery, is dropped; the one at 1100 ms passes. *)
Example throttle_drops :
  exists s', run_script 200 sc_throttle st0 = Some s' /\
             trace s' = [OCall 7 (num 1); OCall 7 (num 3)].
Proof. run_script_tac. Qed.

(** the source wins the race: its value is delivered and the timer is
    cleared, so no [Error] follows. *)
Example timeout_source_first :
  exists s', run_script 200 (sc_timeout 50) st0 = Some s' /\
             trace s' = [OCall 7 (num 5)] /\ timers s' = [].
Proof. run_script_tac. Qed.

(** The timer wins the race, but the race is not terminal: the
    timer's callback never sets [hasCompleted], so a later emission
    still replaces the [Error]. *)
Example timeout_not_terminal :
  exists s', run_script 200 (sc_timeout 150) st0 = Some s' /\
             trace s' = [OCall 7 (JErr 8 (timeout_msg 100)); OCall 7 (num 5)].
Proof. run_script_tac. Qed.

(** numeric ticks are nudged by [tickCount] units of 10^-6 from the
    captured value: [5.000001], then [5.000002]. *)
Example interval_number_ticks :
  exists s', run_script 200 (sc_interval (num 5)) st0 = Some s' /\
             trace s' = [OCall 7 (JNum 5000001); OCall 7 (JNum 5000002)].
Proof. run_script_tac. Qed.

(** String ticks never notify: [value + ''] is [===] to [value], so
    [_set] suppresses it, although the timer keeps running. *)
Example interval_string_silent :
  exists s', run_script 200 (sc_interval (JStr "a")) st0 = Some s' /\
             trace s' = [] /\ length (timers s') = 1.
Proof. run_script_tac. Qed.

(** [map] on an interval uses [intervalTime.map], which subscribes
    without the reference count, so the timer never starts. *)
Example interval_map_never_ticks :
  exists s', run_script 200 sc_interval_map st0 = Some s' /\ trace s' = [] /\ timers s' = [].
Proof. run_script_tac. Qed.

(** [unsubscribe] is not idempotent: calling one subscriber's
    closure twice brings [subscriberCount] to [0] and clears the timer
    while the other subscriber is still in the set. *)
Example interval_double_unsubscribe :
  exists s', run_script 200 sc_interval_double st0 = Some s' /\
             trace s' = [] /\ timers s' = [] /\ cur s' 2 = num 0 /\ length (subs_of s' 0) = 1.
Proof. run_script_tac. Qed.

(** [delay(100)] is not order-preserving: the timer set at creation
    reads the source when it fires (at 100 ms), so it delivers [2]
    early; the timers of the writes at 30 ms and 60 ms then deliver [1]
    and [2] again, and the delayed effect goes [2], [1], [2]. *)
Example delay_initial_timer_reorders :
  exists s', run_script 200 sc_delay st0 = Some s' /\
             trace s' = [OCall 7 (num 2); OCall 7 (num 1); OCall 7 (num 2)].
Proof. run_script_tac. Qed.

(** ** Running the operators' closures *)

Lemma returns_clear_handle h s : returns (clear_handle h) s tt (cleared h s).
Proof. destruct h; try apply returns_ret. apply returns_clear_timer. Qed.

Lemma next_cleared h s : next (cleared h s) = next s.
Proof. by destruct h. Qed.

Lemma clock_cleared h s : clock (cleared h s) = clock s.
Proof. by destruct h. Qed.

Lemma cur_cleared h s x : cur (cleared h s) x = cur s x.
Proof. by destruct h. Qed.

Lemma timers_cleared_sub h s t : In t (timers (cleared h s)) -> In t (timers s).
Proof.
  destruct h; simpl; try done. intros Hin. apply list_elem_of_In in Hin.
  apply list_elem_of_filter in Hin as [_ Hin]. by apply list_elem_of_In.
Qed.

Lemma debounce_listener_spec d tid ms v s :
  returns (debounce_listener d tid ms v) s tt
    (assign_cell tid (handle (next s)) (add_timer ms false (body (_set d v)) (cleared (cur s tid) s))).
Proof.
  unfold debounce_listener. eapply returns_bind; [apply returns_read|].
  eapply returns_bind; [apply returns_clear_handle|].
  eapply returns_bind; [apply returns_set_timer|]. rewrite next_cleared. apply returns_assign.
Qed.

(** Under [debounce_inv], clearing the handle removes every pending
    write. *)
Lemma cleared_no_pending d tid s t :
  debounce_inv d tid s -> In t (timers (cleared (cur s tid) s)) -> debounce_pending d t -> False.
Proof.
  intros Hinv Hin Hp. pose proof (Hinv t (timers_cleared_sub _ _ _ Hin) Hp) as Hh.
  rewrite Hh in Hin. simpl in Hin.
  apply list_elem_of_In, list_elem_of_filter in Hin as [Hne _]. done.
Qed.

(** C9: debounce keeps a single pending timer: after each emission
    exactly one timer writes into the debounced effect, and it writes
    the latest value; [timeoutId] holds it. *)
Theorem debounce_single_pending d tid ms v s :
  debounce_inv d tid s ->
  exists s', returns (debounce_listener d tid ms v) s tt s' /\ debounce_inv d tid s' /\
    exists t, In t (timers s') /\ tm_cb t = body (_set d v) /\
              forall u, In u (timers s') -> debounce_pending d u -> u = t.
Proof.
  intros Hinv. eexists. split; [apply debounce_listener_spec|].
  assert (Hnew : forall u, In u (timers (assign_cell tid (handle (next s))
            (add_timer ms false (body (_set d v)) (cleared (cur s tid) s)))) ->
            debounce_pending d u ->
            u = mk_timer (next s) (clock s + node_delay ms) None (body (_set d v))).
  { intros u Hin Hp. simpl in Hin. rewrite next_cleared, clock_cleared in Hin.
    apply in_app_or in Hin as [Hin|[<-|[]]]; [|done].
    exfalso. by eapply cleared_no_pending. }
  split.
  - intros u Hin Hp. rewrite (Hnew u Hin Hp). apply cur_assign_eq.
  - exists (mk_timer (next s) (clock s + node_delay ms) None (body (_set d v))).
    split_and!; [|done|exact Hnew].
    simpl. rewrite next_cleared, clock_cleared. apply in_or_app. right. by left.
Qed.

(** C10: throttle is a gate on the clock: an emission at least [ms] after
    the last delivery is delivered and becomes the last delivery; any
    other emission changes nothing. *)
Theorem throttle_gate th le ms v s :
  subs_of s th = [] -> th <> le ->
  exists s', returns (throttle_listener th le ms v) s tt s' /\
    ((ms <= clock s - int_of (cur s le) /\ cur s' th = v /\ cur s' le = num (clock s))%Z \/
     (clock s - int_of (cur s le) < ms /\ s' = s)%Z).
Proof.
  intros Hs Hne. unfold throttle_listener.
  destruct (Z.leb_spec ms (clock s - int_of (cur s le))) as [Hle|Hlt]; eexists; split.
  - eapply returns_bind; [apply returns_now|]. eapply returns_bind; [apply returns_read|].
    rewrite (proj2 (Z.leb_le _ _) Hle).
    eapply returns_bind; [by apply returns_set_quiet|]. apply returns_assign.
  - left. rewrite cur_assign_ne, cur_assign_eq by done. split_and!; [lia|apply cur_set_quiet_eq|done].
  - eapply returns_bind; [apply returns_now|]. eapply returns_bind; [apply returns_read|].
    rewrite (proj2 (Z.leb_gt _ _) Hlt). apply returns_ret.
  - right. split; [lia|done].
Qed.

Lemma cur_add_timer ms every cb s x : cur (add_timer ms every cb s) x = cur s x.
Proof. done. Qed.

Lemma cur_del_entry c h s x : cur (del_entry c h s) x = cur s x.
Proof. done. Qed.

Lemma cur_clear_timer t s x : cur (clear_timer t s) x = cur s x.
Proof. done. Qed.

Lemma iv_active_frame o s s' :
  cur s' (iv_id o) = cur s (iv_id o) -> timers s' = timers s -> iv_active o s' <-> iv_active o s.
Proof. intros Hv Ht. unfold iv_active. by rewrite Hv, Ht. Qed.

Lemma returns_iv_subscribe o fn n s :
  iv_count o <> iv_id o -> iv_inv o n s ->
  exists u s', returns (iv_subscribe o fn) s u s' /\ iv_inv o (S n) s'.
Proof.
  intros Hne [Hc Ha]. unfold iv_subscribe.
  assert (Hadd : js_add (cur s (iv_count o)) (num 1) = num (Z.of_nat (S n)))
    by (rewrite Hc, js_add_num; f_equal; lia).
  destruct n as [|m]; do 2 eexists; split.
  - eapply returns_bind; [apply returns_read|]. eapply returns_bind; [apply returns_assign|].
    eapply returns_bind; [apply returns_read|].
    rewrite cur_assign_eq, Hadd, js_same_num. simpl Z.eqb. cbv iota.
    eapply returns_bind; [eapply returns_bind; [apply returns_set_timer|apply returns_assign]|].
    eapply returns_bind; [apply returns_subscribe|apply returns_ret].
  - split.
    + by rewrite cur_add_entry, cur_assign_ne, cur_add_timer, cur_assign_eq.
    + split; [lia|intros _]. eexists. split; [by rewrite cur_add_entry, cur_assign_eq|].
      eexists. split; [simpl; apply in_or_app; right; left; reflexivity|reflexivity].
  - eapply returns_bind; [apply returns_read|]. eapply returns_bind; [apply returns_assign|].
    eapply returns_bind; [apply returns_read|].
    rewrite cur_assign_eq, Hadd, js_same_num, (proj2 (Z.eqb_neq _ _)) by lia.
    eapply returns_bind; [apply returns_ret|].
    eapply returns_bind; [apply returns_subscribe|apply returns_ret].
  - split.
    + rewrite cur_add_entry, cur_assign_eq. by rewrite ?Hadd.
    + rewrite iv_active_frame; [split; [lia|intros _; apply Ha; lia]| |done].
      by rewrite cur_add_entry, cur_assign_ne.
Qed.

Lemma returns_iv_unsubscribe o h n s :
  iv_count o <> iv_id o -> iv_inv o (S n) s ->
  exists s', returns (iv_unsubscribe o (unsubscribe_raw (iv_time o) h)) s tt s' /\ iv_inv o n s'.
Proof.
  intros Hne [Hc Ha]. unfold iv_unsubscribe.
  assert (Hsub : js_add (cur s (iv_count o)) (num (-1)) = num (Z.of_nat n))
    by (rewrite Hc, js_add_num; f_equal; lia).
  destruct n as [|m]; [destruct (proj2 Ha ltac:(lia)) as (id & Hid & _)|]; eexists; split.
  - eapply returns_bind; [apply returns_read|]. eapply returns_bind; [apply returns_assign|].
    eapply returns_bind; [apply returns_read|]. eapply returns_bind; [apply returns_read|].
    rewrite cur_assign_eq, Hsub, js_same_num, cur_assign_ne, Hid by done. simpl.
    eapply returns_bind; [apply returns_clear_timer|apply returns_unsubscribe_raw].
  - split; [by rewrite cur_del_entry, cur_clear_timer, cur_assign_eq|]. split; [|lia].
    intros (id' & Hid' & t & Hin & Ht).
    rewrite cur_del_entry, cur_clear_timer, cur_assign_ne, Hid in Hid' by done.
    injection Hid' as <-. simpl in Hin.
    apply list_elem_of_In, list_elem_of_filter in Hin as [Hne' _]. done.
  - eapply returns_bind; [apply returns_read|]. eapply returns_bind; [apply returns_assign|].
    eapply returns_bind; [apply returns_read|]. eapply returns_bind; [apply returns_read|].
    rewrite cur_assign_eq, Hsub, js_same_num, (proj2 (Z.eqb_neq _ _)) by lia. simpl.
    eapply returns_bind; [apply returns_ret|apply returns_unsubscribe_raw].
  - split; [by rewrite cur_del_entry, cur_assign_eq|].
    rewrite iv_active_frame; [split; [intros _; lia|intros _; apply Ha; lia]| |done].
    by rewrite cur_del_entry, cur_assign_ne.
Qed.

(** C11: the reference count of [interval]: from a state where
    [subscriberCount] is [n] and the timer runs exactly when [n > 0],
    [subscribe] leads to the same with [n + 1] (starting the timer at
    the first subscriber) and an [unsubscribe] called once leads to the
    same with [n - 1] (stopping it at the last). *)
Theorem interval_refcount o fn h n s :
  iv_count o <> iv_id o ->
  (iv_inv o n s -> exists u s', returns (iv_subscribe o fn) s u s' /\ iv_inv o (S n) s') /\
  (iv_inv o (S n) s ->
   exists s', returns (iv_unsubscribe o (unsubscribe_raw (iv_time o) h)) s tt s' /\ iv_inv o n s').
Proof. intros Hne. split; [by apply returns_iv_subscribe|by apply returns_iv_unsubscribe]. Qed.

(** ** Witnesses *)

(** Cells [0], [1], [2] holding [0], [0], [undefined], no timers. *)
Definition st_three : store :=
  alloc_cell JUndef (alloc_cell (num 0) (alloc_cell (num 0) st0)).

Lemma debounce_single_pending_witness :
  debounce_inv 1 2 st_three /\
  exists s', returns (debounce_listener 1 2 100 (num 5)) st_three tt s' /\ debounce_inv 1 2 s' /\
    exists t, In t (timers s') /\ tm_cb t = body (_set 1 (num 5)) /\
              forall u, In u (timers s') -> debounce_pending 1 u -> u = t.
Proof.
  assert (H : debounce_inv 1 2 st_three) by (intros t []).
  split; [exact H|]. apply (debounce_single_pending 1 2 100 (num 5) st_three). exact H.
Defined.

Lemma throttle_gate_witness :
  subs_of st_three 0 = [] /\ 0 <> 1 /\
  exists s', returns (throttle_listener 0 1 100 (num 5)) st_three tt s' /\
    ((100 <= clock st_three - int_of (cur st_three 1) /\ cur s' 0 = num 5 /\
      cur s' 1 = num (clock st_three)) \/
     (clock st_three - int_of (cur st_three 1) < 100 /\ s' = st_three))%Z.
Proof.
  split; [reflexivity|]. split; [lia|].
  apply (throttle_gate 0 1 100 (num 5) st_three); [reflexivity|lia].
Defined.

(** An interval object over cells [0] (the effect), [1] ([intervalId],
    undefined) and [2] ([subscriberCount], [0]). *)
Definition st_iv : store := alloc_cell (num 0) (alloc_cell JUndef (alloc_cell (num 5) st0)).
Definition iv_demo : interval_obj := mk_interval 0 1 2 3 100 Done.

Lemma interval_refcount_witness :
  2 <> 1 /\ iv_inv iv_demo 0 st_iv /\
  exists u s', returns (iv_subscribe iv_demo (callback 7)) st_iv u s' /\ iv_inv iv_demo 1 s'.
Proof.
  assert (Hi : iv_inv iv_demo 0 st_iv).
  { split; [reflexivity|]. split; [intros (id & Hid & _); discriminate|lia]. }
  split; [lia|]. split; [exact Hi|].
  apply (proj1 (interval_refcount iv_demo (callback 7) 4 0 st_iv ltac:(simpl; lia))). exact Hi.
Defined.

End Time.
