(* ===== verification/Fetch.v ===== *)
(** * The network layer: [src/src/algebras/fetch.ts]

    A fetcher is an asynchronous JS function: calling it starts the
    operation, and the environment later resolves or rejects its promise
    ([async_fn]: the call with its two continuations; a client's fetcher
    is [Engine.invoke]).  [await fetcher()] resumes in the continuation,
    when a script step [Resolve] or [Reject] settles the call.
    [localStorage] is the engine's storage (reads and writes do not
    fail), [Date.now()] the engine's clock, and JSON goes through
    [Json.stringify] and [Json.json_parse].  Each [AsyncState] literal is
    a new object, so every write of one notifies. *)

From Stdlib Require Import ZArith String.
From stdpp Require Import base list gmap strings pretty.
From S2P Require Import Prelude JsValue Engine Json Signal Effect Time.

Local Open Scope resig_scope.

Module Fetch.
Import Signal Effect.

(** [() => Promise<A>], called with its [then] and [catch]
    continuations. *)
Definition async_fn : Type := (jsval -> M unit) -> (jsval -> M unit) -> M unit.

(** [{ loading: true }]. *)
Definition loading_state : M jsval :=
  i <- new_id ;; cret (JObj i [("loading"%string, JBool true)]).

(** [{ data, loading: false }]. *)
Definition data_state (data : jsval) : M jsval :=
  i <- new_id ;; cret (JObj i [("data"%string, data); ("loading"%string, JBool false)]).

(** [error instanceof Error ? error : new Error(String(error))]. *)
Definition to_error (error : jsval) : M jsval :=
  match error with
  | JErr _ _ => cret error
  | _ => i <- new_id ;; cret (JErr i (js_string error))
  end.

(** [{ error: <to_error>, loading: false }]: the object is created
    before its property values are evaluated. *)
Definition error_state (error : jsval) : M jsval :=
  i <- new_id ;; e <- to_error error ;;
  cret (JObj i [("error"%string, e); ("loading"%string, JBool false)]).

(** [executeFetch(target)] (lines 115-128). *)
Definition executeFetch (fetcher : async_fn) (target : nat) : M unit :=
  st <- loading_state ;; _set target st ;;;
  fetcher (fun data => st <- data_state data ;; _set target st)
          (fun error => st <- error_state error ;; _set target st).

(** The fields of a [Fetch] the methods use: [baseEffect], [fetcher],
    [deps]. *)
Record fetch_obj : Type := mk_fetch {
  f_base : nat;
  f_fetcher : async_fn;
  f_deps : list nat
}.

(** [deps.forEach(dep => dep.subscribe(() => executeFetch(...)))]
    (lines 133-137). *)
Fixpoint subscribe_deps (fetcher : async_fn) (target : nat) (deps : list nat) : M unit :=
  match deps with
  | [] => cret tt
  | dep :: rest =>
      _ <- subscribe dep (fun _ => executeFetch fetcher target) ;;
      subscribe_deps fetcher target rest
  end.

(** [fetch(fetcher, deps)] (lines 25-31, 130-140). *)
Definition fetch (fetcher : async_fn) (deps : list nat) : M fetch_obj :=
  init <- loading_state ;;
  baseEffect <- effect init ;;
  executeFetch fetcher baseEffect ;;;
  subscribe_deps fetcher baseEffect deps ;;;
  cret (mk_fetch baseEffect fetcher deps).

(** [Math.pow(2, n - attemptsLeft) * 1000] (line 49). *)
Definition backoff_delay (n attemptsLeft : nat) : Z := 2 ^ (Z.of_nat n - Z.of_nat attemptsLeft) * 1000.

(** [attemptFetch(attemptsLeft)] of [retry(n)] (lines 42-59). *)
Fixpoint attemptFetch (fetcher : async_fn) (retryFetch : nat) (n attemptsLeft : nat) : M unit :=
  st <- loading_state ;; _set retryFetch st ;;;
  fetcher (fun data => st <- data_state data ;; _set retryFetch st)
          (fun error =>
             match attemptsLeft with
             | S a =>
                 _ <- set_timer (backoff_delay n attemptsLeft) false
                        (body (attemptFetch fetcher retryFetch n a)) ;;
                 cret tt
             | O => st <- error_state error ;; _set retryFetch st
             end).

(** [retry(n)] (lines 39-63). *)
Definition retry (f : fetch_obj) (n : nat) : M fetch_obj :=
  retryFetch <- fetch (f_fetcher f) (f_deps f) ;;
  attemptFetch (f_fetcher f) (f_base retryFetch) n n ;;;
  cret retryFetch.

Definition cache_key (key : string) : string := "fetch_cache_" +:+ key.
Definition cache_time_key (key : string) : string := "fetch_cache_time_" +:+ key.

(** A [localStorage] string in a condition. *)
Definition truthy_item (o : option string) : bool :=
  match o with
  | Some s => negb (String.eqb s "")
  | None => false
  end.

(** The cache check of [cache] (lines 73-89): [true] when it served the
    cached data and returned. *)
Definition cache_lookup (cached : nat) (key : string) (ttl : Z) : M bool :=
  cachedData <- storage_get (cache_key key) ;;
  cacheTime <- storage_get (cache_time_key key) ;;
  if truthy_item cachedData && truthy_item cacheTime then
    n <- now ;;
    match parse_int (default "" cacheTime) with
    | Some t =>
        if (n - t <? ttl)%Z then
          match json_parse (default "" cachedData) with
          | Some j =>
              i <- new_id ;; v <- of_json j ;;
              _set cached (JObj i [("data"%string, v); ("loading"%string, JBool false)]) ;;;
              cret true
          | None => cret false
          end
        else cret false
    | None => cret false
    end
  else cret false.

(** The closure [cache] subscribes to [baseEffect] (lines 92-102). *)
Definition cache_listener (cached : nat) (key : string) (state : jsval) : M unit :=
  (if truthy (get_field state "data") && negb (truthy (get_field state "loading")) &&
      negb (truthy (get_field state "error"))
   then storage_set_m (cache_key key) (default "undefined" (stringify (get_field state "data"))) ;;;
        n <- now ;; storage_set_m (cache_time_key key) (pretty n)
   else cret tt) ;;;
  _set cached state.

(** [cache(key, ttl)] (lines 65-105). *)
Definition cache (f : fetch_obj) (key : string) (ttl : Z) : M fetch_obj :=
  cached <- fetch (f_fetcher f) (f_deps f) ;;
  hit <- cache_lookup (f_base cached) key ttl ;;
  if hit then cret cached
  else _ <- subscribe (f_base f) (cache_listener (f_base cached) key) ;; cret cached.

(** [refetch()] (lines 107-111). *)
Definition refetch (f : fetch_obj) : M fetch_obj :=
  refetched <- fetch (f_fetcher f) (f_deps f) ;;
  executeFetch (f_fetcher f) (f_base refetched) ;;;
  cret refetched.

(** The transport: [window.fetch] and [Response.json], as labels of the
    invoked asynchronous functions. *)
Definition window_fetch : nat := 1000.
Definition response_json : nat := 1001.

(** [res.ok] checked, then [res.json()] (lines 148-151, 172-175). *)
Definition handle_response (ok err : jsval -> M unit) (res : jsval) : M unit :=
  if truthy (get_field res "ok")
  then invoke response_json res ok err
  else i <- new_id ;;
       err (JErr i ("HTTP " +:+ js_string (get_field res "status") +:+ ": " +:+
                    js_string (get_field res "statusText"))).

(** [get(url, deps)] (lines 145-154). *)
Definition get (url : string) (deps : list nat) : M fetch_obj :=
  fetch (fun ok err => invoke window_fetch (JStr url) (handle_response ok err) err) deps.

(** [post(url, body, deps)] (lines 159-178): the request object carries
    the method, the JSON header and [JSON.stringify(body)]; the two
    arguments of [window.fetch] are passed as one list. *)
Definition post (url : string) (body_v : jsval) (deps : list nat) : M fetch_obj :=
  fetch (fun ok err =>
           i <- new_id ;; h <- new_id ;;
           let init := JObj i [("method"%string, JStr "POST");
                               ("headers"%string, JObj h [("Content-Type"%string, JStr "application/json")]);
                               ("body"%string, match stringify body_v with Some t => JStr t | None => JUndef end)] in
           invoke window_fetch (JArr 0 [JStr url; init]) (handle_response ok err) err) deps.

(** [withTimeout(ms)(fetchEffect)] (lines 183-187). *)
Definition withTimeout (ms : Z) (f : fetch_obj) : M nat := Time.timeout ms (f_base f).

(** A client's fetcher: the asynchronous function [fn]. *)
Definition call_async (fn : nat) : async_fn := fun ok err => invoke fn JUndef ok err.

(** ** Scenarios (a client fetcher [5]; the clock starts at [1000]) *)

Definition st0 : store := init_store 1000.

(** [fetch(f)] with a subscriber; its call is pending as [3]. *)
Definition sc_fetch : list script_step :=
  [Run (body (f <- fetch (call_async 5) [] ;; _ <- subscribe (f_base f) (callback 7) ;; cret tt))].

(** [fetch(f).retry(2)] with a subscriber on the retried fetch; every
    attempt fails.  Calls: [3] (the original), [7] (the one [fetch]
    makes inside [retry]), [9], [14], [18] (the attempts). *)
Definition sc_retry : list script_step :=
  [Run (body (f <- fetch (call_async 5) [] ;; r <- retry f 2 ;; _ <- subscribe (f_base r) (callback 7) ;; cret tt));
   Reject 9 (JStr "e1"); Wait 1000; Reject 14 (JStr "e2"); Wait 2000; Reject 18 (JStr "e3")].

(** [f.cache('k')] caches the data of [f]'s completion; 10 ms later a
    second [f.cache('k')] finds it.  The second cache's own fetch is the
    pending call [14]. *)
Definition sc_cache : list script_step :=
  [Run (body (f <- fetch (call_async 5) [] ;; _ <- cache f "k" 60000 ;; cret tt));
   Resolve 3 (JObj 900 [("a"%string, num 1)]); Wait 10;
   Run (body (c2 <- cache (mk_fetch 1 (call_async 5) []) "k" 60000 ;; cret tt))].

(** A fetch with a dependency [d]; [d] changes, so a second call starts;
    the second call ([10]) resolves first, then the first ([4]). *)
Definition sc_race : list script_step :=
  [Run (body (d <- effect (num 0) ;; f <- fetch (call_async 5) [d] ;;
              _ <- subscribe (f_base f) (callback 7) ;; _set d (num 1)));
   Resolve 10 (JStr "new"); Resolve 4 (JStr "old")].

(** [get('/api')] answered with a 404 response. *)
Definition sc_get_404 : list script_step :=
  [Run (body (f <- get "/api" [] ;; _ <- subscribe (f_base f) (callback 7) ;; cret tt));
   Resolve 3 (JObj 800 [("ok"%string, JBool false); ("status"%string, num 404);
                        ("statusText"%string, JStr "Not Found")])].

(** [fetch(f).refetch()]. *)
Definition sc_refetch : list script_step :=
  [Run (body (f <- fetch (call_async 5) [] ;; _ <- refetch f ;; cret tt))].

(** A settled state with data [{a: 1}]. *)
Definition settled_a1 : jsval :=
  JObj 5 [("data"%string, JObj 6 [("a"%string, num 1)]); ("loading"%string, JBool false)].

Definition invocations (s : store) : nat :=
  length (List.filter (fun o => match o with OInvoke _ _ => true | _ => false end) (trace s)).

(** ** Running [fetch] *)

Lemma returns_loading_state s :
  returns loading_state s (JObj (next s) [("loading"%string, JBool true)]) (bump s).
Proof. unfold loading_state. eapply returns_bind; [apply returns_new_id|apply returns_ret]. Qed.

Lemma returns_data_state v s :
  returns (data_state v) s (JObj (next s) [("data"%string, v); ("loading"%string, JBool false)]) (bump s).
Proof. unfold data_state. eapply returns_bind; [apply returns_new_id|apply returns_ret]. Qed.

(** C12: [fetch(f)] with no dependency allocates its effect holding a new
    [{loading: true}], calls the fetcher once, and leaves exactly one
    pending call whose resolution with [v] writes [{data: v, loading:
    false}] into the effect. *)
Theorem fetch_then_resolve fn v s :
  exists fo s1 p, returns (fetch (call_async fn) []) s fo s1 /\
    cur s1 (f_base fo) = JObj (S (S (next s))) [("loading"%string, JBool true)] /\
    trace s1 = trace s ++ [OInvoke fn JUndef] /\ pendings s1 = pendings s ++ [p] /\
    exists s2, big (pd_ok p v) s1 s2 /\
      cur s2 (f_base fo) = JObj (next s1) [("data"%string, v); ("loading"%string, JBool false)].
Proof.
  set (c := S (next s)).
  set (s0 := alloc_cell (JObj (next s) [("loading"%string, JBool true)]) (bump s)).
  assert (Hq : subs_of s0 c = []) by (apply subs_of_alloc_new).
  eexists (mk_fetch c (call_async fn) []), _, _. split_and!.
  - unfold fetch. eapply returns_bind; [apply returns_loading_state|].
    eapply returns_bind; [apply returns_effect|].
    eapply returns_bind.
    { unfold executeFetch. eapply returns_bind; [apply returns_loading_state|].
      eapply returns_bind; [apply returns_set_quiet; by rewrite subs_of_bump|].
      unfold call_async. apply returns_invoke. }
    eapply returns_bind; [apply returns_ret|apply returns_ret].
  - simpl f_base. by autorewrite with store_simpl.
  - cbn [add_pending trace]. by rewrite trace_set_quiet.
  - cbn [add_pending pendings]. by rewrite pendings_set_quiet.
  - eexists. split.
    + cbn [pd_ok]. apply (returns_body (st <- data_state v ;; _set c st)).
      eapply returns_bind; [apply returns_data_state|].
      apply returns_set_quiet. by autorewrite with store_simpl.
    + simpl f_base. apply cur_set_quiet_eq.
Qed.

(** ** The cache written by [cache] and read back by a later [cache] *)

Lemma cache_keys_ne key : cache_key key <> cache_time_key key.
Proof. unfold cache_key, cache_time_key. simpl. intros [= H]. apply (f_equal String.length) in H. simpl in H. lia. Qed.

(** [JSON.stringify] of a JSON-convertible value is never [""]. *)
Lemma truthy_item_print j : truthy_item (Some (string_of_list_ascii (print j))) = true.
Proof.
  simpl. apply negb_true_iff, String.eqb_neq. intros H.
  apply (f_equal list_ascii_of_string) in H. rewrite list_ascii_of_string_of_list_ascii in H.
  pose proof (json_roundtrip j) as Hr. rewrite H in Hr. discriminate.
Qed.

(** [Date.now().toString()] is never [""]. *)
Lemma truthy_item_pretty (n : Z) : (0 <= n)%Z -> truthy_item (Some (pretty n)) = true.
Proof.
  intros Hn. simpl. apply negb_true_iff, String.eqb_neq. intros H.
  pose proof (parse_int_pretty n Hn) as Hp. rewrite H in Hp. discriminate.
Qed.

(** The store the cache listener leaves after it stored [text] at
    clock [clock s] and forwarded [state]. *)
Definition cache_written (cached : nat) (key text : string) (state : jsval) (s : store) : store :=
  set_quiet cached state
    (storage_set (cache_time_key key) (pretty (clock s)) (storage_set (cache_key key) text s)).

Lemma returns_cache_listener_store cached key state j s :
  truthy (get_field state "data") = true -> truthy (get_field state "loading") = false ->
  truthy (get_field state "error") = false -> to_json (get_field state "data") = Some j ->
  subs_of s cached = [] ->
  returns (cache_listener cached key state) s tt
    (cache_written cached key (string_of_list_ascii (print j)) state s).
Proof.
  intros Hd Hl He Hj Hs. unfold cache_listener, stringify. rewrite Hd, Hl, He, Hj. simpl.
  eapply returns_bind.
  { eapply returns_bind; [apply returns_storage_set|].
    eapply returns_bind; [apply returns_now|apply returns_storage_set]. }
  apply returns_set_quiet. exact Hs.
Qed.

Lemma cache_written_lookup cached key text state s :
  storage (cache_written cached key text state s) !! cache_key key = Some text /\
  storage (cache_written cached key text state s) !! cache_time_key key = Some (pretty (clock s)).
Proof.
  unfold cache_written. rewrite storage_set_quiet. cbn [storage storage_set].
  rewrite lookup_insert_eq, lookup_insert_ne, lookup_insert_eq by apply not_eq_sym, cache_keys_ne.
  done.
Qed.

(** C13: the cache round trip of [fetch.ts]: when the effect reaches a
    settled state [{data, loading: false}] whose data is JSON data (its
    objects have distinct keys), the listener [cache] subscribed writes
    [JSON.stringify(data)] and [Date.now()] to [localStorage] and
    forwards the state; a later [cache(key, ttl)] on any store with that
    [localStorage], within [ttl] of the write, takes the hit: it sets its
    fetch to [{data: v, loading: false}] with [v] a new value whose JSON
    is that of [data], and returns early. *)
Theorem cache_roundtrip cached key ttl state j s :
  truthy (get_field state "data") = true -> truthy (get_field state "loading") = false ->
  truthy (get_field state "error") = false -> to_json (get_field state "data") = Some j ->
  keys_nodup j = true -> (0 <= clock s)%Z -> subs_of s cached = [] ->
  exists s1, returns (cache_listener cached key state) s tt s1 /\ cur s1 cached = state /\
  forall t cached2, storage t = storage s1 -> (clock t - clock s < ttl)%Z -> subs_of t cached2 = [] ->
    exists v t1, returns (cache_lookup cached2 key ttl) t true t1 /\ to_json v = Some j /\
      cur t1 cached2 = JObj (next t) [("data"%string, v); ("loading"%string, JBool false)].
Proof.
  intros Hd Hl He Hj Hk Hc Hs. set (text := string_of_list_ascii (print j)).
  exists (cache_written cached key text state s). split_and!.
  { by apply returns_cache_listener_store. }
  { apply cur_set_quiet_eq. }
  intros t cached2 Ht Hage Hs2. destruct (of_json_to_json j (bump t) Hk) as (v & n & Hv & Hvj).
  destruct (cache_written_lookup cached key text state s) as [Hdata Htime].
  eexists v, _. split_and!; [|done|apply cur_set_quiet_eq].
  unfold cache_lookup. rewrite <- Ht in Hdata, Htime.
  eapply returns_bind; [apply returns_storage_get|]. rewrite Hdata.
  eapply returns_bind; [apply returns_storage_get|]. rewrite Htime.
  unfold text. rewrite truthy_item_print, truthy_item_pretty by done. cbn [andb].
  eapply returns_bind; [apply returns_now|]. cbn [default Datatypes.id].
  rewrite parse_int_pretty by done. rewrite (proj2 (Z.ltb_lt _ _) Hage).
  unfold json_parse. rewrite list_ascii_of_string_of_list_ascii, json_roundtrip.
  eapply returns_bind; [apply returns_new_id|]. eapply returns_bind; [exact Hv|].
  eapply returns_bind; [apply returns_set_quiet; exact Hs2|apply returns_ret].
Qed.


Lemma cache_roundtrip_witness :
  exists j, truthy (get_field settled_a1 "data") = true /\ truthy (get_field settled_a1 "loading") = false /\
  truthy (get_field settled_a1 "error") = false /\ to_json (get_field settled_a1 "data") = Some j /\
  keys_nodup j = true /\ (0 <= clock st0)%Z /\ subs_of st0 7 = [] /\
  exists s1, returns (cache_listener 7 "k" settled_a1) st0 tt s1 /\ cur s1 7 = settled_a1 /\
  forall t cached2, storage t = storage s1 -> (clock t - clock st0 < 1000)%Z -> subs_of t cached2 = [] ->
    exists v t1, returns (cache_lookup cached2 "k" 1000) t true t1 /\ to_json v = Some j /\
      cur t1 cached2 = JObj (next t) [("data"%string, v); ("loading"%string, JBool false)].
Proof.
  eexists. split_and!; [first [reflexivity | cbn; lia]..|].
  apply (cache_roundtrip 7 "k" 1000 settled_a1 _ st0); first [reflexivity | cbn; lia].
Defined.

(** ** Scenarios run *)

(** a completion writes [{data, loading: false}]: the subscriber sees
    it once. *)
Example fetch_resolve_notifies :
  exists s', run_script 200 (sc_fetch ++ [Resolve 3 (num 42)]) st0 = Some s' /\
    trace s' = [OInvoke 5 JUndef; OCall 7 (JObj 5 [("data"%string, num 42); ("loading"%string, JBool false)])].
Proof. run_script_tac. Qed.

(** a rejection with a non-[Error] value is wrapped in
    [new Error(String(error))]. *)
Example fetch_reject_wraps :
  exists s', run_script 200 (sc_fetch ++ [Reject 3 (JStr "boom")]) st0 = Some s' /\
    trace s' = [OInvoke 5 JUndef;
                OCall 7 (JObj 5 [("error"%string, JErr 6 "boom"); ("loading"%string, JBool false)])].
Proof. run_script_tac. Qed.

(** [retry(2)] with a fetcher that always fails calls it 4 times for
    the retried fetch (5 with the original), not the 3 attempts the
    specification states: [fetch(fetcher, deps)] inside [retry] calls it
    once more before [attemptFetch] starts.  The retried fetch ends in
    the error state of the last attempt. *)
Example retry_call_count :
  exists s', run_script 200 sc_retry st0 = Some s' /\ invocations s' = 5 /\
    last (trace s') = Some (OCall 7 (JObj 19 [("error"%string, JErr 20 "e3"); ("loading"%string, JBool false)])).
Proof. run_script_tac. Qed.

(** A cache hit still calls the network: the second [cache('k')]
    serves the stored [{"a":1}] as new data, but its [fetch] has called
    the fetcher (the third call), whose completion will overwrite it. *)
Example cache_hit_still_fetches :
  exists s', run_script 200 sc_cache st0 = Some s' /\
    storage s' !! "fetch_cache_k"%string = stringify (JObj 900 [("a"%string, num 1)]) /\
    cur s' 12 = JObj 15 [("data"%string, JObj 16 [("a"%string, num 1)]); ("loading"%string, JBool false)] /\
    invocations s' = 3 /\ List.map pd_id (pendings s') = [7; 14].
Proof. run_script_tac. Qed.

(** No generation guard: the first call, issued before the dependency
    changed, completes last and its stale data stays. *)
Example fetch_stale_overwrites :
  exists s', run_script 200 sc_race st0 = Some s' /\
    last (trace s') = Some (OCall 7 (JObj 13 [("data"%string, JStr "old"); ("loading"%string, JBool false)])).
Proof. run_script_tac. Qed.

(** [get] turns a response that is not [ok] into an
    [Error("HTTP <status>: <statusText>")] state. *)
Example get_http_error :
  exists s', run_script 200 sc_get_404 st0 = Some s' /\
    last (trace s') = Some (OCall 7 (JObj 6 [("error"%string, JErr 5 "HTTP 404: Not Found");
                                             ("loading"%string, JBool false)])).
Proof. run_script_tac. Qed.

(** [refetch()] calls the fetcher twice for the new fetch: once in
    [fetch(fetcher, deps)] and once in its own [executeFetch]. *)
Example refetch_calls_twice :
  exists s', run_script 200 sc_refetch st0 = Some s' /\ invocations s' = 3.
Proof. run_script_tac. Qed.

(** C22: the backoff of [retry(n)] against Node's timer bound: the delay
    [2^(n - attemptsLeft) * 1000] fits the signed 32-bit range Node
    accepts while the exponent is at most 21; from 22 on it exceeds
    [2^31 - 1] and Node runs the retry after 1 ms instead. *)
Theorem backoff_delay_clamped n a : (a <= n)%nat ->
  node_delay (backoff_delay n a) = if (n - a <=? 21)%nat then backoff_delay n a else 1%Z.
Proof.
  intros Ha. unfold backoff_delay, node_delay. rewrite <- Nat2Z.inj_sub by exact Ha.
  destruct (Nat.leb_spec (n - a) 21) as [Hk|Hk].
  - assert (2 ^ Z.of_nat (n - a) <= 2 ^ 21)%Z by (apply Z.pow_le_mono_r; lia).
    assert (0 < 2 ^ Z.of_nat (n - a))%Z by (apply Z.pow_pos_nonneg; lia).
    replace ((1 <=? _) && (_ <=? 2147483647))%Z with true; [done|].
    symmetry. apply andb_true_iff. split; apply Z.leb_le; lia.
  - assert (2 ^ 22 <= 2 ^ Z.of_nat (n - a))%Z by (apply Z.pow_le_mono_r; lia).
    replace ((_ <=? 2147483647))%Z with false; [by rewrite andb_false_r|].
    symmetry. apply Z.leb_gt. lia.
Qed.

Lemma backoff_delay_clamped_witness :
  (2 <= 25)%nat /\ node_delay (backoff_delay 25 2) = 1%Z.
Proof. split; [lia|]. rewrite (backoff_delay_clamped 25 2) by lia. reflexivity. Defined.

End Fetch.
