(* ===== verification/Plugins.v ===== *)
(** * The plugin engine: [src/src/plugins/index.ts] and its revision in
    [src/src/adapters/universal.ts] (lines 230-663)

    A plugin is a function from a signal to a signal; here a signal is
    its cell and a plugin a computation [nat -> M nat], so a plugin that
    allocates, subscribes, starts timers or touches [localStorage] does
    it in the store as the code does.  Callbacks passed to the plugins
    are JS functions: a [transform] runs arbitrary code ([jsval -> M
    jsval], as [Signal.map] takes it); predicates, validators, selectors
    and reducers are pure functions of the value.  [console.log] and
    [console.warn] are [OLog] events of the trace.  [JSON.stringify] of
    a value it cannot print is [undefined], which [localStorage.setItem]
    stores as the text ["undefined"].

    Module [Plugins] is [plugins/index.ts]; Module [Universal] is the
    later copy in [adapters/universal.ts], whose first eleven plugins
    and three composites are the same code (they are the same
    definitions here) and which adds [asyncPlugin],
    [validationPlugin], [stateMachinePlugin], [fetchPlugin] and three
    more composites. *)

From Stdlib Require Import ZArith String.
From stdpp Require Import base list gmap strings pretty.
From S2P Require Import Prelude JsValue Engine Json Signal Effect Time Fetch.

Local Open Scope resig_scope.

Module Plugins.
Import Signal.

(** [Plugin<A> = (signal: Signal<A>) => Signal<A>] (line 10). *)
Definition plugin : Type := nat -> M nat.

(** What [localStorage.setItem(k, JSON.stringify(v))] stores. *)
Definition stored_text (v : jsval) : string := default "undefined" (stringify v).

(** [debouncePlugin(ms)] (lines 15-17). *)
Definition debouncePlugin (ms : Z) : plugin := fun signal => Time.debounce ms signal.

(** [throttlePlugin(ms)] (lines 22-24). *)
Definition throttlePlugin (ms : Z) : plugin := fun signal => Time.throttle ms signal.

Definition signal_cache_key (key : string) : string := "signal_cache_" +:+ key.
Definition signal_cache_time_key (key : string) : string := "signal_cache_time_" +:+ key.

(** The closure [cachePlugin] subscribes (lines 48-55). *)
Definition cache_writer (key : string) (value : jsval) : M unit :=
  storage_set_m (signal_cache_key key) (stored_text value) ;;;
  n <- now ;; storage_set_m (signal_cache_time_key key) (pretty n).

(** The cache read of [cachePlugin] (lines 31-45): [Some] the signal it
    returns on a hit.  [parseInt] giving NaN makes [age < ttl] false; a
    [JSON.parse] that throws inside [map] (before the derived signal is
    allocated) is caught and falls through. *)
Definition cache_read (signal : nat) (key : string) (ttl : Z) : M (option nat) :=
  cached <- storage_get (signal_cache_key key) ;;
  cacheTime <- storage_get (signal_cache_time_key key) ;;
  if Fetch.truthy_item cached && Fetch.truthy_item cacheTime then
    n <- now ;;
    match parse_int (default "" cacheTime) with
    | Some t =>
        if (n - t <? ttl)%Z then
          match json_parse (default "" cached) with
          | Some j => c <- map signal (fun _ => of_json j) ;; cret (Some c)
          | None => cret None
          end
        else cret None
    | None => cret None
    end
  else cret None.

(** [cachePlugin(key, ttl)] (lines 29-58). *)
Definition cachePlugin (key : string) (ttl : Z) : plugin := fun signal =>
  hit <- cache_read signal key ttl ;;
  match hit with
  | Some cachedSignal => cret cachedSignal
  | None => _ <- subscribe signal (cache_writer key) ;; cret signal
  end.

(** [loggerPlugin(prefix)] (lines 63-68). *)
Definition loggerPlugin (prefix : string) : plugin := fun signal =>
  _ <- subscribe signal (fun value => emit (OLog (prefix +:+ ":") value)) ;; cret signal.

(** [filterPlugin(predicate)] (lines 73-75): a rejected value is
    replaced by [signal.value()], the source's current value. *)
Definition filterPlugin (predicate : jsval -> bool) : plugin := fun signal =>
  map signal (fun value => if predicate value then cret value else Signal.value signal).

(** [transformPlugin(transform)] (lines 80-82). *)
Definition transformPlugin (transform : jsval -> M jsval) : plugin := fun signal =>
  map signal transform.

(** The closure [validatePlugin] subscribes (lines 91-95). *)
Definition validate_listener (validator : jsval -> bool) (onError : option (jsval -> M unit))
    (value : jsval) : M unit :=
  if negb (validator value) then
    match onError with Some f => f value | None => cret tt end
  else cret tt.

(** [validatePlugin(validator, onError?)] (lines 87-97). *)
Definition validatePlugin (validator : jsval -> bool) (onError : option (jsval -> M unit)) : plugin :=
  fun signal => _ <- subscribe signal (validate_listener validator onError) ;; cret signal.

Definition persist_key (key : string) : string := "persist_" +:+ key.

(** The closures [persistPlugin] subscribes (lines 112-118, 127-133). *)
Definition persist_writer (key : string) (value : jsval) : M unit :=
  storage_set_m (persist_key key) (stored_text value).

(** [persistPlugin(key)] (lines 102-136). *)
Definition persistPlugin (key : string) : plugin := fun signal =>
  stored <- storage_get (persist_key key) ;;
  match (if Fetch.truthy_item stored then json_parse (default "" stored) else None) with
  | Some j =>
      parsedValue <- of_json j ;;
      persistedSignal <- map signal (fun _ => cret parsedValue) ;;
      _ <- subscribe persistedSignal (persist_writer key) ;;
      cret persistedSignal
  | None =>
      _ <- subscribe signal (persist_writer key) ;; cret signal
  end.

(** [compose(...plugins)] (lines 141-143): [plugins.reduce((acc,
    plugin) => plugin(acc), signal)]. *)
Definition compose (plugins : list plugin) : plugin := fun signal =>
  fold_left (fun (acc : M nat) (p : plugin) => a <- acc ;; p a) plugins (cret signal).

(** [apply(plugin)(signal)] (lines 148-150). *)
Definition apply (p : plugin) : plugin := fun signal => p signal.

(** [when(condition, plugin)] (lines 155-157). *)
Definition when (condition : bool) (p : plugin) : plugin := fun signal =>
  if condition then p signal else cret signal.

(** [plugins[key]] on a [Record<string, Plugin>] literal. *)
Fixpoint lookup_plugin (key : string) (plugins : list (string * plugin)) : option plugin :=
  match plugins with
  | [] => None
  | (k, p) :: rest => if String.eqb k key then Some p else lookup_plugin key rest
  end.

(** [switchPlugin(selector, plugins, defaultPlugin?)] (lines 162-172):
    the key is computed once, from the value at application time. *)
Definition switchPlugin (selector : jsval -> string) (plugins : list (string * plugin))
    (defaultPlugin : option plugin) : plugin := fun signal =>
  currentValue <- Signal.value signal ;;
  match (match lookup_plugin (selector currentValue) plugins with
         | Some p => Some p
         | None => defaultPlugin
         end) with
  | Some selectedPlugin => selectedPlugin signal
  | None => cret signal
  end.

(** [(s) => s]. *)
Definition identity_plugin : plugin := fun s => cret s.

(** [commonPlugins.debug(name, validator?)] (lines 181-185). *)
Definition debug (name : string) (validator : option (jsval -> bool)) : plugin :=
  compose [loggerPlugin ("Debug[" +:+ name +:+ "]");
           match validator with
           | Some v => validatePlugin v (Some (fun value => emit (OLog ("Invalid value in " +:+ name +:+ ":") value)))
           | None => identity_plugin
           end].

(** [commonPlugins.performance(key, debounceMs, cacheTtl)] (lines 190-194). *)
Definition performance (key : string) (debounceMs cacheTtl : Z) : plugin :=
  compose [debouncePlugin debounceMs; cachePlugin key cacheTtl].

(** [commonPlugins.persistentState(key, validator?)] (lines 199-203). *)
Definition persistentState (key : string) (validator : option (jsval -> bool)) : plugin :=
  compose [persistPlugin key;
           match validator with Some v => validatePlugin v None | None => identity_plugin end].

(** ** [filterPlugin] *)

(** The function [filterPlugin] maps with gives back its argument when
    that is the source's current value, which it always is when a
    subscriber of the source runs. *)
Lemma returns_filter_fn (p : jsval -> bool) c s x :
  x = cur s c -> returns (if p x then cret x else Signal.value c) s x s.
Proof. intros ->. destruct (p (cur s c)); [apply returns_ret|apply returns_value]. Qed.

(** C14: the filter plugin never filters: [signal.value()] in its
    mapping function is the source's current value, which [_set] has
    already updated, so after any write of [v] to the source the
    filtered signal holds [v], for every predicate, also one that
    rejects [v]. *)
Theorem filter_passes_rejected (p : jsval -> bool) c v s :
  c < next s -> subs_of s c = [] ->
  exists d s', returns (d <- filterPlugin p c ;; _set c v ;;; cret d) s d s' /\
               cur s' d = v /\ cur s' c = v.
Proof.
  intros Hc Hs.
  set (L := fun x => body (fv <- (if p x then cret x else Signal.value c) ;; _set (next s) fv)).
  set (s1 := add_entry c L (alloc_cell (cur s c) s)).
  assert (Hm : returns (filterPlugin p c) s (next s) s1)
    by (apply (returns_map c _ s (cur s c) s), returns_filter_fn; reflexivity).
  assert (Hc1 : cur s1 c = cur s c) by (unfold s1; rewrite cur_add_entry, cur_alloc_old; done).
  assert (Hsub : subs_of s1 c = [(S (next s), L)]).
  { unfold s1. rewrite subs_of_add_entry_eq, subs_of_alloc_old, Hs by lia. reflexivity. }
  destruct (js_same v (cur s1 c)) eqn:E.
  - pose proof (js_same_eq _ _ E) as Ev. exists (next s), s1. split_and!.
    + eapply returns_bind; [exact Hm|]. eapply returns_bind; [apply returns_set_same, E|].
      apply returns_ret.
    + unfold s1. rewrite cur_add_entry, cur_alloc_new. congruence.
    + congruence.
  - set (t := bump (assign_cell c v s1)).
    assert (Ht : subs_of t (next s) = []).
    { unfold t, s1. rewrite subs_of_bump, subs_of_assign, subs_of_add_entry_ne, subs_of_alloc_new by lia.
      done. }
    exists (next s), (set_quiet (next s) v t). split_and!.
    + eapply returns_bind; [exact Hm|]. eapply returns_bind; [|apply returns_ret].
      eapply returns_set_one; [exact E|exact Hsub| |].
      * apply returns_body. eapply returns_bind; [apply returns_filter_fn|apply returns_set_quiet, Ht].
        unfold t. by rewrite cur_bump, cur_assign_eq.
      * rewrite subs_of_set_quiet. unfold t. rewrite subs_of_bump, subs_of_assign, Hsub.
        rewrite next_entry_cons_lt by lia. apply next_entry_nil.
    + apply cur_set_quiet_eq.
    + rewrite cur_set_quiet_ne by lia. unfold t. by rewrite cur_bump, cur_assign_eq.
Qed.

(** ** [persistPlugin] *)

Lemma truthy_item_some text : text <> ""%string -> Fetch.truthy_item (Some text) = true.
Proof. intros H. unfold Fetch.truthy_item. by rewrite (proj2 (String.eqb_neq _ _) H). Qed.

Lemma cur_bumps n s x : cur (bumps n s) x = cur s x.
Proof. reflexivity. Qed.

Lemma subs_of_bumps n s x : subs_of (bumps n s) x = subs_of s x.
Proof. reflexivity. Qed.

#[export] Hint Rewrite cur_bumps subs_of_bumps : store_simpl.

(** C16: with a value stored under [persist_<key>], [persistPlugin(key)]
    returns a signal frozen at the stored value: its mapping function
    gives back the same parsed value on every change of the source, so
    a write to the source changes neither the returned signal nor the
    storage (nothing is persisted any more). *)
Theorem persist_frozen key text j c w s :
  storage s !! persist_key key = Some text -> text <> ""%string -> json_parse text = Some j ->
  c < next s -> subs_of s c = [] ->
  exists d s1 s2, returns (persistPlugin key c) s d s1 /\ returns (_set c w) s1 tt s2 /\
    cur s2 c = w /\ cur s2 d = cur s1 d /\ storage s2 = storage s1.
Proof.
  intros Hst Hne Hj Hc Hs.
  destruct (of_json_typed j s) as (v & n & Hv & Htv).
  assert (HvN : v <> JNaN) by (intros ->; discriminate).
  set (s0 := bumps n s). set (d := next s0).
  set (L := fun x : jsval => body (fv <- cret v ;; _set d fv)).
  set (s1 := add_entry d (fun x => body (persist_writer key x)) (add_entry c L (alloc_cell v s0))).
  assert (Hd : c < d) by (unfold d, s0; simpl; lia).
  assert (Hp : returns (persistPlugin key c) s d s1).
  { unfold persistPlugin. eapply returns_bind; [apply returns_storage_get|]. rewrite Hst.
    rewrite truthy_item_some by done. change (default "" (Some text)) with text. rewrite Hj.
    eapply returns_bind; [exact Hv|].
    eapply returns_bind; [apply (returns_map c _ s0 v s0), returns_ret|].
    eapply returns_bind; [apply returns_subscribe|]. apply returns_ret. }
  assert (Hsub : subs_of s1 c = [(S (next s0), L)]).
  { unfold s1. rewrite subs_of_add_entry_ne, subs_of_add_entry_eq, subs_of_alloc_old by (simpl; lia).
    unfold s0. by rewrite subs_of_bumps, Hs. }
  assert (Hc1 : cur s1 c = cur s c).
  { unfold s1. rewrite !cur_add_entry, cur_alloc_old by (unfold s0; simpl; lia). apply cur_bumps. }
  assert (Hd1 : cur s1 d = v) by (unfold s1; by rewrite !cur_add_entry, cur_alloc_new).
  exists d, s1. destruct (js_same w (cur s1 c)) eqn:E.
  - exists s1. split_and!; [done|by apply returns_set_same|by apply js_same_eq in E|done|done].
  - exists (bump (assign_cell c w s1)). split_and!; [done| | |by rewrite cur_bump, cur_assign_other by lia|done].
    + eapply returns_set_one; [exact E|exact Hsub| |].
      * apply returns_body. eapply returns_bind; [apply returns_ret|]. apply returns_set_same.
        rewrite cur_bump, cur_assign_other, Hd1 by lia. by apply js_same_refl.
      * rewrite subs_of_bump, subs_of_assign, Hsub, next_entry_cons_lt by lia. apply next_entry_nil.
    + by rewrite cur_bump, cur_assign_eq.
Qed.

(** ** Witnesses *)

Definition st_sig : store := alloc_cell (num 5) (init_store 0).
Definition st_persist : store := storage_set (persist_key "k") "5" st_sig.

Lemma filter_passes_rejected_witness :
  exists d s', returns (d <- filterPlugin (fun _ => false) 0 ;; _set 0 (num 7) ;;; cret d) st_sig d s' /\
               cur s' d = num 7 /\ cur s' 0 = num 7.
Proof. apply (filter_passes_rejected (fun _ => false) 0 (num 7) st_sig); [simpl; lia|reflexivity]. Defined.

Lemma persist_frozen_witness :
  exists d s1 s2, returns (persistPlugin "k" 0) st_persist d s1 /\ returns (_set 0 (num 2)) s1 tt s2 /\
    cur s2 0 = num 2 /\ cur s2 d = cur s1 d /\ storage s2 = storage s1.
Proof.
  apply (persist_frozen "k" "5" (JSNum 5000000) 0 (num 2) st_persist);
    [vm_compute; reflexivity|discriminate|vm_compute; reflexivity|simpl; lia|reflexivity].
Defined.

End Plugins.

(** ** The plugins of [src/src/adapters/universal.ts] (lines 230-663) *)

Module Universal.
Import Signal.

Definition plugin : Type := Plugins.plugin.

(** Lines 244-425 are the code of [plugins/index.ts] again. *)
Definition debouncePlugin : Z -> plugin := Plugins.debouncePlugin.
Definition throttlePlugin : Z -> plugin := Plugins.throttlePlugin.
Definition cachePlugin : string -> Z -> plugin := Plugins.cachePlugin.
Definition loggerPlugin : string -> plugin := Plugins.loggerPlugin.
Definition filterPlugin : (jsval -> bool) -> plugin := Plugins.filterPlugin.
Definition transformPlugin : (jsval -> M jsval) -> plugin := Plugins.transformPlugin.
Definition validatePlugin : (jsval -> bool) -> option (jsval -> M unit) -> plugin :=
  Plugins.validatePlugin.
Definition persistPlugin : string -> plugin := Plugins.persistPlugin.
Definition compose : list plugin -> plugin := Plugins.compose.
Definition apply : plugin -> plugin := Plugins.apply.
Definition when : bool -> plugin -> plugin := Plugins.when.
Definition switchPlugin :
  (jsval -> string) -> list (string * plugin) -> option plugin -> plugin := Plugins.switchPlugin.

(** [{ data, loading, error }]: the object is created before its
    property values are evaluated. *)
Definition async_state (data : M jsval) (loading : bool) (error : M jsval) : M jsval :=
  i <- new_id ;; d <- data ;; e <- error ;;
  cret (JObj i [("data"%string, d); ("loading"%string, JBool loading); ("error"%string, e)]).

(** [(asyncSignal as any).value().data]. *)
Definition data_of (c : nat) : M jsval := v <- Signal.value c ;; cret (get_field v "data").

(** The [async] closure [asyncPlugin] subscribes (lines 440-462): the
    loading state is written before [asyncFn(value)] is called. *)
Definition async_listener (asyncSignal : nat) (asyncFn : jsval -> Fetch.async_fn) (value : jsval) : M unit :=
  st <- async_state (data_of asyncSignal) true (cret JUndef) ;; _set asyncSignal st ;;;
  asyncFn value
    (fun result => st <- async_state (cret result) false (cret JUndef) ;; _set asyncSignal st)
    (fun error => st <- async_state (data_of asyncSignal) false (Fetch.to_error error) ;;
                  _set asyncSignal st).

(** [asyncPlugin(asyncFn, initialValue?)] (lines 430-465). *)
Definition asyncPlugin (asyncFn : jsval -> Fetch.async_fn) (initialValue : jsval) : plugin :=
  fun signal =>
  asyncSignal <- map signal (fun _ => async_state (cret initialValue) false (cret JUndef)) ;;
  _ <- subscribe signal (async_listener asyncSignal asyncFn) ;;
  cret asyncSignal.

(** [{ value, isValid: validator(value) }]. *)
Definition validated (validator : jsval -> bool) (value : jsval) : M jsval :=
  i <- new_id ;; cret (JObj i [("value"%string, value); ("isValid"%string, JBool (validator value))]).

(** [validationPlugin(validator, onValidChange?)] (lines 470-484). *)
Definition validationPlugin (validator : jsval -> bool) (onValidChange : option (jsval -> M unit)) :
    plugin := fun signal =>
  validatedSignal <- map signal (validated validator) ;;
  match onValidChange with
  | Some f => _ <- subscribe validatedSignal (fun v => f (get_field v "isValid")) ;; cret validatedSignal
  | None => cret validatedSignal
  end.

(** The closure [stateMachinePlugin] subscribes (lines 496-499). *)
Definition machine_listener (currentState stateSignal : nat) (reducer : jsval -> jsval -> jsval)
    (action : jsval) : M unit :=
  cs <- read currentState ;; assign currentState (reducer cs action) ;;;
  ns <- read currentState ;; _set stateSignal ns.

(** [stateMachinePlugin(initialState, reducer)] (lines 489-502): the
    closure variable [currentState] is a cell. *)
Definition stateMachinePlugin (initialState : jsval) (reducer : jsval -> jsval -> jsval) : plugin :=
  fun actionSignal =>
  currentState <- alloc initialState ;;
  stateSignal <- map actionSignal (fun _ => read currentState) ;;
  _ <- subscribe actionSignal (machine_listener currentState stateSignal reducer) ;;
  cret stateSignal.

(** The options of [fetchPlugin] after their defaults (line 515). *)
Record fetch_options : Type := mk_fetch_options {
  retries : nat;
  cacheKey : option string;
  cacheTtl : Z
}.

Definition default_options : fetch_options := mk_fetch_options 0 None 300000.

(** The cache read of [performFetch] (lines 525-544): [true] when it
    served the cached data and returned. *)
Definition fetch_cache_read (fetchSignal : nat) (o : fetch_options) : M bool :=
  if Fetch.truthy_item (cacheKey o) then
    let key := default "" (cacheKey o) in
    cached <- storage_get (Fetch.cache_key key) ;;
    cacheTime <- storage_get (Fetch.cache_time_key key) ;;
    if Fetch.truthy_item cached && Fetch.truthy_item cacheTime then
      n <- now ;;
      match parse_int (default "" cacheTime) with
      | Some t =>
          if (n - t <? cacheTtl o)%Z then
            match json_parse (default "" cached) with
            | Some j =>
                st <- async_state (of_json j) false (cret JUndef) ;;
                _set fetchSignal st ;;; cret true
            | None => cret false
            end
          else cret false
      | None => cret false
      end
    else cret false
  else cret false.

(** The cache write after a success (lines 556-563). *)
Definition fetch_cache_write (o : fetch_options) (result : jsval) : M unit :=
  if Fetch.truthy_item (cacheKey o) then
    let key := default "" (cacheKey o) in
    storage_set_m (Fetch.cache_key key) (Plugins.stored_text result) ;;;
    n <- now ;; storage_set_m (Fetch.cache_time_key key) (pretty n)
  else cret tt.

(** [performFetch(attempt)] (lines 523-582); [left] is [retries -
    attempt], the retries still allowed. *)
Fixpoint performFetch (fetchSignal : nat) (fetcher : Fetch.async_fn) (o : fetch_options)
    (left attempt : nat) : M unit :=
  hit <- fetch_cache_read fetchSignal o ;;
  if hit then cret tt else
  st <- async_state (data_of fetchSignal) true (cret JUndef) ;; _set fetchSignal st ;;;
  fetcher
    (fun result => fetch_cache_write o result ;;;
                   st <- async_state (cret result) false (cret JUndef) ;; _set fetchSignal st)
    (fun error =>
       match left with
       | S left' =>
           _ <- set_timer (1000 * 2 ^ Z.of_nat attempt)%Z false
                  (body (performFetch fetchSignal fetcher o left' (S attempt))) ;;
           cret tt
       | O => st <- async_state (data_of fetchSignal) false (Fetch.to_error error) ;;
              _set fetchSignal st
       end).

(** [fetchPlugin(fetcher, options)] (lines 507-587). *)
Definition fetchPlugin (fetcher : Fetch.async_fn) (o : fetch_options) : plugin := fun triggerSignal =>
  fetchSignal <- map triggerSignal (fun _ => async_state (cret JUndef) false (cret JUndef)) ;;
  _ <- subscribe triggerSignal (fun _ => performFetch fetchSignal fetcher o (retries o) 0) ;;
  cret fetchSignal.

(** [commonPlugins] (lines 592-663); the first three are those of
    [plugins/index.ts]. *)
Definition debug : string -> option (jsval -> bool) -> plugin := Plugins.debug.
Definition performance : string -> Z -> Z -> plugin := Plugins.performance.
Definition persistentState : string -> option (jsval -> bool) -> plugin := Plugins.persistentState.

(** [commonPlugins.formField(key, validator, debounceMs)] (lines 631-640). *)
Definition formField (key : string) (validator : jsval -> bool) (debounceMs : Z) : plugin :=
  compose [debouncePlugin debounceMs; validationPlugin validator None; persistPlugin key].

(** [commonPlugins.apiData(fetcher, cacheKey, retries)] (lines 645-653). *)
Definition apiData (fetcher : Fetch.async_fn) (key : string) (n : nat) : plugin :=
  compose [fetchPlugin fetcher (mk_fetch_options n (Some key) 300000);
           loggerPlugin ("API[" +:+ key +:+ "]")].

(** [commonPlugins.realTime(name, debounceMs)] (lines 658-662). *)
Definition realTime (name : string) (debounceMs : Z) : plugin :=
  compose [debouncePlugin debounceMs; loggerPlugin ("RealTime[" +:+ name +:+ "]")].

(** [actionSignal._set(a)] for each action in turn: a client sending
    actions to the plugin's source. *)
Fixpoint send_actions (actionSignal : nat) (actions : list jsval) : M unit :=
  match actions with
  | [] => cret tt
  | a :: rest => _set actionSignal a ;;; send_actions actionSignal rest
  end.

(** Each action differs ([!==]) from the one before it. *)
Fixpoint fresh_each (prev : jsval) (actions : list jsval) : bool :=
  match actions with
  | [] => true
  | a :: rest => negb (js_same a prev) && fresh_each a rest
  end.

(** ** [stateMachinePlugin] *)

Section MachinePlugin.
Variables (A cs S : nat) (reducer : jsval -> jsval -> jsval).

(** The two subscribers of the action signal: [map]'s, which copies
    [currentState] into the state signal, then the reducer's. *)
Definition sm_listeners (h1 h2 : nat) : list entry :=
  [(h1, fun x => body (fv <- read cs ;; _set S fv));
   (h2, fun v => body (machine_listener cs S reducer v))].

Definition sm_inv (h1 h2 : nat) (s : store) : Prop :=
  subs_of s A = sm_listeners h1 h2 /\ h1 < h2 /\ subs_of s S = [] /\
  cur s S = cur s cs /\ A <> cs /\ A <> S /\ cs <> S.

(** A new action [a]: the reducer's result is stored in [currentState]
    and in the state signal. *)
Lemma sm_step h1 h2 a s :
  sm_inv h1 h2 s -> js_same a (cur s A) = false ->
  exists s', returns (_set A a) s tt s' /\ sm_inv h1 h2 s' /\
             cur s' cs = reducer (cur s cs) a /\ cur s' A = a.
Proof.
  intros (Hsa & Hlt & Hss & Hcur & HAc & HAS & HcS) Hne.
  set (t := bump (assign_cell A a s)).
  set (s1 := set_quiet S (cur s cs) t).
  set (r := reducer (cur s cs) a).
  set (s2 := set_quiet S r (assign_cell cs r (bump s1))).
  assert (Hs1 : subs_of s1 A = subs_of s A) by (unfold s1, t; by autorewrite with store_simpl).
  assert (Hcs1 : cur s1 cs = cur s cs).
  { unfold s1, t. rewrite cur_set_quiet_ne, cur_bump, cur_assign_other by done. done. }
  exists s2. unfold sm_inv. split_and!; try done.
  - eapply returns_set_two; [exact Hne|exact Hsa|exact Hlt| | | | |].
    + apply returns_body. eapply returns_bind; [apply returns_read|].
      unfold t. rewrite cur_bump, cur_assign_other by done. apply returns_set_quiet.
      by autorewrite with store_simpl.
    + exact Hs1.
    + unfold s1, t. rewrite cur_set_quiet_ne, cur_bump by done. apply cur_assign_eq.
    + apply returns_body. unfold machine_listener.
      eapply returns_bind; [apply returns_read|].
      rewrite cur_bump, cur_set_quiet_ne, cur_bump, cur_assign_other by done.
      eapply returns_bind; [apply returns_assign|].
      eapply returns_bind; [apply returns_read|]. rewrite cur_assign_eq.
      unfold s2, r, s1, t. apply returns_set_quiet. by autorewrite with store_simpl.
    + unfold s2. autorewrite with store_simpl. exact Hs1.
  - unfold s2. autorewrite with store_simpl. by rewrite Hs1.
  - unfold s2, s1, t. by autorewrite with store_simpl.
  - unfold s2. rewrite cur_set_quiet_eq, cur_set_quiet_ne by done. by rewrite cur_assign_eq.
  - unfold s2. rewrite cur_set_quiet_ne, cur_assign_eq by done. done.
  - unfold s2, s1, t. rewrite cur_set_quiet_ne, cur_assign_other, cur_bump, cur_set_quiet_ne by done.
    by rewrite cur_bump, cur_assign_eq.
Qed.

Lemma sm_send h1 h2 actions s :
  sm_inv h1 h2 s -> fresh_each (cur s A) actions = true ->
  exists s', returns (send_actions A actions) s tt s' /\ sm_inv h1 h2 s' /\
             cur s' cs = fold_left reducer actions (cur s cs).
Proof.
  revert s. induction actions as [|a rest IH]; intros s Hinv Hf.
  - exists s. split_and!; [apply returns_ret|done|done].
  - cbn [fresh_each] in Hf. apply andb_prop in Hf as [Ha Hf]. apply negb_true_iff in Ha.
    destruct (sm_step h1 h2 a s Hinv Ha) as (s1 & Hs1 & Hinv1 & Hcs & HA).
    rewrite <- HA in Hf. destruct (IH s1 Hinv1 Hf) as (s2 & Hs2 & Hinv2 & Hcs2).
    exists s2. split_and!; [|done|by rewrite Hcs2, Hcs].
    cbn [send_actions]. eapply returns_bind; [exact Hs1|exact Hs2].
Qed.

End MachinePlugin.

Lemma sm_create init reducer A s :
  A < next s -> subs_of s A = [] ->
  exists s1, returns (stateMachinePlugin init reducer A) s (S (next s)) s1 /\
    sm_inv A (next s) (S (next s)) reducer (S (S (next s))) (S (S (S (next s)))) s1 /\
    cur s1 (next s) = init /\ cur s1 A = cur s A.
Proof.
  intros HA Hs. set (sa := alloc_cell init s).
  assert (Hr : returns (read (next s)) sa init sa)
    by (pose proof (returns_read (next s) sa) as H; unfold sa in *; by rewrite cur_alloc_new in H).
  eexists. unfold sm_inv. split_and!.
  - unfold stateMachinePlugin. eapply returns_bind; [apply returns_alloc|].
    eapply returns_bind; [apply (returns_map A _ sa init sa), Hr|].
    eapply returns_bind; [apply returns_subscribe|]. apply returns_ret.
  - unfold sa. rewrite subs_of_add_entry_eq, subs_of_add_entry_eq, !subs_of_alloc_old, Hs by (simpl; lia).
    reflexivity.
  - simpl. lia.
  - unfold sa. rewrite subs_of_add_entry_ne, subs_of_add_entry_ne, subs_of_alloc_new by (simpl; lia).
    done.
  - unfold sa. rewrite !cur_add_entry, cur_alloc_new, cur_alloc_old by (simpl; lia).
    by rewrite cur_alloc_new.
  - lia.
  - lia.
  - lia.
  - unfold sa. rewrite !cur_add_entry, cur_alloc_old by (simpl; lia). apply cur_alloc_new.
  - unfold sa. rewrite !cur_add_entry, !cur_alloc_old by (simpl; lia). done.
Qed.

(** C15: [stateMachinePlugin(initialState, reducer)] applied to an action
    signal folds the reducer over the actions written to it: after the
    client writes [a1, ..., an] (each different from the one before),
    the state signal holds [reducer(...reducer(initialState, a1)...,
    an)]. *)
Theorem machine_plugin_fold init reducer A actions s :
  A < next s -> subs_of s A = [] -> fresh_each (cur s A) actions = true ->
  exists st s', returns (st <- stateMachinePlugin init reducer A ;; send_actions A actions ;;; cret st) s st s' /\
                cur s' st = fold_left reducer actions init.
Proof.
  intros HA Hs Hf. destruct (sm_create init reducer A s HA Hs) as (s1 & Hc & Hinv & Hinit & HA1).
  rewrite <- HA1 in Hf. destruct (sm_send _ _ _ _ _ _ actions s1 Hinv Hf) as (s2 & Hsend & Hinv2 & Hcs).
  exists (S (next s)), s2. split.
  - eapply returns_bind; [exact Hc|]. eapply returns_bind; [exact Hsend|apply returns_ret].
  - destruct Hinv2 as (_ & _ & _ & -> & _). by rewrite Hcs, Hinit.
Qed.


(** ** Scenarios (a client callback [7]; the clock starts at [1000]) *)

Definition st0 : store := init_store 1000.

(** A counter: ['inc'] adds one. *)
Definition counter (st action : jsval) : jsval :=
  if js_same action (JStr "inc") then js_add st (num 1) else st.

Lemma machine_plugin_fold_witness :
  exists st s', returns (st <- stateMachinePlugin (num 0) counter 0 ;;
                         send_actions 0 [JStr "inc"; JStr "reset"; JStr "inc"] ;;; cret st) Plugins.st_sig st s' /\
                cur s' st = num 2.
Proof.
  apply (machine_plugin_fold (num 0) counter 0 [JStr "inc"; JStr "reset"; JStr "inc"] Plugins.st_sig);
    [simpl; lia|reflexivity|vm_compute; reflexivity].
Defined.

(** The same action twice: the second write is [===] to the first, so
    the action signal does not notify and the reducer never sees it. *)
Definition sc_machine_repeat : list script_step :=
  [Run (body (a <- signal (JStr "none") ;; st <- stateMachinePlugin (num 0) counter a ;;
              _ <- subscribe st (callback 7) ;; _set a (JStr "inc") ;;; _set a (JStr "inc")))].

(** [fetchPlugin] with two retries on a fetcher that always fails. *)
Definition sc_fetch_plugin : list script_step :=
  [Run (body (t <- signal (num 0) ;; f <- fetchPlugin (Fetch.call_async 5) (mk_fetch_options 2 None 300000) t ;;
              _ <- subscribe f (callback 7) ;; cret tt));
   Run (body (_set 0 (num 1)));
   Reject 12 (JStr "e1"); Wait 1000; Reject 16 (JStr "e2"); Wait 2000; Reject 20 (JStr "e3")].

(** [asyncPlugin] over a source: the first call resolves with ['A'],
    then the source changes again. *)
Definition sc_async : list script_step :=
  [Run (body (src <- signal (num 0) ;;
              a <- asyncPlugin (fun v ok err => invoke 5 v ok err) JUndef src ;;
              _ <- subscribe a (callback 7) ;; _set src (num 1)));
   Resolve 12 (JStr "A");
   Run (body (_set 0 (num 2)))].

(** [cachePlugin('k')] finding [{"a":1}] stored 10 ms ago. *)
Definition sc_cache_plugin : list script_step :=
  [Run (body (storage_set_m (Plugins.signal_cache_key "k") (Plugins.stored_text (JObj 0 [("a"%string, num 1)])) ;;;
              storage_set_m (Plugins.signal_cache_time_key "k") "990" ;;;
              src <- signal (num 0) ;; c <- cachePlugin "k" 60000 src ;;
              _ <- subscribe c (callback 7) ;; _set src (num 1) ;;; _set src (num 2)))].

(** [validationPlugin] with [onValidChange]: [1], then [2], both valid. *)
Definition sc_validation : list script_step :=
  [Run (body (src <- signal (num 0) ;;
              v <- validationPlugin (fun x => bool_decide (0 < int_of x)%Z) (Some (callback 7)) src ;;
              _set src (num 1) ;;; _set src (num 2)))].

(** The values the client callback received. *)
Definition call_values (s : store) : list jsval :=
  flat_map (fun o => match o with OCall _ v => [v] | _ => [] end) (trace s).

(** A repeated action is lost: sending ['inc'] twice leaves the
    counter at [1], because the plugin reacts to changes of the action
    signal, and [_set] drops a value [===] to the current one. *)
Example machine_plugin_drops_repeat :
  exists s', run_script 200 sc_machine_repeat st0 = Some s' /\ trace s' = [OCall 7 (num 1)].
Proof. run_script_tac. Qed.

(** [fetchPlugin] fetches only when the trigger changes, and with
    [retries = 2] a failing fetcher is called three times, after 1000 ms
    and 2000 ms, before the error state. *)
Example fetch_plugin_retries :
  exists s', run_script 200 sc_fetch_plugin st0 = Some s' /\ Fetch.invocations s' = 3 /\
    last (trace s') = Some (OCall 7 (JObj 21 [("data"%string, JUndef); ("loading"%string, JBool false);
                                              ("error"%string, JErr 22 "e3")])).
Proof. run_script_tac. Qed.

(** [asyncPlugin] drops the data it has when the source changes
    again: its [map] resets the state to [{data: initialValue, loading:
    false}] before the loading state copies [data] from it, so the
    subscriber sees the data ['A'] vanish. *)
Example async_plugin_drops_data :
  exists s', run_script 200 sc_async st0 = Some s' /\
    List.map (fun v => get_field v "data") (call_values s') =
      [JUndef; JUndef; JStr "A"; JUndef; JUndef].
Proof. run_script_tac. Qed.

(** a [cachePlugin] hit returns a signal frozen at the cached value
    that still notifies on every source change (a new parsed object each
    time), and the source's values are never written to the cache. *)
Example cache_plugin_hit_frozen :
  exists s', run_script 200 sc_cache_plugin st0 = Some s' /\
    List.map (fun v => get_field v "a") (call_values s') =
      [num 1; num 1] /\
    storage s' !! Plugins.signal_cache_time_key "k" = Some "990"%string.
Proof. run_script_tac. Qed.

(** [onValidChange] is called on every change of the source, also
    when validity did not change. *)
Example validation_plugin_every_change :
  exists s', run_script 200 sc_validation st0 = Some s' /\
    trace s' = [OCall 7 (JBool true); OCall 7 (JBool true)].
Proof. run_script_tac. Qed.

End Universal.
