(* ===== verification/DemoSignal.v ===== *)
(** * The demo implementation of Signal-Σ: [src/unnamed/part_007]

    The React demo ships its own small copy of the library ([signal],
    [effect], [machine], [fetch] and six plugins), which the hooks of
    [src/unnamed/part_008] import.  It differs from the library of
    [src/src] in ways that matter:
    - its subscribers are called with no argument
      ([subscribers.forEach(fn => fn())]), so a callback that takes the
      new value receives [undefined];
    - its plugins name their parameter [signal], which hides the
      function [signal]: [signal(signal.value())] calls the signal
      object, and a non-function call throws a [TypeError].

    A demo signal is a cell of the engine like a library signal; its
    notification passes [undefined] ([demo_arg]).  An exception nothing
    catches is [Engine.throw_error]: the rest of the task is dropped. *)

From Stdlib Require Import ZArith String.
From stdpp Require Import base list gmap strings pretty.
From S2P Require Import Prelude JsValue Engine Json Signal Effect Fetch.

Local Open Scope resig_scope.

Module Demo.
Import Signal.

(** The argument [fn()] passes: none. *)
Definition demo_arg (_ : gmap nat jsval) (_ : nat) : jsval := JUndef.

(** [signal(initial)] (lines 9-35). *)
Definition signal (initial : jsval) : M nat := alloc initial.

(** [value: () => current] (line 14). *)
Definition value (c : nat) : M jsval := read c.

(** [subscribers.forEach(fn => fn())] (line 29). *)
Definition notify (c : nat) : M unit := notify_with c demo_arg.

(** [subscribe(cb)] (lines 22-25). *)
Definition subscribe (c : nat) (cb : jsval -> M unit) : M (M unit) :=
  h <- subscribe_raw c (fun v => body (cb v)) ;;
  cret (unsubscribe_raw c h).

(** [_set(value)] (lines 26-31). *)
Definition _set (c : nat) (v : jsval) : M unit :=
  current <- value c ;;
  if negb (js_same v current) then assign c v ;;; notify c else cret tt.

(** [map(f)] (lines 15-21): the closure reads [current] itself. *)
Definition map (c : nat) (f : jsval -> M jsval) : M nat :=
  current <- value c ;;
  fc <- f current ;;
  derived <- signal fc ;;
  _ <- subscribe c (fun _ => cv <- value c ;; fv <- f cv ;; _set derived fv) ;;
  cret derived.

(** [effect(initial)] (lines 43-73): a signal with [bind]. *)
Definition effect (initial : jsval) : M nat := signal initial.

(** The closure [bind] subscribes (lines 55-62): [newValue] is the
    argument the notification passes. *)
Definition bind_listener (resultEffect : nat) (f : jsval -> M nat) (newValue : jsval) : M unit :=
  newEffect <- f newValue ;;
  nv <- value newEffect ;;
  _set resultEffect nv ;;;
  _ <- subscribe newEffect (fun boundValue => _set resultEffect boundValue) ;;
  cret tt.

(** [bind(f)] (lines 52-65). *)
Definition bind (e : nat) (f : jsval -> M nat) : M nat :=
  v <- value e ;;
  fe <- f v ;;
  fv <- value fe ;;
  resultEffect <- effect fv ;;
  _ <- subscribe e (bind_listener resultEffect f) ;;
  cret resultEffect.

(** [chain(f)] (lines 67-69). *)
Definition chain (e : nat) (f : jsval -> M nat) : M nat := bind e f.

(** [machine(initialState, reducer)] (lines 82-111): [currentState]
    and the subscriber set are a cell. *)
Record machine_obj : Type := mk_machine {
  m_cell : nat;
  m_reducer : jsval -> jsval -> jsval
}.

Definition machine (initialState : jsval) (reducer : jsval -> jsval -> jsval) : M machine_obj :=
  c <- alloc initialState ;; cret (mk_machine c reducer).

(** [notify] of the machine (lines 89-91) passes [currentState]. *)
Definition machine_notify (m : machine_obj) : M unit := notify_with (m_cell m) (Signal.current_of (m_cell m)).

(** [get state()] (lines 94-96). *)
Definition machine_state (m : machine_obj) : M jsval := read (m_cell m).

(** [send(action)] (lines 98-104). *)
Definition send (m : machine_obj) (action : jsval) : M unit :=
  currentState <- read (m_cell m) ;;
  let newState := m_reducer m currentState action in
  if negb (js_same newState currentState)
  then assign (m_cell m) newState ;;; machine_notify m
  else cret tt.

(** [subscribe(fn)] of the machine (lines 106-109). *)
Definition machine_subscribe (m : machine_obj) (fn : jsval -> M unit) : M (M unit) :=
  h <- subscribe_raw (m_cell m) (fun v => body (fn v)) ;;
  cret (unsubscribe_raw (m_cell m) h).

(** [executeFetch()] (lines 164-175), on the instance's base signal. *)
Definition executeFetch (fetcher : Fetch.async_fn) (base : nat) : M unit :=
  st <- Fetch.loading_state ;; _set base st ;;;
  fetcher (fun data => st <- Fetch.data_state data ;; _set base st)
          (fun error => st <- Fetch.error_state error ;; _set base st).

(** The fields of a demo [Fetch] its methods use. *)
Record fetch_obj : Type := mk_fetch {
  f_base : nat;
  f_fetcher : Fetch.async_fn
}.

(** [fetch(fetcher)] (lines 125-179). *)
Definition fetch (fetcher : Fetch.async_fn) : M fetch_obj :=
  st <- Fetch.loading_state ;;
  baseSignal <- signal st ;;
  executeFetch fetcher baseSignal ;;;
  cret (mk_fetch baseSignal fetcher).

(** [attemptFetch(attemptsLeft)] of [retry(n)] (lines 137-153). *)
Fixpoint attemptFetch (fetcher : Fetch.async_fn) (retryFetch : nat) (n attemptsLeft : nat) : M unit :=
  st <- Fetch.loading_state ;; _set retryFetch st ;;;
  fetcher (fun data => st <- Fetch.data_state data ;; _set retryFetch st)
          (fun error =>
             match attemptsLeft with
             | S a =>
                 _ <- set_timer (Fetch.backoff_delay n attemptsLeft) false
                        (body (attemptFetch fetcher retryFetch n a)) ;;
                 cret tt
             | O => st <- Fetch.error_state error ;; _set retryFetch st
             end).

(** [retry(n)] (lines 134-157). *)
Definition retry (f : fetch_obj) (n : nat) : M fetch_obj :=
  retryFetch <- fetch (f_fetcher f) ;;
  attemptFetch (f_fetcher f) (f_base retryFetch) n n ;;;
  cret retryFetch.

(** [refetch()] (lines 159-161): the same instance fetches again. *)
Definition refetch (f : fetch_obj) : M unit := executeFetch (f_fetcher f) (f_base f).

(** ** Plugins (lines 181-283) *)

Definition plugin : Type := nat -> M nat.

(** Calling the signal object [signal] as a function. *)
Definition not_a_function : string := "TypeError: signal is not a function".

(** [debouncePlugin(ms)] (lines 185-197): [signal(signal.value())]
    evaluates its argument, then throws. *)
Definition debouncePlugin (ms : Z) : plugin := fun sig =>
  _ <- value sig ;; throw_error not_a_function.

(** [throttlePlugin(ms)] (lines 200-213). *)
Definition throttlePlugin (ms : Z) : plugin := fun sig =>
  _ <- value sig ;; throw_error not_a_function.

(** [loggerPlugin(prefix)] (lines 216-221): [value] is the argument the
    notification passes. *)
Definition loggerPlugin (prefix : string) : plugin := fun sig =>
  _ <- subscribe sig (fun v => emit (OLog (prefix +:+ ":") v)) ;; cret sig.

(** The closure [cachePlugin] subscribes (lines 242-249). *)
Definition cache_writer (sig : nat) (key : string) (_ : jsval) : M unit :=
  v <- value sig ;;
  storage_set_m ("signal_cache_" +:+ key) (default "undefined" (stringify v)) ;;;
  n <- now ;; storage_set_m ("signal_cache_time_" +:+ key) (pretty n).

(** [cachePlugin(key, ttl)] (lines 224-252): on a hit,
    [signal(JSON.parse(cached))] throws inside the [try], which catches
    it (as it catches a [JSON.parse] error), so every path subscribes
    the writer and returns the signal itself. *)
Definition cachePlugin (key : string) (ttl : Z) : plugin := fun sig =>
  cached <- storage_get ("signal_cache_" +:+ key) ;;
  cacheTime <- storage_get ("signal_cache_time_" +:+ key) ;;
  (if Fetch.truthy_item cached && Fetch.truthy_item cacheTime then
     n <- now ;;
     match parse_int (default "" cacheTime) with
     | Some t =>
         if (n - t <? ttl)%Z then
           match json_parse (default "" cached) with
           | Some j => _ <- of_json j ;; cret tt
           | None => cret tt
           end
         else cret tt
     | None => cret tt
     end
   else cret tt) ;;;
  _ <- subscribe sig (cache_writer sig key) ;;
  cret sig.

(** [filterPlugin(predicate)] (lines 255-266). *)
Definition filterPlugin (predicate : jsval -> bool) : plugin := fun sig =>
  _ <- value sig ;; throw_error not_a_function.

(** [transformPlugin(transform)] (lines 269-278): [transform] runs on
    the current value before the call throws. *)
Definition transformPlugin (transform : jsval -> M jsval) : plugin := fun sig =>
  v <- value sig ;; _ <- transform v ;; throw_error not_a_function.

(** [compose(...plugins)] (lines 281-283). *)
Definition compose (plugins : list plugin) : plugin := fun sig =>
  fold_left (fun (acc : M nat) (p : plugin) => a <- acc ;; p a) plugins (cret sig).

(** [f] of [bind] that makes a new effect of [g x]. *)
Definition fresh (g : jsval -> jsval) : jsval -> M nat := fun x => effect (g x).

(** ** Running the demo [_set] *)

Lemma demo_set_unfold c v k s s' :
  big (_set c v k) s s' <->
  if js_same v (cur s c) then big (k tt) s s'
  else big (Notify c demo_arg (k tt)) (assign_cell c v s) s'.
Proof.
  unfold _set, value, read, cbind, assign, notify, notify_with. rewrite big_read_iff.
  destruct (js_same v (cur s c)); simpl; [done|]. by rewrite big_assign_iff.
Qed.

Lemma demo_returns_set_quiet c v s : subs_of s c = [] -> returns (_set c v) s tt (set_quiet c v s).
Proof.
  intros Hs k s'. rewrite demo_set_unfold. unfold set_quiet. destruct (js_same v (cur s c)); [done|].
  rewrite big_notify_iff. split.
  - intros (s1 & Hn & Hk). inversion Hn; subst; [done|].
    match goal with H : next_entry _ _ = Some _ |- _ => rewrite subs_of_assign, Hs in H; discriminate end.
  - intros Hk. exists (assign_cell c v s). split; [|done]. apply bn_end. by rewrite subs_of_assign, Hs.
Qed.

(** A changed value on a signal with one subscriber [l]: [l] runs with
    [undefined]. *)
Lemma demo_returns_set_one c v h l s s1 :
  js_same v (cur s c) = false -> subs_of s c = [(h, l)] ->
  big (l JUndef) (bump (assign_cell c v s)) s1 -> next_entry (S h) (subs_of s1 c) = None ->
  returns (_set c v) s tt s1.
Proof.
  intros Hne Hs Hl Hend k s'. rewrite demo_set_unfold, Hne, big_notify_iff.
  assert (Hn : big_notify c demo_arg 0 (assign_cell c v s) s1).
  { apply (bn_step _ _ _ _ h l s1); [|exact Hl|by apply bn_end].
    rewrite subs_of_assign, Hs. apply next_entry_cons_ge. lia. }
  split.
  - intros (s2 & Hn2 & Hk). assert (s2 = s1) as ->; [|done].
    eapply big_det; [econstructor; [exact Hn2|constructor]|econstructor; [exact Hn|constructor]].
  - intros Hk. eauto.
Qed.

Lemma demo_returns_value c s : returns (value c) s (cur s c) s.
Proof. apply returns_read. Qed.

Lemma demo_returns_effect v s : returns (effect v) s (next s) (alloc_cell v s).
Proof. apply returns_alloc. Qed.

Lemma demo_returns_subscribe c fn s :
  returns (subscribe c fn) s (unsubscribe_raw c (next s)) (add_entry c (fun v => body (fn v)) s).
Proof.
  unfold subscribe. eapply returns_bind; [apply returns_subscribe_raw|apply returns_ret].
Qed.

(** ** Properties *)

(** The demo plugins that build a new signal never return: calling
    the parameter [signal] throws a [TypeError] that ends the task,
    whatever the signal holds. *)
Theorem demo_plugins_throw ms pred c k s s' :
  (big (debouncePlugin ms c k) s s' <-> s' = emit_obs (OThrow not_a_function) s) /\
  (big (throttlePlugin ms c k) s s' <-> s' = emit_obs (OThrow not_a_function) s) /\
  (big (filterPlugin pred c k) s s' <-> s' = emit_obs (OThrow not_a_function) s).
Proof.
  unfold debouncePlugin, throttlePlugin, filterPlugin, throw_error, value, read, cbind.
  split_and!; by rewrite big_read_iff, big_emit_iff, big_done_iff.
Qed.

(** The demo [bind] applies [f] to [undefined] on every change of
    the source, since its subscribers are called with no argument:
    after [r = e.bind(x => effect(g(x)))] and a write of a new [v] to
    [e], [r] holds [g(undefined)], not [g(v)]. *)
Theorem demo_bind_passes_undefined e g v s :
  e < next s -> subs_of s e = [] -> js_same v (cur s e) = false ->
  exists r s1, returns (r <- bind e (fresh g) ;; _set e v ;;; cret r) s r s1 /\
               cur s1 r = g JUndef /\ cur s1 e = v.
Proof.
  intros He Hs Hne.
  set (s1 := alloc_cell (g (cur s e)) s). set (r := next s1).
  set (s2 := alloc_cell (g (cur s e)) s1).
  set (L := fun x => body (bind_listener r (fresh g) x)).
  set (s3 := add_entry e L s2). set (h := next s2).
  set (t := bump (assign_cell e v s3)). set (b := next t).
  set (t2 := set_quiet r (g JUndef) (alloc_cell (g JUndef) t)).
  set (t3 := add_entry b (fun bv => body (_set r bv)) t2).
  assert (Hb : returns (bind e (fresh g)) s r s3).
  { unfold bind. eapply returns_bind; [apply demo_returns_value|].
    eapply returns_bind; [apply demo_returns_effect|].
    eapply returns_bind; [apply demo_returns_value|]. unfold s1. rewrite cur_alloc_new.
    eapply returns_bind; [apply demo_returns_effect|].
    eapply returns_bind; [apply demo_returns_subscribe|apply returns_ret]. }
  assert (Hcur3 : cur s3 e = cur s e)
    by (unfold s3, s2, s1; rewrite cur_add_entry, !cur_alloc_old by (simpl; lia); done).
  assert (Hsub3 : subs_of s3 e = [(h, L)]).
  { unfold s3. rewrite subs_of_add_entry_eq. unfold s2, s1.
    rewrite !subs_of_alloc_old, Hs by (simpl; lia). reflexivity. }
  exists r, t3. split_and!.
  - eapply returns_bind; [exact Hb|]. eapply returns_bind; [|apply returns_ret].
    eapply demo_returns_set_one; [by rewrite Hcur3|exact Hsub3| |].
    + apply returns_body. unfold bind_listener, fresh.
      eapply returns_bind; [apply demo_returns_effect|].
      eapply returns_bind; [apply demo_returns_value|]. rewrite cur_alloc_new.
      eapply returns_bind; [apply demo_returns_set_quiet|].
      * rewrite subs_of_alloc_old by (unfold t, b, r, s1, s2, s3; simpl; lia).
        unfold t, s3, s2. rewrite subs_of_bump, subs_of_assign, subs_of_add_entry_ne by (unfold r, s1; simpl; lia).
        rewrite subs_of_alloc_new. done.
      * eapply returns_bind; [apply demo_returns_subscribe|apply returns_ret].
    + unfold t3, t2. rewrite subs_of_add_entry_ne by (unfold b, t, s3, s2, s1; simpl; lia).
      rewrite subs_of_set_quiet, subs_of_alloc_old by (unfold t, s3, s2, s1; simpl; lia).
      unfold t. rewrite subs_of_bump, subs_of_assign, Hsub3, next_entry_cons_lt by lia.
      apply next_entry_nil.
  - unfold t3. rewrite cur_add_entry. apply cur_set_quiet_eq.
  - unfold t3, t2. rewrite cur_add_entry, cur_set_quiet_ne, cur_alloc_old by (unfold r, t, s3, s2, s1; simpl; lia).
    unfold t. by rewrite cur_bump, cur_assign_eq.
Qed.

End Demo.
