(* ===== verification/SignalLib.v ===== *)
(** * The signal library the hooks are written against

    The React hooks exist twice: over the library of [src/src] (the
    React half of [src/src/vue/hooks.ts]) and over the demo copy of
    [src/unnamed/part_007] (the hooks of [src/unnamed/part_008]).  Both
    are written against the same operations: [signal], [effect],
    [value], [_set], [subscribe] and a reducer [machine].  [SignalLib]
    is that interface; [SignalLibLaws] is what the hooks' theorems need
    of it, stated on the engine's store: a new signal is a new cell, a
    read is [cur], [_set] of an equal value does nothing, and [_set] of
    a new value stores it and calls the subscribers with [lib_arg v]
    (the new value for the library, [undefined] for the demo).  Both
    libraries are instances and discharge the laws. *)

From Stdlib Require Import ZArith String.
From stdpp Require Import base list gmap strings.
From S2P Require Import Prelude JsValue Engine Signal Effect StateAlg DemoSignal.

Local Open Scope resig_scope.

Class SignalLib : Type := {
  lib_signal : jsval -> M nat;
  lib_effect : jsval -> M nat;
  lib_value : nat -> M jsval;
  lib_set : nat -> jsval -> M unit;
  lib_subscribe : nat -> (jsval -> M unit) -> M (M unit);
  (** the argument a subscriber receives when [_set v] notifies *)
  lib_arg : jsval -> jsval;
  lib_machine_t : Type;
  lib_machine : jsval -> (jsval -> jsval -> jsval) -> M lib_machine_t;
  lib_machine_state : lib_machine_t -> M jsval;
  lib_machine_send : lib_machine_t -> jsval -> M unit;
  lib_machine_subscribe : lib_machine_t -> (jsval -> M unit) -> M (M unit)
}.

Class SignalLibLaws (L : SignalLib) : Prop := {
  lib_signal_spec v s : returns (lib_signal v) s (next s) (alloc_cell v s);
  lib_effect_spec v s : returns (lib_effect v) s (next s) (alloc_cell v s);
  lib_value_spec c s : returns (lib_value c) s (cur s c) s;
  lib_set_same c v s : js_same v (cur s c) = true -> returns (lib_set c v) s tt s;
  lib_set_quiet c v s : subs_of s c = [] -> returns (lib_set c v) s tt (Signal.set_quiet c v s);
  lib_set_one c v h l s s1 :
    js_same v (cur s c) = false -> subs_of s c = [(h, l)] ->
    big (l (lib_arg v)) (bump (assign_cell c v s)) s1 -> next_entry (S h) (subs_of s1 c) = None ->
    returns (lib_set c v) s tt s1;
  lib_subscribe_spec c fn s :
    returns (lib_subscribe c fn) s (unsubscribe_raw c (next s)) (add_entry c (fun v => body (fn v)) s)
}.

(** The library of [src/src]: [core/signal.ts], [core/effect],
    [algebras/state]. *)
#[export] Instance core_lib : SignalLib := {
  lib_signal := Signal.signal;
  lib_effect := Effect.effect;
  lib_value := Signal.value;
  lib_set := Signal._set;
  lib_subscribe := Signal.subscribe;
  lib_arg := fun v => v;
  lib_machine_t := Machine.machine_obj;
  lib_machine := Machine.machine;
  lib_machine_state := Machine.state;
  lib_machine_send := Machine.send;
  lib_machine_subscribe := Machine.subscribe
}.

(** The demo copy of [src/unnamed/part_007]. *)
#[export] Instance demo_lib : SignalLib := {
  lib_signal := Demo.signal;
  lib_effect := Demo.effect;
  lib_value := Demo.value;
  lib_set := Demo._set;
  lib_subscribe := Demo.subscribe;
  lib_arg := fun _ => JUndef;
  lib_machine_t := Demo.machine_obj;
  lib_machine := Demo.machine;
  lib_machine_state := Demo.machine_state;
  lib_machine_send := Demo.send;
  lib_machine_subscribe := Demo.machine_subscribe
}.

#[export] Instance core_lib_laws : SignalLibLaws core_lib.
Proof.
  split; simpl.
  - apply Signal.returns_signal.
  - apply Effect.returns_effect.
  - apply Signal.returns_value.
  - apply Signal.returns_set_same.
  - apply Signal.returns_set_quiet.
  - apply Signal.returns_set_one.
  - apply Signal.returns_subscribe.
Qed.

Lemma demo_returns_set_same c v s : js_same v (cur s c) = true -> returns (Demo._set c v) s tt s.
Proof. intros H k s'. by rewrite Demo.demo_set_unfold, H. Qed.

#[export] Instance demo_lib_laws : SignalLibLaws demo_lib.
Proof.
  split; simpl.
  - apply returns_alloc.
  - apply returns_alloc.
  - apply returns_read.
  - apply demo_returns_set_same.
  - apply Demo.demo_returns_set_quiet.
  - apply Demo.demo_returns_set_one.
  - apply Demo.demo_returns_subscribe.
Qed.
