(* ===== verification/Hooks.v ===== *)
(** * React hooks over a signal library

    [src/src/vue/hooks.ts] lines 468-891 (the React hooks module, which
    the concatenated file carries after the Vue adapter) and the same
    hooks in [src/unnamed/part_008] (lines 1-180), which import the
    demo library of [src/unnamed/part_007].  The hooks are written once
    against [SignalLib.SignalLib]; Module [Part008] instantiates them
    with the demo library.

    Rendering.  A component's render is a program of the engine; the
    client decides when a component renders again (a script step), as
    React does when a subscription fires.  React keeps a component's
    hook state between renders: a [useRef] object is the same on every
    render.  A ref that only the render writes
    ([if (!ref.current) ref.current = create()]) holds a library object
    and is threaded from one render to the next as [option] ([ref_init]);
    a ref that callbacks write ([timeoutRef], [abortControllerRef]) is
    a cell of the store, whose [current] the callbacks read and assign.
    [useSyncExternalStore(subscribe, getSnapshot)] returns
    [getSnapshot()] during the render. *)

From Stdlib Require Import ZArith String.
From stdpp Require Import base list gmap strings pretty.
From S2P Require Import Prelude JsValue Engine Json Signal Effect StateAlg Time Fetch Plugins DemoSignal SignalLib.

Local Open Scope resig_scope.

Module Hooks.

(** [if (!ref.current) ref.current = create()]: the object a
    render-initialised ref holds after this render. *)
Definition ref_init {T : Type} (ref : option T) (create : M T) : M T :=
  match ref with
  | Some o => cret o
  | None => create
  end.

(** [useRef()] for a ref that callbacks assign: its [current] is a
    cell, [undefined] at first. *)
Definition useRef (ref : option nat) : M nat := ref_init ref (alloc JUndef).

(** [useSyncExternalStore(subscribe, getSnapshot)] during a render. *)
Definition useSyncExternalStore {A : Type} (subscribe : A) (getSnapshot : M jsval) : M jsval :=
  getSnapshot.

(** [let storedValue = initialValue; try { ... } catch (e) {}] of
    [usePersistentSignal] (lines 645-653): the stored text, when there
    is one and it parses, replaces [initialValue]; a [JSON.parse] that
    throws leaves it. *)
Definition load_stored (key : string) (initialValue : jsval) : M jsval :=
  stored <- storage_get key ;;
  if Fetch.truthy_item stored then
    match json_parse (default "" stored) with
    | Some j => of_json j
    | None => cret initialValue
    end
  else cret initialValue.

Section WithLib.
Context {L : SignalLib}.

(** [useSignal(initialValue)] (lines 472-483): the signal, then
    [[value, _set]]. *)
Definition useSignal (sigRef : option nat) (initialValue : jsval) :
    M (nat * (jsval * (jsval -> M unit))) :=
  c <- ref_init sigRef (lib_signal initialValue) ;;
  value <- useSyncExternalStore (lib_subscribe c) (lib_value c) ;;
  cret (c, (value, lib_set c)).

(** [useComputed(compute)] (lines 487-489) and [useDerived(derive)]
    (lines 555-557). *)
Definition useComputed (compute : M jsval) : M jsval := compute.
Definition useDerived (derive : M jsval) : M jsval := derive.

(** [useEffect(initialValue)] (lines 492-505). *)
Definition useEffect (effRef : option nat) (initialValue : jsval) :
    M (nat * (jsval * (jsval -> M unit) * nat)) :=
  c <- ref_init effRef (lib_effect initialValue) ;;
  value <- useSyncExternalStore (lib_subscribe c) (lib_value c) ;;
  cret (c, (value, lib_set c, c)).

(** [useMachine(initialState, reducer)] (lines 508-522): the machine is
    made on the first render, with that render's reducer. *)
Definition useMachine (machineRef : option lib_machine_t) (initialState : jsval)
    (reducer : jsval -> jsval -> jsval) : M (lib_machine_t * (jsval * (jsval -> M unit))) :=
  m <- ref_init machineRef (lib_machine initialState reducer) ;;
  state <- useSyncExternalStore (lib_machine_subscribe m) (lib_machine_state m) ;;
  cret (m, (state, lib_machine_send m)).

(** The [setValue] of [useValidatedSignal] (lines 573-582). *)
Definition validated_set (c vc : nat) (validator : jsval -> bool)
    (onError : option (jsval -> M unit)) (value : jsval) : M unit :=
  if validator value then lib_set c value ;;; lib_set vc (JBool true)
  else lib_set vc (JBool false) ;;; match onError with Some f => f value | None => cret tt end.

(** [useValidatedSignal(initialValue, validator, onError?)] (lines
    560-598). *)
Definition useValidatedSignal (sigRef isValidRef : option nat) (initialValue : jsval)
    (validator : jsval -> bool) (onError : option (jsval -> M unit)) :
    M ((nat * nat) * (jsval * (jsval -> M unit) * jsval)) :=
  c <- ref_init sigRef (lib_signal initialValue) ;;
  vc <- ref_init isValidRef (lib_signal (JBool (validator initialValue))) ;;
  value <- useSyncExternalStore (lib_subscribe c) (lib_value c) ;;
  valid <- useSyncExternalStore (lib_subscribe vc) (lib_value vc) ;;
  cret ((c, vc), (value, validated_set c vc validator onError, valid)).

(** The [setValue] of [useDebouncedSignal] (lines 616-622):
    [timeoutRef] is the cell [t]. *)
Definition debounced_set (i d t : nat) (delay : Z) (value : jsval) : M unit :=
  lib_set i value ;;;
  h <- read t ;; Time.clear_handle h ;;;
  id <- set_timer delay false (body (lib_set d value)) ;;
  assign t (Time.handle id).

(** [useDebouncedSignal(initialValue, delay)] (lines 601-634).  React
    makes the three refs in order, so the cell of [timeoutRef] precedes
    the signals made on the first render. *)
Definition useDebouncedSignal (immediateRef debouncedRef timeoutRef : option nat)
    (initialValue : jsval) (delay : Z) :
    M ((nat * nat * nat) * (jsval * (jsval -> M unit) * jsval)) :=
  t <- useRef timeoutRef ;;
  i <- ref_init immediateRef (lib_signal initialValue) ;;
  d <- ref_init debouncedRef (lib_signal initialValue) ;;
  immediateValue <- useSyncExternalStore (lib_subscribe i) (lib_value i) ;;
  debouncedValue <- useSyncExternalStore (lib_subscribe d) (lib_value d) ;;
  cret ((i, d, t), (immediateValue, debounced_set i d t delay, debouncedValue)).

(** The closure [usePersistentSignal] subscribes (lines 660-666). *)
Definition persist_listener (c : nat) (key : string) (_ : jsval) : M unit :=
  v <- lib_value c ;; storage_set_m key (Plugins.stored_text v).

(** The first render of [usePersistentSignal] (lines 643-667). *)
Definition persistent_create (key : string) (initialValue : jsval) : M nat :=
  storedValue <- load_stored key initialValue ;;
  c <- lib_signal storedValue ;;
  _ <- lib_subscribe c (persist_listener c key) ;;
  cret c.

(** [usePersistentSignal(key, initialValue)] (lines 637-672). *)
Definition usePersistentSignal (sigRef : option nat) (key : string) (initialValue : jsval) :
    M (nat * (jsval * (jsval -> M unit))) :=
  c <- ref_init sigRef (persistent_create key initialValue) ;;
  value <- useSyncExternalStore (lib_subscribe c) (lib_value c) ;;
  cret (c, (value, lib_set c)).

(** [{ data, loading, error: undefined }] for the async hooks. *)
Definition async_state (data : jsval) (loading : bool) : M jsval :=
  i <- new_id ;; cret (JObj i [("data"%string, data); ("loading"%string, JBool loading); ("error"%string, JUndef)]).

(** [abortControllerRef.current?.signal.aborted], read when a promise
    settles: the controller the ref holds then, not the one made by the
    call that is settling. *)
Definition aborted (ctlRef : nat) : M bool :=
  ctl <- read ctlRef ;;
  match ctl with
  | JObj a _ => flag <- read a ;; cret (truthy flag)
  | _ => cret false
  end.

(** The body of [refetch] after the controller is replaced (lines
    705-725): [loading], then the call, whose continuations write the
    state unless the controller in the ref is aborted. *)
Definition async_load (st ctlRef : nat) (asyncFn : Fetch.async_fn) : M unit :=
  cur <- lib_value st ;;
  x <- async_state (get_field cur "data") true ;; lib_set st x ;;;
  asyncFn (fun data =>
             ab <- aborted ctlRef ;;
             if ab then cret tt else x <- async_state data false ;; lib_set st x)
          (fun error =>
             ab <- aborted ctlRef ;;
             if ab then cret tt
             else i <- new_id ;; cur <- lib_value st ;; e <- Fetch.to_error error ;;
                  lib_set st (JObj i [("data"%string, get_field cur "data");
                                      ("loading"%string, JBool false); ("error"%string, e)])).

(** [new AbortController()]: an object whose [signal.aborted] is the
    cell it names. *)
Definition new_controller : M jsval :=
  a <- alloc (JBool false) ;; cret (JObj a []).

(** [abortControllerRef.current.abort()] when the ref holds one, then a
    new controller in the ref (lines 700-704, 774-778). *)
Definition replace_controller (ctlRef : nat) : M unit :=
  ctl <- read ctlRef ;;
  (match ctl with JObj a _ => assign a (JBool true) | _ => cret tt end) ;;;
  c <- new_controller ;; assign ctlRef c.

(** [refetch] of [useAsyncSignal] (lines 698-726). *)
Definition async_refetch (st ctlRef : nat) (asyncFn : Fetch.async_fn) : M unit :=
  replace_controller ctlRef ;;; async_load st ctlRef asyncFn.

(** [setValue] of [useAsyncSignal] (lines 728-730). *)
Definition async_setValue (st : nat) (value : jsval) : M unit :=
  x <- async_state value false ;; lib_set st x.

(** [useAsyncSignal(asyncFn, initialValue)] (lines 675-738). *)
Definition useAsyncSignal (stateRef ctlRefOpt : option nat) (asyncFn : Fetch.async_fn)
    (initialValue : jsval) : M ((nat * nat) * (jsval * M unit * (jsval -> M unit))) :=
  ctlRef <- useRef ctlRefOpt ;;
  st <- ref_init stateRef (x <- async_state initialValue false ;; lib_signal x) ;;
  state <- useSyncExternalStore (lib_subscribe st) (lib_value st) ;;
  cret ((st, ctlRef), (state, async_refetch st ctlRef asyncFn, async_setValue st)).

(** [depsChanged] (lines 764-767): [!==] on each position. *)
Definition depsChanged (initialized : bool) (lastDeps deps : list jsval) : bool :=
  negb initialized || negb (length deps =? length lastDeps)
  || existsb (fun p => negb (js_same p.1 (nth p.2 lastDeps JUndef)))
             (combine deps (seq 0 (length deps))).

(** What a component of [useAsyncComputed] keeps between renders:
    [stateRef], the cell of [abortControllerRef], and the render-only
    refs [lastDepsRef] and [isInitializedRef]. *)
Record computed_refs : Type := mk_computed_refs {
  cr_state : option nat;
  cr_ctl : option nat;
  cr_lastDeps : list jsval;
  cr_initialized : bool
}.

Definition computed_refs0 : computed_refs := mk_computed_refs None None [] false.

(** The render of [useAsyncComputed] up to its [useSyncExternalStore]
    (lines 746-804), which [useAsyncComputedSignal] repeats (lines
    821-879): the refs after this render and the state signal. *)
Definition async_computed_render (refs : computed_refs) (asyncCompute : Fetch.async_fn)
    (deps : list jsval) : M (computed_refs * nat) :=
  ctlRef <- useRef (cr_ctl refs) ;;
  st <- ref_init (cr_state refs) (x <- async_state JUndef false ;; lib_signal x) ;;
  if depsChanged (cr_initialized refs) (cr_lastDeps refs) deps then
    replace_controller ctlRef ;;;
    _ <- set_timer 0 false (body (async_load st ctlRef asyncCompute)) ;;
    cret (mk_computed_refs (Some st) (Some ctlRef) deps true, st)
  else cret (mk_computed_refs (Some st) (Some ctlRef) (cr_lastDeps refs) (cr_initialized refs), st).

(** [useAsyncComputed(asyncCompute, deps)] (lines 742-812). *)
Definition useAsyncComputed (refs : computed_refs) (asyncCompute : Fetch.async_fn)
    (deps : list jsval) : M (computed_refs * jsval) :=
  r <- async_computed_render refs asyncCompute deps ;;
  state <- useSyncExternalStore (lib_subscribe r.2) (lib_value r.2) ;;
  cret (r.1, state).

(** [useAsyncComputedSignal(asyncCompute, deps)] (lines 815-882): the
    signal itself. *)
Definition useAsyncComputedSignal (refs : computed_refs) (asyncCompute : Fetch.async_fn)
    (deps : list jsval) : M (computed_refs * nat) :=
  async_computed_render refs asyncCompute deps.

End WithLib.

(** [useFetch(fetcher)] over [src/src/algebras/fetch.ts] (lines
    525-551): [refetch] and [retry] return new [Fetch] objects; the
    hook keeps showing the first one. *)
Definition useFetch (fetchRef : option Fetch.fetch_obj) (fetcher : Fetch.async_fn) :
    M (Fetch.fetch_obj * (jsval * M Fetch.fetch_obj * (nat -> M Fetch.fetch_obj))) :=
  f <- ref_init fetchRef (Fetch.fetch fetcher []) ;;
  state <- useSyncExternalStore (Signal.subscribe (Fetch.f_base f)) (Signal.value (Fetch.f_base f)) ;;
  cret (f, (state, Fetch.refetch f, Fetch.retry f)).

(** [useFetch(fetcher)] of [src/unnamed/part_008] (lines 55-78) over
    the demo library: its [retry] subscribes a listener that copies the
    retried fetch's notification into the hook's fetch. *)
Definition demo_retry (f : Demo.fetch_obj) (n : nat) : M unit :=
  retryFetch <- Demo.retry f n ;;
  _ <- Demo.subscribe (Demo.f_base retryFetch) (fun retryState => Demo._set (Demo.f_base f) retryState) ;;
  cret tt.

Definition demo_useFetch (fetchRef : option Demo.fetch_obj) (fetcher : Fetch.async_fn) :
    M (Demo.fetch_obj * (jsval * M unit * (nat -> M unit))) :=
  f <- ref_init fetchRef (Demo.fetch fetcher) ;;
  state <- useSyncExternalStore (Demo.subscribe (Demo.f_base f)) (Demo.value (Demo.f_base f)) ;;
  cret (f, (state, Demo.refetch f, demo_retry f)).


(** ** Running the hooks *)

Lemma returns_ref_init_some {T : Type} (o : T) (create : M T) s :
  returns (ref_init (Some o) create) s o s.
Proof. apply returns_ret. Qed.

Lemma returns_ref_init_none {T : Type} (create : M T) s (o : T) s1 :
  returns create s o s1 -> returns (ref_init None create) s o s1.
Proof. done. Qed.

Lemma returns_conv {A : Type} (m : M A) s a a' s1 : a = a' -> returns m s a s1 -> returns m s a' s1.
Proof. by intros ->. Qed.

(** ** The contract of [useSignal]

    What the hook replaces is [useState]: a component renders the value
    last given to the setter, the initial value before any.  A
    component's life is a list of renders and setter calls;
    [use_state_spec] is the list of values it renders under [useState],
    and [run_ui] runs the same list with [useSignal], each render
    passing the signal React kept and the setter the last render
    returned. *)
Inductive ui_op : Type :=
| UISet (v : jsval)
| UIRender.

Fixpoint use_state_spec (st : jsval) (ops : list ui_op) : list jsval :=
  match ops with
  | [] => []
  | UISet v :: rest => use_state_spec v rest
  | UIRender :: rest => st :: use_state_spec st rest
  end.

Fixpoint run_ui {L : SignalLib} (c : nat) (v0 : jsval) (setter : jsval -> M unit) (ops : list ui_op) :
    M (list jsval) :=
  match ops with
  | [] => cret []
  | UISet v :: rest => setter v ;;; run_ui c v0 setter rest
  | UIRender :: rest => r <- useSignal (Some c) v0 ;; vs <- run_ui c v0 r.2.2 rest ;; cret (r.2.1 :: vs)
  end.

(** The component: the first render, then [ops]. *)
Definition mount_ui {L : SignalLib} (v0 : jsval) (ops : list ui_op) : M (list jsval) :=
  r <- useSignal None v0 ;; vs <- run_ui r.1 v0 r.2.2 ops ;; cret (r.2.1 :: vs).

Section Laws.
Context {L : SignalLib} {LL : SignalLibLaws L}.

Lemma returns_useSignal_first v0 s :
  returns (useSignal None v0) s (next s, (v0, lib_set (next s))) (alloc_cell v0 s).
Proof.
  eapply returns_bind; [apply returns_ref_init_none, lib_signal_spec|].
  eapply returns_bind; [apply lib_value_spec|]. rewrite Signal.cur_alloc_new. apply returns_ret.
Qed.

Lemma returns_useSignal_again c v0 s :
  returns (useSignal (Some c) v0) s (c, (cur s c, lib_set c)) s.
Proof.
  eapply returns_bind; [apply returns_ref_init_some|].
  eapply returns_bind; [apply lib_value_spec|apply returns_ret].
Qed.

(** React keeps [useSignal]'s signal between renders: the first
    render makes a signal holding [v0] and returns [v0] and its [_set];
    after [_set v] (no subscriber yet), the next render returns the same
    signal, now holding [v], whatever initial value that render passes. *)
Theorem useSignal_set_rerender v0 v v1 s :
  returns (r <- useSignal None v0 ;; r.2.2 v ;;; useSignal (Some r.1) v1) s
    (next s, (v, lib_set (next s))) (Signal.set_quiet (next s) v (alloc_cell v0 s)).
Proof.
  eapply returns_bind; [apply returns_useSignal_first|]. simpl.
  eapply returns_bind; [apply lib_set_quiet; by rewrite Signal.subs_of_alloc_new|].
  eapply returns_conv; [|apply returns_useSignal_again]. by rewrite Signal.cur_set_quiet_eq.
Qed.

(** C23: the setter of [useValidatedSignal] on both branches: a value the
    validator accepts is written to the signal and the flag set to
    [true]; a rejected value leaves the signal alone, sets the flag to
    [false] and then runs [onError] (if any) on the value. *)
Theorem validated_set_branches c vc validator onError v s :
  subs_of s c = [] -> subs_of s vc = [] ->
  (validator v = true ->
   returns (validated_set c vc validator onError v) s tt
     (Signal.set_quiet vc (JBool true) (Signal.set_quiet c v s))) /\
  (validator v = false -> forall s2,
   returns (match onError with Some f => f v | None => cret tt end)
     (Signal.set_quiet vc (JBool false) s) tt s2 ->
   returns (validated_set c vc validator onError v) s tt s2).
Proof.
  intros Hc Hvc. unfold validated_set. split; intros Hv; rewrite Hv.
  - eapply returns_bind; [by apply lib_set_quiet|].
    apply lib_set_quiet. by rewrite Signal.subs_of_set_quiet.
  - intros s2 Hf. eapply returns_bind; [by apply lib_set_quiet|exact Hf].
Qed.

Lemma returns_run_ui v0 ops : forall c s,
  subs_of s c = [] ->
  exists s', returns (run_ui c v0 (lib_set c) ops) s (use_state_spec (cur s c) ops) s'.
Proof.
  induction ops as [|[v|] ops IH]; intros c s Hs; simpl.
  - exists s. apply returns_ret.
  - destruct (IH c (Signal.set_quiet c v s)) as [s' H']; [by rewrite Signal.subs_of_set_quiet|].
    rewrite Signal.cur_set_quiet_eq in H'. exists s'.
    eapply returns_bind; [by apply lib_set_quiet|exact H'].
  - destruct (IH c s Hs) as [s' H']. exists s'.
    eapply returns_bind; [apply returns_useSignal_again|]. simpl.
    eapply returns_bind; [exact H'|apply returns_ret].
Qed.

(** C21: refinement of [useState]: over any library that satisfies the
    laws, a component using [useSignal] renders, for every sequence of
    renders and setter calls, exactly the values [useState] would: the
    initial value, then at each render the value last set. *)
Theorem useSignal_refines_useState v0 ops s :
  exists s', returns (mount_ui v0 ops) s (v0 :: use_state_spec v0 ops) s'.
Proof.
  destruct (returns_run_ui v0 ops (next s) (alloc_cell v0 s)) as [s' H'];
    [apply Signal.subs_of_alloc_new|].
  rewrite Signal.cur_alloc_new in H'. exists s'.
  eapply returns_bind; [apply returns_useSignal_first|]. simpl.
  eapply returns_bind; [exact H'|apply returns_ret].
Qed.

End Laws.

(** ** Scenarios over the library of [src/src] (a client's asynchronous
    function [5]; the clock starts at [1000]) *)

Definition st0 : store := init_store 1000.

(** [useAsyncSignal(f)]; the component calls [refetch] twice; the
    second call ([p2]) resolves first, then the first ([p1]). *)
Definition sc_async_stale (p1 p2 : nat) : list script_step :=
  [Run (body (r <- useAsyncSignal (L := core_lib) None None (Fetch.call_async 5) JUndef ;;
              r.2.1.2 ;;; r.2.1.2));
   Resolve p2 (JStr "new"); Resolve p1 (JStr "old")].

(** [useFetch(f)] then its [refetch]; the refetched call resolves. *)
Definition sc_fetch_refetch (p : nat) : list script_step :=
  [Run (body (r <- useFetch None (Fetch.call_async 5) ;; _ <- r.2.1.2 ;; cret tt));
   Resolve p (JStr "a")].

(** The demo [useFetch(f)] then its [retry(0)]; every call resolves. *)
Definition sc_demo_retry (ps : list nat) : list script_step :=
  Run (body (r <- demo_useFetch None (Fetch.call_async 5) ;; r.2.2 0))
  :: map (fun p => Resolve p (JStr "a")) ps.

(** [usePersistentSignal('k', 0)] set to [5], then a second component
    mounts [usePersistentSignal('k', 0)] and logs what it renders. *)
Definition sc_persist {L : SignalLib} : list script_step :=
  [Run (body (r <- usePersistentSignal None "k" (num 0) ;; r.2.2 (num 5)));
   Run (body (r <- usePersistentSignal None "k" (num 0) ;; emit (OLog "render" r.2.1)))].

(** [useDebouncedSignal(0, 100)] with a subscriber [7] on the debounced
    signal; two [setValue]s, then 100 ms. *)
Definition sc_debounced : list script_step :=
  [Run (body (r <- useDebouncedSignal (L := core_lib) None None None (num 0) 100 ;;
              _ <- Signal.subscribe r.1.1.2 (callback 7) ;;
              r.2.1.2 (num 1) ;;; r.2.1.2 (num 2)));
   Wait 100].

(** ** What the hooks do *)

(** Witnesses of the theorems proved against [SignalLibLaws]. *)
Lemma useSignal_set_rerender_witness :
  returns (r <- useSignal (L := core_lib) None (num 0) ;; r.2.2 (num 1) ;;; useSignal (L := core_lib) (Some r.1) (num 2)) st0
    (next st0, (num 1, @lib_set core_lib (next st0)))
    (Signal.set_quiet (next st0) (num 1) (alloc_cell (num 0) st0)).
Proof. exact (useSignal_set_rerender (LL := core_lib_laws) (num 0) (num 1) (num 2) st0). Defined.

Lemma useSignal_refines_useState_witness :
  exists s', returns (mount_ui (L := demo_lib) (num 0) [UIRender; UISet (num 1); UISet (num 2); UIRender]) st0
               [num 0; num 0; num 2] s'.
Proof. exact (useSignal_refines_useState (LL := demo_lib_laws) (num 0) _ st0). Defined.

Lemma validated_set_branches_witness :
  subs_of st0 0 = [] /\ subs_of st0 1 = [] /\
  returns (validated_set (L := demo_lib) 0 1 truthy None (num 1)) st0 tt
    (Signal.set_quiet 1 (JBool true) (Signal.set_quiet 0 (num 1) st0)).
Proof.
  split; [reflexivity|split; [reflexivity|]].
  exact (proj1 (validated_set_branches (LL := demo_lib_laws) 0 1 truthy None (num 1) st0
                  eq_refl eq_refl) eq_refl).
Defined.

(** The abort guard of [useAsyncSignal] reads the controller in the
    ref when a call settles, which is the one the latest [refetch]
    made: after two [refetch]es, the first call's controller is aborted,
    yet its late answer ["old"] overwrites the answer ["new"] of the
    second call. *)
Example async_stale_applied :
  exists s', run_script 200 (sc_async_stale 5 8) st0 = Some s' /\
    cur s' 3 = JBool true /\ get_field (cur s' 2) "data" = JStr "old" /\
    trace s' = [OInvoke 5 JUndef; OInvoke 5 JUndef].
Proof. run_script_tac. Qed.

(** [refetch] of [useFetch] builds a new [Fetch] (two more calls) and
    its answer lands there: the state the hook renders stays the
    original [{ loading: true }]. *)
Example fetch_refetch_not_rendered :
  exists s', run_script 200 (sc_fetch_refetch 9) st0 = Some s' /\
    cur s' 1 = JObj 2 [("loading"%string, JBool true)] /\
    get_field (cur s' 5) "data" = JStr "a" /\ length (trace s') = 3.
Proof. run_script_tac. Qed.

(** The [retry] of the demo [useFetch] copies what its subscriber
    receives into the hook's state, and demo subscribers receive
    [undefined]: once the retried fetch answers, the hook renders
    [undefined], not the data. *)
Example demo_retry_clears_state :
  exists s', run_script 200 (sc_demo_retry [3; 7; 9]) st0 = Some s' /\
    cur s' 1 = JUndef /\ get_field (cur s' 5) "data" = JStr "a".
Proof. run_script_tac. Qed.

(** [usePersistentSignal] round trip through [localStorage], for
    both libraries: a value set in one component is written as JSON
    under the key, and a component mounted later with the same key
    renders that value, not its own initial value. *)
Example persist_remount :
  (exists s', run_script 200 (sc_persist (L := core_lib)) st0 = Some s' /\
     storage s' !! "k" = Some "5" /\ trace s' = [OLog "render" (num 5)]) /\
  (exists s', run_script 200 (sc_persist (L := demo_lib)) st0 = Some s' /\
     storage s' !! "k" = Some "5" /\ trace s' = [OLog "render" (num 5)]).
Proof. split; run_script_tac. Qed.

(** [useDebouncedSignal]: two [setValue]s within the delay update the
    immediate signal at once; the debounced signal changes once, to the
    last value, when the delay has passed. *)
Example debounced_last_only :
  exists s', run_script 200 sc_debounced st0 = Some s' /\
    cur s' 1 = num 2 /\ cur s' 2 = num 2 /\ trace s' = [OCall 7 (num 2)].
Proof. run_script_tac. Qed.

End Hooks.

(** ** The hooks of [src/unnamed/part_008]

    The same code as lines 472-672 of [vue/hooks.ts], importing the demo
    library: the hooks above at [demo_lib].  Its [useFetch] is
    [Hooks.demo_useFetch]. *)

Module Part008.

(** [useSignal] (lines 10-18). *)
Definition useSignal := @Hooks.useSignal demo_lib.
(** [useComputed] (lines 22-24). *)
Definition useComputed := Hooks.useComputed.
(** [useEffect] (lines 27-35). *)
Definition useEffect := @Hooks.useEffect demo_lib.
(** [useMachine] (lines 38-52). *)
Definition useMachine := @Hooks.useMachine demo_lib.
(** [useDerived] (lines 84-86). *)
Definition useDerived := Hooks.useDerived.
(** [useValidatedSignal] (lines 89-119) and its [setValue] (lines 104-113). *)
Definition useValidatedSignal := @Hooks.useValidatedSignal demo_lib.
Definition validated_set := @Hooks.validated_set demo_lib.
(** [useDebouncedSignal] (lines 122-149) and its [setValue] (lines 137-143). *)
Definition useDebouncedSignal := @Hooks.useDebouncedSignal demo_lib.
Definition debounced_set := @Hooks.debounced_set demo_lib.
(** [usePersistentSignal] (lines 152-184). *)
Definition usePersistentSignal := @Hooks.usePersistentSignal demo_lib.

End Part008.
