(* ===== verification/MockReact.v ===== *)
(** * The hooks of the mock React: [src/src/vue/hooks.ts] lines 260-457

    The second module of the concatenated [vue/hooks.ts] ("React Hooks
    Integration") does not import React: it defines its own
    [React.useMemo], which calls its function on every call and ignores
    the dependency list, and a [useSyncExternalStore] that returns the
    snapshot.  Each hook builds a library instance through [useMemo],
    takes a snapshot of its value, and returns an object whose [value()]
    returns that snapshot while the other methods are the instance's.

    [snap_obj I] is such an object: [so_value] is its [value] method and
    [so_of] the instance [I] the other methods belong to. *)

From Stdlib Require Import ZArith String.
From stdpp Require Import base list gmap.
From S2P Require Import Prelude JsValue Engine Signal Effect StateAlg Time Fetch.

Local Open Scope resig_scope.

Module MockReact.

(** [React.useMemo(fn, ...args)] (lines 266-271): [fn()], every call. *)
Definition useMemo {A : Type} (fn : M A) : M A := fn.

(** [useSyncExternalStore(_subscribe, getSnapshot)] (lines 272-275). *)
Definition useSyncExternalStore {A : Type} (_subscribe : A) (getSnapshot : M jsval) : M jsval :=
  getSnapshot.

(** An object a hook returns: [value: () => value] over the render's
    snapshot, the other methods those of the instance. *)
Record snap_obj (I : Type) : Type := mk_snap {
  so_value : M jsval;
  so_of : I
}.
Arguments mk_snap {I} _ _.
Arguments so_value {I} _.
Arguments so_of {I} _.

(** [use(initialValue)] (lines 287-309). *)
Definition use (initialValue : jsval) : M (snap_obj nat) :=
  signalInstance <- useMemo (Signal.signal initialValue) ;;
  value <- useSyncExternalStore (Signal.subscribe signalInstance) (Signal.value signalInstance) ;;
  cret (mk_snap (cret value) signalInstance).

(** [set: (newValue) => signalInstance._set(newValue)] (line 307), and
    the same [set] of [effect$] (line 336) and [time$] (line 362). *)
Definition set (o : snap_obj nat) (newValue : jsval) : M unit := Signal._set (so_of o) newValue.

(** [useSignal = use] (line 312). *)
Definition useSignal : jsval -> M (snap_obj nat) := use.

(** [effect$(initialValue)] (lines 317-338). *)
Definition effect_ (initialValue : jsval) : M (snap_obj nat) :=
  effectInstance <- useMemo (Effect.effect initialValue) ;;
  value <- useSyncExternalStore (Signal.subscribe effectInstance) (Signal.value effectInstance) ;;
  cret (mk_snap (cret value) effectInstance).

(** [time$(initialValue)] (lines 343-364). *)
Definition time_ (initialValue : jsval) : M (snap_obj nat) :=
  timeInstance <- useMemo (Time.time initialValue) ;;
  value <- useSyncExternalStore (Signal.subscribe timeInstance) (Signal.value timeInstance) ;;
  cret (mk_snap (cret value) timeInstance).

(** [fetch$(fetcher)] (lines 369-387). *)
Definition fetch_ (fetcher : Fetch.async_fn) : M (snap_obj Fetch.fetch_obj) :=
  fetchInstance <- useMemo (Fetch.fetch fetcher []) ;;
  value <- useSyncExternalStore (Signal.subscribe (Fetch.f_base fetchInstance))
             (Signal.value (Fetch.f_base fetchInstance)) ;;
  cret (mk_snap (cret value) fetchInstance).

(** [computed(compute)] (lines 393-407). *)
Definition computed (compute : M jsval) : M (snap_obj nat) :=
  computedSignal <- useMemo (v <- compute ;; Signal.signal v) ;;
  value <- useSyncExternalStore (Signal.subscribe computedSignal) (Signal.value computedSignal) ;;
  cret (mk_snap (cret value) computedSignal).

(** [machine$(initialState, reducer)] (lines 412-427). *)
Definition machine_ (initialState : jsval) (reducer : jsval -> jsval -> jsval) :
    M (jsval * (jsval -> M unit)) :=
  machineInstance <- useMemo (Machine.machine initialState reducer) ;;
  state <- useSyncExternalStore (Machine.subscribe machineInstance) (Machine.state machineInstance) ;;
  cret (state, Machine.send machineInstance).

(** [state$(initialState, initialValue)] (lines 432-457); its
    [setState] is the instance's [_setState] (line 455). *)
Definition state_ (initialState initialValue : jsval) : M (snap_obj StateWrapper.state_obj) :=
  stateInstance <- useMemo (StateWrapper.state initialState initialValue) ;;
  value <- useSyncExternalStore (Signal.subscribe (StateWrapper.st_effect stateInstance))
             (Signal.value (StateWrapper.st_effect stateInstance)) ;;
  cret (mk_snap (cret value) stateInstance).

Definition setState (o : snap_obj StateWrapper.state_obj) (s : jsval) : M unit :=
  StateWrapper._setState (so_of o) s.

(** ** Renders of [use] *)

Lemma returns_use v0 s :
  returns (use v0) s (mk_snap (cret v0) (next s)) (alloc_cell v0 s).
Proof.
  eapply returns_bind; [apply Signal.returns_signal|].
  eapply returns_bind; [apply Signal.returns_value|]. rewrite Signal.cur_alloc_new. apply returns_ret.
Qed.

(** The mock [useMemo] runs its function at every render, so the
    state of [use] does not survive a render: a first render makes a
    signal holding [v0] and its [set(v)] writes [v] there, yet the first
    render's [value()] still returns the snapshot [v0], and the next
    render makes a second signal and renders [v0] again. *)
Theorem use_state_not_kept v0 v s :
  returns (h1 <- use v0 ;; set h1 v ;;; h2 <- use v0 ;;
           a <- so_value h1 ;; b <- so_value h2 ;; cret (a, b, so_of h1, so_of h2)) s
    (v0, v0, next s, S (next s))
    (alloc_cell v0 (Signal.set_quiet (next s) v (alloc_cell v0 s))).
Proof.
  eapply returns_bind; [apply returns_use|]. cbn [so_of so_value].
  eapply returns_bind; [apply Signal.returns_set_quiet; by rewrite Signal.subs_of_alloc_new|].
  eapply returns_bind; [apply returns_use|]. cbn [so_of so_value].
  rewrite Signal.next_set_quiet, next_alloc. apply returns_ret.
Qed.

End MockReact.
