(* ===== verification/Vue.v ===== *)
(** * The Vue adapter: [src/src/vue/hooks.ts] lines 1-259

    The adapter builds on Vue's reactivity: [ref], [computed],
    [watchEffect] and [onUnmounted].  Module [VueRt] models the part of
    Vue these calls use, on the engine's store:
    - a [ref] is a cell; its setter stores a value that is not
      [Object.is] to the old one and triggers the effects that read the
      ref;
    - an effect made by [watchEffect] runs at once; it is subscribed to
      the refs its synchronous part reads, and a write to one of them
      queues one re-run (Vue's [queueJob] drops a job already queued,
      and an effect does not trigger itself while it runs).  Vue flushes
      its queue after the current task; the engine runs the queued job
      as a timer of [0] ms, which Node delays by 1 ms, so a script's
      [Wait 1] flushes it.  The refs
      an effect reads are the [deps] argument: the code of each call
      site says which [.value]s its synchronous part reads;
    - [onCleanup] (the [onInvalidate] argument) keeps one cleanup, run
      before the next re-run;
    - [onUnmounted(f)] inside [setup] registers [f] on the component's
      instance (a cell whose subscribers run at unmount); called from an
      event handler there is no current instance and Vue registers
      nothing;
    - [computed(fn).value] is [fn()]: the functions this file passes
      only read refs, so Vue's cache returns the same value. *)

From Stdlib Require Import ZArith String.
From stdpp Require Import base list gmap strings.
From S2P Require Import Prelude JsValue Engine Json Signal Effect StateAlg Fetch Plugins Hooks.

Local Open Scope resig_scope.

Module VueRt.

(** [Object.is]: [===], except that [NaN] is itself. *)
Definition same_value (a b : jsval) : bool :=
  match a, b with
  | JNaN, JNaN => true
  | _, _ => js_same a b
  end.

(** [ref(v)]. *)
Definition ref (v : jsval) : M nat := alloc v.

(** [r.value]. *)
Definition get (r : nat) : M jsval := read r.

(** [r.value = v]: [hasChanged] then [trigger]. *)
Definition set (r : nat) (v : jsval) : M unit :=
  old <- read r ;;
  if same_value v old then cret tt
  else assign r v ;;; notify_with r (fun _ _ => JUndef).

(** An effect's bookkeeping: its queued flag, its running flag and the
    cell that holds its cleanup. *)
Record effect_obj : Type := mk_effect {
  ef_queued : nat;
  ef_active : nat;
  ef_cleanup : nat
}.

(** [onCleanup(fn)]: [fn] replaces the cleanup. *)
Definition onCleanup (e : effect_obj) (fn : M unit) : M unit :=
  old <- read (ef_cleanup e) ;;
  (match old with JNum h => unsubscribe_raw (ef_cleanup e) (Z.to_nat h) | _ => cret tt end) ;;;
  h <- subscribe_raw (ef_cleanup e) (fun _ => body fn) ;;
  assign (ef_cleanup e) (JNum (Z.of_nat h)).

(** Run the cleanup, if any, once. *)
Definition run_cleanup (e : effect_obj) : M unit :=
  h <- read (ef_cleanup e) ;;
  match h with
  | JNum n =>
      notify_with (ef_cleanup e) (fun _ _ => JUndef) ;;;
      unsubscribe_raw (ef_cleanup e) (Z.to_nat n) ;;; assign (ef_cleanup e) JUndef
  | _ => cret tt
  end.

(** One run of the effect: its cleanup, then its synchronous part with
    the running flag up. *)
Definition run (e : effect_obj) (fn : (M unit -> M unit) -> M unit) : M unit :=
  run_cleanup e ;;;
  assign (ef_active e) (JBool true) ;;;
  fn (onCleanup e) ;;;
  assign (ef_active e) (JBool false).

(** The scheduler: [queueJob], flushed after the current task. *)
Definition queue_job (e : effect_obj) (job : M unit) : M unit :=
  q <- read (ef_queued e) ;; a <- read (ef_active e) ;;
  if truthy q || truthy a then cret tt
  else assign (ef_queued e) (JBool true) ;;;
       _ <- set_timer 0 false (body (assign (ef_queued e) (JBool false) ;;; job)) ;;
       cret tt.

(** The effect's dependencies: each ref in [deps] queues [job] when
    it changes. *)
Fixpoint track (e : effect_obj) (job : M unit) (deps : list nat) : M unit :=
  match deps with
  | [] => cret tt
  | d :: ds => _ <- subscribe_raw d (fun _ => body (queue_job e job)) ;; track e job ds
  end.

(** [watchEffect(fn)] over the refs [deps] its synchronous part reads. *)
Definition watchEffect (deps : list nat) (fn : (M unit -> M unit) -> M unit) : M effect_obj :=
  q <- alloc (JBool false) ;; a <- alloc (JBool false) ;; cl <- alloc JUndef ;;
  let e := mk_effect q a cl in
  track e (run e fn) deps ;;;
  run e fn ;;;
  cret e.

(** [onUnmounted(f)]: on the instance [inst] during [setup], nothing
    without a current instance. *)
Definition onUnmounted (inst : option nat) (f : M unit) : M unit :=
  match inst with
  | Some c => _ <- subscribe_raw c (fun _ => body f) ;; cret tt
  | None => cret tt
  end.

(** Unmounting the component of instance [c]. *)
Definition unmount (c : nat) : M unit := notify_with c (fun _ _ => JUndef).

(** [computed(fn)] read through [.value]. *)
Definition computed (fn : M jsval) : M jsval := fn.

End VueRt.

Module VueHooks.
Import VueRt.

(** [useSignal(initialValue)] (lines 15-24). *)
Definition useSignal (initialValue : jsval) : M (M jsval * (jsval -> M unit)) :=
  state <- ref initialValue ;;
  cret (get state, set state).

(** [useComputed(compute)] (lines 27-30). *)
Definition useComputed (compute : M jsval) : M (M jsval) := cret (computed compute).

(** [useEffect(initialValue)] (lines 33-50): the effect reads
    [state.value], so a write to [state] is copied to the library
    effect when Vue flushes. *)
Definition useEffect (initialValue : jsval) : M (M jsval * (jsval -> M unit) * nat) :=
  state <- ref initialValue ;;
  effectInstance <- Effect.effect initialValue ;;
  _ <- watchEffect [state] (fun _ => v <- get state ;; Signal._set effectInstance v) ;;
  cret (get state, set state, effectInstance).

(** [useMachine(initialState, reducer)] (lines 53-71), in the [setup]
    of the component whose instance is [inst]. *)
Definition useMachine (inst : nat) (initialState : jsval) (reducer : jsval -> jsval -> jsval) :
    M (M jsval * (jsval -> M unit)) :=
  machineInstance <- Machine.machine initialState reducer ;;
  s0 <- Machine.state machineInstance ;;
  state <- ref s0 ;;
  unsubscribe <- Machine.subscribe machineInstance (fun newState => set state newState) ;;
  onUnmounted (Some inst) unsubscribe ;;;
  cret (get state, Machine.send machineInstance).

(** The listener [useFetch] subscribes to a fetch (lines 81-83,
    91-93, 100-102). *)
Definition fetch_listener (state : nat) (newState : jsval) : M unit := set state newState.

(** [refetch] of [useFetch] (lines 89-96): called from an event
    handler, where [onUnmounted] has no instance. *)
Definition fetch_refetch (state : nat) (fetcher : Fetch.async_fn) : M Fetch.fetch_obj :=
  newFetch <- Fetch.fetch fetcher [] ;;
  unsub <- Signal.subscribe (Fetch.f_base newFetch) (fetch_listener state) ;;
  onUnmounted None unsub ;;;
  cret newFetch.

(** [retry(n)] of [useFetch] (lines 98-105). *)
Definition fetch_retry (state : nat) (fetchInstance : Fetch.fetch_obj) (n : nat) : M Fetch.fetch_obj :=
  retryFetch <- Fetch.retry fetchInstance n ;;
  unsub <- Signal.subscribe (Fetch.f_base retryFetch) (fetch_listener state) ;;
  onUnmounted None unsub ;;;
  cret retryFetch.

(** [useFetch(fetcher)] (lines 74-108). *)
Definition useFetch (inst : nat) (fetcher : Fetch.async_fn) :
    M (M jsval * M Fetch.fetch_obj * (nat -> M Fetch.fetch_obj)) :=
  fetchInstance <- Fetch.fetch fetcher [] ;;
  v <- Signal.value (Fetch.f_base fetchInstance) ;;
  state <- ref v ;;
  unsubscribe <- Signal.subscribe (Fetch.f_base fetchInstance) (fetch_listener state) ;;
  onUnmounted (Some inst) unsubscribe ;;;
  cret (get state, fetch_refetch state fetcher, fetch_retry state fetchInstance).

(** [{ ...state(), loading, error }] written through [setState]: the
    object is made, the old fields copied, then [loading] and [error]
    written. *)
Definition spread_state (state : M jsval) (setState : jsval -> M unit) (loading : bool)
    (error : M jsval) : M unit :=
  i <- new_id ;; cur <- state ;; e <- error ;;
  setState (JObj i (set_field (set_field (spread cur) "loading" (JBool loading)) "error" e)).

(** The body of [refetch] of [useAsyncSignal] (lines 124-134) and of
    the effect of [useAsyncComputed] (lines 157-168), over the getter
    and setter of the state: [loading], the call, then the data or the
    error. *)
Definition load (state : M jsval) (setState : jsval -> M unit) (asyncFn : Fetch.async_fn) : M unit :=
  spread_state state setState true (cret JUndef) ;;;
  asyncFn (fun data => x <- Hooks.async_state data false ;; setState x)
          (fun error => spread_state state setState false (Fetch.to_error error)).

(** [useAsyncSignal(asyncFn, initialValue)] (lines 111-142). *)
Definition useAsyncSignal (asyncFn : Fetch.async_fn) (initialValue : jsval) :
    M (M jsval * M unit * (jsval -> M unit)) :=
  x <- Hooks.async_state initialValue false ;;
  state <- ref x ;;
  cret (get state, load (get state) (set state) asyncFn,
        fun value => y <- Hooks.async_state value false ;; set state y).

(** [useAsyncComputed(asyncCompute, deps)] (lines 145-173): the effect
    reads the refs [depRefs] through [deps()] and [state.value] through
    the spread, before its [await]. *)
Definition useAsyncComputed (asyncCompute : Fetch.async_fn) (depRefs : list nat)
    (deps : M (list jsval)) : M (M jsval) :=
  x <- Hooks.async_state JUndef false ;;
  state <- ref x ;;
  _ <- watchEffect (depRefs ++ [state]) (fun _ => _ <- deps ;; load (get state) (set state) asyncCompute) ;;
  cret (get state).

(** [usePersistentSignal(key, initialValue)] (lines 176-208). *)
Definition usePersistentSignal (key : string) (initialValue : jsval) : M (M jsval * (jsval -> M unit)) :=
  storedValue <- Hooks.load_stored key initialValue ;;
  state <- ref storedValue ;;
  _ <- watchEffect [state] (fun _ => v <- get state ;; storage_set_m key (Plugins.stored_text v)) ;;
  cret (get state, set state).

(** [useDebouncedSignal(initialValue, delay)] (lines 211-233): the
    effect reads no [.value] before it returns ([immediate.value] is
    read inside the timer), so it has no dependency. *)
Definition useDebouncedSignal (initialValue : jsval) (delay : Z) :
    M (M jsval * (jsval -> M unit) * M jsval) :=
  immediate <- ref initialValue ;;
  debounced <- ref initialValue ;;
  _ <- watchEffect [] (fun onInvalidate =>
         timer <- set_timer delay false (body (v <- get immediate ;; set debounced v)) ;;
         onInvalidate (clear_timer_m timer)) ;;
  cret (get immediate, set immediate, get debounced).

(** [useValidatedSignal(initialValue, validator)] (lines 236-250). *)
Definition useValidatedSignal (initialValue : jsval) (validator : jsval -> bool) :
    M (M jsval * (jsval -> M unit) * M jsval) :=
  state <- ref initialValue ;;
  cret (get state, set state, computed (v <- get state ;; cret (JBool (validator v)))).

End VueHooks.

(** ** Scenarios (a client's asynchronous function [5]) *)

Module VueScenarios.
Import VueHooks.

Definition st0 : store := init_store 1000.

(** [useDebouncedSignal(0, 100)]: [setImmediate(1)] at once, and
    [setImmediate(2)] 200 ms later; then 500 ms pass. *)
Definition sc_debounced : list script_step :=
  [Run (body (r <- useDebouncedSignal (num 0) 100 ;;
              r.1.2 (num 1) ;;;
              _ <- set_timer 200 false (body (r.1.2 (num 2))) ;; cret tt));
   Wait 500].

(** [useAsyncComputed(f)] with no dependency; each call resolves and
    Vue flushes its queue ([Wait 1]). *)
Definition sc_async_computed (ps : list nat) : list script_step :=
  Run (body (_ <- useAsyncComputed (Fetch.call_async 5) [] (cret []) ;; cret tt))
  :: List.concat (List.map (fun p => [Resolve p (JStr "a"); Wait 1]) ps).

(** [useFetch(f)] in a component, then its [refetch()]; the refetched
    call [p2] answers first, the original [p1] last. *)
Definition sc_fetch_refetch (p1 p2 : nat) : list script_step :=
  [Run (body (inst <- alloc JUndef ;; r <- useFetch inst (Fetch.call_async 5) ;; _ <- r.1.2 ;; cret tt));
   Resolve p2 (JStr "new"); Resolve p1 (JStr "old")].

(** [useEffect(0)] and its setter called with [7]; Vue flushes. *)
Definition sc_effect : list script_step :=
  [Run (body (r <- useEffect (num 0) ;; r.1.2 (num 7))); Wait 1].


(** The effect of the Vue [useDebouncedSignal] reads no ref before it
    returns, so Vue never runs it again: the debounced value follows the
    first [setImmediate] once the delay has passed, and no later one. *)
Example vue_debounced_once :
  exists s', run_script 200 sc_debounced st0 = Some s' /\
    cur s' 0 = num 2 /\ cur s' 1 = num 1 /\ timers s' = [].
Proof. run_script_tac. Qed.

(** The effect of the Vue [useAsyncComputed] reads [state.value]
    (through the spread) before its [await], and each answer writes
    [state] after it: every answer queues the effect again, which calls
    [asyncCompute] again.  After three answers a fourth call is pending
    and the state is [loading] again. *)
Example vue_async_computed_refetches :
  exists s', run_script 200 (sc_async_computed [8; 14; 20]) st0 = Some s' /\
    map pd_id (pendings s') = [26] /\ length (trace s') = 4 /\
    get_field (cur s' 1) "loading" = JBool true.
Proof. run_script_tac. Qed.

(** The Vue [useFetch] keeps its subscription to the first fetch
    when [refetch] subscribes to the new one: the first call's late
    answer ["old"] overwrites the refetched answer ["new"] in [state]. *)
Example vue_fetch_refetch_overwritten :
  exists s', run_script 200 (sc_fetch_refetch 4 11) st0 = Some s' /\
    get_field (cur s' 9) "data" = JStr "new" /\ get_field (cur s' 5) "data" = JStr "old".
Proof. run_script_tac. Qed.

(** The Vue [useEffect] copies its ref into the library effect: after
    [setValue(7)] and Vue's flush the effect holds [7]. *)
Example vue_effect_synced :
  exists s', run_script 200 sc_effect st0 = Some s' /\ cur s' 0 = num 7 /\ cur s' 1 = num 7.
Proof. run_script_tac. Qed.

End VueScenarios.
