(* ===== verification/Adapters.v ===== *)
(** * The universal adapter and its React implementation

    [src/src/adapters/universal.ts] lines 1-229 define
    [FrameworkAdapter<T>], the five operations through which the
    [usePlugin*] hooks reach a framework's reactivity, and the seven
    hooks, which build a state through the adapter, run the plugins of
    [plugins/index.ts] on a library signal and adapt the result back.
    [src/src/react/adapter.ts] implements the interface with React
    hooks ([reactAdapter], lines 12-67) and wraps the seven hooks
    (lines 81-165).

    - Module [ReactRt] is the part of React these files use: a
      component keeps a list of hook slots, and each hook call of a
      render takes the next slot ([useRef], [useSyncExternalStore] and
      [useCallback] each take one).  The list and the render's cursor
      are two cells; a slot holds a [useRef]'s [current].  A ref holding
      a signal object holds [JSig c].  [useCallback(fn, deps)] returns
      [fn]: the memoised function and the new one read the same refs, so
      they behave alike.
    - A signal object as the adapter sees it is [sig_obj]: its cell and
      its [_set], which [toSignal] overrides.  A plugin returns its input
      object or a new signal ([map], [debounce], ...), so [enhance]
      keeps the input object when the plugins return its cell.
    - [FrameworkAdapter] is a [Record] of the five operations; the hooks
      are written against it and [reactAdapter cp] is React's, for the
      component [cp]. *)

From Stdlib Require Import ZArith String.
From stdpp Require Import base list gmap strings.
From S2P Require Import Prelude JsValue Engine Json Signal Effect StateAlg Fetch Plugins Hooks Vue.

Local Open Scope resig_scope.

Module ReactRt.

(** A mounted component: the cell of its hook list and the cell of the
    render's cursor. *)
Record comp : Type := mk_comp {
  c_hooks : nat;
  c_cursor : nat
}.

Definition slots (v : jsval) : list jsval :=
  match v with JArr _ xs => xs | _ => [] end.

Definition cursor_of (v : jsval) : nat :=
  match v with JNum z => Z.to_nat z | _ => 0 end.

(** Mounting: an empty hook list. *)
Definition mount : M comp :=
  h <- alloc (JArr 0 []) ;; c <- alloc (JNum 0) ;; cret (mk_comp h c).

(** A render of [cp]: the cursor back to the first slot, then the
    component's body. *)
Definition render {A : Type} (cp : comp) (component : M A) : M A :=
  assign (c_cursor cp) (JNum 0) ;;; component.

(** The next hook slot of the render: made with [init] on the first
    render. *)
Definition next_hook (cp : comp) (init : jsval) : M nat :=
  i <- read (c_cursor cp) ;;
  let k := cursor_of i in
  assign (c_cursor cp) (JNum (Z.of_nat (S k))) ;;;
  hs <- read (c_hooks cp) ;;
  (if k <? length (slots hs) then cret tt else assign (c_hooks cp) (JArr 0 (slots hs ++ [init]))) ;;;
  cret k.

(** [ref.current] and [ref.current = v]. *)
Definition current (cp : comp) (ref : nat) : M jsval :=
  hs <- read (c_hooks cp) ;; cret (nth ref (slots hs) JUndef).

Definition set_current (cp : comp) (ref : nat) (v : jsval) : M unit :=
  hs <- read (c_hooks cp) ;; assign (c_hooks cp) (JArr 0 (<[ref := v]> (slots hs))).

(** [useRef(init)]. *)
Definition useRef (cp : comp) (init : jsval) : M nat := next_hook cp init.

(** [useSyncExternalStore(subscribe, getSnapshot)]. *)
Definition useSyncExternalStore {A : Type} (cp : comp) (subscribe : A) (getSnapshot : M jsval) : M jsval :=
  _ <- next_hook cp JUndef ;; getSnapshot.

(** [useCallback(fn, deps)]. *)
Definition useCallback {A : Type} (cp : comp) (fn : A) : M A :=
  _ <- next_hook cp JUndef ;; cret fn.

End ReactRt.

Module Universal.

(** A library signal as the adapter holds it. *)
Record sig_obj : Type := mk_sig {
  so_cell : nat;
  so_set : jsval -> M unit
}.

Definition plain (c : nat) : sig_obj := mk_sig c (Signal._set c).

(** [FrameworkAdapter<T>] (lines 10-25).  [createEffect] takes an
    effect that may return its cleanup. *)
Record FrameworkAdapter : Type := mk_adapter {
  createSignal : jsval -> M (M jsval * (jsval -> M unit));
  createComputed : M jsval -> M (M jsval);
  createEffect : M (option (M unit)) -> M unit;
  adaptSignal : sig_obj -> M (M jsval * (jsval -> M unit));
  toSignal : M jsval -> (jsval -> M unit) -> M sig_obj
}.

(** [compose(...plugins)(sig)]: the input object when the plugins
    return it. *)
Definition enhance (plugins : list Plugins.plugin) (sig : sig_obj) : M sig_obj :=
  c <- Plugins.compose plugins (so_cell sig) ;;
  cret (if decide (c = so_cell sig) then sig else plain c).


Section Hooks.
Variable adapter : FrameworkAdapter.

(** [compose(...plugins)(coreSignal)] when there are plugins, then
    [adapter.adaptSignal] of the result. *)
Definition adapt_enhanced (plugins : list Plugins.plugin) (core : sig_obj) :
    M (M jsval * (jsval -> M unit)) :=
  enhanced <- enhance plugins core ;; adaptSignal adapter enhanced.

(** [usePluginSignal(adapter, initialValue, ...plugins)] (lines 28-43). *)
Definition usePluginSignal (initialValue : jsval) (plugins : list Plugins.plugin) :
    M (M jsval * (jsval -> M unit)) :=
  coreSignal <- Signal.signal initialValue ;;
  enhancedSignal <- (match plugins with
                     | [] => cret (plain coreSignal)
                     | _ => enhance plugins (plain coreSignal)
                     end) ;;
  adaptSignal adapter enhancedSignal.

(** [usePluginComputed(adapter, compute, ...plugins)] (lines 46-62). *)
Definition usePluginComputed (compute : M jsval) (plugins : list Plugins.plugin) : M (M jsval) :=
  computedValue <- createComputed adapter compute ;;
  match plugins with
  | [] => cret computedValue
  | _ => v <- computedValue ;; coreSignal <- Signal.signal v ;;
         r <- adapt_enhanced plugins (plain coreSignal) ;; cret r.1
  end.

(** [refetch] of [usePluginAsyncSignal] (lines 77-89): the code of the
    Vue adapter's [refetch], over the adapter's getter and setter. *)
Definition refetch (state : M jsval) (setState : jsval -> M unit) (asyncFn : Fetch.async_fn) : M unit :=
  VueHooks.load state setState asyncFn.

(** [usePluginAsyncSignal(adapter, asyncFn, initialValue, ...plugins)]
    (lines 65-104). *)
Definition usePluginAsyncSignal (asyncFn : Fetch.async_fn) (initialValue : jsval)
    (plugins : list Plugins.plugin) : M (M jsval * M unit * (jsval -> M unit)) :=
  x <- Hooks.async_state initialValue false ;;
  r <- createSignal adapter x ;;
  let state := r.1 in let setState := r.2 in
  let refetch := refetch state setState asyncFn in
  let setValue := fun value => y <- Hooks.async_state value false ;; setState y in
  match plugins with
  | [] => cret (state, refetch, setValue)
  | _ => coreSignal <- toSignal adapter state setState ;;
         e <- adapt_enhanced plugins coreSignal ;;
         cret (e.1, refetch, setValue)
  end.

(** The effect of [usePluginPersistentSignal] (lines 127-133). *)
Definition persist_effect (value : M jsval) (key : string) : M (option (M unit)) :=
  v <- value ;; storage_set_m key (Plugins.stored_text v) ;;; cret None.

(** [usePluginPersistentSignal(adapter, key, initialValue, ...plugins)]
    (lines 107-143). *)
Definition usePluginPersistentSignal (key : string) (initialValue : jsval)
    (plugins : list Plugins.plugin) : M (M jsval * (jsval -> M unit)) :=
  storedValue <- Hooks.load_stored key initialValue ;;
  r <- createSignal adapter storedValue ;;
  createEffect adapter (persist_effect r.1 key) ;;;
  match plugins with
  | [] => cret r
  | _ => coreSignal <- toSignal adapter r.1 r.2 ;; adapt_enhanced plugins coreSignal
  end.

(** The effect of [usePluginDebouncedSignal] (lines 155-161): a timer
    that copies [immediate()] into [debounced], and its cleanup. *)
Definition debounce_effect (immediate : M jsval) (setDebounced : jsval -> M unit) (delay : Z) :
    M (option (M unit)) :=
  timer <- set_timer delay false (body (v <- immediate ;; setDebounced v)) ;;
  cret (Some (clear_timer_m timer)).

(** [usePluginDebouncedSignal(adapter, initialValue, delay, ...plugins)]
    (lines 146-172). *)
Definition usePluginDebouncedSignal (initialValue : jsval) (delay : Z) (plugins : list Plugins.plugin) :
    M (M jsval * (jsval -> M unit) * M jsval) :=
  ri <- createSignal adapter initialValue ;;
  rd <- createSignal adapter initialValue ;;
  createEffect adapter (debounce_effect ri.1 rd.2 delay) ;;;
  match plugins with
  | [] => cret (ri.1, ri.2, rd.1)
  | _ => coreSignal <- toSignal adapter ri.1 ri.2 ;;
         e <- adapt_enhanced plugins coreSignal ;; cret (e.1, e.2, rd.1)
  end.

(** [usePluginValidatedSignal(adapter, initialValue, validator, ...plugins)]
    (lines 175-193). *)
Definition usePluginValidatedSignal (initialValue : jsval) (validator : jsval -> bool)
    (plugins : list Plugins.plugin) : M (M jsval * (jsval -> M unit) * M jsval) :=
  r <- createSignal adapter initialValue ;;
  isValid <- createComputed adapter (v <- r.1 ;; cret (JBool (validator v))) ;;
  match plugins with
  | [] => cret (r.1, r.2, isValid)
  | _ => coreSignal <- toSignal adapter r.1 r.2 ;;
         e <- adapt_enhanced plugins coreSignal ;; cret (e.1, e.2, isValid)
  end.

(** [send] of [usePluginMachine] (lines 204-207). *)
Definition machine_send (state : M jsval) (setState : jsval -> M unit)
    (reducer : jsval -> jsval -> jsval) (action : jsval) : M unit :=
  s <- state ;; setState (reducer s action).

(** [usePluginMachine(adapter, initialState, reducer, ...plugins)]
    (lines 196-218). *)
Definition usePluginMachine (initialState : jsval) (reducer : jsval -> jsval -> jsval)
    (plugins : list Plugins.plugin) : M (M jsval * (jsval -> M unit)) :=
  r <- createSignal adapter initialState ;;
  let send := machine_send r.1 r.2 reducer in
  match plugins with
  | [] => cret (r.1, send)
  | _ => coreSignal <- toSignal adapter r.1 r.2 ;;
         e <- adapt_enhanced plugins coreSignal ;; cret (e.1, send)
  end.

End Hooks.

End Universal.

Module ReactAdapter.
Import ReactRt Universal.

(** [createSignal] of [reactAdapter] (lines 13-29). *)
Definition createSignal (cp : comp) (initialValue : jsval) : M (M jsval * (jsval -> M unit)) :=
  sigRef <- useRef cp JUndef ;;
  cur <- current cp sigRef ;;
  c <- (match cur with
        | JSig c => cret c
        | _ => c <- Signal.signal initialValue ;; set_current cp sigRef (JSig c) ;;; cret c
        end) ;;
  value <- useSyncExternalStore cp (Signal.subscribe c) (Signal.value c) ;;
  setValue <- useCallback cp (fun newValue =>
                r <- current cp sigRef ;;
                match r with
                | JSig c => Signal._set c newValue
                | _ => throw_error "TypeError: sigRef.current is undefined"
                end) ;;
  cret (cret value, setValue).

(** [createComputed] (lines 31-35). *)
Definition createComputed (compute : M jsval) : M (M jsval) := cret compute.

(** [createEffect] (lines 37-44): the effect runs during the render;
    its cleanup goes into a ref and is never called. *)
Definition createEffect (cp : comp) (effect : M (option (M unit))) : M unit :=
  _ <- effect ;; _ <- useRef cp JUndef ;; cret tt.

(** [adaptSignal] (lines 46-57). *)
Definition adaptSignal (cp : comp) (sig : sig_obj) : M (M jsval * (jsval -> M unit)) :=
  value <- useSyncExternalStore cp (Signal.subscribe (so_cell sig)) (Signal.value (so_cell sig)) ;;
  setValue <- useCallback cp (fun newValue => so_set sig newValue) ;;
  cret (cret value, setValue).

(** [toSignal] (lines 59-66): a new signal holding [getValue()] whose
    [_set] is replaced by [setValue]. *)
Definition toSignal (getValue : M jsval) (setValue : jsval -> M unit) : M sig_obj :=
  v <- getValue ;; c <- Signal.signal v ;; cret (mk_sig c setValue).

(** [reactAdapter] (lines 12-67), in a render of [cp]. *)
Definition reactAdapter (cp : comp) : FrameworkAdapter :=
  mk_adapter (createSignal cp) createComputed (createEffect cp) (adaptSignal cp) toSignal.

(** The hooks of lines 81-165: the universal hooks over [reactAdapter],
    their getters called during the render. *)
Definition useSignal (cp : comp) (initialValue : jsval) (plugins : list Plugins.plugin) :
    M (jsval * (jsval -> M unit)) :=
  r <- usePluginSignal (reactAdapter cp) initialValue plugins ;; v <- r.1 ;; cret (v, r.2).

Definition useComputed (cp : comp) (compute : M jsval) (plugins : list Plugins.plugin) : M jsval :=
  getValue <- usePluginComputed (reactAdapter cp) compute plugins ;; getValue.

Definition useAsyncSignal (cp : comp) (asyncFn : Fetch.async_fn) (initialValue : jsval)
    (plugins : list Plugins.plugin) : M (jsval * M unit * (jsval -> M unit)) :=
  r <- usePluginAsyncSignal (reactAdapter cp) asyncFn initialValue plugins ;;
  v <- r.1.1 ;; cret (v, r.1.2, r.2).

Definition usePersistentSignal (cp : comp) (key : string) (initialValue : jsval)
    (plugins : list Plugins.plugin) : M (jsval * (jsval -> M unit)) :=
  r <- usePluginPersistentSignal (reactAdapter cp) key initialValue plugins ;; v <- r.1 ;; cret (v, r.2).

Definition useDebouncedSignal (cp : comp) (initialValue : jsval) (delay : Z)
    (plugins : list Plugins.plugin) : M (jsval * (jsval -> M unit) * jsval) :=
  r <- usePluginDebouncedSignal (reactAdapter cp) initialValue delay plugins ;;
  i <- r.1.1 ;; d <- r.2 ;; cret (i, r.1.2, d).

Definition useValidatedSignal (cp : comp) (initialValue : jsval) (validator : jsval -> bool)
    (plugins : list Plugins.plugin) : M (jsval * (jsval -> M unit) * jsval) :=
  r <- usePluginValidatedSignal (reactAdapter cp) initialValue validator plugins ;;
  v <- r.1.1 ;; ok <- r.2 ;; cret (v, r.1.2, ok).

Definition useMachine (cp : comp) (initialState : jsval) (reducer : jsval -> jsval -> jsval)
    (plugins : list Plugins.plugin) : M (jsval * (jsval -> M unit)) :=
  r <- usePluginMachine (reactAdapter cp) initialState reducer plugins ;; v <- r.1 ;; cret (v, r.2).

End ReactAdapter.

Module AdapterScenarios.
Import ReactRt Universal ReactAdapter.

Definition st0 : store := init_store 1000.

(** [(state, action) => state + 1]. *)
Definition inc (st _ : jsval) : jsval := js_add st (num 1).

(** A component with [useMachine(0, inc, loggerPlugin('m'))]: a render,
    [send], and the render the change causes, which logs what it
    shows. *)
Definition sc_machine_logger : list script_step :=
  [Run (body (cp <- mount ;;
              r <- render cp (useMachine cp (num 0) inc [Plugins.loggerPlugin "m"]) ;;
              r.2 (JStr "inc") ;;;
              r2 <- render cp (useMachine cp (num 0) inc [Plugins.loggerPlugin "m"]) ;;
              emit (OLog "render" r2.1)))].

(** A component with [useSignal(0)]: a render, [setValue(5)], a
    render that logs what it shows. *)
Definition sc_signal : list script_step :=
  [Run (body (cp <- mount ;;
              r <- render cp (useSignal cp (num 0) []) ;;
              r.2 (num 5) ;;;
              r2 <- render cp (useSignal cp (num 0) []) ;;
              emit (OLog "render" r2.1)))].

(** A component with [useDebouncedSignal(0, 100)]: a render, after
    which a client [7] subscribes to the debounced signal (hook slot
    [3]); then [setImmediate(1)] and the render it causes, then
    [setImmediate(2)] and its render; then 100 ms. *)
Definition sc_debounced : list script_step :=
  [Run (body (cp <- mount ;;
              r <- render cp (useDebouncedSignal cp (num 0) 100 []) ;;
              d <- current cp 3 ;;
              (match d with JSig c => _ <- Signal.subscribe c (callback 7) ;; cret tt | _ => cret tt end) ;;;
              r.1.2 (num 1) ;;;
              r2 <- render cp (useDebouncedSignal cp (num 0) 100 []) ;;
              r2.1.2 (num 2) ;;;
              _ <- render cp (useDebouncedSignal cp (num 0) 100 []) ;;
              cret tt));
   Wait 100].

(** The [useSignal] of [react/adapter.ts] goes through
    [usePluginSignal], which makes a new library signal at every render
    and keeps no ref to it: after [setValue(5)] the next render shows
    the initial [0] again.  The component's hook list holds only the
    slots of [useSyncExternalStore] and [useCallback]. *)
Example react_useSignal_state_lost :
  exists s', run_script 200 sc_signal st0 = Some s' /\
    trace s' = [OLog "render" (num 0)] /\ cur s' 0 = JArr 0 [JUndef; JUndef].
Proof. run_script_tac. Qed.

(** With a plugin, [usePluginMachine] adapts the signal [toSignal]
    makes, whose [_set] is replaced by the React setter: the plugin's
    signal is never written, so [loggerPlugin] never logs, although the
    state the next render shows has changed. *)
Example react_machine_plugin_unseen :
  exists s', run_script 200 sc_machine_logger st0 = Some s' /\
    trace s' = [OLog "render" (num 1)].
Proof. run_script_tac. Qed.

(** [createEffect] of [reactAdapter] runs the effect at every render
    and never its cleanup, so [usePluginDebouncedSignal] starts one
    timer per render and none is cleared: after three renders three
    timers are pending, and the debounced signal then passes through
    both [1] and [2]. *)
Example react_debounced_every_render :
  (exists s', run_script 200 (removelast sc_debounced) st0 = Some s' /\ length (timers s') = 3) /\
  (exists s', run_script 200 sc_debounced st0 = Some s' /\
     trace s' = [OCall 7 (num 1); OCall 7 (num 2)] /\ timers s' = []).
Proof. split; run_script_tac. Qed.

End AdapterScenarios.
