(* ===== verification/TimeTests.v ===== *)
(** * The tests of the time layer: [src/unnamed/part_010]

    [part_010] is the ava test file of [algebras/time.ts].  Each test is
    a program here: [t.is], [t.true] and [t.pass] are events of the
    trace that record whether the assertion held, [await new
    Promise(resolve => setTimeout(resolve, ms))] runs the rest of the
    test as a timer callback ([sleep]), and a counter a callback
    increments ([let updateCount = 0]) is a cell.  A test runs in a
    fresh store, then a second passes ([run_test]).  [test_ok] holds
    when the run finishes, the test made the number of assertions its
    code makes, and every one held. *)

From Stdlib Require Import ZArith String.
From stdpp Require Import base list gmap strings.
From S2P Require Import Prelude JsValue Engine Signal Effect Time.

Local Open Scope resig_scope.

Module TimeTests.
Import Signal Effect Time.

(** [Object.is], the comparison of [t.is]. *)
Definition object_is (a b : jsval) : bool :=
  match a, b with
  | JNaN, JNaN => true
  | _, _ => js_same a b
  end.

Definition t_is (actual expected : jsval) : M unit := emit (OLog "t.is" (JBool (object_is actual expected))).
Definition t_true (b : bool) : M unit := emit (OLog "t.true" (JBool b)).
Definition t_pass : M unit := emit (OLog "t.pass" (JBool true)).

(** [await new Promise(resolve => setTimeout(resolve, ms))], then
    [rest]. *)
Definition sleep (ms : Z) (rest : M unit) : M unit :=
  _ <- set_timer ms false (body rest) ;; cret tt.

(** [updateCount++]. *)
Definition incr (c : nat) : M unit := n <- read c ;; assign c (js_add n (num 1)).

(** [result instanceof Error]. *)
Definition is_error (v : jsval) : bool := match v with JErr _ _ => true | _ => false end.

(** [s.includes(p)]. *)
Definition includes (s p : string) : bool :=
  match String.index 0 p s with Some _ => true | None => false end.

(** [typeof o.m] for a method [m] the object literal defines. *)
Definition typeof_method : jsval := JStr "function".

(** Lines 4-7. *)
Definition test_time_initial : M unit :=
  t1 <- time (num 42) ;; v <- value t1 ;; t_is v (num 42).

(** Lines 9-17. *)
Definition test_time_effect : M unit :=
  t1 <- time (num 5) ;;
  doubled <- map t1 (lift (js_scale 2)) ;;
  v <- value doubled ;; t_is v (num 10) ;;;
  bound <- bind t1 (fun x => time (js_add x (num 1))) ;;
  w <- value bound ;; t_is w (num 6).

(** Lines 19-34. *)
Definition test_delay : M unit :=
  t1 <- time (num 42) ;;
  delayed <- delay_m t1 50 ;;
  v <- value delayed ;; t_is v (num 42) ;;;
  _set t1 (num 100) ;;;
  sleep 60 (w <- value delayed ;; t_is w (num 100)).

(** Lines 36-50: [(result as Error).message] of a non-error is
    [undefined], whose [includes] throws. *)
Definition test_timeout : M unit :=
  t1 <- time (num 42) ;;
  timedOut <- timeout_m t1 50 ;;
  v <- value timedOut ;; t_is v (num 42) ;;;
  sleep 60 (result <- value timedOut ;;
            t_true (is_error result) ;;;
            match result with
            | JErr _ msg => t_true (includes msg "Timeout")
            | _ => throw_error "TypeError: Cannot read properties of undefined (reading 'includes')"
            end).

(** Lines 52-64. *)
Definition test_timeout_completes : M unit :=
  t1 <- time (num 42) ;;
  timedOut <- timeout_m t1 100 ;;
  _ <- set_timer 30 false (body (_set t1 (num 100))) ;;
  sleep 50 (v <- value timedOut ;; t_is v (num 100)).

(** Lines 66-86. *)
Definition test_interval_method : M unit :=
  t1 <- time (num 0) ;;
  intervalTime <- interval_m t1 50 ;;
  called <- alloc (JBool false) ;;
  unsubscribe <- iv_subscribe intervalTime (fun _ => assign called (JBool true)) ;;
  sleep 10 (unsubscribe ;;;
            t_is typeof_method (JStr "function") ;;;
            t_is typeof_method (JStr "function") ;;;
            t_pass).

(** Lines 88-97. *)
Definition test_delay_util : M unit :=
  delayed <- delay 50 (num 42) ;;
  v <- value delayed ;; t_is v (num 42) ;;;
  sleep 60 (w <- value delayed ;; t_is w (num 42)).

(** Lines 99-108. *)
Definition test_timeout_util : M unit :=
  t1 <- time (num 42) ;;
  timedOut <- timeout 50 t1 ;;
  sleep 60 (result <- value timedOut ;; t_true (is_error result)).

(** Lines 110-128. *)
Definition test_interval_util : M unit :=
  intervalTime <- interval 50 (num 42) ;;
  t_is typeof_method (JStr "function") ;;;
  t_is typeof_method (JStr "function") ;;;
  v <- value (iv_time intervalTime) ;; t_is v (num 42) ;;;
  called <- alloc (JBool false) ;;
  unsubscribe <- iv_subscribe intervalTime (fun _ => assign called (JBool true)) ;;
  sleep 10 (unsubscribe ;;; t_pass).

(** Lines 130-151. *)
Definition test_debounce : M unit :=
  source <- time (num 0) ;;
  debounced <- debounce 50 source ;;
  updateCount <- alloc (num 0) ;;
  _ <- subscribe debounced (fun _ => incr updateCount) ;;
  _set source (num 1) ;;; _set source (num 2) ;;; _set source (num 3) ;;;
  c <- read updateCount ;; t_is c (num 0) ;;;
  sleep 60 (c' <- read updateCount ;; t_is c' (num 1) ;;;
            v <- value debounced ;; t_is v (num 3)).

(** Lines 153-169. *)
Definition test_throttle : M unit :=
  source <- time (num 0) ;;
  throttled <- throttle 50 source ;;
  updateCount <- alloc (num 0) ;;
  _ <- subscribe throttled (fun _ => incr updateCount) ;;
  _set source (num 1) ;;;
  sleep 10 (_set source (num 2) ;;;
            sleep 10 (_set source (num 3) ;;;
                      c <- read updateCount ;; t_true (int_of c <=? 2)%Z)).

(** Lines 171-188. *)
Definition test_delay_multi : M unit :=
  t1 <- time (num 42) ;;
  delayed <- delay_m t1 50 ;;
  count1 <- alloc (num 0) ;; count2 <- alloc (num 0) ;;
  _ <- subscribe delayed (fun _ => incr count1) ;;
  _ <- subscribe delayed (fun _ => incr count2) ;;
  _set t1 (num 100) ;;;
  sleep 60 (c1 <- read count1 ;; t_is c1 (num 1) ;;; c2 <- read count2 ;; t_is c2 (num 1)).

(** Lines 190-209. *)
Definition test_interval_cleanup : M unit :=
  t1 <- time (num 0) ;;
  intervalTime <- interval_m t1 20 ;;
  updateCount <- alloc (num 0) ;;
  unsubscribe <- iv_subscribe intervalTime (fun _ => incr updateCount) ;;
  sleep 50 (countAfterSomeTime <- read updateCount ;;
            unsubscribe ;;;
            sleep 50 (c <- read updateCount ;; t_is c countAfterSomeTime)).

(** The tests with the number of assertions each makes. *)
Definition tests : list (string * M unit * nat) :=
  [("time creates time effect with initial value", test_time_initial, 1);
   ("time inherits effect functionality", test_time_effect, 2);
   ("time delay creates delayed effect", test_delay, 2);
   ("time timeout creates timeout effect", test_timeout, 3);
   ("time timeout completes before timeout", test_timeout_completes, 1);
   ("time interval creates repeating effect", test_interval_method, 3);
   ("delay utility function", test_delay_util, 2);
   ("timeout utility function", test_timeout_util, 1);
   ("interval utility function", test_interval_util, 4);
   ("debounce delays rapid changes", test_debounce, 3);
   ("throttle limits update frequency", test_throttle, 1);
   ("time delay with multiple subscribers", test_delay_multi, 2);
   ("time interval cleanup on unsubscribe", test_interval_cleanup, 1)].

(** A test in a fresh store, then a second. *)
Definition run_test (t : M unit) : option store :=
  run_script 200 [Run (body t); Wait 1000] (init_store 1000).

Definition assertions (s : store) : list bool :=
  omap (fun o => match o with OLog _ (JBool b) => Some b | _ => None end) (trace s).

Definition test_ok (t : M unit) (n : nat) : bool :=
  match run_test t with
  | Some s => (length (assertions s) =? n) && forallb (fun b : bool => b) (assertions s)
  | None => false
  end.

End TimeTests.
