(* ===== verification/CoreTests.v ===== *)
(** * The tests of the core: [src/src/core/effect.spec.ts] and
    [src/src/basic.spec.ts]

    [effect.spec.ts] concatenates the ava tests of the effect monad
    (lines 1-176, against [effect.ts], modelled in [Effect]) and those of
    the signal (lines 177-348, against [signal.ts], modelled in
    [Signal]).  Each test is a program here, run with the conventions of
    [TimeTests]: an assertion is an event of the trace recording whether
    it held, a [let] counter a callback increments is a cell, and a test
    passes ([TimeTests.test_ok]) when it runs to completion, makes the
    number of assertions its code makes, and every one holds.

    [t.deepEqual] is compared element by element with [Object.is]: the
    arrays the tests compare hold numbers.  A JS function value held by
    an effect is [JFun n]; [call] gives the two functions of the tests
    ([x => x * 2] and [x => x + 10]) their meaning. *)

From Stdlib Require Import ZArith String Ascii.
From stdpp Require Import base list gmap strings.
From S2P Require Import Prelude JsValue Engine Json Signal Effect TimeTests.

Local Open Scope resig_scope.

Module EffectSpec.
Import Signal Effect TimeTests.

(** [t.deepEqual] on arrays of primitives. *)
Definition deep_equal (a b : jsval) : bool :=
  match a, b with
  | JArr _ xs, JArr _ ys =>
      (fix go (l1 l2 : list jsval) : bool :=
         match l1, l2 with
         | [], [] => true
         | x :: l1', y :: l2' => object_is x y && go l1' l2'
         | _, _ => false
         end) xs ys
  | _, _ => object_is a b
  end.

Definition t_deepEqual (actual expected : jsval) : M unit :=
  emit (OLog "t.deepEqual" (JBool (deep_equal actual expected))).

(** [x => effect(x * 2)], [x => effect(x + 1)]. *)
Definition double_effect : jsval -> M nat := fresh (js_scale 2).
Definition succ_effect : jsval -> M nat := fresh (fun x => js_add x (num 1)).

(** Calling the function values of the tests: [JFun 0] is
    [x => x * 2], [JFun 1] is [x => x + 10]. *)
Definition call (f x : jsval) : M jsval :=
  cret (match f with
        | JFun 0 => js_scale 2 x
        | JFun 1 => js_add x (num 10)
        | _ => JUndef
        end).

(** Lines 4-7. *)
Definition test_initial : M unit :=
  e <- effect (num 42) ;; v <- value e ;; t_is v (num 42).

(** Lines 9-17. *)
Definition test_left_identity : M unit :=
  m <- pureEffect (num 42) ;; leftSide <- bind m double_effect ;;
  rightSide <- double_effect (num 42) ;;
  a <- value leftSide ;; b <- value rightSide ;; t_is a b.

(** Lines 19-24. *)
Definition test_right_identity : M unit :=
  e <- effect (num 42) ;; bound <- bind e pureEffect ;;
  a <- value bound ;; b <- value e ;; t_is a b.

(** Lines 26-38. *)
Definition test_assoc : M unit :=
  e <- effect (num 5) ;;
  l1 <- bind e succ_effect ;; leftAssoc <- bind l1 double_effect ;;
  rightAssoc <- bind e (fun a => r <- succ_effect a ;; bind r double_effect) ;;
  a <- value leftAssoc ;; b <- value rightAssoc ;; t_is a b.

(** Lines 40-48. *)
Definition test_chained : M unit :=
  e <- effect (num 5) ;; doubled <- bind e double_effect ;;
  v <- value doubled ;; t_is v (num 10) ;;;
  _set e (num 10) ;;;
  w <- value doubled ;; t_is w (num 20).

(** Lines 50-58. *)
Definition test_chain_alias : M unit :=
  e <- effect (num 5) ;; bound <- bind e double_effect ;; chained <- chain e double_effect ;;
  a <- value bound ;; b <- value chained ;; t_is a b.

(** Lines 60-71. *)
Definition test_inherits : M unit :=
  e <- effect (num 5) ;; mapped <- map e (lift (js_scale 2)) ;;
  v <- value mapped ;; t_is v (num 10) ;;;
  notificationCount <- alloc (num 0) ;;
  _ <- subscribe e (fun _ => incr notificationCount) ;;
  _set e (num 10) ;;;
  n <- read notificationCount ;; t_is n (num 1).

(** Lines 73-76. *)
Definition test_pureEffect : M unit :=
  e <- pureEffect (num 42) ;; v <- value e ;; t_is v (num 42).

(** Lines 78-83. *)
Definition test_flatten : M unit :=
  inner <- effect (num 42) ;; nested <- effect (JSig inner) ;;
  flattened <- flatten nested ;; v <- value flattened ;; t_is v (num 42).

(** Lines 85-92. *)
Definition test_apply : M unit :=
  effectF <- effect (JFun 0) ;; effectA <- effect (num 21) ;;
  result <- apply call effectF effectA ;; v <- value result ;; t_is v (num 42).

(** [[1, 2, 3]] for the expected side of [t.deepEqual]. *)
Definition expected_123 : M jsval := i <- new_id ;; cret (JArr i [num 1; num 2; num 3]).

(** Lines 94-104. *)
Definition test_sequence : M unit :=
  e1 <- effect (num 1) ;; e2 <- effect (num 2) ;; e3 <- effect (num 3) ;;
  sequenced <- sequence [e1; e2; e3] ;;
  v <- value sequenced ;; x <- expected_123 ;; t_deepEqual v x.

(** Lines 106-123. *)
Definition test_bind_propagates : M unit :=
  source <- effect (num 1) ;;
  doubled <- bind source double_effect ;; quadrupled <- bind doubled double_effect ;;
  dn <- alloc (num 0) ;; qn <- alloc (num 0) ;;
  _ <- subscribe doubled (fun _ => incr dn) ;;
  _ <- subscribe quadrupled (fun _ => incr qn) ;;
  _set source (num 2) ;;;
  a <- read dn ;; t_is a (num 1) ;;;
  b <- read qn ;; t_is b (num 1) ;;;
  c <- value doubled ;; t_is c (num 4) ;;;
  d <- value quadrupled ;; t_is d (num 8).

(** The function of lines 138-143: a profile object with the user and
    two posts written with template literals. *)
Definition profile_of (user : jsval) : M nat :=
  let name := js_string (get_field user "name") in
  i <- new_id ;; o <- new_id ;;
  effect (JObj o [("user", user);
                  ("posts", JArr i [JStr ("Post by " ++ name); JStr ("Another post by " ++ name)])]).

Definition js_length (v : jsval) : jsval :=
  match v with
  | JArr _ xs => num (Z.of_nat (length xs))
  | JStr s => num (Z.of_nat (String.length s))
  | _ => JUndef
  end.

Definition nth_elem (v : jsval) (n : nat) : jsval :=
  match v with
  | JArr _ xs => default JUndef (xs !! n)
  | _ => JUndef
  end.

(** Lines 125-149. *)
Definition test_complex : M unit :=
  o <- new_id ;;
  userEffect <- effect (JObj o [("id", num 1); ("name", JStr "Alice")]) ;;
  profileEffect <- bind userEffect profile_of ;;
  profile <- value profileEffect ;;
  t_is (get_field (get_field profile "user") "name") (JStr "Alice") ;;;
  t_is (js_length (get_field profile "posts")) (num 2) ;;;
  t_true (match nth_elem (get_field profile "posts") 0 with
          | JStr p => includes p "Alice"
          | _ => false
          end).

(** Lines 151-163. *)
Definition test_sequence_changing : M unit :=
  e1 <- effect (num 1) ;; e2 <- effect (num 2) ;; e3 <- effect (num 3) ;;
  sequenced <- sequence [e1; e2; e3] ;;
  v <- value sequenced ;; x <- expected_123 ;; t_deepEqual v x ;;;
  _set e2 (num 20).

(** Lines 165-176. *)
Definition test_apply_changing : M unit :=
  effectF <- effect (JFun 0) ;; effectA <- effect (num 5) ;;
  result <- apply call effectF effectA ;; v <- value result ;; t_is v (num 10) ;;;
  _set effectF (JFun 1).

Definition tests : list (string * M unit * nat) :=
  [("effect creates basic effect with initial value", test_initial, 1);
   ("effect bind follows left identity law", test_left_identity, 1);
   ("effect bind follows right identity law", test_right_identity, 1);
   ("effect bind follows associativity law", test_assoc, 1);
   ("effect bind creates chained effects", test_chained, 2);
   ("effect chain is alias for bind", test_chain_alias, 1);
   ("effect inherits signal functionality", test_inherits, 2);
   ("pureEffect creates effect with given value", test_pureEffect, 1);
   ("flatten removes one level of nesting", test_flatten, 1);
   ("apply applies function in effect to value in effect", test_apply, 1);
   ("sequence converts array of effects to effect of array", test_sequence, 1);
   ("effect bind propagates changes through chain", test_bind_propagates, 4);
   ("effect bind with complex transformations", test_complex, 3);
   ("effect sequence with changing values", test_sequence_changing, 1);
   ("effect apply with changing functions", test_apply_changing, 1)].

End EffectSpec.

Module SignalSpec.
Import Signal TimeTests.

Definition double : jsval -> jsval := js_scale 2.
Definition addOne (x : jsval) : jsval := js_add x (num 1).

(** [{ ... }]: an object literal, a fresh object. *)
Definition object (fs : list (string * jsval)) : M jsval := o <- new_id ;; cret (JObj o fs).

(** Lines 180-183. *)
Definition test_initial : M unit :=
  s <- signal (num 42) ;; v <- value s ;; t_is v (num 42).

(** Lines 185-200. *)
Definition test_notifies : M unit :=
  s <- signal (num 0) ;;
  notified <- alloc (JBool false) ;; receivedValue <- alloc JUndef ;;
  _ <- subscribe s (fun v => assign notified (JBool true) ;;; assign receivedValue v) ;;
  _set s (num 42) ;;;
  n <- read notified ;; t_true (truthy n) ;;;
  r <- read receivedValue ;; t_is r (num 42) ;;;
  v <- value s ;; t_is v (num 42).

(** Lines 202-216. *)
Definition test_unsubscribe : M unit :=
  s <- signal (num 0) ;; callCount <- alloc (num 0) ;;
  unsubscribe <- subscribe s (fun _ => incr callCount) ;;
  _set s (num 1) ;;;
  a <- read callCount ;; t_is a (num 1) ;;;
  unsubscribe ;;;
  _set s (num 2) ;;;
  b <- read callCount ;; t_is b (num 1).

(** Lines 218-231. *)
Definition test_same_value : M unit :=
  s <- signal (num 42) ;; callCount <- alloc (num 0) ;;
  _ <- subscribe s (fun _ => incr callCount) ;;
  _set s (num 42) ;;;
  a <- read callCount ;; t_is a (num 0) ;;;
  _set s (num 43) ;;;
  b <- read callCount ;; t_is b (num 1).

(** Lines 233-241. *)
Definition test_identity : M unit :=
  s <- signal (num 42) ;; mapped <- map s (lift id) ;;
  a <- value mapped ;; b <- value s ;; t_is a b ;;;
  _set s (num 100) ;;;
  c <- value mapped ;; d <- value s ;; t_is c d.

(** Lines 243-258. *)
Definition test_composition : M unit :=
  s <- signal (num 5) ;;
  composed <- map s (lift (compose double addOne)) ;;
  m1 <- map s (lift addOne) ;; chained <- map m1 (lift double) ;;
  a <- value composed ;; b <- value chained ;; t_is a b ;;;
  _set s (num 10) ;;;
  c <- value composed ;; d <- value chained ;; t_is c d.

(** Lines 260-268. *)
Definition test_derived : M unit :=
  s <- signal (num 5) ;; doubled <- map s (lift double) ;;
  v <- value doubled ;; t_is v (num 10) ;;;
  _set s (num 10) ;;;
  w <- value doubled ;; t_is w (num 20).

(** Lines 270-287. *)
Definition test_propagates : M unit :=
  s <- signal (num 1) ;;
  doubled <- map s (lift double) ;; quadrupled <- map doubled (lift double) ;;
  dn <- alloc (num 0) ;; qn <- alloc (num 0) ;;
  _ <- subscribe doubled (fun _ => incr dn) ;;
  _ <- subscribe quadrupled (fun _ => incr qn) ;;
  _set s (num 2) ;;;
  a <- read dn ;; t_is a (num 1) ;;;
  b <- read qn ;; t_is b (num 1) ;;;
  c <- value doubled ;; t_is c (num 4) ;;;
  d <- value quadrupled ;; t_is d (num 8).

(** Lines 289-292. *)
Definition test_pure : M unit :=
  s <- pure (num 42) ;; v <- value s ;; t_is v (num 42).

(** Lines 294-300. *)
Definition test_compose : M unit :=
  t_is (compose double addOne (num 5)) (num 12).

(** Lines 302-306. *)
Definition test_id : M unit :=
  t_is (id (num 42)) (num 42) ;;; t_is (id (JStr "hello")) (JStr "hello") ;;;
  t_is (id (JBool true)) (JBool true).

(** Lines 308-320. *)
Definition test_multiple : M unit :=
  s <- signal (num 0) ;; count1 <- alloc (num 0) ;; count2 <- alloc (num 0) ;;
  _ <- subscribe s (fun _ => incr count1) ;;
  _ <- subscribe s (fun _ => incr count2) ;;
  _set s (num 1) ;;;
  a <- read count1 ;; t_is a (num 1) ;;;
  b <- read count2 ;; t_is b (num 1).

(** Lines 322-338. *)
Definition test_object : M unit :=
  alice <- object [("name", JStr "Alice"); ("age", num 30)] ;;
  user <- signal alice ;; notificationCount <- alloc (num 0) ;;
  _ <- subscribe user (fun _ => incr notificationCount) ;;
  bob <- object [("name", JStr "Bob"); ("age", num 25)] ;;
  _set user bob ;;;
  n <- read notificationCount ;; t_is n (num 1) ;;;
  u <- value user ;; t_is (get_field u "name") (JStr "Bob") ;;;
  u' <- value user ;; t_is (get_field u' "age") (num 25).

(** Lines 340-348: [n.toString()] is [String(n)]. *)
Definition test_to_string : M unit :=
  numberSignal <- signal (num 42) ;;
  stringSignal <- map numberSignal (lift (fun n => JStr (js_string n))) ;;
  a <- value stringSignal ;; t_is a (JStr "42") ;;;
  _set numberSignal (num 100) ;;;
  b <- value stringSignal ;; t_is b (JStr "100").

Definition tests : list (string * M unit * nat) :=
  [("signal creates basic signal with initial value", test_initial, 1);
   ("signal notifies subscribers on value change", test_notifies, 3);
   ("signal unsubscribe works correctly", test_unsubscribe, 2);
   ("signal does not notify on same value", test_same_value, 2);
   ("signal map follows functor identity law", test_identity, 2);
   ("signal map follows functor composition law", test_composition, 2);
   ("signal map creates derived signal", test_derived, 2);
   ("signal map propagates changes correctly", test_propagates, 4);
   ("pure creates signal with given value", test_pure, 1);
   ("compose function works correctly", test_compose, 1);
   ("id function returns input unchanged", test_id, 3);
   ("multiple subscribers receive notifications", test_multiple, 2);
   ("signal handles complex object values", test_object, 3);
   ("signal map with type transformation", test_to_string, 2)].

End SignalSpec.

Module BasicSpec.
Import TimeTests.

(** ['Signal-Σ'], the sigma written as its two UTF-8 bytes. *)
Definition library_name : string :=
  "Signal-" ++ String (ascii_of_nat 206) (String (ascii_of_nat 163) EmptyString).

(** [expect(x).toBe(y)] compares with [Object.is]; [toContain] on a
    string is [includes]; [toHaveLength] reads [length]. *)
Definition toBe (actual expected : jsval) : M unit := t_is actual expected.
Definition toContain (s p : string) : M unit := t_true (includes s p).
Definition toHaveLength (v : jsval) (n : Z) : M unit := t_is (EffectSpec.js_length v) (num n).

(** Lines 3-5, 7-10, 12-15, 17-20 and 22-25 of [basic.spec.ts]. *)
Definition test_load : M unit := toBe (JBool true) (JBool true).
Definition test_arith : M unit := toBe (js_add (num 2) (num 2)) (num 4).
Definition test_string : M unit := toContain library_name "Signal".
Definition test_array : M unit :=
  i <- new_id ;; toHaveLength (JArr i [num 1; num 2; num 3]) 3.
Definition test_object : M unit :=
  obj <- SignalSpec.object [("name", JStr library_name); ("version", JStr "1.0.0")] ;;
  toBe (get_field obj "name") (JStr library_name).

Definition tests : list (string * M unit * nat) :=
  [("should load successfully", test_load, 1);
   ("basic functionality test", test_arith, 1);
   ("string operations work", test_string, 1);
   ("array operations work", test_array, 1);
   ("object operations work", test_object, 1)].

End BasicSpec.

Module RepoTests.
Import TimeTests.

(** The core as modelled passes the repository's own unit tests:
    every test of [effect.spec.ts] (the fifteen effect tests and the
    fourteen signal tests), of [basic.spec.ts] and of the time layer's
    [part_010] runs to completion in a fresh store, makes the number of
    assertions its code makes, and every one of them holds. *)
Example repository_tests_pass :
  forallb (fun t => test_ok t.1.2 t.2)
    (EffectSpec.tests ++ SignalSpec.tests ++ BasicSpec.tests ++ TimeTests.tests) = true.
Proof. vm_compute. reflexivity. Qed.

End RepoTests.
