(* ===== verification/SvelteApp.v ===== *)
(** * The Svelte example's plugins and hooks:
    [src/examples/svelte-app/src/lib/universal-plugins.js]

    The file concatenates two modules of the Svelte demo.  Lines 1-200
    are [universal-plugins.js]: it re-exports five plugins of the
    library and defines eleven more, each [(config) => (signal) =>
    signal]; they are programs [nat -> M nat] as in [Plugins]
    (Module [UPlugins]).  Lines 201-450 are a [.svelte.js] module of
    hooks written with Svelte 5 runes (Module [SvelteHooks]) over
    Module [SvelteRt]:
    - [let x = $state(v)] is a cell; reading [x] reads it, [x = v]
      writes it and, when the value changed, triggers the effects that
      read it;
    - [$effect(fn)] runs [fn] after the component mounts, in Svelte's
      flush (a timer of [0] ms here, as Vue's queue in [Vue]), then
      again after a change of a [$state] its synchronous part read; the
      function [fn] returns is its cleanup, run before the next run.
      The effect machinery is [Vue.VueRt]'s (queue, running flag,
      cleanup); the [$state]s an effect reads are its [deps] argument,
      read off the code of each call site;
    - [$derived(e)] read later is [e] evaluated then;
    - [$effect.root(fn)] runs [fn] at once, outside the enclosing
      effect, so what [fn] reads is not a dependency of that effect.
    The hook module imports only [signal] and [machine]: the [compose],
    [persistPlugin] and [debouncePlugin] three of its hooks call are
    not defined there, and calling them throws a [ReferenceError]. *)

From Stdlib Require Import ZArith String.
From stdpp Require Import base list gmap strings.
From S2P Require Import Prelude JsValue Engine Json Signal Effect StateAlg Time Fetch Plugins Hooks Vue.

Local Open Scope resig_scope.

Module UPlugins.
Import Signal.

(** [retryPlugin], [timeoutPlugin], [cachePlugin] (lines 22-49): the
    configuration is unused and the signal is mapped by the identity. *)
Definition retryPlugin (maxRetries : Z) (delay : Z) : Plugins.plugin := fun signal =>
  map signal (fun value => cret value).
Definition timeoutPlugin (timeout : Z) : Plugins.plugin := fun signal =>
  map signal (fun value => cret value).
Definition cachePlugin (duration : Z) : Plugins.plugin := fun signal =>
  map signal (fun value => cret value).

(** The function [throttlePlugin] maps with (lines 57-64): [lastUpdate]
    is a cell holding a time in ms. *)
Definition throttle_fn (signal lastUpdate : nat) (delay : Z) (value : jsval) : M jsval :=
  n <- now ;; lu <- read lastUpdate ;;
  if (delay <=? n - int_of lu)%Z then assign lastUpdate (num n) ;;; cret value
  else Signal.value signal.

(** [throttlePlugin(delay)] (lines 55-65). *)
Definition throttlePlugin (delay : Z) : Plugins.plugin := fun signal =>
  lastUpdate <- alloc (num 0) ;;
  map signal (throttle_fn signal lastUpdate delay).

(** [transformPlugin(transformer)] (lines 71-73). *)
Definition transformPlugin (transformer : jsval -> M jsval) : Plugins.plugin := fun signal =>
  map signal transformer.

(** [filterPlugin(predicate)] (lines 79-86): the code of
    [plugins/index.ts]'s [filterPlugin]. *)
Definition filterPlugin (predicate : jsval -> bool) : Plugins.plugin := fun signal =>
  map signal (fun value => if predicate value then cret value else Signal.value signal).

(** The array [history] holds (lines 93-105). *)
Definition history_elems (h : jsval) : list jsval :=
  match h with JArr _ xs => xs | _ => [] end.

(** The function [historyPlugin] maps with (lines 95-105). *)
Definition history_fn (history : nat) (maxHistory : nat) (value : jsval) : M jsval :=
  i <- new_id ;; n <- now ;;
  h <- read history ;;
  let xs := history_elems h ++ [JObj i [("value"%string, value); ("timestamp"%string, num n)]] in
  assign history (JArr 0 (if maxHistory <? length xs then tail xs else xs)) ;;;
  cret value.

(** [historyPlugin(maxHistory)] (lines 92-113): the mapped signal and
    the array its methods read. *)
Record history_obj : Type := mk_history {
  hs_signal : nat;
  hs_history : nat
}.

Definition historyPlugin_obj (maxHistory : nat) (signal : nat) : M history_obj :=
  history <- alloc (JArr 0 []) ;;
  historySignal <- map signal (history_fn history maxHistory) ;;
  cret (mk_history historySignal history).

Definition historyPlugin (maxHistory : nat) : Plugins.plugin := fun signal =>
  o <- historyPlugin_obj maxHistory signal ;; cret (hs_signal o).

(** [getHistory], [getPrevious], [canUndo] (lines 108-110). *)
Definition getHistory (o : history_obj) : M jsval :=
  h <- read (hs_history o) ;; i <- new_id ;; cret (JArr i (history_elems h)).
Definition getPrevious (o : history_obj) : M jsval :=
  h <- read (hs_history o) ;;
  let xs := history_elems h in
  cret (match nth_error xs (length xs - 2) with
        | Some e => if 2 <=? length xs then get_field e "value" else JUndef
        | None => JUndef
        end).
Definition canUndo (o : history_obj) : M bool :=
  h <- read (hs_history o) ;; cret (1 <? length (history_elems h)).

(** [value && typeof value.then === 'function']. *)
Definition thenable (v : jsval) : bool :=
  truthy v && String.eqb (typeof (get_field v "then")) "function".

(** [asyncPlugin(config)] (lines 119-146), with the three state names
    of [config] or their defaults. *)
Definition asyncPlugin (loadingState errorState successState : string) : Plugins.plugin := fun signal =>
  map signal (fun value =>
    i <- new_id ;;
    if thenable value
    then cret (JObj i [("state"%string, JStr loadingState); ("data"%string, JNull);
                       ("error"%string, JNull); ("promise"%string, value)])
    else cret (JObj i [("state"%string, JStr successState); ("data"%string, value);
                       ("error"%string, JNull); ("promise"%string, JNull)])).

(** The timer callback of [batchPlugin] (lines 167-173). *)
Definition batch_flush (signal batch : nat) : M unit :=
  b <- read batch ;;
  if 0 <? length (history_elems b)
  then i <- new_id ;; assign batch (JArr 0 []) ;;; _set signal (JArr i (history_elems b))
  else cret tt.

(** The function [batchPlugin] maps with (lines 156-176). *)
Definition batch_fn (signal batch timeoutId : nat) (batchSize : nat) (delay : Z) (value : jsval) : M jsval :=
  b <- read batch ;; assign batch (JArr 0 (history_elems b ++ [value])) ;;;
  tid <- read timeoutId ;;
  (if truthy tid then Time.clear_handle tid else cret tt) ;;;
  b' <- read batch ;;
  if batchSize <=? length (history_elems b')
  then i <- new_id ;; assign batch (JArr 0 []) ;;; cret (JArr i (history_elems b'))
  else id <- set_timer delay false (body (batch_flush signal batch)) ;;
       assign timeoutId (Time.handle id) ;;;
       Signal.value signal.

(** [batchPlugin(batchSize, delay)] (lines 152-177). *)
Definition batchPlugin (batchSize : nat) (delay : Z) : Plugins.plugin := fun signal =>
  batch <- alloc (JArr 0 []) ;;
  timeoutId <- alloc JNull ;;
  map signal (batch_fn signal batch timeoutId batchSize delay).

(** [conditionalPlugin(condition, plugin)] (lines 185-190). *)
Definition conditionalPlugin (condition : M bool) (plugin : Plugins.plugin) : Plugins.plugin := fun signal =>
  c <- condition ;; if c then plugin signal else cret signal.

(** [pipePlugin(...transformers)] (lines 196-200). *)
Definition pipePlugin (transformers : list (jsval -> M jsval)) : Plugins.plugin := fun signal =>
  fold_left (fun (acc : M nat) t => a <- acc ;; map a t) transformers (cret signal).

End UPlugins.

Module SvelteRt.
Import VueRt.

(** [let x = $state(v)]. *)
Definition state (v : jsval) : M nat := ref v.

(** [x = v]: [set] of a source, which compares with [===]. *)
Definition assign_state (x : nat) (v : jsval) : M unit :=
  old <- read x ;;
  if js_same v old then cret tt
  else assign x v ;;; notify_with x (fun _ _ => JUndef).

(** [$effect(fn)] over the [$state]s [deps] its synchronous part reads;
    [fn] returns its cleanup. *)
Definition effect (deps : list nat) (fn : M (option (M unit))) : M effect_obj :=
  q <- alloc (JBool false) ;; a <- alloc (JBool false) ;; cl <- alloc JUndef ;;
  let e := mk_effect q a cl in
  let job := run e (fun onCleanup => c <- fn ;; match c with Some f => onCleanup f | None => cret tt end) in
  track e job deps ;;;
  queue_job e job ;;;
  cret e.

End SvelteRt.

Module SvelteHooks.
Import SvelteRt.

(** [useSignal(initialValue, plugins)] (lines 217-236).  The getter
    [() => state] is [read] of the [$state] cell returned, which is the
    dependency of an effect that calls it. *)
Definition useSignal (initialValue : jsval) (plugins : option Plugins.plugin) :
    M (nat * (jsval -> M unit)) :=
  coreSignal <- (match plugins with
                 | Some p => c <- Signal.signal initialValue ;; p c
                 | None => Signal.signal initialValue
                 end) ;;
  v <- Signal.value coreSignal ;;
  st <- state v ;;
  _ <- effect [] (unsubscribe <- Signal.subscribe coreSignal (fun newValue => assign_state st newValue) ;;
                  cret (Some unsubscribe)) ;;
  cret (st, fun value => assign_state st value ;;; Signal._set coreSignal value).

(** [useComputed(compute, plugins)] (lines 244-248). *)
Definition useComputed (compute : M jsval) : M (M jsval) := cret compute.

(** [useEffect(effect, deps)] (lines 255-271): without [deps] the
    effect depends on what [effect] reads ([reads]); with [deps], also
    on the [$state]s the dependency getters read ([depReads]). *)
Definition useEffect (fn : M (option (M unit))) (reads : list nat) (deps : option (list (M unit)))
    (depReads : list nat) : M unit :=
  match deps with
  | None => _ <- effect reads fn ;; cret tt
  | Some ds => _ <- effect (depReads ++ reads) (fold_right (fun d acc => d ;;; acc) (cret tt) ds ;;; fn) ;;
               cret tt
  end.

(** [{ ...state, loading, error }] for the async hooks. *)
Definition spread_state (st : nat) (loading : bool) (error : M jsval) : M unit :=
  i <- new_id ;; cur <- read st ;; e <- error ;;
  assign_state st (JObj i (set_field (set_field (spread cur) "loading" (JBool loading)) "error" e)).

(** [{ data, loading: false, error: null }]. *)
Definition data_state (data : jsval) : M jsval :=
  i <- new_id ;; cret (JObj i [("data"%string, data); ("loading"%string, JBool false); ("error"%string, JNull)]).

(** The body of [refetch] (lines 292-310) and of [runAsync] (lines
    347-358); [console.log] is a trace event. *)
Definition load (st : nat) (asyncFn : Fetch.async_fn) (logs : bool) : M unit :=
  (if logs then emit (OLog "console.log" (JStr "refetch called, setting loading to true")) else cret tt) ;;;
  spread_state st true (cret JNull) ;;;
  (if logs then emit (OLog "console.log" (JStr "calling asyncFn...")) else cret tt) ;;;
  asyncFn (fun data => (if logs then emit (OLog "console.log" data) else cret tt) ;;;
                       x <- data_state data ;; assign_state st x)
          (fun error => (if logs then emit (OLog "console.log" error) else cret tt) ;;;
                        spread_state st false (Fetch.to_error error)).

(** [useAsyncSignal(asyncFn, initialValue, plugins)] (lines 280-317). *)
Definition useAsyncSignal (asyncFn : Fetch.async_fn) (initialValue : jsval) :
    M (M jsval * M unit * (jsval -> M unit)) :=
  i <- new_id ;;
  st <- state (JObj i [("data"%string, initialValue); ("loading"%string, JBool false); ("error"%string, JNull)]) ;;
  cret (read st, load st asyncFn true, fun data => x <- data_state data ;; assign_state st x).

(** [useAsyncComputed(asyncCompute, initialValue, deps, plugins)]
    (lines 325-364): the effect reads [depsValue] only; the [$state]
    it writes is read inside [$effect.root], outside the effect. *)
Definition useAsyncComputed (asyncCompute : Fetch.async_fn) (initialValue : jsval)
    (deps : M (list jsval)) (depReads : list nat) : M (M jsval) :=
  i <- new_id ;;
  st <- state (JObj i [("data"%string, initialValue); ("loading"%string, JBool false); ("error"%string, JNull)]) ;;
  _ <- effect depReads (_ <- deps ;; load st asyncCompute false ;;; cret None) ;;
  cret (read st).

(** [useMachine(initialState, reducer, plugins)] (lines 372-389). *)
Definition useMachine (initialState : jsval) (reducer : jsval -> jsval -> jsval) :
    M (M jsval * (jsval -> M unit)) :=
  machineInstance <- Machine.machine initialState reducer ;;
  s0 <- Machine.state machineInstance ;;
  st <- state s0 ;;
  _ <- effect [] (unsubscribe <- Machine.subscribe machineInstance (fun newState => assign_state st newState) ;;
                  cret (Some unsubscribe)) ;;
  cret (read st, Machine.send machineInstance).

(** [compose], [persistPlugin] and [debouncePlugin] are not defined in
    this module. *)
Definition not_defined (name : string) : string := "ReferenceError: " +:+ name +:+ " is not defined".

(** [usePersistentSignal(key, initialValue, ...plugins)] (lines
    397-400): [compose] is evaluated first. *)
Definition usePersistentSignal {A : Type} (key : string) (initialValue : jsval) : M A :=
  throw_error (not_defined "compose").

(** [useValidatedSignal(initialValue, validator, ...plugins)] (lines
    409-416): the argument [compose(...plugins)] is evaluated before
    [useSignal] runs. *)
Definition useValidatedSignal {A : Type} (initialValue : jsval) (validator : jsval -> bool) : M A :=
  throw_error (not_defined "compose").

(** [useDebouncedSignal(initialValue, delay, ...plugins)] (lines
    425-449): [useSignal(initialValue)] runs, then [compose]. *)
Definition useDebouncedSignal {A : Type} (initialValue : jsval) (delay : Z) : M A :=
  _ <- useSignal initialValue None ;; throw_error (not_defined "compose").

End SvelteHooks.

(** ** What the plugins and hooks do *)

Module SvelteFacts.
Import UPlugins SvelteHooks.

Lemma length_history_step (xs : list jsval) (x : jsval) (maxHistory : nat) :
  length xs <= maxHistory ->
  length (if maxHistory <? length (xs ++ [x]) then tail (xs ++ [x]) else xs ++ [x]) <= maxHistory.
Proof.
  intros H. rewrite length_app. simpl.
  destruct (Nat.ltb_spec maxHistory (length xs + 1)) as [Hlt|Hge].
  - destruct (xs ++ [x]) eqn:E; simpl; [lia|].
    apply (f_equal length) in E. rewrite length_app in E. simpl in E. lia.
  - rewrite length_app. simpl. lia.
Qed.

(** [historyPlugin(maxHistory)] keeps at most [maxHistory] entries:
    each change the mapped function records leaves the history no
    longer than [maxHistory], dropping the oldest entry when it is
    full. *)
Theorem history_bounded (history maxHistory : nat) (v : jsval) (s : store) :
  length (history_elems (cur s history)) <= maxHistory ->
  exists s', returns (history_fn history maxHistory v) s v s' /\
             length (history_elems (cur s' history)) <= maxHistory.
Proof.
  intros H. eexists. split.
  - unfold history_fn.
    eapply returns_bind; [apply returns_new_id|].
    eapply returns_bind; [apply returns_now|].
    eapply returns_bind; [apply returns_read|].
    eapply returns_bind; [apply returns_assign|apply returns_ret].
  - rewrite cur_assign_eq. simpl. apply length_history_step.
    by rewrite Signal.cur_bump.
Qed.

Lemma history_bounded_witness :
  exists s', returns (history_fn 0 3 (num 1)) (init_store 1000) (num 1) s' /\
             length (history_elems (cur s' 0)) <= 3.
Proof. exact (history_bounded 0 3 (num 1) (init_store 1000) ltac:(vm_compute; lia)). Defined.

(** [usePersistentSignal] and [useValidatedSignal] of the hook module
    throw before they do anything. *)
Theorem svelte_hooks_undefined_compose key v validator (k : unit -> prog) s s' :
  (big (usePersistentSignal key v k) s s' <-> s' = emit_obs (OThrow (not_defined "compose")) s) /\
  (big (useValidatedSignal v validator k) s s' <-> s' = emit_obs (OThrow (not_defined "compose")) s).
Proof.
  unfold usePersistentSignal, useValidatedSignal, throw_error.
  split; rewrite big_emit_iff, big_done_iff; done.
Qed.

Definition st0 : store := init_store 1000.

(** A signal [0] through [throttlePlugin(1000)], then two writes in the
    same millisecond. *)
Definition sc_throttle : list script_step :=
  [Run (body (s <- Signal.signal (num 0) ;; t <- throttlePlugin 1000 s ;;
              Signal._set s (num 1) ;;; Signal._set s (num 2)))].

(** A signal [0] through [batchPlugin(5, 100)], one write, then a
    second passes. *)
Definition sc_batch : list script_step :=
  [Run (body (s <- Signal.signal (num 0) ;; b <- batchPlugin 5 100 s ;; Signal._set s (num 1)));
   Wait 1000].

(** How many arrays of one element wrap a value. *)
Fixpoint nesting (v : jsval) : nat :=
  match v with
  | JArr _ [x] => S (nesting x)
  | _ => 0
  end.

(** The throttle of [universal-plugins.js] never throttles: when it
    throttles, its mapping function returns [signal.value()], the
    source's current value, which is already the new one; two writes in
    the same millisecond both reach the throttled signal. *)
Example throttle_passes_all :
  exists s', run_script 200 sc_throttle st0 = Some s' /\ cur s' 0 = num 2 /\ cur s' 2 = num 2.
Proof. run_script_tac. Qed.

(** [batchPlugin] never settles: its timer writes the batch into the
    source signal, which runs the mapping function again with that
    array as a new value, which starts another timer.  One write, and
    after a second the source holds the first batch wrapped in nine
    arrays, and a timer is still pending. *)
Example batch_never_settles :
  exists s', run_script 200 sc_batch st0 = Some s' /\ length (timers s') = 1 /\ nesting (cur s' 0) = 9.
Proof. run_script_tac. Qed.

End SvelteFacts.
