(* ===== verification/Solid.v ===== *)
(** * The SolidJS adapter: [src/unnamed/part_009]

    The adapter maps each hook onto SolidJS primitives.  Module
    [SolidRt] is the part of Solid it calls:
    - [createSignal(v)] is a cell with a getter and a setter; the
      setter takes a value or an updater [prev => next], stores a value
      that is not [===] to the old one, and then runs the effects that
      read the signal, synchronously (Solid's updates are synchronous);
    - [createEffect(fn)] runs [fn] once when it is created and again
      after each change of a signal its synchronous part read (its
      [deps], read off each call site), running the cleanup [fn]
      registered with [onCleanup] first (the cleanup slot of
      [Vue.VueRt]);
    - [onCleanup(f)] outside an effect registers [f] on the component's
      owner, run when it is disposed; called from an event handler there
      is no owner and Solid never runs [f];
    - [createMemo(fn)] read later is [fn()]: the functions this file
      passes only read signals. *)

From Stdlib Require Import ZArith String.
From stdpp Require Import base list gmap strings.
From S2P Require Import Prelude JsValue Engine Json Signal Effect StateAlg Fetch Plugins Hooks Vue.

Local Open Scope resig_scope.

Module SolidRt.
Import VueRt.

(** The setter of a signal with an updater. *)
Definition set_with (c : nat) (update : jsval -> M jsval) : M unit :=
  prev <- read c ;; v <- update prev ;;
  if js_same v prev then cret tt
  else assign c v ;;; notify_with c (fun _ _ => JUndef).

(** The setter with a value. *)
Definition set_value (c : nat) (v : jsval) : M unit := set_with c (fun _ => cret v).

(** [createSignal(v)]: the cell, its getter and its setter. *)
Definition createSignal (v : jsval) : M nat := alloc v.

(** The dependencies of an effect: each signal of [deps] runs [job]
    when it changes. *)
Fixpoint track_sync (job : M unit) (deps : list nat) : M unit :=
  match deps with
  | [] => cret tt
  | d :: ds => _ <- subscribe_raw d (fun _ => body job) ;; track_sync job ds
  end.

(** [createEffect(fn)] over the signals [deps] it reads; [fn] gets
    [onCleanup]. *)
Definition createEffect (deps : list nat) (fn : (M unit -> M unit) -> M unit) : M effect_obj :=
  q <- alloc (JBool false) ;; a <- alloc (JBool false) ;; cl <- alloc JUndef ;;
  let e := mk_effect q a cl in
  track_sync (run e fn) deps ;;;
  run e fn ;;;
  cret e.

(** [onCleanup(f)] outside an effect: on the owner, if there is one. *)
Definition onCleanup (owner : option nat) (f : M unit) : M unit := onUnmounted owner f.

(** [createMemo(fn)] read through its getter. *)
Definition createMemo (fn : M jsval) : M jsval := fn.

End SolidRt.

Module SolidHooks.
Import SolidRt.

(** [useSignal(initialValue)] (lines 15-18). *)
Definition useSignal (initialValue : jsval) : M (M jsval * (jsval -> M unit)) :=
  c <- createSignal initialValue ;; cret (read c, set_value c).

(** [useComputed(compute)] (lines 21-23). *)
Definition useComputed (compute : M jsval) : M (M jsval) := cret (createMemo compute).

(** [useEffect(initialValue)] (lines 26-38). *)
Definition useEffect (initialValue : jsval) : M (M jsval * (jsval -> M unit) * nat) :=
  c <- createSignal initialValue ;;
  effectInstance <- Effect.effect initialValue ;;
  _ <- createEffect [c] (fun _ => v <- read c ;; Signal._set effectInstance v) ;;
  cret (read c, set_value c, effectInstance).

(** [useMachine(initialState, reducer)] (lines 41-54). *)
Definition useMachine (initialState : jsval) (reducer : jsval -> jsval -> jsval) :
    M (M jsval * (jsval -> M unit)) :=
  machineInstance <- Machine.machine initialState reducer ;;
  s0 <- Machine.state machineInstance ;;
  c <- createSignal s0 ;;
  _ <- Machine.subscribe machineInstance (fun newState => set_with c (fun _ => cret newState)) ;;
  cret (read c, Machine.send machineInstance).

(** The listener [useFetch] subscribes to a fetch (lines 64-66, 72-74,
    81-83). *)
Definition fetch_listener (c : nat) (newState : jsval) : M unit := set_with c (fun _ => cret newState).

(** [refetch] and [retry] of [useFetch] (lines 70-86): called from an
    event handler, where [onCleanup] has no owner. *)
Definition fetch_refetch (c : nat) (fetcher : Fetch.async_fn) : M Fetch.fetch_obj :=
  newFetch <- Fetch.fetch fetcher [] ;;
  unsub <- Signal.subscribe (Fetch.f_base newFetch) (fetch_listener c) ;;
  onCleanup None unsub ;;;
  cret newFetch.

Definition fetch_retry (c : nat) (fetchInstance : Fetch.fetch_obj) (n : nat) : M Fetch.fetch_obj :=
  retryFetch <- Fetch.retry fetchInstance n ;;
  unsub <- Signal.subscribe (Fetch.f_base retryFetch) (fetch_listener c) ;;
  onCleanup None unsub ;;;
  cret retryFetch.

(** [useFetch(fetcher)] (lines 57-89), in a component whose owner is
    [owner]. *)
Definition useFetch (owner : nat) (fetcher : Fetch.async_fn) :
    M (M jsval * M Fetch.fetch_obj * (nat -> M Fetch.fetch_obj)) :=
  fetchInstance <- Fetch.fetch fetcher [] ;;
  v <- Signal.value (Fetch.f_base fetchInstance) ;;
  c <- createSignal v ;;
  unsubscribe <- Signal.subscribe (Fetch.f_base fetchInstance) (fetch_listener c) ;;
  onCleanup (Some owner) unsubscribe ;;;
  cret (read c, fetch_refetch c fetcher, fetch_retry c fetchInstance).

(** [prev => ({ ...prev, loading, error })]. *)
Definition spread_update (loading : bool) (error : M jsval) (prev : jsval) : M jsval :=
  i <- new_id ;; e <- error ;;
  cret (JObj i (set_field (set_field (spread prev) "loading" (JBool loading)) "error" e)).

(** The body of [refetch] of [useAsyncSignal] (lines 103-113) and of
    the effect of [useAsyncComputed] (lines 136-147). *)
Definition load (c : nat) (asyncFn : Fetch.async_fn) : M unit :=
  set_with c (spread_update true (cret JUndef)) ;;;
  asyncFn (fun data => x <- Hooks.async_state data false ;; set_value c x)
          (fun error => set_with c (spread_update false (Fetch.to_error error))).

(** [useAsyncSignal(asyncFn, initialValue)] (lines 92-121). *)
Definition useAsyncSignal (asyncFn : Fetch.async_fn) (initialValue : jsval) :
    M (M jsval * M unit * (jsval -> M unit)) :=
  x <- Hooks.async_state initialValue false ;;
  c <- createSignal x ;;
  cret (read c, load c asyncFn, fun value => y <- Hooks.async_state value false ;; set_value c y).

(** [useAsyncComputed(asyncCompute, deps)] (lines 124-151): the effect
    reads the signals [depRefs] through [deps()]; the updater reads
    [prev] without tracking it. *)
Definition useAsyncComputed (asyncCompute : Fetch.async_fn) (depRefs : list nat) (deps : M (list jsval)) :
    M (M jsval) :=
  x <- Hooks.async_state JUndef false ;;
  c <- createSignal x ;;
  _ <- createEffect depRefs (fun _ => _ <- deps ;; load c asyncCompute) ;;
  cret (read c).

(** [usePersistentSignal(key, initialValue)] (lines 154-181). *)
Definition usePersistentSignal (key : string) (initialValue : jsval) : M (M jsval * (jsval -> M unit)) :=
  storedValue <- Hooks.load_stored key initialValue ;;
  c <- createSignal storedValue ;;
  _ <- createEffect [c] (fun _ => v <- read c ;; storage_set_m key (Plugins.stored_text v)) ;;
  cret (read c, set_value c).

(** [useDebouncedSignal(initialValue, delay)] (lines 184-200): the
    effect reads [immediate()] only inside the timer. *)
Definition useDebouncedSignal (initialValue : jsval) (delay : Z) :
    M (M jsval * (jsval -> M unit) * M jsval) :=
  immediate <- createSignal initialValue ;;
  debounced <- createSignal initialValue ;;
  _ <- createEffect [] (fun onCleanup' =>
         timer <- set_timer delay false (body (v <- read immediate ;; set_value debounced v)) ;;
         onCleanup' (clear_timer_m timer)) ;;
  cret (read immediate, set_value immediate, read debounced).

(** [useValidatedSignal(initialValue, validator)] (lines 203-211). *)
Definition useValidatedSignal (initialValue : jsval) (validator : jsval -> bool) :
    M (M jsval * (jsval -> M unit) * M jsval) :=
  c <- createSignal initialValue ;;
  cret (read c, set_value c, createMemo (v <- read c ;; cret (JBool (validator v)))).

End SolidHooks.

Module SolidScenarios.
Import SolidRt SolidHooks.

Definition st0 : store := init_store 1000.

(** [useDebouncedSignal(0, 100)]: [setImmediate(1)] at once, and
    [setImmediate(2)] 200 ms later; then 500 ms pass. *)
Definition sc_debounced : list script_step :=
  [Run (body (r <- useDebouncedSignal (num 0) 100 ;;
              r.1.2 (num 1) ;;;
              _ <- set_timer 200 false (body (r.1.2 (num 2))) ;; cret tt));
   Wait 500].

(** [useFetch(f)] in a component of owner [0], its [refetch()], then
    the component is disposed; the refetched call [p] answers after. *)
Definition sc_refetch_disposed (p : nat) : list script_step :=
  [Run (body (owner <- alloc JUndef ;; r <- useFetch owner (Fetch.call_async 5) ;;
              _ <- r.1.2 ;; VueRt.unmount owner));
   Resolve p (JStr "late")].

(** [useAsyncComputed(f, () => [d()])] and [d] set twice; the second
    call [p2] answers first, the first [p1] last. *)
Definition sc_async_computed (p1 p2 : nat) : list script_step :=
  [Run (body (d <- createSignal (num 0) ;;
              _ <- useAsyncComputed (Fetch.call_async 5) [d] (v <- read d ;; cret [v]) ;;
              set_value d (num 1) ;;; set_value d (num 2)));
   Resolve p2 (JStr "new"); Resolve p1 (JStr "old")].

(** The effect of the Solid [useDebouncedSignal] reads no signal before
    it returns, so Solid never runs it again: the debounced value
    follows the first [setImmediate] once the delay has passed, and no
    later one. *)
Example solid_debounced_once :
  exists s', run_script 200 sc_debounced st0 = Some s' /\
    cur s' 0 = num 2 /\ cur s' 1 = num 1 /\ timers s' = [].
Proof. run_script_tac. Qed.

(** [refetch] of the Solid [useFetch] registers its [unsub] with
    [onCleanup] outside any owner, so disposing the component leaves it
    subscribed: the refetched call's late answer still writes [state]
    (cell 5) after disposal. *)
Example solid_refetch_survives_dispose :
  exists s', run_script 200 (sc_refetch_disposed 11) st0 = Some s' /\
    get_field (cur s' 5) "data" = JStr "late".
Proof. run_script_tac. Qed.

(** The subscription [useFetch] makes while rendering is on the owner:
    after disposal the first call's answer reaches the fetch (cell 2)
    but not [state]. *)
Example solid_fetch_disposed :
  exists s', run_script 200 [Run (body (owner <- alloc JUndef ;; r <- useFetch owner (Fetch.call_async 5) ;;
                                       _ <- r.1.2 ;; VueRt.unmount owner));
                              Resolve 4 (JStr "first")] st0 = Some s' /\
    get_field (cur s' 2) "data" = JStr "first" /\ get_field (cur s' 5) "data" = JUndef.
Proof. run_script_tac. Qed.

(** The Solid [useAsyncComputed] calls [asyncCompute] again on each
    change of its dependencies and keeps no guard against stale
    answers: when the latest call answers first, the earlier call's
    answer ["old"] is the final state. *)
Example solid_async_computed_stale :
  exists s', run_script 200 (sc_async_computed 8 14) st0 = Some s' /\
    map pd_id (pendings s') = [11] /\
    get_field (cur s' 2) "data" = JStr "old" /\ get_field (cur s' 2) "loading" = JBool false.
Proof. run_script_tac. Qed.

End SolidScenarios.
