(* ===== verification/SvelteAdapter.v ===== *)
(** * The Svelte 5 framework adapter: [src/svelte/adapter.ts]

    [svelteAdapter] implements [FrameworkAdapter] ([Adapters.Universal])
    with Svelte 5 runes, and the hooks of the file are the universal
    hooks over it.  The runes are those of [SvelteApp.SvelteRt]; what
    this file adds is the dependency tracking of [$effect]: the getter
    of a [$state] the adapter creates notes its cell in the runtime cell
    [rt] while an effect runs for the first time, and the effect then
    subscribes to the cells noted.  The dependencies are those of the
    first run: the effects the universal hooks create read the same
    getters on every run.  [$derived(compute())] read through its
    getter is [compute()], for a [compute] that reads [$state]s only. *)

From Stdlib Require Import ZArith String.
From stdpp Require Import base list gmap strings.
From S2P Require Import Prelude JsValue Engine Json Signal Fetch Plugins Hooks Vue Adapters SvelteApp.

Local Open Scope resig_scope.

Module SvelteAdapter.
Import VueRt SvelteRt Universal.

Section Runtime.
(** The cell of the Svelte runtime that holds, while an effect first
    runs, the cells it has read. *)
Variable rt : nat.

(** The read of a [$state] [x] by a getter. *)
Definition get_state (x : nat) : M jsval :=
  l <- read rt ;;
  (match l with
   | JArr i xs => assign rt (JArr i (xs ++ [JNum (Z.of_nat x)]))
   | _ => cret tt
   end) ;;;
  read x.

(** The cells noted in [rt]. *)
Definition noted (l : jsval) : list nat :=
  match l with
  | JArr _ xs => omap (fun v => match v with JNum n => Some (Z.to_nat n) | _ => None end) xs
  | _ => []
  end.

(** [$effect(() => fn())]: queued; its first run notes what it reads
    and subscribes the effect to it. *)
Definition tracked_effect (fn : M (option (M unit))) : M effect_obj :=
  q <- alloc (JBool false) ;; a <- alloc (JBool false) ;; cl <- alloc JUndef ;;
  let e := mk_effect q a cl in
  let job := run e (fun onCleanup => c <- fn ;; match c with Some f => onCleanup f | None => cret tt end) in
  queue_job e (i <- new_id ;; assign rt (JArr i []) ;;; job ;;;
               l <- read rt ;; assign rt JUndef ;;; track e job (noted l)) ;;;
  cret e.

(** [createSignal] (lines 13-23). *)
Definition createSignal (initialValue : jsval) : M (M jsval * (jsval -> M unit)) :=
  st <- state initialValue ;; cret (get_state st, assign_state st).

(** [createComputed] (lines 25-29). *)
Definition createComputed (compute : M jsval) : M (M jsval) := cret compute.

(** [createEffect] (lines 31-37). *)
Definition createEffect (effect : M (option (M unit))) : M unit :=
  _ <- tracked_effect effect ;; cret tt.

(** [adaptSignal] (lines 39-57): a [$state] kept in step with the
    signal by an effect that subscribes to it; the setter is the
    signal's own [_set]. *)
Definition adaptSignal (sig : sig_obj) : M (M jsval * (jsval -> M unit)) :=
  v <- Signal.value (so_cell sig) ;;
  st <- state v ;;
  _ <- tracked_effect (unsubscribe <- Signal.subscribe (so_cell sig) (assign_state st) ;;
                       cret (Some unsubscribe)) ;;
  cret (get_state st, so_set sig).

(** [toSignal] (lines 59-72): the replaced [_set] calls [setValue],
    then reads [_subscribers], a property a library signal does not
    have (its subscribers are a closure variable). *)
Definition toSignal (getValue : M jsval) (setValue : jsval -> M unit) : M sig_obj :=
  v <- getValue ;; sig <- Signal.signal v ;;
  cret (mk_sig sig (fun value =>
          setValue value ;;;
          throw_error "TypeError: Cannot read properties of undefined (reading 'forEach')")).

(** [svelteAdapter] (lines 12-73). *)
Definition svelteAdapter : FrameworkAdapter :=
  mk_adapter createSignal createComputed createEffect adaptSignal toSignal.

(** The hooks of lines 87-139. *)
Definition useSignal (initialValue : jsval) (plugins : list Plugins.plugin) :=
  usePluginSignal svelteAdapter initialValue plugins.

Definition useComputed (compute : M jsval) (plugins : list Plugins.plugin) :=
  usePluginComputed svelteAdapter compute plugins.

Definition useAsyncSignal (asyncFn : Fetch.async_fn) (initialValue : jsval) (plugins : list Plugins.plugin) :=
  usePluginAsyncSignal svelteAdapter asyncFn initialValue plugins.

Definition usePersistentSignal (key : string) (initialValue : jsval) (plugins : list Plugins.plugin) :=
  usePluginPersistentSignal svelteAdapter key initialValue plugins.

Definition useDebouncedSignal (initialValue : jsval) (delay : Z) (plugins : list Plugins.plugin) :=
  usePluginDebouncedSignal svelteAdapter initialValue delay plugins.

Definition useValidatedSignal (initialValue : jsval) (validator : jsval -> bool) (plugins : list Plugins.plugin) :=
  usePluginValidatedSignal svelteAdapter initialValue validator plugins.

Definition useMachine (initialState : jsval) (reducer : jsval -> jsval -> jsval) (plugins : list Plugins.plugin) :=
  usePluginMachine svelteAdapter initialState reducer plugins.

End Runtime.

End SvelteAdapter.

Module SvelteAdapterScenarios.
Import SvelteAdapter.

Definition st0 : store := init_store 1000.

(** [usePersistentSignal('k', 0, ...plugins)] in a runtime whose cell
    is [0]; 10 ms later its setter is called with [5]. *)
Definition sc_persist (plugins : list Plugins.plugin) : list script_step :=
  [Run (body (rt <- alloc JUndef ;; r <- usePersistentSignal rt "k" (num 0) plugins ;;
              _ <- set_timer 10 false (body (r.2 (num 5))) ;; cret tt));
   Wait 20].

(** [useDebouncedSignal(0, 100)]: [setImmediate(1)] at once, and
    [setImmediate(2)] 200 ms later; then 500 ms pass. *)
Definition sc_debounced : list script_step :=
  [Run (body (rt <- alloc JUndef ;; r <- useDebouncedSignal rt (num 0) 100 [] ;;
              r.1.2 (num 1) ;;;
              _ <- set_timer 200 false (body (r.1.2 (num 2))) ;; cret tt));
   Wait 500].

(** The effect of the Svelte [usePersistentSignal] reads the value
    through the [$state] getter, so [$effect] tracks it: a write is
    stored under the key, and nothing throws. *)
Example svelte_persist_tracked :
  exists s', run_script 200 (sc_persist []) st0 = Some s' /\
    storage s' !! "k" = Some "5" /\ trace s' = [].
Proof. run_script_tac. Qed.

(** With a plugin, the setter of the Svelte [usePersistentSignal] is the
    [_set] that [toSignal] installs: it writes the value, then throws a
    [TypeError] reading [_subscribers], which a library signal does not
    have, so the plugin (a logger) never sees the value. *)
Example svelte_toSignal_throws :
  exists s', run_script 200 (sc_persist [Plugins.loggerPlugin "p"]) st0 = Some s' /\
    storage s' !! "k" = Some "5" /\
    trace s' = [OThrow "TypeError: Cannot read properties of undefined (reading 'forEach')"].
Proof. run_script_tac. Qed.

(** The effect of the universal [usePluginDebouncedSignal] reads
    [immediate()] only inside its timer, so over Svelte it is not
    tracked and runs once: the debounced value follows the first write
    only. *)
Example svelte_debounced_once :
  exists s', run_script 200 sc_debounced st0 = Some s' /\
    cur s' 1 = num 2 /\ cur s' 2 = num 1.
Proof. run_script_tac. Qed.

End SvelteAdapterScenarios.
