(* ===== verification/Qwik.v ===== *)
(** * The Qwik adapter: [src/qwik/hooks.ts]

    Module [QwikRt] is the part of Qwik the hooks call, on the client:
    - [useSignal(v)] is a cell; writing [.value] stores a value that is
      not [===] to the old one and notifies the tasks that track it;
    - [useTask$(fn)] runs [fn] at once and again, on Qwik's next frame
      (the scheduler of [Vue.VueRt]), after a change of a signal [fn]
      passes to [track] (its [deps], read off each call site); the
      function given to [cleanup] runs before the next run;
    - [useVisibleTask$(fn)] runs [fn] once, on the next frame, when the
      component becomes visible; the function [fn] returns is its
      cleanup.  This is the queued [$effect] with no dependency of
      [SvelteApp.SvelteRt].
    The tests [typeof window !== 'undefined'] are a parameter [window]
    of the hooks that make them. *)

From Stdlib Require Import ZArith String.
From stdpp Require Import base list gmap strings.
From S2P Require Import Prelude JsValue Engine Json Signal Effect StateAlg Fetch Plugins Hooks Vue SvelteApp.

Local Open Scope resig_scope.

Module QwikRt.
Import VueRt.

(** [useSignal(v)] of Qwik. *)
Definition useSignal (v : jsval) : M nat := alloc v.

(** [s.value = v]. *)
Definition set (s : nat) (v : jsval) : M unit := SvelteRt.assign_state s v.

(** [useTask$(fn)] whose [fn] tracks [deps]; [fn] gets [cleanup]. *)
Definition useTask (deps : list nat) (fn : (M unit -> M unit) -> M unit) : M effect_obj :=
  watchEffect deps fn.

(** [useVisibleTask$(fn)]. *)
Definition useVisibleTask (fn : M (option (M unit))) : M effect_obj := SvelteRt.effect [] fn.

End QwikRt.

Module QwikHooks.
Import QwikRt.

(** [useSignal(initialValue)] (lines 15-24). *)
Definition useSignal (initialValue : jsval) : M (M jsval * (jsval -> M unit)) :=
  state <- QwikRt.useSignal initialValue ;; cret (read state, set state).

(** [useComputed(compute)] (lines 27-30). *)
Definition useComputed (compute : M jsval) : M (M jsval) := cret compute.

(** [useEffect(initialValue)] (lines 33-51). *)
Definition useEffect (initialValue : jsval) : M (M jsval * (jsval -> M unit) * nat) :=
  state <- QwikRt.useSignal initialValue ;;
  effectInstance <- Effect.effect initialValue ;;
  _ <- useTask [state] (fun _ => v <- read state ;; Signal._set effectInstance v) ;;
  cret (read state, set state, effectInstance).

(** [useMachine(initialState, reducer)] (lines 54-74): the machine's
    changes reach [state] once the visible task has subscribed. *)
Definition useMachine (initialState : jsval) (reducer : jsval -> jsval -> jsval) :
    M (M jsval * (jsval -> M unit)) :=
  machineInstance <- Machine.machine initialState reducer ;;
  s0 <- Machine.state machineInstance ;;
  state <- QwikRt.useSignal s0 ;;
  _ <- useVisibleTask (unsubscribe <- Machine.subscribe machineInstance (set state) ;;
                       cret (Some unsubscribe)) ;;
  cret (read state, fun action => Machine.send machineInstance action).

(** [refetch] of [useFetch] (lines 94-100): its subscription is never
    removed. *)
Definition fetch_refetch (state : nat) (fetcher : Fetch.async_fn) : M Fetch.fetch_obj :=
  newFetch <- Fetch.fetch fetcher [] ;;
  _ <- Signal.subscribe (Fetch.f_base newFetch) (set state) ;;
  cret newFetch.

(** [retry(n)] of [useFetch] (lines 102-108). *)
Definition fetch_retry (state : nat) (fetchInstance : Fetch.fetch_obj) (n : nat) : M Fetch.fetch_obj :=
  retryFetch <- Fetch.retry fetchInstance n ;;
  _ <- Signal.subscribe (Fetch.f_base retryFetch) (set state) ;;
  cret retryFetch.

(** [useFetch(fetcher)] (lines 77-111). *)
Definition useFetch (fetcher : Fetch.async_fn) :
    M (M jsval * M Fetch.fetch_obj * (nat -> M Fetch.fetch_obj)) :=
  fetchInstance <- Fetch.fetch fetcher [] ;;
  v <- Signal.value (Fetch.f_base fetchInstance) ;;
  state <- QwikRt.useSignal v ;;
  _ <- useVisibleTask (unsubscribe <- Signal.subscribe (Fetch.f_base fetchInstance) (set state) ;;
                       cret (Some unsubscribe)) ;;
  cret (read state, fetch_refetch state fetcher, fetch_retry state fetchInstance).

(** [useAsyncSignal(asyncFn, initialValue)] (lines 114-145): [refetch]
    is the [load] of the Vue adapter over [state.value]. *)
Definition useAsyncSignal (asyncFn : Fetch.async_fn) (initialValue : jsval) :
    M (M jsval * M unit * (jsval -> M unit)) :=
  x <- Hooks.async_state initialValue false ;;
  state <- QwikRt.useSignal x ;;
  cret (read state, VueHooks.load (read state) (set state) asyncFn,
        fun value => y <- Hooks.async_state value false ;; set state y).

(** [useAsyncComputed(asyncCompute, deps)] (lines 148-176): the task
    tracks the signals [depRefs] that [deps()] reads, and nothing else. *)
Definition useAsyncComputed (asyncCompute : Fetch.async_fn) (depRefs : list nat) (deps : M (list jsval)) :
    M (M jsval) :=
  x <- Hooks.async_state JUndef false ;;
  state <- QwikRt.useSignal x ;;
  _ <- useTask depRefs (fun _ => _ <- deps ;; VueHooks.load (read state) (set state) asyncCompute) ;;
  cret (read state).

(** The visible task of [usePersistentSignal] (lines 189-198): a
    stored item that parses replaces the value. *)
Definition load_visible (state : nat) (key : string) : M (option (M unit)) :=
  stored <- storage_get key ;;
  (if Fetch.truthy_item stored then
     match json_parse (default "" stored) with
     | Some j => v <- of_json j ;; set state v
     | None => cret tt
     end
   else cret tt) ;;;
  cret None.

(** The task of [usePersistentSignal] (lines 201-212). *)
Definition persist_task (window : bool) (state : nat) (key : string) : M unit :=
  if window then v <- read state ;; storage_set_m key (Plugins.stored_text v) else cret tt.

(** [usePersistentSignal(key, initialValue)] (lines 179-220). *)
Definition usePersistentSignal (window : bool) (key : string) (initialValue : jsval) :
    M (M jsval * (jsval -> M unit)) :=
  state <- QwikRt.useSignal initialValue ;;
  _ <- useVisibleTask (load_visible state key) ;;
  _ <- useTask [state] (fun _ => persist_task window state key) ;;
  cret (read state, set state).

(** [useDebouncedSignal(initialValue, delay)] (lines 223-247): the
    task tracks [immediate] and clears its timer before each rerun. *)
Definition useDebouncedSignal (initialValue : jsval) (delay : Z) :
    M (M jsval * (jsval -> M unit) * M jsval) :=
  immediate <- QwikRt.useSignal initialValue ;;
  debounced <- QwikRt.useSignal initialValue ;;
  _ <- useTask [immediate] (fun cleanup =>
         timer <- set_timer delay false (body (v <- read immediate ;; set debounced v)) ;;
         cleanup (clear_timer_m timer)) ;;
  cret (read immediate, set immediate, read debounced).

(** [useValidatedSignal(initialValue, validator)] (lines 250-269). *)
Definition useValidatedSignal (initialValue : jsval) (validator : jsval -> bool) :
    M (M jsval * (jsval -> M unit) * M jsval) :=
  state <- QwikRt.useSignal initialValue ;;
  isValid <- QwikRt.useSignal (JBool (validator initialValue)) ;;
  _ <- useTask [state] (fun _ => v <- read state ;; set isValid (JBool (validator v))) ;;
  cret (read state, set state, read isValid).

End QwikHooks.

Module QwikScenarios.
Import QwikRt QwikHooks.

Definition st0 : store := init_store 1000.

(** The item ["k"] holds ["7"]; a component calls
    [usePersistentSignal('k', 0)] where [window] is as given; the
    visible task runs on the next frame. *)
Definition sc_persist (window : bool) : list script_step :=
  [Run (body (storage_set_m "k" "7" ;;; _ <- usePersistentSignal window "k" (num 0) ;; cret tt)); Wait 1].

(** [useDebouncedSignal(0, 100)]: [setImmediate(1)] at once and
    [setImmediate(2)] 50 ms later; then 500 ms pass. *)
Definition sc_debounced : list script_step :=
  [Run (body (r <- useDebouncedSignal (num 0) 100 ;;
              r.1.2 (num 1) ;;;
              _ <- set_timer 50 false (body (r.1.2 (num 2))) ;; cret tt));
   Wait 500].

(** [(state, action) => state + 1]. *)
Definition inc (st _ : jsval) : jsval := js_add st (num 1).

(** [useMachine(0, inc)] and [send] before the component is visible,
    then a frame passes. *)
Definition sc_machine : list script_step :=
  [Run (body (r <- useMachine (num 0) inc ;; r.2 (JStr "inc"))); Wait 1].

(** On the client, the task of the Qwik [usePersistentSignal] runs
    before the visible task that loads the stored item, and writes the
    initial value over it: the stored ["7"] is lost, the value is [0]. *)
Example qwik_persist_overwrites :
  exists s', run_script 200 (sc_persist true) st0 = Some s' /\
    storage s' !! "k" = Some "0" /\ cur s' 0 = num 0.
Proof. run_script_tac. Qed.

(** Where [window] is undefined the task stores nothing, and the
    visible task loads ["7"]. *)
Example qwik_persist_no_window :
  exists s', run_script 200 (sc_persist false) st0 = Some s' /\
    storage s' !! "k" = Some "7" /\ cur s' 0 = num 7.
Proof. run_script_tac. Qed.

(** The task of the Qwik [useDebouncedSignal] tracks [immediate] and
    clears its timer on each rerun: the debounced value is the last
    write, and no timer is left. *)
Example qwik_debounced_last :
  exists s', run_script 200 sc_debounced st0 = Some s' /\
    cur s' 0 = num 2 /\ cur s' 1 = num 2 /\ timers s' = [].
Proof. run_script_tac. Qed.

(** The Qwik [useMachine] subscribes in a visible task: a [send] before
    it runs changes the machine (cell 0) but never reaches [state]
    (cell 1). *)
Example qwik_machine_send_lost :
  exists s', run_script 200 sc_machine st0 = Some s' /\
    cur s' 0 = num 1 /\ cur s' 1 = num 0.
Proof. run_script_tac. Qed.

End QwikScenarios.
