(* ===== verification/Excel.v ===== *)
(** * The spreadsheet demo: [src/examples/react-app/src/components/ExcelGridDemo.tsx]

    The component holds a 20 x 10 grid of library signals of strings,
    the selected cell and the text of the formula bar.  A cell whose
    text starts with [=] shows the value of its formula
    ([evaluateFormula]): [SUM] and [AVERAGE] of a range, or arithmetic
    over cell references, which the code substitutes by their numbers
    and hands to [Function] (JavaScript's own evaluator).

    Module [JsNum] is the part of JavaScript numbers the formulas use:
    a number is an integer of at most 2^53 in absolute value, [-0],
    [Infinity], [-Infinity] or [NaN], and each operation follows IEEE
    754 on them.  Where a result leaves that set (a fraction, a larger
    integer, an exponent) the model returns [None]: it does not claim
    what the code computes there.  Module [JsExpr] is the evaluator
    [Function] applies to the substituted text, for texts made of
    numbers, [Infinity], [+ - * /], parentheses and spaces; it tells
    apart a value, an exception ([#ERROR]) and a text outside that set
    ([None]).  Module [Grid] holds the component's functions and
    handlers, on a state record with the grid, the selection and the
    formula bar; the React re-render is not modelled, but what each
    cell of the table shows is ([render_cell]). *)

From Stdlib Require Import ZArith String Ascii Bool.
From stdpp Require Import base list pretty.

Local Open Scope Z_scope.

Module JsNum.

(** A JavaScript number, in the range the model covers. *)
Inductive jnum : Type :=
  | Fin (z : Z)
  | NegZero
  | PosInf
  | NegInf
  | NaN.

Definition max_safe : Z := 2 ^ 53.

(** An integer result, when it is one of the model's. *)
Definition fin_chk (z : Z) : option jnum := if Z.abs z <=? max_safe then Some (Fin z) else None.

Definition is_neg (n : jnum) : bool :=
  match n with Fin z => z <? 0 | NegZero | NegInf => true | _ => false end.

Definition is_zero (n : jnum) : bool :=
  match n with Fin 0 | NegZero => true | _ => false end.

Definition fin_val (n : jnum) : Z := match n with Fin z => z | _ => 0 end.

Definition zero (neg : bool) : jnum := if neg then NegZero else Fin 0.
Definition inf (neg : bool) : jnum := if neg then NegInf else PosInf.

Definition jneg (n : jnum) : jnum :=
  match n with
  | Fin 0 => NegZero
  | Fin z => Fin (- z)
  | NegZero => Fin 0
  | PosInf => NegInf
  | NegInf => PosInf
  | NaN => NaN
  end.

Definition jadd (a b : jnum) : option jnum :=
  match a, b with
  | NaN, _ | _, NaN => Some NaN
  | PosInf, NegInf | NegInf, PosInf => Some NaN
  | PosInf, _ | _, PosInf => Some PosInf
  | NegInf, _ | _, NegInf => Some NegInf
  | NegZero, NegZero => Some NegZero
  | NegZero, x | x, NegZero => Some x
  | Fin x, Fin y => fin_chk (x + y)
  end.

Definition jsub (a b : jnum) : option jnum := jadd a (jneg b).

Definition jmul (a b : jnum) : option jnum :=
  let s := xorb (is_neg a) (is_neg b) in
  match a, b with
  | NaN, _ | _, NaN => Some NaN
  | (PosInf | NegInf), _ => Some (if is_zero b then NaN else inf s)
  | _, (PosInf | NegInf) => Some (if is_zero a then NaN else inf s)
  | _, _ => let p := fin_val a * fin_val b in if p =? 0 then Some (zero s) else fin_chk p
  end.

(** Division; a quotient that is not an integer is outside the model. *)
Definition jdiv (a b : jnum) : option jnum :=
  let s := xorb (is_neg a) (is_neg b) in
  match a, b with
  | NaN, _ | _, NaN => Some NaN
  | (PosInf | NegInf), (PosInf | NegInf) => Some NaN
  | (PosInf | NegInf), _ => Some (inf s)
  | _, (PosInf | NegInf) => Some (zero s)
  | _, _ =>
      if is_zero b then Some (if is_zero a then NaN else inf s)
      else if is_zero a then Some (zero s)
      else if fin_val a mod fin_val b =? 0 then fin_chk (fin_val a / fin_val b) else None
  end.

(** [x || 0] for a number [x]: [0], [-0] and [NaN] are falsy. *)
Definition or_zero (n : jnum) : jnum := if is_zero n then Fin 0 else match n with NaN => Fin 0 | _ => n end.

(** [Number.prototype.toString()]. *)
Definition to_string (n : jnum) : string :=
  match n with
  | Fin z => pretty z
  | NegZero => "0"
  | PosInf => "Infinity"
  | NegInf => "-Infinity"
  | NaN => "NaN"
  end.

(** [isNaN]. *)
Definition is_nan (n : jnum) : bool := match n with NaN => true | _ => false end.

(** Characters. *)
Definition is_digit (c : ascii) : bool := ("0" <=? c)%char && (c <=? "9")%char.
Definition digit_val (c : ascii) : Z := Z.of_nat (nat_of_ascii c) - 48.
Definition is_upper (c : ascii) : bool := ("A" <=? c)%char && (c <=? "Z")%char.
Definition is_ident_char (c : ascii) : bool :=
  is_digit c || is_upper c || (("a" <=? c)%char && (c <=? "z")%char) || (c =? "_")%char || (c =? "$")%char.
Definition is_space (c : ascii) : bool :=
  existsb (fun n => Nat.eqb (nat_of_ascii c) n) [32; 9; 10; 11; 12; 13]%nat.

(** The text after the leading white space. *)
Fixpoint skip_spaces (l : list ascii) : list ascii :=
  match l with
  | c :: r => if is_space c then skip_spaces r else l
  | [] => []
  end.

(** The longest prefix of digits, and the rest. *)
Fixpoint span_digits (l : list ascii) : list ascii * list ascii :=
  match l with
  | c :: r => if is_digit c then let '(d, r') := span_digits r in (c :: d, r') else ([], l)
  | [] => ([], [])
  end.

Definition digits_val (d : list ascii) : Z := fold_left (fun acc c => acc * 10 + digit_val c) d 0.

Definition infinity_chars : list ascii := list_ascii_of_string "Infinity".

(** [parseFloat(s)]: leading white space, a sign, [Infinity] or the
    longest decimal literal; [NaN] when there is none.  A fraction with
    a digit other than [0], an exponent, or an integer above 2^53 is
    outside the model. *)
Definition parse_float_chars (l : list ascii) : option jnum :=
  let l := skip_spaces l in
  let '(neg, l) := match l with
                   | "-"%char :: r => (true, r)
                   | "+"%char :: r => (false, r)
                   | _ => (false, l)
                   end in
  if bool_decide (take 8 l = infinity_chars) then Some (inf neg) else
  let '(d1, r1) := span_digits l in
  let '(d2, r2) := match r1 with "."%char :: r => span_digits r | _ => ([], r1) end in
  let exp := match r2 with
             | c :: r => ((c =? "e")%char || (c =? "E")%char) &&
                         (match r with d :: _ => is_digit d | [] => false end ||
                          match r with
                          | sg :: d :: _ => ((sg =? "+")%char || (sg =? "-")%char) && is_digit d
                          | _ => false
                          end)
             | [] => false
             end in
  match d1, d2 with
  | [], [] => Some NaN
  | _, _ =>
      if exp || existsb (fun c => negb (c =? "0")%char) d2 then None
      else let z := digits_val d1 in
           if z >? max_safe then None
           else Some (if neg then jneg (Fin z) else Fin z)
  end.

Definition parse_float (s : string) : option jnum := parse_float_chars (list_ascii_of_string s).

(** [x.toFixed(2)] of the quotient [z / n] of an integer by a count,
    [n > 0]: the nearest multiple of 0.01; a tie is outside the model. *)
Definition to_fixed2_ratio (z : Z) (n : Z) : option string :=
  let q := Z.abs z * 100 in
  let k := q / n in
  let r := q mod n in
  if 2 * r =? n then None else
  let m := if 2 * r >? n then k + 1 else k in
  let cents := pretty (m mod 100) in
  let sign := if z <? 0 then "-"%string else "" in
  let pad := if m mod 100 <? 10 then "0"%string else "" in
  Some (sign ++ pretty (m / 100) ++ "." ++ pad ++ cents)%string.

(** [x.toFixed(2)] of a number of the model. *)
Definition to_fixed2 (n : jnum) : string :=
  match n with
  | Fin z => (pretty z ++ ".00")%string
  | NegZero => "0.00"
  | PosInf => "Infinity"
  | NegInf => "-Infinity"
  | NaN => "NaN"
  end.

End JsNum.

Module JsExpr.
Import JsNum.

(** The tokens of the texts the model evaluates; [TIncDec] is [++] or
    [--], [TBad] a number literal with a leading [0], which strict mode
    refuses. *)
Inductive tok : Type :=
  | TNum (z : Z)
  | TInf
  | TPlus
  | TMinus
  | TStar
  | TSlash
  | TLParen
  | TRParen
  | TIncDec
  | TBad.

(** [t] before the tokens of [o]. *)
Definition push (t : tok) (o : option (list tok)) : option (list tok) :=
  match o with Some ts => Some (t :: ts) | None => None end.

(** The lexer, longest match first; [None] for a character outside
    the set, a fraction, an exponent, [**] or a comment. *)
Fixpoint lex (fuel : nat) (l : list ascii) : option (list tok) :=
  match fuel with
  | O => None
  | S fuel =>
  match l with
  | [] => Some []
  | c :: r =>
      if is_space c then lex fuel r
      else if is_digit c then
        let '(d, r') := span_digits l in
        match r' with
        | c' :: _ => if is_ident_char c' || (c' =? ".")%char then None
                     else push (if (c =? "0")%char && Nat.ltb 1 (length d) then TBad else TNum (digits_val d)) (lex fuel r')
        | [] => Some [if (c =? "0")%char && Nat.ltb 1 (length d) then TBad else TNum (digits_val d)]
        end
      else if bool_decide (take 8 l = infinity_chars) &&
              match drop 8 l with c' :: _ => negb (is_ident_char c') | [] => true end then
        push TInf (lex fuel (drop 8 l))
      else match c, r with
      | "+"%char, "+"%char :: r' | "-"%char, "-"%char :: r' => push TIncDec (lex fuel r')
      | "+"%char, _ => push TPlus (lex fuel r)
      | "-"%char, _ => push TMinus (lex fuel r)
      | "*"%char, "*"%char :: _ => None
      | "*"%char, _ => push TStar (lex fuel r)
      | "/"%char, ("/"%char | "*"%char) :: _ => None
      | "/"%char, _ => push TSlash (lex fuel r)
      | "("%char, _ => push TLParen (lex fuel r)
      | ")"%char, _ => push TRParen (lex fuel r)
      | _, _ => None
      end
  end
  end.

(** The outcome of a parse: a value and the tokens left, an exception
    of [Function] or of the call it returns, or a text outside the
    model (a [/] where an operand is expected starts a regular
    expression). *)
Inductive pres : Type :=
  | POk (v : jnum) (rest : list tok)
  | PErr
  | PBeyond.

Definition lift (o : option jnum) (rest : list tok) : pres :=
  match o with Some v => POk v rest | None => PBeyond end.

(** The grammar of JavaScript restricted to these tokens: additive over
    multiplicative over unary ([+], [-]) over primary (a number,
    [Infinity], a parenthesised expression), left associative; a
    primary followed by [(] is a call of a number, a [TypeError].
    Each call spends one unit of [fuel]. *)
Fixpoint p_expr (fuel : nat) (ts : list tok) : pres :=
  match fuel with
  | O => PBeyond
  | S n =>
      match p_term n ts with
      | POk v r => p_expr_rest n v r
      | e => e
      end
  end
with p_expr_rest (fuel : nat) (v : jnum) (ts : list tok) : pres :=
  match fuel with
  | O => PBeyond
  | S n =>
      match ts with
      | (TPlus | TMinus) as op :: r =>
          match p_term n r with
          | POk w r' =>
              match (if op is TPlus then jadd v w else jsub v w) with
              | Some x => p_expr_rest n x r'
              | None => PBeyond
              end
          | e => e
          end
      | _ => POk v ts
      end
  end
with p_term (fuel : nat) (ts : list tok) : pres :=
  match fuel with
  | O => PBeyond
  | S n =>
      match p_unary n ts with
      | POk v r => p_term_rest n v r
      | e => e
      end
  end
with p_term_rest (fuel : nat) (v : jnum) (ts : list tok) : pres :=
  match fuel with
  | O => PBeyond
  | S n =>
      match ts with
      | (TStar | TSlash) as op :: r =>
          match p_unary n r with
          | POk w r' =>
              match (if op is TStar then jmul v w else jdiv v w) with
              | Some x => p_term_rest n x r'
              | None => PBeyond
              end
          | e => e
          end
      | _ => POk v ts
      end
  end
with p_unary (fuel : nat) (ts : list tok) : pres :=
  match fuel with
  | O => PBeyond
  | S n =>
      match ts with
      | TPlus :: r => p_unary n r
      | TMinus :: r => match p_unary n r with POk v r' => POk (jneg v) r' | e => e end
      | _ => p_primary n ts
      end
  end
with p_primary (fuel : nat) (ts : list tok) : pres :=
  match fuel with
  | O => PBeyond
  | S n =>
      let v := match ts with
               | TNum z :: r => lift (fin_chk z) r
               | TInf :: r => POk PosInf r
               | TLParen :: r =>
                   match p_expr n r with
                   | POk v (TRParen :: r') => POk v r'
                   | POk _ _ => PErr
                   | e => e
                   end
               | TSlash :: _ => PBeyond
               | _ => PErr
               end in
      match v with
      | POk _ (TLParen :: _) => PErr
      | _ => v
      end
  end.

(** [Function('"use strict"; return (' + text + ')')()]: [Some (inr v)]
    for a value, [Some (inl tt)] for an exception, [None] outside the
    model. *)
Definition run_function (text : string) : option (unit + jnum) :=
  let l := list_ascii_of_string text in
  match lex (S (length l)) l with
  | None => None
  | Some ts =>
      if existsb (fun t => match t with TIncDec | TBad => true | _ => false end) ts then Some (inl tt)
      else match p_expr (8 * length ts + 16) ([TLParen] ++ ts ++ [TRParen]) with
           | POk v [] => Some (inr v)
           | POk _ _ | PErr => Some (inl tt)
           | PBeyond => None
           end
  end.

End JsExpr.

Module Grid.
Import JsNum JsExpr.

(** [ROWS] and [COLS] (lines 8-9). *)
Definition ROWS : nat := 20.
Definition COLS : nat := 10.

(** The grid of lines 12-21: [ROWS] rows of [COLS] signals holding [''];
    a signal is its current text. *)
Definition init_grid : list (list string) := repeat (repeat ""%string COLS) ROWS.

(** [gridRef.current[row][col].value()]. *)
Definition get_cell (g : list (list string)) (r c : nat) : string :=
  default ""%string (g !! r ≫= fun row => row !! c).

(** [gridRef.current[row][col]._set(v)]. *)
Definition set_cell (g : list (list string)) (r c : nat) (v : string) : list (list string) :=
  alter (fun row => <[c := v]> row) r g.

(** [getColumnLetter(col)] (lines 27-29). *)
Definition getColumnLetter (col : nat) : string := String (ascii_of_nat (65 + col)) EmptyString.

(** [parseCellRef(ref)] (lines 32-41): [^([A-Z])(\d+)$], then the
    bounds. *)
Definition parseCellRef_chars (l : list ascii) : option (nat * nat) :=
  match l with
  | c :: ds =>
      if is_upper c && negb (bool_decide (ds = [])) && forallb is_digit ds then
        let col := Z.of_nat (nat_of_ascii c) - 65 in
        let row := digits_val ds - 1 in
        if (0 <=? row) && (row <? Z.of_nat ROWS) && (0 <=? col) && (col <? Z.of_nat COLS)
        then Some (Z.to_nat row, Z.to_nat col) else None
      else None
  | [] => None
  end.

Definition parseCellRef (ref : string) : option (nat * nat) := parseCellRef_chars (list_ascii_of_string ref).

(** [parseFloat(String(cell)) || 0]. *)
Definition cell_num (g : list (list string)) (r c : nat) : option jnum :=
  option_map or_zero (parse_float (get_cell g r c)).

(** The cells of a range, row by row (the loops of lines 59-64 and
    79-85). *)
Definition range_cells (r1 c1 r2 c2 : nat) : list (nat * nat) :=
  r ← seq r1 (S r2 - r1) ; c ← seq c1 (S c2 - c1) ; [(r, c)].

(** [sum += value] over the cells of a range. *)
Definition range_sum (g : list (list string)) (cells : list (nat * nat)) : option jnum :=
  fold_left (fun acc rc => s ← acc ; v ← cell_num g rc.1 rc.2 ; jadd s v) cells (Some (Fin 0)).

(** [range.split(':')]. *)
Fixpoint split_colon (l : list ascii) : list (list ascii) :=
  match l with
  | [] => [[]]
  | c :: r =>
      let parts := split_colon r in
      if (c =? ":")%char then [] :: parts
      else match parts with p :: ps => (c :: p) :: ps | [] => [[c]] end
  end.

(** The range of [SUM(...)] or [AVERAGE(...)]: [Some (inl tt)] when
    [split] gives no second part and [parseCellRef(undefined)] throws,
    [Some (inr cells)] for two references, [None] otherwise. *)
Definition parse_range (range : list ascii) : option (unit + list (nat * nat)) :=
  match split_colon range with
  | st :: en :: _ =>
      match parseCellRef_chars st, parseCellRef_chars en with
      | Some (r1, c1), Some (r2, c2) => Some (inr (range_cells r1 c1 r2 c2))
      | _, _ => None
      end
  | _ => Some (inl tt)
  end.

(** [(sum / count).toFixed(2)], [count > 0]. *)
Definition average_fixed (sum : jnum) (count : nat) : option string :=
  match sum with
  | Fin z => if Z.abs z <? 2 ^ 40 then to_fixed2_ratio z (Z.of_nat count) else None
  | NegZero => Some "0.00"%string
  | _ => Some (to_fixed2 sum)
  end.

(** The text of [l] between its prefix of [n] characters and its last. *)
Definition inner (n : nat) (l : list ascii) : list ascii := take (length l - n - 1) (drop n l).

Definition has_prefix (p l : list ascii) : bool := bool_decide (take (length p) l = p).
Definition ends_paren (l : list ascii) : bool := bool_decide (last l = Some ")"%char).

(** The replacement of [/[A-Z]\d+/g] in [processedExpr] (lines 94-103):
    a reference in the grid becomes its number, any other match ['0']. *)
Fixpoint subst_refs (g : list (list string)) (fuel : nat) (l : list ascii) : option (list ascii) :=
  match fuel with
  | O => None
  | S fuel =>
  match l with
  | [] => Some []
  | c :: r =>
      let '(ds, rest) := span_digits r in
      if is_upper c && negb (bool_decide (ds = [])) then
        rep ← (match parseCellRef_chars (c :: ds) with
               | Some (row, col) => n ← cell_num g row col ; Some (list_ascii_of_string (to_string n))
               | None => Some ["0"%char]
               end) ;
        tl ← subst_refs g fuel rest ; Some (rep ++ tl)
      else tl ← subst_refs g fuel r ; Some (c :: tl)
  end
  end.

(** [evaluateFormula(formula)] (lines 44-113); [None] where a number or
    the text handed to [Function] leaves the model. *)
Definition evaluateFormula (g : list (list string)) (formula : string) : option string :=
  match list_ascii_of_string formula with
  | "="%char :: expr =>
      let sum_case :=
        if has_prefix (list_ascii_of_string "SUM(") expr && ends_paren expr then parse_range (inner 4 expr)
        else None in
      let avg_case :=
        if has_prefix (list_ascii_of_string "AVERAGE(") expr && ends_paren expr then parse_range (inner 8 expr)
        else None in
      match sum_case with
      | Some (inl _) => Some "#ERROR"%string
      | Some (inr cells) => s ← range_sum g cells ; Some (to_string s)
      | None =>
          match avg_case with
          | Some (inl _) => Some "#ERROR"%string
          | Some (inr cells) =>
              s ← range_sum g cells ;
              if bool_decide (cells = []) then Some "0"%string else average_fixed s (length cells)
          | None =>
              processed ← subst_refs g (S (length expr)) expr ;
              res ← run_function (string_of_list_ascii processed) ;
              Some (match res with
                    | inl _ => "#ERROR"%string
                    | inr v => if is_nan v then "#ERROR"%string else to_string v
                    end)
          end
      end
  | _ => Some formula
  end.

(** [getComputedValue(row, col)] (lines 116-122). *)
Definition getComputedValue (g : list (list string)) (r c : nat) : option string :=
  let v := get_cell g r c in
  match list_ascii_of_string v with
  | "="%char :: _ => evaluateFormula g v
  | _ => Some v
  end.

(** The statistics of lines 125-151. *)
Record stats_t : Type := mk_stats {
  st_sum : string;
  st_count : nat;
  st_average : string;
  st_min : string;
  st_max : string
}.

(** [<] on the numbers [stats] compares (never [NaN]). *)
Definition jlt (a b : jnum) : bool :=
  match a, b with
  | NegInf, NegInf | PosInf, _ => false
  | NegInf, _ | _, PosInf => true
  | _, NegInf => false
  | _, _ => fin_val a <? fin_val b
  end.

(** One cell of the loop of lines 131-142. *)
Definition stats_step (g : list (list string)) (acc : option (jnum * nat * jnum * jnum)) (rc : nat * nat) :
    option (jnum * nat * jnum * jnum) :=
  '(sum, count, mn, mx) ← acc ;
  cv ← getComputedValue g rc.1 rc.2 ;
  v ← option_map or_zero (parse_float cv) ;
  if is_zero v then Some (sum, count, mn, mx)
  else sum' ← jadd sum v ;
       Some (sum', S count, (if jlt v mn then v else mn), (if jlt mx v then v else mx)).

Definition stats (g : list (list string)) : option stats_t :=
  '(sum, count, mn, mx) ← fold_left (stats_step g) (range_cells 0 0 (ROWS - 1) (COLS - 1))
                                     (Some (Fin 0, O, PosInf, NegInf)) ;
  avg ← (if Nat.ltb 0 count then average_fixed sum count else Some "0"%string) ;
  Some (mk_stats (to_fixed2 sum) count avg
                 (if mn is PosInf then "0"%string else to_fixed2 mn)
                 (if mx is NegInf then "0"%string else to_fixed2 mx)).

(** The component's state: the grid, [selectedCell] and [formulaBar]. *)
Record sheet : Type := mk_sheet {
  grid : list (list string);
  selected : option (nat * nat);
  formulaBar : string
}.

Definition init_sheet : sheet := mk_sheet init_grid None "".

(** [handleCellClick(row, col)] (lines 153-156); outside the grid the
    read of the cell throws. *)
Definition handleCellClick (s : sheet) (r c : nat) : option sheet :=
  if Nat.ltb r ROWS && Nat.ltb c COLS then Some (mk_sheet (grid s) (Some (r, c)) (get_cell (grid s) r c))
  else None.

(** [handleCellChange(row, col, value)] (lines 158-163). *)
Definition handleCellChange (s : sheet) (r c : nat) (v : string) : sheet :=
  mk_sheet (set_cell (grid s) r c v) (selected s)
           (if bool_decide (selected s = Some (r, c)) then v else formulaBar s).

(** [handleFormulaBarChange(value)] (lines 165-170). *)
Definition handleFormulaBarChange (s : sheet) (v : string) : sheet :=
  mk_sheet (match selected s with Some (r, c) => set_cell (grid s) r c v | None => grid s end) (selected s) v.

(** [fillSampleData()] (lines 177-196). *)
Definition sample_sets : list (nat * nat * string) :=
  map (fun i => (i, 0%nat, pretty (S i))) (seq 0 10) ++
  map (fun i => (i, 1%nat, pretty (i + 10)%nat)) (seq 0 10) ++
  [(10, 0, "=SUM(A1:A10)"); (10, 1, "=SUM(B1:B10)"); (10, 2, "=A11+B11");
   (11, 0, "=AVERAGE(A1:A10)"); (11, 1, "=AVERAGE(B1:B10)");
   (12, 0, "=A1*2"); (12, 1, "=B1*B1")]%nat%string.

Definition fillSampleData (s : sheet) : sheet :=
  mk_sheet (fold_left (fun g '(r, c, v) => set_cell g r c v) sample_sets (grid s)) (selected s) (formulaBar s).

(** [setSelectedCell(cell)] then [setFormulaBar] of the cell's text. *)
Definition select (s : sheet) (r c : nat) : sheet := mk_sheet (grid s) (Some (r, c)) (get_cell (grid s) r c).

Definition deselect (s : sheet) : sheet := mk_sheet (grid s) None (formulaBar s).

(** [onKeyDown] of the cell being edited (lines 304-326): [Enter],
    [Tab] and [Escape]. *)
Inductive key : Type := Enter | Tab | Escape.

Definition onKeyDown (s : sheet) (k : key) : sheet :=
  match selected s with
  | None => s
  | Some (row, col) =>
      match k with
      | Enter => if Nat.ltb row (ROWS - 1) then select s (S row) col else deselect s
      | Tab => if Nat.ltb col (COLS - 1) then select s row (S col)
               else if Nat.ltb row (ROWS - 1) then select s (S row) 0 else deselect s
      | Escape => deselect s
      end
  end.

(** The events of the component: a click on a cell, an input in the
    cell being edited or in the formula bar, a key, the timer that
    [onBlur] sets (lines 327-330), the sample-data button.  The cell's
    input exists only for the selected cell. *)
Inductive event : Type :=
  | Click (r c : nat)
  | CellInput (v : string)
  | FormulaInput (v : string)
  | KeyDown (k : key)
  | BlurTimeout
  | FillSample.

Definition step (s : sheet) (e : event) : option sheet :=
  match e with
  | Click r c => handleCellClick s r c
  | CellInput v => Some (match selected s with Some (r, c) => handleCellChange s r c v | None => s end)
  | FormulaInput v => Some (handleFormulaBarChange s v)
  | KeyDown k => Some (onKeyDown s k)
  | BlurTimeout => Some (deselect s)
  | FillSample => Some (fillSampleData s)
  end.

(** A sequence of events; [None] when one throws. *)
Fixpoint run_events (s : sheet) (es : list event) : option sheet :=
  match es with
  | [] => Some s
  | e :: es => s' ← step s e ; run_events s' es
  end.

(** The states the component reaches from its first render. *)
Inductive reachable : sheet -> Prop :=
  | reach_init : reachable init_sheet
  | reach_step s e s' : reachable s -> step s e = Some s' -> reachable s'.

(** The label of the formula bar (line 234). *)
Definition formula_label (s : sheet) : string :=
  match selected s with
  | Some (r, c) => (getColumnLetter c ++ pretty (S r) ++ ":")%string
  | None => "Formula Bar:"%string
  end.

(** [typeof v === 'string' && v.startsWith('=')]. *)
Definition is_formula (v : string) : bool :=
  match list_ascii_of_string v with "="%char :: _ => true | _ => false end.

(** What a cell of the table shows: the selected cell an input holding
    its raw text (lines 299-302), the others [getComputedValue] under a
    title naming the cell and its formula (lines 346-376). *)
Inductive cell_content : Type :=
  | Editing (raw : string)
  | Showing (computed : option string) (title : string).

Record cell_view : Type := mk_cell_view {
  content : cell_content;
  fx_mark : bool
}.

(** The cell [(r, c)] rendered (lines 299-381); the [fx] mark of a
    formula cell needs [selectedCell?.row !== row && selectedCell?.col
    !== col], where a missing selection gives [undefined]. *)
Definition render_cell (s : sheet) (r c : nat) : cell_view :=
  let v := get_cell (grid s) r c in
  mk_cell_view
    (if bool_decide (selected s = Some (r, c)) then Editing v
     else Showing (getComputedValue (grid s) r c)
            (getColumnLetter c ++ pretty (S r) ++ ": " ++ (if is_formula v then v else "Value"))%string)
    (is_formula v && negb (bool_decide (option_map fst (selected s) = Some r))
                  && negb (bool_decide (option_map snd (selected s) = Some c))).

End Grid.

Module GridFacts.
Import JsNum JsExpr Grid.

(** The shape of the grid, and a selection inside it. *)
Definition wf_grid (g : list (list string)) : Prop :=
  length g = ROWS /\ Forall (fun row => length row = COLS) g.

Definition sel_ok (s : sheet) : Prop :=
  match selected s with Some (r, c) => (r < ROWS /\ c < COLS)%nat | None => True end.

(** The formula bar shows the text of the selected cell. *)
Definition bar_ok (s : sheet) : Prop :=
  match selected s with Some (r, c) => formulaBar s = get_cell (grid s) r c | None => True end.

Lemma set_cell_wf g r c v : wf_grid g -> wf_grid (set_cell g r c v).
Proof.
  intros [Hl Hf]. unfold set_cell. split.
  - by rewrite length_alter.
  - apply Forall_alter; [done|]. intros row _ Hrow. by rewrite length_insert.
Qed.

Lemma fill_wf g : wf_grid g -> wf_grid (fold_left (fun g '(r, c, v) => set_cell g r c v) sample_sets g).
Proof.
  generalize sample_sets. intros l. revert g.
  induction l as [|[[r c] v] l IH]; intros g Hg; simpl; [done|].
  apply IH, set_cell_wf, Hg.
Qed.

Lemma get_set_cell_same g r c v :
  wf_grid g -> (r < ROWS)%nat -> (c < COLS)%nat -> get_cell (set_cell g r c v) r c = v.
Proof.
  intros [Hl Hf] Hr Hc. unfold get_cell, set_cell.
  rewrite list_lookup_alter, decide_True by done.
  destruct (g !! r) as [row|] eqn:Hrow.
  - simpl. rewrite list_lookup_insert_eq; [done|].
    rewrite Forall_lookup in Hf. rewrite (Hf _ _ Hrow). done.
  - apply lookup_ge_None_1 in Hrow. lia.
Qed.

Lemma get_set_cell_other g r c r' c' v :
  (r, c) <> (r', c') -> get_cell (set_cell g r c v) r' c' = get_cell g r' c'.
Proof.
  intros Hne. unfold get_cell, set_cell. rewrite list_lookup_alter.
  case_decide as Hr; [|done]. subst r'.
  destruct (g !! r) as [row|]; simpl; [|done].
  rewrite list_lookup_insert_ne; [done|]. congruence.
Qed.

(** The selection of [select] and [deselect]. *)
Lemma select_ok s r c : (r < ROWS)%nat -> (c < COLS)%nat -> sel_ok (select s r c) /\ bar_ok (select s r c).
Proof. done. Qed.

Lemma onKeyDown_ok s k : sel_ok s -> sel_ok (onKeyDown s k) /\ (bar_ok s -> bar_ok (onKeyDown s k)).
Proof.
  unfold onKeyDown, sel_ok, bar_ok. destruct (selected s) as [[row col]|] eqn:E; [|by rewrite E].
  intros [Hr Hc]. unfold ROWS, COLS in *.
  destruct k; simpl;
    repeat match goal with
    | |- context [Nat.ltb ?a ?b] => destruct (Nat.ltb_spec a b)
    end; simpl; split; try done; lia.
Qed.

(** One event keeps the grid's shape and the selection inside it. *)
Lemma step_bounds s e s' :
  wf_grid (grid s) -> sel_ok s -> step s e = Some s' -> wf_grid (grid s') /\ sel_ok s'.
Proof.
  intros Hg Hs Hstep.
  destruct e as [r c|v|v|k| |]; simpl in Hstep.
  - unfold handleCellClick in Hstep.
    destruct (Nat.ltb_spec r ROWS), (Nat.ltb_spec c COLS); simpl in Hstep; simplify_eq; done.
  - simplify_eq. unfold sel_ok in *. destruct (selected s) as [[r c]|] eqn:E; [|by rewrite E].
    split; [by apply set_cell_wf|]. simpl. by rewrite E.
  - simplify_eq. unfold handleFormulaBarChange, sel_ok in *.
    destruct (selected s) as [[r c]|] eqn:E; simpl; rewrite ?E; split; auto using set_cell_wf.
  - simplify_eq. split; [|by apply onKeyDown_ok].
    unfold onKeyDown. destruct (selected s) as [[row col]|]; [|done].
    destruct k; repeat (destruct (Nat.ltb _ _)); done.
  - simplify_eq. done.
  - simplify_eq. split; [by apply fill_wf|done].
Qed.

(** C25: every step of the spreadsheet keeps the grid at 20 rows of 10
    cells and the selection inside it: keyboard moves stop at the last
    row, [Tab] wraps to the next row, and a click outside the grid is
    an error rather than a selection. *)
Theorem step_preserves_bounds s e s' :
  wf_grid (grid s) -> sel_ok s -> step s e = Some s' -> wf_grid (grid s') /\ sel_ok s'.
Proof. apply step_bounds. Qed.

(** Every state the component reaches has the grid's shape and a
    selection inside it. *)
Corollary reachable_bounds s : reachable s -> wf_grid (grid s) /\ sel_ok s.
Proof.
  induction 1 as [|s e s' _ [Hg Hs] Hstep].
  - split; [split; [done|] |done]. repeat constructor.
  - eapply step_bounds; eauto.
Qed.

(** C26: the formula bar shows the text of the selected cell after every
    event except [fillSampleData], whose writes bypass it. *)
Theorem step_preserves_bar s e s' :
  wf_grid (grid s) -> sel_ok s -> bar_ok s -> e <> FillSample -> step s e = Some s' -> bar_ok s'.
Proof.
  intros Hg Hs Hb Hne Hstep.
  destruct e as [r c|v|v|k| |]; simpl in Hstep; try congruence.
  - unfold handleCellClick in Hstep. destruct (_ && _); simplify_eq; done.
  - simplify_eq. unfold sel_ok, bar_ok in *.
    destruct (selected s) as [[r c]|] eqn:E; [|by rewrite E]. simpl. rewrite E.
    rewrite bool_decide_eq_true_2 by done. destruct Hs. by rewrite get_set_cell_same.
  - simplify_eq. unfold handleFormulaBarChange, sel_ok, bar_ok in *.
    destruct (selected s) as [[r c]|] eqn:E; simpl; rewrite ?E; [|done].
    destruct Hs. by rewrite get_set_cell_same.
  - simplify_eq. by apply onKeyDown_ok.
  - simplify_eq. done.
Qed.

(** [parseFloat] of a text that starts with [=] is [NaN]. *)
Lemma parse_float_formula rest : parse_float (String "=" rest) = Some NaN.
Proof. reflexivity. Qed.

(** C28: [SUM], [AVERAGE] and a reference read a cell's raw text through
    [parseFloat(...) || 0], so a cell that holds a formula counts as
    [0], whatever its formula shows. *)
Theorem formula_cell_reads_zero g r c rest :
  get_cell g r c = String "=" rest -> cell_num g r c = Some (Fin 0).
Proof. intros H. unfold cell_num. by rewrite H, parse_float_formula. Qed.

(** The demo's own sample data: [A11] shows 55 and [B11] 145, and
    [C11 = A11+B11], "the sum of the sums", shows 0. *)
Example sample_sum_of_sums :
  let g := grid (fillSampleData init_sheet) in
  getComputedValue g 10 0 = Some "55"%string /\ getComputedValue g 10 1 = Some "145"%string /\
  getComputedValue g 10 2 = Some "0"%string.
Proof. vm_compute. auto. Qed.

(** A negative number substituted after [-] makes [--], which strict
    JavaScript refuses: with [F1 = -5], [=2-F1] shows [#ERROR] and
    [=2+F1] shows [-3]. *)
Example subtract_negative_reference :
  let g := set_cell init_grid 0 5 "-5" in
  evaluateFormula g "=2-F1" = Some "#ERROR"%string /\ evaluateFormula g "=2+F1" = Some "-3"%string.
Proof. vm_compute. auto. Qed.

Lemma label_check :
  forallb (fun r => forallb (fun c => bool_decide (parseCellRef (getColumnLetter c ++ pretty (S r))%string = Some (r, c)%nat))
                            (seq 0 COLS)) (seq 0 ROWS) = true.
Proof. vm_compute. reflexivity. Qed.

(** C27: the name of a cell as the grid labels it, its column letter
    ([getColumnLetter]) and its row number ([row + 1]), parses back to
    that cell. *)
Theorem parseCellRef_label r c :
  (r < ROWS)%nat -> (c < COLS)%nat -> parseCellRef (getColumnLetter c ++ pretty (S r))%string = Some (r, c).
Proof.
  intros Hr Hc. pose proof label_check as H.
  rewrite forallb_forall in H. specialize (H r). rewrite in_seq in H.
  specialize (H ltac:(lia)). rewrite forallb_forall in H. specialize (H c).
  rewrite in_seq in H. specialize (H ltac:(lia)). by apply bool_decide_eq_true in H.
Qed.

(** A reference [parseCellRef] accepts is inside the grid. *)
Lemma parseCellRef_bounds ref r c : parseCellRef ref = Some (r, c) -> (r < ROWS)%nat /\ (c < COLS)%nat.
Proof.
  unfold parseCellRef, parseCellRef_chars. destruct (list_ascii_of_string ref) as [|ch ds]; [done|].
  destruct (_ && _ && _); [|done].
  destruct (_ && _ && _ && _) eqn:E; [|done]. intros [= <- <-].
  repeat rewrite andb_true_iff in E. rewrite !Z.leb_le, !Z.ltb_lt in E. unfold ROWS, COLS in *. lia.
Qed.

(** After a click on [A1], [fillSampleData] writes [1] into [A1] while
    the formula bar still shows the empty text. *)
Example fill_sample_stale_bar :
  exists s, step init_sheet (Click 0 0) = Some s /\
    formulaBar (fillSampleData s) = ""%string /\ get_cell (grid (fillSampleData s)) 0 0 = "1"%string.
Proof. eexists. split; [reflexivity|]. vm_compute. auto. Qed.

(** The timer [onBlur] starts (lines 327-330) clears whatever is
    selected when it fires: when the user, editing [A1], clicks [B2]
    within 100 ms of leaving [A1], the click selects [B2] and the
    timer then clears that selection. *)
Example blur_clears_next_selection :
  exists s, run_events init_sheet [Click 0 0; Click 1 1; BlurTimeout] = Some s /\ selected s = None.
Proof. eexists. split; reflexivity. Qed.

Lemma init_grid_wf : wf_grid init_grid.
Proof. split; [done|]. repeat constructor. Qed.

Lemma step_preserves_bounds_witness :
  step init_sheet (Click 3 2) = Some (select init_sheet 3 2) /\
  wf_grid (grid (select init_sheet 3 2)) /\ sel_ok (select init_sheet 3 2).
Proof.
  assert (Hs : step init_sheet (Click 3 2) = Some (select init_sheet 3 2)) by reflexivity.
  split; [exact Hs|].
  exact (step_preserves_bounds init_sheet (Click 3 2) _ init_grid_wf I Hs).
Defined.

Lemma step_preserves_bar_witness :
  step (select init_sheet 3 2) (CellInput "=A1") = Some (handleCellChange (select init_sheet 3 2) 3 2 "=A1") /\
  bar_ok (handleCellChange (select init_sheet 3 2) 3 2 "=A1").
Proof.
  assert (Hs : step (select init_sheet 3 2) (CellInput "=A1") =
               Some (handleCellChange (select init_sheet 3 2) 3 2 "=A1")) by reflexivity.
  split; [exact Hs|].
  refine (step_preserves_bar (select init_sheet 3 2) (CellInput "=A1") _ init_grid_wf _ eq_refl _ Hs).
  - unfold sel_ok, select, ROWS, COLS; simpl; lia.
  - discriminate.
Defined.

Lemma parseCellRef_label_witness :
  parseCellRef (getColumnLetter 2 ++ pretty 4%nat)%string = Some (3%nat, 2%nat).
Proof. refine (parseCellRef_label 3 2 _ _); unfold ROWS, COLS; lia. Defined.

Lemma formula_cell_reads_zero_witness :
  cell_num (grid (fillSampleData init_sheet)) 10 0 = Some (Fin 0).
Proof. exact (formula_cell_reads_zero (grid (fillSampleData init_sheet)) 10 0 "SUM(A1:A10)" ltac:(vm_compute; reflexivity)). Defined.


(** Without a selection every formula cell shows the mark. *)
Lemma fx_mark_unselected s r c :
  selected s = None -> fx_mark (render_cell s r c) = is_formula (get_cell (grid s) r c).
Proof. intros Hs. unfold render_cell. rewrite Hs. simpl. by rewrite !andb_true_r. Qed.

(** A cell of the selected row other than the selected one is
    displayed, not edited. *)
Lemma render_cell_showing s r c c' :
  selected s = Some (r, c) -> c' <> c ->
  exists comp t, content (render_cell s r c') = Showing comp t.
Proof.
  intros Hs Hc. unfold render_cell. rewrite Hs. simpl.
  rewrite bool_decide_eq_false_2 by congruence. eauto.
Qed.


End GridFacts.
