(* ===== verification/Demos.v ===== *)
(** * Two React demonstration components

    - [StateMachineDemo] ([src/unnamed/part_004]): a four-state machine
      run by [useMachine], four buttons that send its actions, each
      disabled in some states, and a button that simulates an
      asynchronous operation.  Module [MachineDemo] holds its reducer,
      its buttons and its events as a step function on the component's
      state; the random outcome of the simulation is a parameter of the
      timer's event.
    - [UseEffectReplacementDemo]
      ([src/examples/react-app/src/components/UseEffectReplacementDemo.tsx]):
      side effects written as [useComputed] bodies, which the React
      hooks run at every render.  Module [EffectReplacement] is one
      render, as a program of the engine, given the values of the three
      signals; the emoji at the head of the logged texts are left out.
    - [PluginDemo] ([src/unnamed/part_005]): three signals, a debounced
      signal and [useComputed] bodies, one of which feeds the input to
      the debounced setter at every render.  Module [PluginDemo] is one
      render over the React hooks of [Hooks] (the library of
      [src/src]), given the refs of the previous render.
    - [EffectMonadDemo]
      ([src/examples/react-app/src/components/EffectMonadDemo.tsx]): a
      counter, a log and the hooks' [useEffect], whose handlers chain
      [bind] on the effect.  Module [EffectMonadDemo] is its render and
      its handlers; [toLocaleTimeString] is a parameter of the render. *)

From Stdlib Require Import ZArith String.
From stdpp Require Import base list gmap strings.
From S2P Require Import Prelude JsValue Engine Json Signal Effect Plugins SignalLib Hooks.

Local Open Scope resig_scope.

Module MachineDemo.

(** [type State] and [type Action] (lines 3-4). *)
Inductive State : Type := Idle | Loading | Success | Error.
Inductive Action : Type := Start | ASuccess | AError | Reset.

#[export] Instance State_eq_dec : EqDecision State.
Proof. solve_decision. Defined.

(** The reducer given to [useMachine] (lines 8-21). *)
Definition reducer (state : State) (action : Action) : State :=
  match state with
  | Idle => if action is Start then Loading else state
  | Loading => match action with ASuccess => Success | AError => Error | _ => state end
  | Success | Error => if action is Reset then Idle else state
  end.

(** [getStateColor()] (lines 26-34). *)
Definition getStateColor (state : State) : string :=
  match state with
  | Idle => "#6c757d"
  | Loading => "#ffc107"
  | Success => "#28a745"
  | Error => "#dc3545"
  end.

(** The [disabled] attribute of the button of each action (lines
    70-92). *)
Definition disabled (state : State) (action : Action) : bool :=
  match action with
  | Start => bool_decide (state <> Idle)
  | ASuccess | AError => bool_decide (state <> Loading)
  | Reset => bool_decide (state = Idle \/ state = Loading)
  end.

(** The transitions the component lists (lines 105-111). *)
Definition transitions : list (State * Action * State) :=
  [(Idle, Start, Loading); (Loading, ASuccess, Success); (Loading, AError, Error);
   (Success, Reset, Idle); (Error, Reset, Idle)].

(** The component: the machine's state, [attempts], and the outcomes of
    the simulation timers still to fire. *)
Record demo : Type := mk_demo {
  state : State;
  attempts : Z;
  timers : nat
}.

Definition init : demo := mk_demo Idle 0 0.

(** [send(action)], through the machine of [useMachine]. *)
Definition send (d : demo) (a : Action) : demo := mk_demo (reducer (state d) a) (attempts d) (timers d).

(** [simulateAsync()] (lines 36-43): [send('start')], [attempts + 1],
    and a timer. *)
Definition simulateAsync (d : demo) : demo :=
  mk_demo (reducer (state d) Start) (attempts d + 1) (S (timers d)).

(** The events: a click on an enabled action button, a click on
    [Simulate], a simulation timer firing with the outcome
    [Math.random() > 0.5]. *)
Inductive event : Type :=
  | Click (a : Action)
  | Simulate
  | Fire (success : bool).

Definition step (d : demo) (e : event) : option demo :=
  match e with
  | Click a => if disabled (state d) a then None else Some (send d a)
  | Simulate => Some (simulateAsync d)
  | Fire ok =>
      match timers d with
      | O => None
      | S n => Some (mk_demo (reducer (state d) (if ok then ASuccess else AError)) (attempts d) n)
      end
  end.

Fixpoint run (d : demo) (es : list event) : option demo :=
  match es with
  | [] => Some d
  | e :: es => d' ← step d e ; run d' es
  end.

End MachineDemo.

Module EffectReplacement.

(** A value in a template literal, for the numbers and strings the
    component interpolates. *)
Definition interp (v : jsval) : string :=
  match v with JStr s => s | _ => Plugins.stored_text v end.

Definition log (msg : string) : M unit := emit (OLog "console.log" (JStr msg)).

(** The [useComputed] bodies of lines 10-80, in order, at one render
    with the values [count], [name] and [isOnline]; [fetchFn] is the
    network call of [fetch('/api/status')]. *)
Definition render (fetchFn : nat) (count : jsval) (name : string) (isOnline : bool) : M jsval :=
  emit (OLog "document.title" (JStr (name +:+ " - Count: " +:+ interp count))) ;;;
  log ("Count changed to: " +:+ interp count) ;;;
  (if isOnline then
     log " Connected to network" ;;;
     invoke fetchFn (JStr "/api/status") (fun _ => cret tt) (fun _ => log " Network check failed")
   else log " Disconnected from network") ;;;
  storage_set_m "user-count" (interp count) ;;;
  storage_set_m "user-name" name ;;;
  log " Saved to localStorage" ;;;
  (if (10 <? int_of count)%Z && (3 <? String.length name)%nat then log " Achievement unlocked: Power user!"
   else cret tt) ;;;
  interval <- set_timer 2000 true (body (log (" Timer tick - Count: " +:+ interp count +:+ ", User: " +:+ name))) ;;
  _ <- set_timer 10000 false (body (clear_timer_m interval ;;; log " Timer cleaned up")) ;;
  let currentStatus := if (5 <? int_of count)%Z then "active" else "inactive" in
  (if String.eqb currentStatus "active" then log " User is now active" else log " User is inactive") ;;;
  cret (JStr currentStatus).

End EffectReplacement.

Module MachineDemoFacts.
Import MachineDemo.

(** C30: the reducer of [StateMachineDemo] implements the transition
    table the component displays: a triple is in the table exactly when
    the reducer moves its state by its action to a different state;
    every other action leaves the state unchanged. *)
Theorem reducer_implements_table s a s' :
  In (s, a, s') transitions <-> reducer s a = s' /\ s' <> s.
Proof.
  destruct s, a, s'; cbn; split;
    intros H; repeat (destruct H as [H|H]); try discriminate; try tauto; naive_solver.
Qed.

(** A button of the component is disabled exactly when the machine
    would ignore its action in the current state: every enabled button
    changes the state. *)
Theorem disabled_iff_ignored s a : disabled s a = true <-> reducer s a = s.
Proof. destruct s, a; vm_compute; intuition congruence. Qed.

(** [simulateAsync] is not disabled and counts every click as an
    attempt: a second click while the first operation is loading adds
    an attempt and a timer, though the machine ignores its [start]. *)
Example simulate_counts_ignored_clicks :
  run init [Simulate; Simulate] = Some (mk_demo Loading 2 2).
Proof. reflexivity. Qed.

End MachineDemoFacts.

Module PluginDemo.

(** [s.toUpperCase()] and [s.trim()] on ASCII text. *)
Definition upper_char (c : Ascii.ascii) : Ascii.ascii :=
  let n := Ascii.nat_of_ascii c in
  if (97 <=? n)%nat && (n <=? 122)%nat then Ascii.ascii_of_nat (n - 32) else c.

Definition js_upper (s : string) : string :=
  String.string_of_list_ascii (List.map upper_char (String.list_ascii_of_string s)).

Definition is_ws (c : Ascii.ascii) : bool :=
  existsb (fun n => Nat.eqb (Ascii.nat_of_ascii c) n) [32; 9; 10; 11; 12; 13]%nat.

Fixpoint drop_ws (l : list Ascii.ascii) : list Ascii.ascii :=
  match l with
  | c :: r => if is_ws c then drop_ws r else l
  | [] => []
  end.

Definition js_trim (s : string) : string :=
  String.string_of_list_ascii (rev (drop_ws (rev (drop_ws (String.list_ascii_of_string s))))).

Definition text (v : jsval) : string := match v with JStr s => s | _ => "" end.

(** [count > threshold] on numbers ([NaN] compares false). *)
Definition num_gt (a b : jsval) : bool :=
  match a, b with JNum x, JNum y => (y <? x)%Z | _, _ => false end.

(** The refs of the component's hooks. *)
Record refs : Type := mk_refs {
  r_input : nat;
  r_count : nat;
  r_threshold : nat;
  r_debounced : nat * nat * nat
}.

(** What a render shows, and the setters it hands to the inputs. *)
Record view : Type := mk_view {
  v_input : jsval;
  v_count : jsval;
  v_debounced : jsval;
  v_filtered : jsval;
  v_transformed : jsval;
  v_composed : jsval;
  setInput : jsval -> M unit;
  setCount : jsval -> M unit;
  setThreshold : jsval -> M unit
}.

(** One render of [PluginDemo] (lines 3-55). *)
Definition render (r : option refs) : M (refs * view) :=
  a <- Hooks.useSignal (L := core_lib) (option_map r_input r) (JStr "") ;;
  b <- Hooks.useSignal (L := core_lib) (option_map r_count r) (num 0) ;;
  c <- Hooks.useSignal (L := core_lib) (option_map r_threshold r) (num 5) ;;
  d <- Hooks.useDebouncedSignal (L := core_lib) (option_map (fun x => x.(r_debounced).1.1) r)
         (option_map (fun x => x.(r_debounced).1.2) r) (option_map (fun x => x.(r_debounced).2) r) (JStr "") 500 ;;
  let input := a.2.1 in let count := b.2.1 in let threshold := c.2.1 in
  let debouncedValue := d.2.2 in
  d.2.1.2 input ;;;
  emit (OLog "CountLogger:" count) ;;;
  storage_set_m "plugin-demo-input" (text input) ;;;
  let filteredValue := if num_gt count threshold then count else num 0 in
  let transformedValue := JStr (js_upper (text input)) in
  let trimmed := js_trim (text debouncedValue) in
  let composedValue := JStr (if (2 <? String.length trimmed)%nat then js_upper trimmed else "") in
  cret (mk_refs a.1 b.1 c.1 d.1,
        mk_view input count debouncedValue filteredValue transformedValue composedValue a.2.2 b.2.2 c.2.2).

End PluginDemo.

Module EffectMonadDemo.
Import EffectReplacement.

(** The cells of the component's hooks: [counter], [logMessages] and the
    effect of [useEffect]. *)
Record refs : Type := mk_refs {
  r_counter : nat;
  r_logs : nat;
  r_effect : nat
}.

(** One render (lines 4-10), the time of day written by
    [toLocaleTimeString]; it returns the refs and what it shows. *)
Definition render (toLocaleTimeString : Z -> string) (r : option refs) : M (refs * (jsval * jsval * jsval)) :=
  a <- Hooks.useSignal (L := core_lib) (option_map r_counter r) (num 0) ;;
  n <- now ;; i <- new_id ;;
  b <- Hooks.useSignal (L := core_lib) (option_map r_logs r)
         (JArr i [JStr ("[" +:+ toLocaleTimeString n +:+ "] EffectMonadDemo initialized")]) ;;
  c <- Hooks.useEffect (L := core_lib) (option_map r_effect r)
         (JStr ("Effect initialized with counter: " +:+ interp a.2.1)) ;;
  cret (mk_refs a.1 b.1 c.1, (a.2.1, b.2.1, c.2.1.1)).

(** [addLog(message)] (lines 59-61): [setLogMessages] is the signal's
    [_set], which stores the updater function itself; the updater, and
    the [message] it would add, never run. *)
Definition addLog (r : refs) (message : string) : M unit :=
  i <- new_id ;; @lib_set core_lib (r_logs r) (JFun i).

(** [handleSimpleEffect] (lines 13-16). *)
Definition handleSimpleEffect (r : refs) (counter : jsval) : M unit :=
  @lib_set core_lib (r_effect r) (JStr ("Simple effect: counter is " +:+ interp counter)) ;;;
  addLog r ("Simple effect executed with counter: " +:+ interp counter).

(** The functions [handleChainedEffects] binds (lines 22-41): write
    [label value suffix] into the effect, log it, return the effect. *)
Definition chain_step (r : refs) (label suffix logLabel : string) (value : jsval) : M nat :=
  let newValue := label +:+ interp value +:+ suffix in
  @lib_set core_lib (r_effect r) (JStr newValue) ;;;
  addLog r (logLabel +:+ newValue) ;;;
  cret (r_effect r).

Definition step1 (r : refs) := chain_step r "Step 1: " " -> processed" "Effect Step 1: ".
Definition step2 (r : refs) := chain_step r "Step 2: " " -> enhanced" "Effect Step 2: ".
Definition step3 (r : refs) := chain_step r "Final: " " -> completed" "Effect Final: ".

(** [handleChainedEffects] (lines 18-44). *)
Definition handleChainedEffects (r : refs) : M unit :=
  addLog r "Starting effect chain..." ;;;
  step1Effect <- Effect.bind (r_effect r) (step1 r) ;;
  step2Effect <- Effect.bind step1Effect (step2 r) ;;
  _ <- Effect.bind step2Effect (step3 r) ;;
  addLog r "Effect chain completed!".

(** [handleEffectWithCounter] (lines 46-57). *)
Definition handleEffectWithCounter (r : refs) (counter : jsval) : M unit :=
  _ <- Effect.bind (r_effect r) (fun value =>
         @lib_set core_lib (r_effect r)
           (JStr ("Counter effect: " +:+ interp value +:+ " + counter(" +:+ interp counter +:+ ") = result")) ;;;
         addLog r ("Counter effect: combined " +:+ interp value +:+ " with counter " +:+ interp counter) ;;;
         cret (r_effect r)) ;;
  addLog r ("Counter effect executed with counter: " +:+ interp counter).

(** [clearLogs] (lines 62-64). *)
Definition clearLogs (r : refs) : M unit := i <- new_id ;; @lib_set core_lib (r_logs r) (JArr i []).

(** The subscriber the first [bind] of [handleChainedEffects] adds to
    the effect, its result effect being [r1]. *)
Definition listener (r : refs) (r1 : nat) : jsval -> prog :=
  fun x => body (Effect.bind_listener r1 (step1 r) x).

End EffectMonadDemo.

Module EffectMonadFacts.
Import EffectReplacement EffectMonadDemo.

(** [_set] of a new value, run by the interpreter with fuel [n]: the
    read, the write, then the notification of the subscribers. *)
Lemma exec_set_changed n c v K s :
  js_same v (cur s c) = false ->
  exec n (Signal._set c v K) s =
  match n with
  | S (S (S n')) => notify n' c (Signal.current_of c) 0 (assign_cell c v s) ≫= exec n' (K tt)
  | _ => None
  end.
Proof.
  intros Hne. destruct n as [|[|[|n]]]; cbn; rewrite ?Hne; done.
Qed.

(** The notification calls the first subscriber first. *)
Lemma notify_first n c arg s h l rest :
  subs_of s c = (h, l) :: rest ->
  notify (S n) c arg 0 s = exec n (l (arg (vals s) (next s))) (bump s) ≫= notify n c arg (S h).
Proof. intros Hs. cbn. rewrite Hs, next_entry_cons_ge by lia. done. Qed.

Lemma length_str_app a b : String.length (a +:+ b) = String.length a + String.length b.
Proof. induction a; simpl; auto. Qed.

(** A text wrapped in a label and a suffix is another text. *)
Lemma js_same_wrapped label y suffix :
  String.length label + String.length suffix <> 0 ->
  js_same (JStr (label +:+ y +:+ suffix)) (JStr y) = false.
Proof.
  intros Hl. destruct (js_same _ _) eqn:E; [|done].
  apply js_same_eq in E. injection E as E. apply (f_equal String.length) in E.
  rewrite !length_str_app in E. lia.
Qed.

(** Once the first [bind]'s subscriber is the effect's only one, a call
    of it writes a longer text into the effect, which calls it again:
    no amount of fuel lets it return. *)
Lemma chain_loop r r1 : forall m y s h,
  subs_of s (r_effect r) = [(h, listener r r1)] -> cur s (r_effect r) = JStr y ->
  exec m (listener r r1 (JStr y)) s = None.
Proof.
  intros m. induction m as [m IH] using (well_founded_induction lt_wf).
  intros y s h Hsubs Hcur.
  unfold listener at 1, body, Effect.bind_listener, step1, chain_step, cbind.
  change (@lib_set core_lib) with Signal._set.
  rewrite exec_set_changed by (rewrite Hcur; apply js_same_wrapped; done).
  destruct m as [|[|[|[|m]]]]; try done.
  rewrite (notify_first _ _ _ _ h (listener r r1) []) by (by rewrite Signal.subs_of_assign).
  rewrite Signal.current_of_assign.
  rewrite (IH m ltac:(lia) _ _ h); [done| |].
  - by rewrite Signal.subs_of_bump, Signal.subs_of_assign.
  - by rewrite Signal.cur_bump, cur_assign_eq.
Qed.

(** [addLog] on a log without subscribers stores the updater function. *)
Lemma returns_addLog r msg s :
  subs_of s (r_logs r) = [] ->
  returns (addLog r msg) s tt (Signal.set_quiet (r_logs r) (JFun (next s)) (bump s)).
Proof.
  intros Hs. eapply returns_bind; [apply returns_new_id|].
  apply Signal.returns_set_quiet. by rewrite Signal.subs_of_bump.
Qed.

(** A step of the chain on an effect and a log without subscribers. *)
Lemma returns_chain_step r label suffix logLabel v s :
  subs_of s (r_effect r) = [] -> subs_of s (r_logs r) = [] ->
  let s1 := Signal.set_quiet (r_effect r) (JStr (label +:+ interp v +:+ suffix)) s in
  returns (chain_step r label suffix logLabel v) s (r_effect r)
    (Signal.set_quiet (r_logs r) (JFun (next s1)) (bump s1)).
Proof.
  intros He Hl s1. unfold chain_step.
  eapply returns_bind; [by apply Signal.returns_set_quiet|].
  eapply returns_bind; [apply returns_addLog; by rewrite Signal.subs_of_set_quiet|].
  apply returns_ret.
Qed.

(** C24: the handler of the "Chained Effects (bind)" button never
    returns: the second [bind] runs [step2], which writes the effect;
    the effect's subscriber from the first [bind] runs [step1] on the
    new text and writes ["Step 1: " + value + " -> processed"] into the
    effect again, which calls that subscriber again, with a longer text
    each time.  From any store where the log and the effect have no
    subscribers and the effect holds a text, the handler has no
    terminating run (in JavaScript the call stack overflows). *)
Theorem chained_effects_diverge r s s' :
  r_logs r <> r_effect r -> r_effect r < next s ->
  subs_of s (r_logs r) = [] -> subs_of s (r_effect r) = [] ->
  (exists x, cur s (r_effect r) = JStr x) ->
  ~ big (body (handleChainedEffects r)) s s'.
Proof.
  intros Hle Hlt Hl He [x Hx] Hbig.
  unfold body, handleChainedEffects, cbind at 1 in Hbig.
  apply (proj1 (returns_addLog r _ s Hl _ _)) in Hbig.
  set (s0 := Signal.set_quiet (r_logs r) (JFun (next s)) (bump s)) in Hbig.
  assert (He0 : subs_of s0 (r_effect r) = []) by (subst s0; by rewrite Signal.subs_of_set_quiet, Signal.subs_of_bump).
  assert (Hl0 : subs_of s0 (r_logs r) = []) by (subst s0; by rewrite Signal.subs_of_set_quiet, Signal.subs_of_bump).
  assert (Hx0 : cur s0 (r_effect r) = JStr x) by (subst s0; by rewrite Signal.cur_set_quiet_ne, Signal.cur_bump).
  pose proof (Effect.returns_bind_effect (r_effect r) (step1 r) s0 _ _
                (returns_chain_step r "Step 1: " " -> processed" "Effect Step 1: " (cur s0 (r_effect r)) s0 He0 Hl0)) as H1.
  cbn beta in Hbig. unfold cbind at 1 in Hbig. apply (proj1 (H1 _ _)) in Hbig.
  rewrite Hx0 in Hbig. cbn [interp] in Hbig.
  set (nv1 := "Step 1: " +:+ x +:+ " -> processed") in Hbig.
  set (sA := Signal.set_quiet (r_effect r) (JStr nv1) s0) in Hbig.
  set (sB := Signal.set_quiet (r_logs r) (JFun (next sA)) (bump sA)) in Hbig.
  set (r1 := next sB) in Hbig.
  change (fun x : jsval => body (Effect.bind_listener r1 (step1 r) x)) with (listener r r1) in Hbig.
  set (s1 := add_entry (r_effect r) (listener r r1) (alloc_cell (cur sB (r_effect r)) sB)) in Hbig.
  assert (HnB : next s < next sB).
  { subst sB sA s0. repeat rewrite ?Signal.next_set_quiet, ?next_bump. lia. }
  assert (HcB : cur sB (r_effect r) = JStr nv1).
  { subst sB sA. by rewrite Signal.cur_set_quiet_ne, Signal.cur_bump, Signal.cur_set_quiet_eq. }
  assert (HsB : subs_of sB (r_effect r) = []).
  { subst sB sA. by rewrite Signal.subs_of_set_quiet, Signal.subs_of_bump, Signal.subs_of_set_quiet. }
  assert (Hs1 : subs_of s1 (r_effect r) = [(next (alloc_cell (cur sB (r_effect r)) sB), listener r r1)]).
  { subst s1. rewrite Signal.subs_of_add_entry_eq, Signal.subs_of_alloc_old, HsB by lia. done. }
  assert (Hc1 : cur s1 (r_effect r) = JStr nv1).
  { subst s1. by rewrite Signal.cur_add_entry, Signal.cur_alloc_old by lia. }
  assert (Hr1 : cur s1 r1 = JStr nv1).
  { subst s1 r1. by rewrite Signal.cur_add_entry, Signal.cur_alloc_new. }
  cbn beta in Hbig. unfold Effect.bind at 1, cbind at 1 in Hbig.
  apply (proj1 (Signal.returns_value r1 s1 _ _)) in Hbig.
  rewrite Hr1 in Hbig. unfold cbind at 1, step2, chain_step, cbind at 1 in Hbig.
  change (@lib_set core_lib) with Signal._set in Hbig.
  apply (proj1 (Signal.set_unfold _ _ _ _ _)) in Hbig.
  rewrite Hc1, js_same_wrapped in Hbig by done.
  apply big_notify_iff in Hbig as (s2 & Hn & _).
  apply big_notify_step_iff in Hn.
  rewrite Signal.subs_of_assign, Hs1, next_entry_cons_ge in Hn by lia.
  destruct Hn as (s3 & Hl3 & _).
  rewrite Signal.current_of_assign in Hl3.
  apply exec_big_iff in Hl3 as [n Hn].
  rewrite (chain_loop r r1 n _ _ (next (alloc_cell (cur sB (r_effect r)) sB))) in Hn; [done| |].
  - by rewrite Signal.subs_of_bump, Signal.subs_of_assign.
  - by rewrite Signal.cur_bump, cur_assign_eq.
Qed.

Definition emd_store : store :=
  script_result [Run (body (_ <- render (fun _ => "12:00:00") None ;; cret tt))] (init_store 1000).

Lemma chained_effects_diverge_witness :
  ~ big (body (handleChainedEffects (mk_refs 0 2 3))) emd_store emd_store.
Proof.
  exact (chained_effects_diverge (mk_refs 0 2 3) emd_store emd_store ltac:(discriminate)
           ltac:(vm_compute; lia) ltac:(vm_compute; reflexivity) ltac:(vm_compute; reflexivity)
           ltac:(eexists; vm_compute; reflexivity)).
Defined.

(** [setLogMessages(prev => [...prev, entry])] stores the updater
    itself: after "Simple Effect" the log (cell 2) is a function, not an
    array, and the effect holds the new text. *)
Example simple_effect_log_is_function :
  exists s, run_script 200 [Run (body (r <- render (fun _ => "12:00:00") None ;;
                                       handleSimpleEffect r.1 r.2.1.1))] (init_store 1000) = Some s /\
    cur s 2 = JFun 4 /\ cur s 3 = JStr "Simple effect: counter is 0".
Proof. run_script_tac. Qed.

End EffectMonadFacts.

Module DemoScenarios.
Import EffectReplacement.

Definition st0 : store := init_store 1000.

(** Three renders of [UseEffectReplacementDemo] with the same values
    (as a parent's re-render or React's strict mode gives), the network
    call being function [7]; then [ms] milliseconds pass. *)
Definition sc_renders (ms : Z) : list script_step :=
  [Run (body (_ <- render 7 (num 0) "Alice" false ;; cret tt));
   Run (body (_ <- render 7 (num 0) "Alice" false ;; cret tt));
   Run (body (_ <- render 7 (num 0) "Alice" false ;; cret tt));
   Wait ms].

(** [PluginDemo] mounted; the user types ["abc"] (a render), and clicks
    [+] 300 ms later (a render); then [ms] milliseconds pass. *)
Definition sc_plugin (ms : Z) : list script_step :=
  [Run (body (r <- PluginDemo.render None ;;
              PluginDemo.setInput r.2 (JStr "abc") ;;;
              r2 <- PluginDemo.render (Some r.1) ;;
              _ <- set_timer 300 false (body (PluginDemo.setCount r2.2 (num 1) ;;;
                                              _ <- PluginDemo.render (Some r.1) ;; cret tt)) ;;
              cret tt));
   Wait ms].

Definition ticks (s : store) : nat :=
  length (List.filter (fun o => match o with OLog _ (JStr m) => String.eqb m " Timer tick - Count: 0, User: Alice" | _ => false end)
                 (trace s)).

(** Every render of [UseEffectReplacementDemo] starts its own 2-second
    interval, and the component never clears one before its 10-second
    timeout: after three renders and 5 seconds, three intervals run and
    the tick has been logged six times. *)
Example renders_stack_intervals :
  exists s, run_script 200 (sc_renders 5000) st0 = Some s /\
    length (List.filter (fun t => if tm_every t is Some _ then true else false) (timers s)) = 3 /\ ticks s = 6.
Proof. run_script_tac. Qed.

(** [PluginDemo] feeds its input to the debounced setter at every
    render, so a render for any other reason restarts the debounce: the
    user typed ["abc"] at 0 ms and the delay is 500 ms, but the click
    on [+] at 300 ms pushes the debounced value (cell 5) to 800 ms. *)
Example plugin_render_restarts_debounce :
  (exists s, run_script 200 (sc_plugin 600) st0 = Some s /\ cur s 5 = JStr "" /\ length (timers s) = 1) /\
  (exists s, run_script 200 (sc_plugin 900) st0 = Some s /\ cur s 5 = JStr "abc").
Proof. split; run_script_tac. Qed.

End DemoScenarios.
