(* ===== verification/Regex.v ===== *)
(** * Regular expressions, as the demos' validators test them

    The demos validate e-mail addresses with
    [/^[^\s@]+@[^\s@]+\.[^\s@]+$/.test(email)]
    ([FetchDemo.tsx], line 396, and the Qwik example of
    [src/unnamed/part_008], line 326).  A pattern anchored at both ends
    and without captures or back-references tests whether the whole text
    is in the pattern's language, whatever the backtracking order of the
    engine; this file gives that language ([in_re]), an executable
    matcher by Brzozowski derivatives ([matches]) with its correctness
    ([matches_correct]), and the language of the e-mail pattern in plain
    terms ([email_re_spec]).  A text is a list of 8-bit characters, read
    as the UTF-16 code units [0]-[255] of a JavaScript string (Latin-1);
    on those, JavaScript's [\s] is the six ASCII white-space characters
    and the no-break space [U+00A0].  Code units above [255] are outside
    the model. *)

From Stdlib Require Import String Ascii Bool List.
From stdpp Require Import base tactics.
Import ListNotations.

Module Regex.

(** An item of a character class: a character or the escape [\s]. *)
Inductive class_item : Type :=
  | CChar (c : ascii)
  | CSpace.

(** The patterns: [Class true items] is [[^items]]. *)
Inductive re : Type :=
  | Empty
  | Eps
  | Lit (c : ascii)
  | Class (neg : bool) (items : list class_item)
  | Cat (r1 r2 : re)
  | Alt (r1 r2 : re)
  | Star (r : re).

(** [r+]. *)
Definition Plus (r : re) : re := Cat r (Star r).

(** [\s] on the code units [0]-[255]: space, tab, line feed, vertical
    tab, form feed, carriage return (its [WhiteSpace] and
    [LineTerminator] members below [128]) and the no-break space [160]
    (category [Zs]). *)
Definition is_space (c : ascii) : bool :=
  existsb (fun n => Nat.eqb (nat_of_ascii c) n) [32; 9; 10; 11; 12; 13; 160]%nat.

Definition item_mem (c : ascii) (i : class_item) : bool :=
  match i with CChar d => Ascii.eqb c d | CSpace => is_space c end.

Definition class_ok (neg : bool) (items : list class_item) (c : ascii) : bool :=
  xorb neg (existsb (item_mem c) items).

(** The language of a pattern. *)
Inductive in_re : re -> list ascii -> Prop :=
  | in_eps : in_re Eps []
  | in_lit c : in_re (Lit c) [c]
  | in_class neg items c : class_ok neg items c = true -> in_re (Class neg items) [c]
  | in_cat r1 r2 u v : in_re r1 u -> in_re r2 v -> in_re (Cat r1 r2) (u ++ v)
  | in_alt_l r1 r2 w : in_re r1 w -> in_re (Alt r1 r2) w
  | in_alt_r r1 r2 w : in_re r2 w -> in_re (Alt r1 r2) w
  | in_star_nil r : in_re (Star r) []
  | in_star_app r u v : in_re r u -> in_re (Star r) v -> in_re (Star r) (u ++ v).

Fixpoint nullable (r : re) : bool :=
  match r with
  | Empty | Lit _ | Class _ _ => false
  | Eps | Star _ => true
  | Cat r1 r2 => nullable r1 && nullable r2
  | Alt r1 r2 => nullable r1 || nullable r2
  end.

(** The derivative of a pattern by a character: the texts [w] such
    that [c :: w] is in the pattern. *)
Fixpoint deriv (c : ascii) (r : re) : re :=
  match r with
  | Empty | Eps => Empty
  | Lit d => if Ascii.eqb c d then Eps else Empty
  | Class neg items => if class_ok neg items c then Eps else Empty
  | Cat r1 r2 =>
      if nullable r1 then Alt (Cat (deriv c r1) r2) (deriv c r2) else Cat (deriv c r1) r2
  | Alt r1 r2 => Alt (deriv c r1) (deriv c r2)
  | Star r1 => Cat (deriv c r1) (Star r1)
  end.

Fixpoint matches (r : re) (w : list ascii) : bool :=
  match w with
  | [] => nullable r
  | c :: w' => matches (deriv c r) w'
  end.

(** [new RegExp('^' + r + '$').test(s)]. *)
Definition test (r : re) (s : string) : bool := matches r (list_ascii_of_string s).

(** [[^\s@]]. *)
Definition not_space_at : re := Class true [CSpace; CChar "@"].

(** The pattern [/^[^\s@]+@[^\s@]+\.[^\s@]+$/] of the e-mail
    validators. *)
Definition email_re : re :=
  Cat (Plus not_space_at) (Cat (Lit "@") (Cat (Plus not_space_at) (Cat (Lit ".") (Plus not_space_at)))).

(** A character of an address part: neither white space nor [@]. *)
Definition part_char (c : ascii) : bool := negb (is_space c) && negb (Ascii.eqb c "@").

End Regex.

Module RegexFacts.
Import Regex.

Lemma cat_iff r1 r2 w : in_re (Cat r1 r2) w <-> exists u v, w = u ++ v /\ in_re r1 u /\ in_re r2 v.
Proof.
  split.
  - intros H. inversion H; subst. eauto.
  - intros (u & v & -> & H1 & H2). by constructor.
Qed.

Lemma lit_iff c w : in_re (Lit c) w <-> w = [c].
Proof. split; [intros H; by inversion H | intros ->; constructor]. Qed.

Lemma class_iff neg items w : in_re (Class neg items) w <-> exists c, w = [c] /\ class_ok neg items c = true.
Proof. split; [intros H; inversion H; eauto | intros (c & -> & H); by constructor]. Qed.

Lemma nullable_sound r : nullable r = true -> in_re r [].
Proof.
  induction r; simpl; intros H; try discriminate; try apply in_eps; try apply in_star_nil.
  - apply andb_true_iff in H as [H1 H2]. change (@nil ascii) with (@nil ascii ++ []). constructor; auto.
  - apply orb_true_iff in H as [H|H]; [apply in_alt_l | apply in_alt_r]; auto.
Qed.

Lemma nullable_complete r w : in_re r w -> w = [] -> nullable r = true.
Proof.
  induction 1; simpl; intros E; try discriminate; auto.
  - apply app_eq_nil in E as [-> ->]. rewrite IHin_re1, IHin_re2; auto.
  - rewrite IHin_re; auto.
  - rewrite IHin_re; auto using orb_true_r.
Qed.

Lemma nullable_correct r : nullable r = true <-> in_re r [].
Proof. split; [apply nullable_sound | intros H; exact (nullable_complete r [] H eq_refl)]. Qed.

(** A non-empty text in [r*] starts with a non-empty text of [r]. *)
Lemma star_inv r c w :
  in_re (Star r) (c :: w) -> exists u v, w = u ++ v /\ in_re r (c :: u) /\ in_re (Star r) v.
Proof.
  intros H. remember (Star r) as s eqn:Es. remember (c :: w) as cw eqn:Ecw.
  revert w Ecw. induction H; intros w' Ecw; try discriminate.
  injection Es as <-. destruct u as [|c' u].
  - simpl in Ecw. subst. eauto.
  - injection Ecw as <- <-. eauto.
Qed.

Lemma deriv_correct c r w : in_re (deriv c r) w <-> in_re r (c :: w).
Proof.
  revert w. induction r as [| |d|neg items|r1 IH1 r2 IH2|r1 IH1 r2 IH2|r1 IH1]; intros w; simpl.
  - split; intros H; inversion H.
  - split; intros H; inversion H.
  - destruct (Ascii.eqb_spec c d) as [->|Hne]; rewrite lit_iff.
    + split; [intros H; inversion H; reflexivity | intros [= ->]; constructor].
    + split; [intros H; inversion H | intros [= ->]; congruence].
  - rewrite class_iff. destruct (class_ok neg items c) eqn:E.
    + split; [intros H; inversion H; eauto | intros (c' & [= <- ->] & _); constructor].
    + split; [intros H; inversion H | intros (c' & [= <- ->] & H); congruence].
  - rewrite cat_iff. destruct (nullable r1) eqn:En.
    + split.
      * intros H. inversion H as [| | | |??? H' E1 E2|??? H' E1 E2| |]; subst.
        -- apply cat_iff in H' as (u & v & -> & Hu & Hv). exists (c :: u), v. rewrite <- IH1. auto.
        -- exists [], (c :: w). rewrite <- nullable_correct, <- IH2. auto.
      * intros ([|c' u] & v & Ew & Hu & Hv).
        -- apply in_alt_r. simpl in Ew. subst. by apply IH2.
        -- injection Ew as <- ->. apply in_alt_l. constructor; [by apply IH1 | done].
    + rewrite cat_iff. split.
      * intros (u & v & -> & Hu & Hv). exists (c :: u), v. rewrite <- IH1. auto.
      * intros ([|c' u] & v & Ew & Hu & Hv).
        -- apply nullable_correct in Hu. congruence.
        -- injection Ew as <- ->. exists u, v. rewrite IH1. auto.
  - split; intros H; inversion H; subst.
    + apply in_alt_l. by apply IH1.
    + apply in_alt_r. by apply IH2.
    + apply in_alt_l. by apply IH1.
    + apply in_alt_r. by apply IH2.
  - rewrite cat_iff. split.
    + intros (u & v & -> & Hu & Hv). apply (in_star_app _ (c :: u) v); [by apply IH1 | done].
    + intros H. apply star_inv in H as (u & v & -> & Hu & Hv). exists u, v. rewrite IH1. auto.
Qed.

(** The matcher decides the language of the pattern. *)
Theorem matches_correct r w : matches r w = true <-> in_re r w.
Proof.
  revert r. induction w as [|c w IH]; intros r; simpl.
  - apply nullable_correct.
  - rewrite IH. apply deriv_correct.
Qed.

Lemma star_class_iff neg items w :
  in_re (Star (Class neg items)) w <-> Forall (fun c => class_ok neg items c = true) w.
Proof.
  split.
  - intros H. remember (Star (Class neg items)) as s eqn:Es.
    induction H; try discriminate; [constructor|].
    injection Es as ->. apply class_iff in H as (c & -> & Hc). constructor; auto.
  - induction 1 as [|c w Hc _ IH]; [constructor|].
    apply (in_star_app _ [c] w); [by constructor | done].
Qed.

Lemma plus_class_iff neg items w :
  in_re (Plus (Class neg items)) w <-> w <> [] /\ Forall (fun c => class_ok neg items c = true) w.
Proof.
  unfold Plus. rewrite cat_iff. split.
  - intros (u & v & -> & Hu & Hv). apply class_iff in Hu as (c & -> & Hc).
    apply star_class_iff in Hv. split; [discriminate | by constructor].
  - intros [Hne Hall]. destruct w as [|c w]; [congruence|]. inversion Hall; subst.
    exists [c], w. split; [done|]. split; [by constructor | by apply star_class_iff].
Qed.

Lemma not_space_at_ok c : class_ok true [CSpace; CChar "@"] c = part_char c.
Proof. unfold class_ok, part_char. simpl. by destruct (is_space c), (Ascii.eqb c "@"). Qed.

Lemma plus_part_iff w :
  in_re (Plus not_space_at) w <-> w <> [] /\ Forall (fun x => part_char x = true) w.
Proof.
  unfold not_space_at. rewrite plus_class_iff.
  split; intros [Hne H]; split; auto; (eapply Forall_impl; [|exact H]); intros x Hx; cbv beta in *; by rewrite not_space_at_ok in *.
Qed.

(** C31: the e-mail validator of the demos accepts exactly the texts
    [a@b.c] whose parts [a], [b] and [c] are non-empty and contain no
    white space and no [@]; [b] may contain dots, and the last dot of
    the domain need not be the one the pattern's [\.] matches. *)
Theorem email_re_spec s :
  test email_re s = true <->
  exists a b c, list_ascii_of_string s = a ++ "@"%char :: b ++ "."%char :: c /\
    a <> [] /\ b <> [] /\ c <> [] /\ Forall (fun x => part_char x = true) (a ++ b ++ c).
Proof.
  unfold test, email_re. rewrite matches_correct. split.
  - intros H. apply cat_iff in H as (a & v1 & Es & Ha & H).
    apply cat_iff in H as (u2 & v2 & -> & Hat & H). apply cat_iff in H as (b & v3 & -> & Hb & H).
    apply cat_iff in H as (u4 & c & -> & Hdot & Hc).
    apply lit_iff in Hat as ->. apply lit_iff in Hdot as ->.
    apply plus_part_iff in Ha as [Ha Fa]. apply plus_part_iff in Hb as [Hb Fb].
    apply plus_part_iff in Hc as [Hc Fc].
    exists a, b, c. rewrite Es, !Forall_app. repeat split; auto.
  - intros (a & b & c & -> & Ha & Hb & Hc & F). rewrite !Forall_app in F. destruct F as (Fa & Fb & Fc).
    apply in_cat; [by apply plus_part_iff|]. apply (in_cat _ _ ["@"%char]); [constructor|].
    apply in_cat; [by apply plus_part_iff|]. apply (in_cat _ _ ["."%char]); [constructor|].
    by apply plus_part_iff.
Qed.

(** The validator on a few addresses: a plain address passes, a missing
    domain dot, a space or a second [@] fail, and a doubled dot passes. *)
Example email_re_samples :
  test email_re "user1@example.com" = true /\ test email_re "a@b" = false /\
  test email_re "a b@c.d" = false /\ test email_re "a@b@c.d" = false /\
  test email_re "a@b..c" = true.
Proof. vm_compute. auto. Qed.

End RegexFacts.
