(* ===== verification/ReactDemos.v ===== *)
(** * The React demos of [FetchDemo.tsx] and [EffectDemo.tsx]

    [src/examples/react-app/src/components/FetchDemo.tsx] holds four
    components one after the other: [FetchDemo] (lines 1-186),
    [BasicSignalDemo] (lines 187-248), [TimeSignalDemo] (lines 249-380)
    and [AdvancedDemo] (lines 381-596).  [EffectDemo.tsx] holds one.
    Each component is modelled as its render, a program of the engine
    over the hooks of [Hooks] (the React hooks of [src/src], or their
    copy [Part008] for the components that import [../hooks]), given the
    refs of the previous render ([None] at the first render), and
    returning its refs and what it shows with the handlers it hands to
    the page.  The mock API of [FetchDemo] is a pair of asynchronous
    functions whose answers a script settles; the random choices of the
    handlers are their parameters; a number typed in an input is the
    handler's parameter.  [TimeSignalDemo] is not modelled: it imports
    [use] and [time$] from the package entry point, whose React hooks
    module is not in the repository. *)

From Stdlib Require Import ZArith String Ascii.
From stdpp Require Import base list gmap strings.
From S2P Require Import Prelude JsValue Engine Json Signal Effect Fetch Plugins SignalLib Hooks Regex Demos.

Local Open Scope resig_scope.

(** Text helpers shared by the demos. *)
Module DemoText.
Import EffectReplacement.

Definition lower_char (c : ascii) : ascii :=
  let n := nat_of_ascii c in
  if (65 <=? n)%nat && (n <=? 90)%nat then ascii_of_nat (n + 32) else c.

(** [s.toLowerCase()] on ASCII text. *)
Definition js_lower (s : string) : string := string_of_list_ascii (map lower_char (list_ascii_of_string s)).

(** [s.includes(t)]. *)
Fixpoint includes (s t : string) : bool :=
  if String.prefix t s then true
  else match s with
       | EmptyString => false
       | String _ s' => includes s' t
       end.

(** A value in a template literal. *)
Definition show (v : jsval) : string := interp v.

End DemoText.

Module FetchDemoApp.
Import DemoText.

(** [mockApi.getUser(id)] and [mockApi.getPosts(userId)] (lines 4-20):
    asynchronous calls of the functions [api] whose answers (after a
    random delay, with a random failure) are settled by the script. *)
Definition getUser (api : nat) (id : jsval) : Fetch.async_fn := fun ok err => invoke api id ok err.
Definition getPosts (api : nat) (userId : jsval) : Fetch.async_fn := fun ok err => invoke api userId ok err.

(** The refs of the component's hooks. *)
Record refs : Type := mk_refs {
  r_userId : nat;
  r_user : Fetch.fetch_obj;
  r_posts : Fetch.fetch_obj
}.

(** What a render shows, and its handlers. *)
Record view : Type := mk_view {
  v_userId : jsval;
  v_userState : jsval;
  v_postsState : jsval;
  v_userStatus : string;
  v_postsStatus : string;
  setUserId : jsval -> M unit;
  refetchUser : M Fetch.fetch_obj;
  retryUser : nat -> M Fetch.fetch_obj;
  refetchPosts : M Fetch.fetch_obj;
  retryPosts : nat -> M Fetch.fetch_obj
}.

(** [userStatus] and [postsStatus] (lines 32-44). *)
Definition status (loadingText : string) (loaded : jsval -> string) (state : jsval) : string :=
  if truthy (get_field state "loading") then loadingText
  else if truthy (get_field state "error") then "Error: " +:+ show (get_field (get_field state "error") "message")
  else if truthy (get_field state "data") then loaded (get_field state "data")
  else "No data".

Definition userStatus (state : jsval) : string :=
  status "Loading user..." (fun d => "Loaded: " +:+ show (get_field d "name")) state.

Definition postsStatus (state : jsval) : string :=
  status "Loading posts..."
    (fun d => "Loaded " +:+ show (num (Z.of_nat (match d with JArr _ xs => length xs | _ => 0 end))) +:+ " posts") state.

(** [getStatusClass(state)] (lines 46-50). *)
Definition getStatusClass (state : jsval) : string :=
  if truthy (get_field state "loading") then "loading"
  else if truthy (get_field state "error") then "error" else "success".

(** One render (lines 22-44). *)
Definition render (userApi postsApi : nat) (r : option refs) : M (refs * view) :=
  a <- Hooks.useSignal (L := core_lib) (option_map r_userId r) (num 1) ;;
  let userId := a.2.1 in
  u <- Hooks.useFetch (option_map r_user r) (getUser userApi userId) ;;
  p <- Hooks.useFetch (option_map r_posts r) (getPosts postsApi userId) ;;
  cret (mk_refs a.1 u.1 p.1,
        mk_view userId u.2.1.1 p.2.1.1 (userStatus u.2.1.1) (postsStatus p.2.1.1)
          a.2.2 u.2.1.2 u.2.2 p.2.1.2 p.2.2).

(** The button that refetches both (line 157). *)
Definition refetchAll (v : view) : M unit :=
  _ <- refetchUser v ;; _ <- refetchPosts v ;; cret tt.

End FetchDemoApp.

Module BasicDemo.
Import DemoText.

Record refs : Type := mk_refs { r_count : nat; r_name : nat }.

Record view : Type := mk_view {
  v_count : jsval;
  v_doubled : jsval;
  v_greeting : string;
  v_summary : string;
  setCount : jsval -> M unit;
  setName : jsval -> M unit
}.

(** One render of [BasicSignalDemo] (lines 189-197), over the hooks of
    [../hooks] ([Part008]). *)
Definition render (r : option refs) : M (refs * view) :=
  a <- Part008.useSignal (option_map r_count r) (num 0) ;;
  b <- Part008.useSignal (option_map r_name r) (JStr "Alice") ;;
  let count := a.2.1 in let name := b.2.1 in
  let doubled := js_scale 2 count in
  let greeting := "Hello, " +:+ show name +:+ "!" in
  let summary := greeting +:+ " Count: " +:+ show count +:+ ", Doubled: " +:+ show doubled in
  cret (mk_refs a.1 b.1, mk_view count doubled greeting summary a.2.2 b.2.2).

(** The buttons (lines 208-210). *)
Definition increment (v : view) : M unit := setCount v (js_add (v_count v) (num 1)).
Definition decrement (v : view) : M unit := setCount v (js_add (v_count v) (num (-1))).
Definition reset (v : view) : M unit := setCount v (num 0).

End BasicDemo.

Module EffectDemo.

Record refs : Type := mk_refs { r_effect : nat; r_multiplier : nat }.

Record view : Type := mk_view {
  v_value : jsval;
  v_multiplier : jsval;
  v_doubled : jsval;
  v_chained : option jsval;
  v_composed : option jsval;
  setValue : jsval -> M unit;
  setMultiplier : jsval -> M unit
}.

(** [value * multiplier] on the integers the buttons set; a product of
    two fractions is outside the numbers of the model. *)
Definition js_mul (a b : jsval) : option jsval :=
  match a, b with
  | JNum x, JNum y => if (y mod 1000000 =? 0)%Z then Some (JNum (x * (y / 1000000))) else None
  | _, _ => None
  end.

(** One render of [EffectDemo] (lines 3-23), over the hooks of
    [../hooks] ([Part008]). *)
Definition render (r : option refs) : M (refs * view) :=
  a <- Part008.useEffect (option_map r_effect r) (num 5) ;;
  b <- Part008.useSignal (option_map r_multiplier r) (num 2) ;;
  let value := a.2.1.1 in let multiplier := b.2.1 in
  let doubled := js_scale 2 value in
  let chained := js_mul value multiplier in
  let composed := option_map (fun x => js_add x (num 10)) (js_mul value multiplier) in
  cret (mk_refs a.1 b.1, mk_view value multiplier doubled chained composed a.2.1.2 b.2.2).

End EffectDemo.

Module AdvancedDemo.
Import DemoText.

(** The validator of line 396. *)
Definition email_valid (email : jsval) : bool := Regex.test Regex.email_re (PluginDemo.text email).

(** The [onError] of line 397. *)
Definition onInvalid (invalidEmail : jsval) : M unit := emit (OLog "Invalid email:" invalidEmail).

Definition mockData : list string :=
  ["Apple"; "Banana"; "Cherry"; "Date"; "Elderberry"; "Fig"; "Grape"; "Honeydew"; "Kiwi"; "Lemon"].

(** [searchResults] (lines 413-424). *)
Definition searchResults (searchDebounced : jsval) : list string :=
  if negb (truthy searchDebounced) then []
  else List.filter (fun item => includes (js_lower item) (js_lower (PluginDemo.text searchDebounced))) mockData.

(** [formValid] (lines 427-429). *)
Definition formValid (isEmailValid firstName lastName : jsval) : bool :=
  truthy isEmailValid && (0 <? String.length (PluginDemo.text firstName))%nat &&
  (0 <? String.length (PluginDemo.text lastName))%nat.

Record style : Type := mk_style {
  backgroundColor : string;
  color : string;
  fontSize : string;
  border : string
}.

(** [themeStyles] (lines 432-439). *)
Definition themeStyles (theme fontSizeV : jsval) : style :=
  let dark := js_same theme (JStr "dark") in
  mk_style (if dark then "#2d3748" else "#ffffff") (if dark then "#ffffff" else "#000000")
    (show fontSizeV +:+ "px") ("1px solid " +:+ if dark then "#4a5568" else "#e2e8f0").

Record refs : Type := mk_refs {
  r_search : nat * nat * nat;
  r_email : nat;
  r_valid : nat;
  r_theme : nat;
  r_fontSize : nat;
  r_firstName : nat;
  r_lastName : nat;
  r_age : nat
}.

Record view : Type := mk_view {
  v_searchImmediate : jsval;
  v_searchDebounced : jsval;
  v_email : jsval;
  v_isEmailValid : jsval;
  v_theme : jsval;
  v_fontSize : jsval;
  v_userProfile : jsval * jsval * jsval;
  v_searchResults : list string;
  v_formValid : bool;
  v_themeStyles : style;
  setSearch : jsval -> M unit;
  setEmail : jsval -> M unit;
  setTheme : jsval -> M unit;
  setFontSize : jsval -> M unit;
  setFirstName : jsval -> M unit;
  setLastName : jsval -> M unit;
  setAge : jsval -> M unit
}.

(** One render of [AdvancedDemo] (lines 389-439). *)
Definition render (r : option refs) : M (refs * view) :=
  d <- Hooks.useDebouncedSignal (L := core_lib) (option_map (fun x => x.(r_search).1.1) r)
         (option_map (fun x => x.(r_search).1.2) r) (option_map (fun x => x.(r_search).2) r) (JStr "") 300 ;;
  e <- Hooks.useValidatedSignal (L := core_lib) (option_map r_email r) (option_map r_valid r) (JStr "")
         email_valid (Some onInvalid) ;;
  t <- Hooks.usePersistentSignal (L := core_lib) (option_map r_theme r) "theme" (JStr "light") ;;
  f <- Hooks.usePersistentSignal (L := core_lib) (option_map r_fontSize r) "fontSize" (num 16) ;;
  fn <- Hooks.useSignal (L := core_lib) (option_map r_firstName r) (JStr "John") ;;
  ln <- Hooks.useSignal (L := core_lib) (option_map r_lastName r) (JStr "Doe") ;;
  ag <- Hooks.useSignal (L := core_lib) (option_map r_age r) (num 25) ;;
  let searchDebounced := d.2.2 in
  let isEmailValid := e.2.2 in
  cret (mk_refs d.1 e.1.1 e.1.2 t.1 f.1 fn.1 ln.1 ag.1,
        mk_view d.2.1.1 searchDebounced e.2.1.1 isEmailValid t.2.1 f.2.1 (fn.2.1, ln.2.1, ag.2.1)
          (searchResults searchDebounced) (formValid isEmailValid fn.2.1 ln.2.1) (themeStyles t.2.1 f.2.1)
          d.2.1.2 e.2.1.2 t.2.2 f.2.2 fn.2.2 ln.2.2 ag.2.2).

(** A key typed at the end of the e-mail input (line 501): the page
    renders, and the input's [onChange] gets the text it shows with the
    character added. *)
Definition type_char (r : refs) (ch : ascii) : M unit :=
  x <- render (Some r) ;;
  setEmail x.2 (JStr (PluginDemo.text (v_email x.2) +:+ String ch EmptyString)).

Fixpoint type_text (r : refs) (chars : list ascii) : M unit :=
  match chars with
  | [] => cret tt
  | ch :: rest => type_char r ch ;;; type_text r rest
  end.

End AdvancedDemo.

Module AdvancedFacts.
Import AdvancedDemo.

(** A render that reads its hooks back, and nothing else. *)
Ltac reads_tac :=
  cbv beta zeta;
  lazymatch goal with
  | |- returns (cbind _ _) _ _ _ => eapply returns_bind; [reads_tac | reads_tac]
  | |- returns (Hooks.ref_init (Some _) _) _ _ _ => apply Hooks.returns_ref_init_some
  | |- returns (lib_value _) _ _ _ => apply lib_value_spec
  | |- returns (Signal.value _) _ _ _ => apply Signal.returns_value
  | |- returns (cret _) _ _ _ => apply returns_ret
  end.

(** A render after the first changes nothing, shows the e-mail signal's
    value and hands the validated setter to the input. *)
Lemma render_again r s :
  exists v, returns (render (Some r)) s (r, v) s /\ v_email v = cur s (r_email r) /\
    setEmail v = Hooks.validated_set (L := core_lib) (r_email r) (r_valid r) email_valid (Some onInvalid).
Proof.
  destruct r as [[[i d] t] e vc th fs fn ln ag]. eexists. split.
  - unfold render, Hooks.useDebouncedSignal, Hooks.useValidatedSignal, Hooks.usePersistentSignal,
      Hooks.useSignal, Hooks.useRef, Hooks.useSyncExternalStore; simpl.
    reads_tac.
  - split; reflexivity.
Qed.

(** No text of one character is an address. *)
Lemma email_one_char ch : email_valid (JStr (String ch EmptyString)) = false.
Proof. unfold email_valid, Regex.test. simpl. apply andb_false_r. Qed.

(** A keystroke on the empty input: the one-character text is rejected,
    the flag is set to [false] and the rejection logged. *)
Lemma returns_type_char_empty r ch s :
  cur s (r_email r) = JStr "" -> subs_of s (r_valid r) = [] ->
  returns (type_char r ch) s tt
    (emit_obs (OLog "Invalid email:" (JStr (String ch EmptyString))) (Signal.set_quiet (r_valid r) (JBool false) s)).
Proof.
  intros Hc Hv. destruct (render_again r s) as (v & Hr & He & Hs).
  unfold type_char. eapply returns_bind; [exact Hr|]. simpl.
  rewrite Hs, He, Hc. unfold Hooks.validated_set.
  change (PluginDemo.text (JStr "") +:+ String ch EmptyString) with (String ch EmptyString).
  rewrite email_one_char.
  eapply returns_bind; [by apply lib_set_quiet | apply returns_emit].
Qed.

(** C32: the e-mail input of [AdvancedDemo] cannot be filled by typing:
    it shows the validated signal, which keeps only valid addresses, so
    each character typed into the empty input makes a one-character text
    that the validator rejects, and the input stays empty whatever is
    typed; each keystroke only logs the rejection. *)
Theorem email_typing_stays_empty r chars s :
  r_email r <> r_valid r -> cur s (r_email r) = JStr "" -> subs_of s (r_valid r) = [] ->
  exists s', returns (type_text r chars) s tt s' /\ cur s' (r_email r) = JStr "" /\
    trace s' = trace s ++ map (fun ch => OLog "Invalid email:" (JStr (String ch EmptyString))) chars.
Proof.
  intros Hne. revert s. induction chars as [|ch rest IH]; intros s Hc Hv; simpl.
  - exists s. split; [apply returns_ret|]. by rewrite app_nil_r.
  - destruct (IH (emit_obs (OLog "Invalid email:" (JStr (String ch EmptyString)))
                   (Signal.set_quiet (r_valid r) (JBool false) s))) as (s' & Hrun & Hc' & Ht').
    + unfold cur. simpl. fold (cur (Signal.set_quiet (r_valid r) (JBool false) s) (r_email r)).
      by rewrite Signal.cur_set_quiet_ne.
    + unfold subs_of. simpl. fold (subs_of (Signal.set_quiet (r_valid r) (JBool false) s) (r_valid r)).
      by rewrite Signal.subs_of_set_quiet.
    + exists s'. split; [eapply returns_bind; [by apply returns_type_char_empty | exact Hrun]|].
      split; [done|]. rewrite Ht', trace_emit, Signal.trace_set_quiet. by rewrite <- app_assoc.
Qed.

Definition adv_refs : refs := mk_refs (0, 1, 2) 3 4 5 6 7 8 9.

Lemma email_typing_stays_empty_witness :
  exists s', returns (type_text adv_refs ["a"; "@"]%char) (Signal.set_quiet 3 (JStr "") (init_store 1000)) tt s' /\
    cur s' 3 = JStr "" /\
    trace s' = trace (Signal.set_quiet 3 (JStr "") (init_store 1000)) ++
                 map (fun ch => OLog "Invalid email:" (JStr (String ch EmptyString))) ["a"; "@"]%char.
Proof.
  apply (email_typing_stays_empty adv_refs ["a"; "@"]%char (Signal.set_quiet 3 (JStr "") (init_store 1000)));
    vm_compute; congruence.
Defined.

End AdvancedFacts.

Module ReactDemoScenarios.

Definition st0 : store := init_store 1000.

(** [FetchDemo] mounted with the mock API as functions [5] and [6]; the
    user picks user [2], the page renders, and the user clicks
    "Refetch All". *)
Definition sc_select_refetch : list script_step :=
  [Run (body (x <- FetchDemoApp.render 5 6 None ;; FetchDemoApp.setUserId x.2 (num 2) ;;;
              y <- FetchDemoApp.render 5 6 (Some x.1) ;; FetchDemoApp.refetchAll y.2))].

(** [useFetch] keeps the fetch, and the fetcher, of the first render:
    after user [2] is picked, the page shows user id [2] but every call
    of "Refetch All" still asks the API for user [1] (each [refetch]
    calls it twice). *)
Example fetch_demo_user_captured :
  exists s, run_script 200 sc_select_refetch st0 = Some s /\
    trace s = [OInvoke 5 (num 1); OInvoke 6 (num 1); OInvoke 5 (num 1); OInvoke 5 (num 1);
               OInvoke 6 (num 1); OInvoke 6 (num 1)].
Proof. run_script_tac. Qed.

(** [BasicSignalDemo]: a click on "Increment", then a render. *)
Example basic_demo_increment :
  exists s, run_script 200
    [Run (body (x <- BasicDemo.render None ;; BasicDemo.increment x.2 ;;;
                y <- BasicDemo.render (Some x.1) ;;
                emit (OLog (BasicDemo.v_summary y.2) (BasicDemo.v_doubled y.2))))] st0 = Some s /\
    trace s = [OLog "Hello, Alice! Count: 1, Doubled: 2" (num 2)].
Proof. run_script_tac. Qed.

End ReactDemoScenarios.
