(* ===== verification/QwikDemo.v ===== *)
(** * The Qwik example of [src/unnamed/part_008] (lines 185-411)

    Four components over the Qwik hooks of [src/qwik/hooks.ts]
    ([Qwik.QwikHooks]) and the page that shows them: [Counter], a state
    machine ([StateMachineDemo]), a fetch ([FetchDemo]) and a form
    ([FormDemo]).  Each component is a program of the engine that runs
    its hooks and returns what its markup reads and the handlers its
    buttons and inputs call; a handler that reads [e.target.value] takes
    that value as its parameter, and the random outcome of
    [handleAsync] is its parameter too.  The [await] of [handleAsync]
    is a timer whose callback runs the rest of the handler. *)

From Stdlib Require Import ZArith String.
From stdpp Require Import base list gmap strings.
From S2P Require Import Prelude JsValue Engine Json Signal Fetch Plugins Hooks Vue SvelteApp Qwik Regex Demos.

Local Open Scope resig_scope.

Module QwikDemo.
Import QwikRt QwikHooks.

(** [count() % 2 === 0] on a number. *)
Definition is_even (v : jsval) : jsval :=
  match v with JNum m => JBool (Z.rem m 2000000 =? 0)%Z | _ => JBool false end.

(** [Counter] (lines 203-228): the count, [doubled], [isEven] and the
    two buttons. *)
Record counter : Type := mk_counter {
  count : M jsval;
  setCount : jsval -> M unit;
  doubled : M jsval;
  isEven : M jsval
}.

Definition Counter : M counter :=
  x <- QwikHooks.useSignal (num 0) ;;
  let '(count, setCount) := x in
  doubled <- useComputed (v <- count ;; cret (js_scale 2 v)) ;;
  isEven <- useComputed (v <- count ;; cret (is_even v)) ;;
  cret (mk_counter count setCount doubled isEven).

(** The buttons [+] and [-] (lines 216 and 222). *)
Inductive click : Type := Inc | Dec.

Definition onClick (c : counter) (k : click) : M unit :=
  v <- count c ;; setCount c (js_add v (num (if k is Inc then 1 else -1))).

Fixpoint clicks (c : counter) (ks : list click) : M unit :=
  match ks with
  | [] => cret tt
  | k :: ks' => onClick c k ;;; clicks c ks'
  end.

(** The machine's reducer (lines 235-245), on the state and action
    strings. *)
Definition reducer (state action : jsval) : jsval :=
  if js_same state (JStr "idle") then (if js_same action (JStr "start") then JStr "loading" else state)
  else if js_same state (JStr "loading") then
    (if js_same action (JStr "success") then JStr "success"
     else if js_same action (JStr "error") then JStr "error" else state)
  else if js_same state (JStr "success") || js_same state (JStr "error") then
    (if js_same action (JStr "reset") then JStr "idle" else state)
  else state.

Record machine_demo : Type := mk_machine_demo {
  m_state : M jsval;
  send : jsval -> M unit
}.

(** [StateMachineDemo] (lines 231-246). *)
Definition StateMachineDemo : M machine_demo :=
  x <- QwikHooks.useMachine (JStr "idle") reducer ;;
  cret (mk_machine_demo x.1 x.2).

(** [handleAsync] (lines 247-259): [send('start')], a second, then
    [send('success')] when [Math.random() > 0.5] ([lucky]) and
    [send('error')] otherwise. *)
Definition handleAsync (m : machine_demo) (lucky : bool) : M unit :=
  send m (JStr "start") ;;;
  _ <- set_timer 1000 false (body (send m (JStr (if lucky then "success" else "error")))) ;;
  cret tt.

(** The start button is disabled while loading, and the reset button
    exists in [success] and [error] (lines 266-281). *)
Definition start_disabled (state : jsval) : bool := js_same state (JStr "loading").
Definition reset_shown (state : jsval) : bool := js_same state (JStr "success") || js_same state (JStr "error").

(** The fetcher of [FetchDemo] (lines 290-294). *)
Definition user_url : string := "https://jsonplaceholder.typicode.com/users/1".

Definition user_fetcher : Fetch.async_fn := fun ok err =>
  invoke Fetch.window_fetch (JStr user_url)
    (fun response => if truthy (get_field response "ok") then invoke Fetch.response_json response ok err
                     else i <- new_id ;; err (JErr i "Failed to fetch"))
    err.

Record fetch_demo : Type := mk_fetch_demo {
  userState : M jsval;
  refetch : M Fetch.fetch_obj;
  retry : nat -> M Fetch.fetch_obj
}.

(** [FetchDemo] (lines 289-321); the buttons call [refetch] and
    [retry(3)]. *)
Definition FetchDemo : M fetch_demo :=
  x <- QwikHooks.useFetch user_fetcher ;;
  let '(userState, refetch, retry) := x in
  cret (mk_fetch_demo userState refetch retry).

(** The validator of line 327. *)
Definition email_valid (email : jsval) : bool :=
  match email with JStr s => Regex.test Regex.email_re s | _ => false end.

Record form_demo : Type := mk_form_demo {
  email : M jsval;
  setEmail : jsval -> M unit;
  isEmailValid : M jsval;
  search : M jsval;
  setSearch : jsval -> M unit;
  debouncedSearch : M jsval;
  theme : M jsval;
  setTheme : jsval -> M unit
}.

(** [FormDemo] (lines 324-331), in a browser ([window] defined). *)
Definition FormDemo : M form_demo :=
  e <- QwikHooks.useValidatedSignal (JStr "") email_valid ;;
  d <- QwikHooks.useDebouncedSignal (JStr "") 300 ;;
  t <- usePersistentSignal true "qwik-theme" (JStr "light") ;;
  cret (mk_form_demo e.1.1 e.1.2 e.2 d.1.1 d.1.2 d.2 t.1 t.2).

(** The page (lines 387-411). *)
Definition App : M (counter * machine_demo * fetch_demo * form_demo) :=
  c <- Counter ;; m <- StateMachineDemo ;; f <- FetchDemo ;; fm <- FormDemo ;; cret (c, m, f, fm).

End QwikDemo.

Module QwikDemoFacts.
Import QwikRt QwikHooks QwikDemo.

(** Writing a Qwik signal that no task tracks only stores the value. *)
Lemma returns_assign_state_quiet x v s :
  subs_of s x = [] -> returns (SvelteRt.assign_state x v) s tt (Signal.set_quiet x v s).
Proof.
  intros Hs k s'. unfold SvelteRt.assign_state, Signal.set_quiet, cbind, read. rewrite big_read_iff.
  destruct (js_same v (cur s x)); [done|].
  unfold assign, notify_with. rewrite big_assign_iff, big_notify_iff. split.
  - intros (s1 & Hn & Hk). apply big_notify_step_iff in Hn.
    rewrite Signal.subs_of_assign, Hs, next_entry_nil in Hn. by subst.
  - intros Hk. exists (assign_cell x v s). split; [|done].
    apply big_notify_step_iff. by rewrite Signal.subs_of_assign, Hs, next_entry_nil.
Qed.

(** The clicks' net count. *)
Definition net (ks : list click) : Z := fold_right (fun k n => (if k is Inc then 1 else -1) + n)%Z 0%Z ks.

Lemma returns_clicks c x ks :
  count c = read x -> setCount c = QwikRt.set x ->
  forall n s, subs_of s x = [] -> cur s x = num n ->
  exists s', returns (clicks c ks) s tt s' /\ cur s' x = num (n + net ks) /\ subs_of s' x = [].
Proof.
  intros Hc Hs. induction ks as [|k ks IH]; intros n s Hsub Hcur; simpl.
  - exists s. rewrite Z.add_0_r. split; [apply returns_ret | auto].
  - destruct (IH (n + if k is Inc then 1 else -1)%Z (Signal.set_quiet x (num (n + if k is Inc then 1 else -1)) s))
      as (s' & H1 & H2 & H3); [by rewrite Signal.subs_of_set_quiet | by rewrite Signal.cur_set_quiet_eq |].
    exists s'. split; [| split; [rewrite H2; f_equal; destruct k; lia | done]].
    eapply returns_bind; [|exact H1]. unfold onClick. rewrite Hc, Hs.
    eapply returns_bind; [apply returns_read|]. rewrite Hcur, js_add_num.
    by apply returns_assign_state_quiet.
Qed.

(** C33: the Qwik [Counter] counts its clicks: after any sequence of
    clicks on [+] and [-], it shows the number of [+] clicks less the
    number of [-] clicks, [doubled] shows twice that, and [isEven]
    whether it is even (negative counts included). *)
Theorem counter_shows_clicks ks s :
  exists s', returns (c <- Counter ;; clicks c ks ;;; v <- count c ;; d <- doubled c ;; e <- isEven c ;; cret (v, d, e))
               s (num (net ks), num (2 * net ks), JBool (Z.even (net ks))) s'.
Proof.
  set (x := next s). set (s0 := alloc_cell (num 0) s).
  set (c := mk_counter (read x) (QwikRt.set x) (v <- read x ;; cret (js_scale 2 v)) (v <- read x ;; cret (is_even v))).
  assert (Hc : returns Counter s c s0).
  { unfold Counter, QwikHooks.useSignal, QwikRt.useSignal, useComputed.
    eapply returns_bind; [eapply returns_bind; [apply returns_alloc | apply returns_ret]|]. simpl.
    eapply returns_bind; [apply returns_ret|]. eapply returns_bind; [apply returns_ret|]. apply returns_ret. }
  destruct (returns_clicks c x ks eq_refl eq_refl 0 s0) as (s' & Hk & Hcur & _);
    [apply Signal.subs_of_alloc_new | apply Signal.cur_alloc_new |].
  exists s'. eapply returns_bind; [exact Hc|]. eapply returns_bind; [exact Hk|]. simpl.
  eapply returns_bind; [apply returns_read|]. rewrite Hcur.
  eapply returns_bind; [eapply returns_bind; [apply returns_read|apply returns_ret]|]. rewrite Hcur.
  eapply returns_bind; [eapply returns_bind; [apply returns_read|apply returns_ret]|]. rewrite Hcur.
  eapply Hooks.returns_conv; [|apply returns_ret]. unfold js_scale, is_even, num.
  by rewrite rem_scaled, Z.add_0_l, Z.mul_assoc.
Qed.

(** How the two demos name the machine's states and actions. *)
Definition enc_state (st : MachineDemo.State) : jsval :=
  JStr (match st with MachineDemo.Idle => "idle" | MachineDemo.Loading => "loading"
                 | MachineDemo.Success => "success" | MachineDemo.Error => "error" end).

Definition enc_action (a : MachineDemo.Action) : jsval :=
  JStr (match a with MachineDemo.Start => "start" | MachineDemo.ASuccess => "success"
                | MachineDemo.AError => "error" | MachineDemo.Reset => "reset" end).

(** The Qwik example's reducer is the React [StateMachineDemo]'s: on
    every state and action, both give the same next state, so the
    Qwik machine implements the transition table the React demo
    displays. *)
Theorem qwik_reducer_agrees st a :
  reducer (enc_state st) (enc_action a) = enc_state (MachineDemo.reducer st a).
Proof. by destruct st, a. Qed.

End QwikDemoFacts.

Module QwikDemoScenarios.
Import QwikDemo.

Definition st0 : store := init_store 1000.

(** A key typed at the end of the e-mail input at time [t], then the
    next keys 10 ms apart. *)
Fixpoint type_at (fm : form_demo) (chars : list Ascii.ascii) (t : Z) : M unit :=
  match chars with
  | [] => cret tt
  | ch :: rest =>
      _ <- set_timer t false (body (v <- email fm ;;
                                    setEmail fm (JStr (PluginDemo.text v +:+ String ch EmptyString)))) ;;
      type_at fm rest (t + 10)%Z
  end.

(** The Qwik [useValidatedSignal] keeps every value and recomputes the
    flag in a task: typing [a@b.c] key by key into [FormDemo] fills the
    input and, a frame after the last key, marks it valid. *)
Example qwik_email_typing_validates :
  exists s, run_script 200 [Run (body (fm <- FormDemo ;; type_at fm (list_ascii_of_string "a@b.c") 10)); Wait 200] st0
              = Some s /\ cur s 0 = JStr "a@b.c" /\ cur s 1 = JBool true.
Proof. run_script_tac. Qed.

(** The flag is a task's result: read in the handler that set the
    address it is still [false], and it is [true] a frame later. *)
Example qwik_email_flag_lags :
  exists s, run_script 200
    [Run (body (fm <- FormDemo ;; setEmail fm (JStr "a@b.c") ;;; v <- isEmailValid fm ;; emit (OLog "valid" v)));
     Wait 1] st0 = Some s /\ trace s = [OLog "valid" (JBool false)] /\ cur s 1 = JBool true.
Proof. run_script_tac. Qed.

(** [handleAsync] clicked once the component is visible: a second later
    the machine, and the state the component shows, are [success] or
    [error] as the random draw went. *)
Example qwik_machine_async_settles :
  forall lucky, exists s, run_script 200
    [Run (body (m <- StateMachineDemo ;; _ <- set_timer 5 false (body (handleAsync m lucky)) ;; cret tt)); Wait 2000] st0
    = Some s /\ cur s 1 = JStr (if lucky then "success" else "error").
Proof. intros []; run_script_tac. Qed.

End QwikDemoScenarios.
