(* ===== verification/AsyncDemo.v ===== *)
(** * The async demo: [src/examples/react-app/src/components/AsyncSignalDemo.tsx]

    The component loads a user id "from an async source"
    ([useAsyncSignal]), keeps a user id signal, fetches the user
    ([useAsyncSignal]), the user's posts and their count
    ([useAsyncComputed]) and statistics over the posts
    ([useAsyncComputedSignal]), and keeps an "effect value" that it
    writes to [localStorage].  Module [AsyncDemo] is one render over the
    React hooks of [Hooks], given the refs of the previous render, and
    the component's handlers.  [window.fetch] and [Response.json] are the
    opaque asynchronous functions of [Fetch]; [new Date().toISOString()]
    is a parameter of the render.  An [async] function whose body awaits
    nothing answers at once, where JavaScript answers in a microtask of
    the same task: nothing runs in between on the paths modelled.  A
    quotient is rounded to the model's grain of [10^-6]. *)

From Stdlib Require Import ZArith String Ascii.
From stdpp Require Import base list gmap strings.
From S2P Require Import Prelude JsValue Engine Json Signal Fetch SignalLib Hooks Demos ReactDemos.

Local Open Scope resig_scope.

Module AsyncDemo.
Import DemoText.

Definition log (msg : string) : M unit := emit (OLog "console.log" (JStr msg)).

(** [savedUserId ? parseInt(savedUserId, 10) : 1]. *)
Definition saved_user_id (saved : option string) : jsval :=
  match saved with
  | Some t => if truthy (JStr t) then match parse_int t with Some z => num z | None => JNaN end else num 1
  | None => num 1
  end.

(** The async source of the user id (lines 5-17). *)
Definition loadUserId : Fetch.async_fn := fun ok err =>
  log "Loading initial userId from async source..." ;;;
  _ <- set_timer 1000 false (body (
         savedUserId <- storage_get "signal-demo-userId" ;;
         let initialUserId := saved_user_id savedUserId in
         emit (OLog "Loaded initial userId:" initialUserId) ;;;
         ok initialUserId)) ;;
  cret tt.

(** [fetch(url)], a failure unless [response.ok], then
    [response.json()] (lines 53-57 and 61-65). *)
Definition fetch_json (url failure : string) : Fetch.async_fn := fun ok err =>
  invoke Fetch.window_fetch (JStr url)
    (fun response => if truthy (get_field response "ok") then invoke Fetch.response_json response ok err
                     else i <- new_id ;; err (JErr i failure))
    err.

Definition userFetcher (userId : jsval) : Fetch.async_fn :=
  fetch_json ("https://jsonplaceholder.typicode.com/users/" +:+ show userId) "Failed to fetch user".

Definition postsFetcher (userId : jsval) : Fetch.async_fn :=
  fetch_json ("https://jsonplaceholder.typicode.com/posts?userId=" +:+ show userId) "Failed to fetch posts".

(** [postsState.data?.length || 0]. *)
Definition post_count (data : jsval) : jsval :=
  match data with JArr _ xs => num (Z.of_nat (length xs)) | _ => num 0 end.

(** The post count after 100 ms (lines 68-72). *)
Definition postCount (postsData : jsval) : Fetch.async_fn := fun ok err =>
  _ <- set_timer 100 false (body (ok (post_count postsData))) ;; cret tt.

(** [posts.reduce((sum, post) => sum + post.title.length, 0)]. *)
Definition title_total (posts : list jsval) : Z :=
  fold_left (fun sum post => sum + Z.of_nat (String.length (PluginDemo.text (get_field post "title"))))%Z posts 0%Z.

(** [a / b] of two integers, at the model's grain. *)
Definition ratio (a b : Z) : jsval := JNum (a * 1000000 / b).

(** The statistics (lines 75-88). *)
Definition userStats (toISOString : Z -> string) (postsData userId : jsval) : Fetch.async_fn := fun ok err =>
  if negb (truthy postsData) then ok JNull
  else
    _ <- set_timer 200 false (body (
           t <- now ;; i <- new_id ;;
           let posts := match postsData with JArr _ xs => xs | _ => [] end in
           ok (JObj i [("totalPosts"%string, post_count postsData);
                       ("avgTitleLength"%string, ratio (title_total posts) (Z.of_nat (length posts)));
                       ("lastPostDate"%string, JStr (toISOString t));
                       ("userId"%string, userId)]))) ;;
    cret tt.

(** [Math.round(x)]. *)
Definition js_round (v : jsval) : jsval :=
  match v with JNum m => JNum ((m + 500000) / 1000000 * 1000000) | _ => JNaN end.

(** [userStatsDisplay] (lines 90-98), of the statistics' state. *)
Definition userStatsDisplay (stats : jsval) : string :=
  if truthy (get_field stats "loading") then "Computing user statistics..."
  else if truthy (get_field stats "error") then "Error: " +:+ show (get_field (get_field stats "error") "message")
  else if negb (truthy (get_field stats "data")) then "No statistics available"
  else let d := get_field stats "data" in
       "User " +:+ show (get_field d "userId") +:+ " has " +:+ show (get_field d "totalPosts") +:+
       " posts with avg title length of " +:+ show (js_round (get_field d "avgTitleLength")) +:+ " chars".

(** [isActiveUser] (lines 100-103): [stats.data && stats.data.totalPosts > 5]. *)
Definition isActiveUser (stats : jsval) : jsval :=
  let d := get_field stats "data" in
  if truthy d then JBool (match get_field d "totalPosts" with JNum m => (5000000 <? m)%Z | _ => false end) else d.

(** [effectValue.split(' ').length]. *)
Definition word_count (s : string) : nat :=
  S (length (List.filter (fun c => Ascii.eqb c " "%char) (list_ascii_of_string s))).

(** [effectSummary] (lines 121-124). *)
Definition effectSummary (effectValue : jsval) : string :=
  if negb (truthy effectValue) then "No effect value"
  else "Effect has " +:+ show (num (Z.of_nat (String.length (PluginDemo.text effectValue)))) +:+ " chars, " +:+
       show (num (Z.of_nat (word_count (PluginDemo.text effectValue)))) +:+ " words".

Record refs : Type := mk_refs {
  r_userIdAsync : nat * nat;
  r_userId : nat;
  r_user : nat * nat;
  r_posts : Hooks.computed_refs;
  r_postCount : Hooks.computed_refs;
  r_stats : Hooks.computed_refs;
  r_effect : nat
}.

Record view : Type := mk_view {
  v_userIdAsyncState : jsval;
  v_userId : jsval;
  v_currentUserId : jsval;
  v_userIdDisplay : jsval;
  v_userState : jsval;
  v_postsState : jsval;
  v_postCountState : jsval;
  v_stats : nat;
  v_effectValue : jsval;
  refetchUserId : M unit;
  setUserId : jsval -> M unit;
  refetchUser : M unit;
  setUser : jsval -> M unit;
  setEffectValue : jsval -> M unit
}.

(** One render (lines 3-124); [r] the refs of the previous render. *)
Definition render (toISOString : Z -> string) (r : option refs) : M (refs * view) :=
  a <- Hooks.useAsyncSignal (L := core_lib) (option_map (fun x => x.(r_userIdAsync).1) r)
         (option_map (fun x => x.(r_userIdAsync).2) r) loadUserId JUndef ;;
  b <- Hooks.useSignal (L := core_lib) (option_map r_userId r) (num 1) ;;
  let userIdAsyncState := a.2.1.1 in let userId := b.2.1 in
  let currentUserId := if truthy (get_field userIdAsyncState "data") then get_field userIdAsyncState "data" else userId in
  let userIdDisplay :=
    if truthy (get_field userIdAsyncState "loading") then JStr "Loading..."
    else if truthy (get_field userIdAsyncState "error") then JStr "Error loading" else currentUserId in
  u <- Hooks.useAsyncSignal (L := core_lib) (option_map (fun x => x.(r_user).1) r)
         (option_map (fun x => x.(r_user).2) r) (userFetcher userId) JUndef ;;
  p <- Hooks.useAsyncComputed (L := core_lib) (default Hooks.computed_refs0 (option_map r_posts r))
         (postsFetcher userId) [userId] ;;
  let postsData := get_field p.2 "data" in
  pc <- Hooks.useAsyncComputed (L := core_lib) (default Hooks.computed_refs0 (option_map r_postCount r))
          (postCount postsData) [postsData] ;;
  st <- Hooks.useAsyncComputedSignal (L := core_lib) (default Hooks.computed_refs0 (option_map r_stats r))
          (userStats toISOString postsData userId) [postsData; userId] ;;
  saved <- storage_get "signal-demo-effect-value" ;;
  let initialEffect := match saved with Some t => if truthy (JStr t) then JStr t else JStr "Initial effect value"
                                       | None => JStr "Initial effect value" end in
  e <- Hooks.useSignal (L := core_lib) (option_map r_effect r) initialEffect ;;
  cret (mk_refs a.1 b.1 u.1 p.1 pc.1 st.1 e.1,
        mk_view userIdAsyncState userId currentUserId userIdDisplay u.2.1.1 p.2 pc.2 st.2 e.2.1
          a.2.1.2 b.2.2 u.2.1.2 u.2.2 e.2.2).

(** [saveUserIdToAsync(newUserId)] (lines 35-41). *)
Definition saveUserIdToAsync (v : view) (newUserId : jsval) : M unit :=
  setUserId v newUserId ;;;
  storage_set_m "signal-demo-userId" (js_string newUserId) ;;;
  emit (OLog "Saved userId to localStorage:" newUserId).

(** [syncWithAsyncData()] (lines 44-49). *)
Definition syncWithAsyncData (v : view) : M unit :=
  let data := get_field (v_userIdAsyncState v) "data" in
  if truthy data then setUserId v data ;;; emit (OLog "Synced userId with async data:" data) else cret tt.

(** [saveToLocalStorage(value)] (lines 113-116). *)
Definition saveToLocalStorage (value : string) : M unit :=
  storage_set_m "signal-demo-effect-value" value ;;; emit (OLog "Saved to localStorage:" (JStr value)).

(** [handleEffectDemo()] (lines 127-147): the timer reads the posts of
    the render that made the handler. *)
Definition handleEffectDemo (v : view) : M unit :=
  let newValue := "Step 1: Effect -> userId(" +:+ show (v_userId v) +:+ ") -> processed" in
  emit (OLog "Effect step 1:" (JStr newValue)) ;;;
  setEffectValue v (JStr newValue) ;;;
  storage_set_m "signal-demo-effect-value" newValue ;;;
  _ <- set_timer 500 false (body (
         let postCount := post_count (get_field (v_postsState v) "data") in
         let finalValue := "Step 2: " +:+ newValue +:+ " -> posts(" +:+ show postCount +:+ ") -> final" in
         emit (OLog "Effect step 2:" (JStr finalValue)) ;;;
         setEffectValue v (JStr finalValue) ;;;
         storage_set_m "signal-demo-effect-value" finalValue)) ;;
  log "Effect composition demo completed with signal dependencies".

(** [autoUpdateEffect()] (lines 149-156). *)
Definition autoUpdateEffect (v : view) : M unit :=
  statsData <- Signal.value (v_stats v) ;;
  let d := get_field statsData "data" in
  if truthy d then
    let newValue := "Auto-effect: User " +:+ show (v_userId v) +:+ " has " +:+ show (get_field d "totalPosts") +:+
                    " posts (avg: " +:+ show (js_round (get_field d "avgTitleLength")) +:+ " chars)" in
    setEffectValue v (JStr newValue) ;;; storage_set_m "signal-demo-effect-value" newValue
  else cret tt.

End AsyncDemo.

Module AsyncDemoScenarios.
Import AsyncDemo.

Definition st0 : store := init_store 1000.

Definition iso (t : Z) : string := "2024-01-01T00:00:00.000Z".

(** The stored user id is [3]; the component mounts, [refetchUserId]
    is clicked when [click] holds, and the page renders again two
    seconds later and shows its user id. *)
Definition sc_mount (click : bool) : list script_step :=
  [Run (body (storage_set_m "signal-demo-userId" "3" ;;;
              x <- render iso None ;;
              (if click then refetchUserId x.2 else cret tt) ;;;
              _ <- set_timer 2000 false (body (y <- render iso (Some x.1) ;;
                                               emit (OLog "display" (v_userIdDisplay y.2)))) ;;
              cret tt));
   Wait 3000].

(** [useAsyncSignal] calls its function only on [refetch], never at
    mount: the user id the component says it loads "from an async
    source" is never loaded, the stored [3] is ignored, the page shows
    user [1] and the only request is for user [1]'s posts. *)
Example async_user_id_never_loaded :
  exists s, run_script 200 (sc_mount false) st0 = Some s /\
    trace s = [OInvoke Fetch.window_fetch (JStr "https://jsonplaceholder.typicode.com/posts?userId=1");
               OLog "display" (num 1)].
Proof. run_script_tac. Qed.

(** Once [refetchUserId] has loaded the stored [3], the page shows user
    [3], while the posts it fetched, and keeps, are user [1]'s: the
    fetches read the [userId] signal, the display the loaded id. *)
Example async_display_disagrees_with_posts :
  exists s, run_script 200 (sc_mount true) st0 = Some s /\
    trace s = [OLog "console.log" (JStr "Loading initial userId from async source...");
               OInvoke Fetch.window_fetch (JStr "https://jsonplaceholder.typicode.com/posts?userId=1");
               OLog "Loaded initial userId:" (num 3);
               OLog "display" (num 3)].
Proof. run_script_tac. Qed.

End AsyncDemoScenarios.
