(* ===== verification/DevTool.v ===== *)
(** * The signal dev tool: [src/examples/react-app/src/components/SignalDevTool.tsx]

    The file holds two components.  [SignalDevTool] (lines 1-324) keeps
    a module-level registry of signals (a JS [Map], insertion-ordered)
    and an event log (an array); every function of [SignalDevToolAPI]
    defers its work with [setTimeout(..., 0)], and a timer set when the
    module loads adds demo data after 100 ms.  The component shows the
    last 50 events or the registered signals, as computed at its last
    render.  [ComputedSignalDemo] (lines 326-420) computes a result of
    two numbers and an operation.

    Module [DevToolApi] is the module state with its queue of timers:
    each API call queues an operation, [fire] runs the timers that are
    due in order of due time and of creation; [Date.now()] is the clock
    of the state and [Math.random().toString(36)] a parameter [rand].
    Module [DevTool] is the component as a step function: its three
    signals compare with [===] and re-render the component when they
    change, and a render recomputes what it shows.  Module
    [ComputedDemo] is the other component's computed values. *)

From Stdlib Require Import ZArith String List Lia.
From stdpp Require Import base tactics pretty.
From S2P Require Import JsValue.
Import ListNotations.

Local Open Scope string_scope.

Module DevToolApi.

(** [SignalState['type']] and [SignalEvent['type']] (lines 4-20). *)
Inductive sig_type : Type := TSignal | TComputed | TEffect | TAsync.
Inductive event_type : Type := SignalCreated | SignalUpdated | SignalAccessed | EffectExecuted | ComputedEvaluated.

Definition type_name (t : sig_type) : string :=
  match t with TSignal => "signal" | TComputed => "computed" | TEffect => "effect" | TAsync => "async" end.

(** [interface SignalState] (lines 14-20). *)
Record sig_state : Type := mk_sig_state {
  s_name : string;
  s_value : jsval;
  s_type : sig_type;
  s_lastUpdated : Z;
  s_accessCount : nat
}.

(** [interface SignalEvent] (lines 4-12): an absent property is [None]. *)
Record sig_event : Type := mk_event {
  e_id : string;
  e_timestamp : Z;
  e_type : event_type;
  e_signalName : string;
  e_oldValue : option jsval;
  e_newValue : option jsval;
  e_details : string
}.

(** [Map.prototype.get]. *)
Fixpoint map_get (m : list (string * sig_state)) (k : string) : option sig_state :=
  match m with
  | [] => None
  | (k', v) :: m' => if String.eqb k k' then Some v else map_get m' k
  end.

(** [Map.prototype.set]: a key already present keeps its place. *)
Fixpoint map_set (m : list (string * sig_state)) (k : string) (v : sig_state) : list (string * sig_state) :=
  match m with
  | [] => [(k, v)]
  | (k', v') :: m' => if String.eqb k k' then (k, v) :: m' else (k', v') :: map_set m' k v
  end.

(** The deferred work of each API function, and the demo data. *)
Inductive api_op : Type :=
  | DemoData
  | Register (name : string) (value : jsval) (type : sig_type)
  | Update (name : string) (oldValue newValue : jsval)
  | Access (name : string)
  | Execute (name details : string)
  | Evaluate (name : string) (result : jsval).

(** [globalSignalRegistry], [globalEventLog], the clock, the count of
    ids drawn, and the timers still to fire (due time, operation), in
    firing order. *)
Record api_state : Type := mk_api {
  registry : list (string * sig_state);
  eventLog : list sig_event;
  clock : Z;
  draws : nat;
  timers : list (Z * api_op)
}.

(** A timer is fired after every timer due no later than it. *)
Fixpoint insert_timer (due : Z) (op : api_op) (ts : list (Z * api_op)) : list (Z * api_op) :=
  match ts with
  | [] => [(due, op)]
  | (d, o) :: ts' => if (due <? d)%Z then (due, op) :: ts else (d, o) :: insert_timer due op ts'
  end.

(** [setTimeout(work, ms)]. *)
Definition set_timeout (ms : Z) (op : api_op) (st : api_state) : api_state :=
  mk_api (registry st) (eventLog st) (clock st) (draws st) (insert_timer (clock st + ms) op (timers st)).

(** The module's state when it is loaded: empty, and the demo timer
    (lines 27-44). *)
Definition load (now : Z) : api_state := set_timeout 100 DemoData (mk_api [] [] now 0 []).

(** The API functions (lines 47-139) queue their work. *)
Definition registerSignal (name : string) (value : jsval) (type : sig_type) := set_timeout 0 (Register name value type).
Definition updateSignal (name : string) (oldValue newValue : jsval) := set_timeout 0 (Update name oldValue newValue).
Definition accessSignal (name : string) := set_timeout 0 (Access name).
Definition executeEffect (name details : string) := set_timeout 0 (Execute name details).
Definition evaluateComputed (name : string) (result : jsval) := set_timeout 0 (Evaluate name result).

(** [globalEventLog.push(e)] with the registry [reg]; [drew] when the
    event's id came from [Math.random]. *)
Definition log_event (st : api_state) (drew : bool) (e : sig_event) (reg : list (string * sig_state)) : api_state :=
  mk_api reg (eventLog st ++ [e]) (clock st) (if drew then S (draws st) else draws st) (timers st).

(** The work of a timer when it fires; [id] is the id the call of
    [Math.random] gives. *)
Definition run_op (rand : nat -> string) (st : api_state) (op : api_op) : api_state :=
  let now := clock st in
  let id := rand (draws st) in
  match op with
  | DemoData =>
      log_event st false (mk_event "demo-1" (now - 5000) SignalCreated "demo-signal" None (Some (JStr "Hello DevTool!"))
                      "Demo signal created to show DevTool functionality")
        (map_set (registry st) "demo-signal"
           (mk_sig_state "demo-signal" (JStr "Hello DevTool!") TSignal (now - 5000) 3))
  | Register name value type =>
      log_event st true (mk_event id now SignalCreated name None (Some value)
                      ("Created " ++ type_name type ++ " signal: " ++ name))
        (map_set (registry st) name (mk_sig_state name value type now 0))
  | Update name oldValue newValue =>
      match map_get (registry st) name with
      | Some sg =>
          log_event st true (mk_event id now SignalUpdated name (Some oldValue) (Some newValue)
                          ("Updated " ++ type_name (s_type sg) ++ ": " ++ name))
            (map_set (registry st) name (mk_sig_state (s_name sg) newValue (s_type sg) now (s_accessCount sg)))
      | None => st
      end
  | Access name =>
      match map_get (registry st) name with
      | Some sg =>
          let n := S (s_accessCount sg) in
          log_event st true (mk_event id now SignalAccessed name None None
                          ("Accessed " ++ type_name (s_type sg) ++ ": " ++ name ++ " (count: " ++
                           pretty n ++ ")"))
            (map_set (registry st) name (mk_sig_state (s_name sg) (s_value sg) (s_type sg) (s_lastUpdated sg) n))
      | None => st
      end
  | Execute name details =>
      log_event st true (mk_event id now EffectExecuted name None None ("Effect executed: " ++ details)) (registry st)
  | Evaluate name result =>
      log_event st true (mk_event id now ComputedEvaluated name None (Some result) ("Computed evaluated: " ++ name))
        (registry st)
  end.

(** The timers due by [target] fire in order, each at its due time;
    then the clock reads [target]. *)
Fixpoint fire_due (rand : nat -> string) (target : Z) (ts : list (Z * api_op)) (st : api_state) : api_state :=
  match ts with
  | [] => mk_api (registry st) (eventLog st) target (draws st) []
  | (d, op) :: ts' =>
      if (d <=? target)%Z
      then fire_due rand target ts' (run_op rand (mk_api (registry st) (eventLog st) d (draws st) ts') op)
      else mk_api (registry st) (eventLog st) target (draws st) ts
  end.

(** [ms] milliseconds pass. *)
Definition advance (rand : nat -> string) (ms : Z) (st : api_state) : api_state :=
  fire_due rand (clock st + ms) (timers st) st.

(** [getEvents], [getSignals] (the registry's values in its order),
    [clearEvents], [clearSignals] (lines 131-139). *)
Definition getEvents (st : api_state) : list sig_event := eventLog st.
Definition getSignals (st : api_state) : list sig_state := map snd (registry st).
Definition clearEvents (st : api_state) : api_state := mk_api (registry st) [] (clock st) (draws st) (timers st).
Definition clearSignals (st : api_state) : api_state := mk_api [] (eventLog st) (clock st) (draws st) (timers st).

End DevToolApi.

Module DevTool.
Import DevToolApi.

(** [array.slice(-n)]. *)
Definition slice_last {A} (n : nat) (l : list A) : list A := skipn (length l - n) l.

(** The component: the module state, its three signals, and what its
    last render computed.  [refreshCount] holds what [setRefreshCount]
    was last given: the updater function [prev => prev + 1] of some
    render, a new function at each render. *)
Record devtool : Type := mk_devtool {
  api : api_state;
  isOpen : jsval;
  selectedTab : jsval;
  refreshCount : jsval;
  renders : nat;
  events : list sig_event;
  signals : list sig_state
}.

(** A render (lines 142-156). *)
Definition render (c : devtool) : devtool :=
  mk_devtool (api c) (isOpen c) (selectedTab c) (refreshCount c) (S (renders c))
    (slice_last 50 (getEvents (api c))) (getSignals (api c)).

Definition mount (st : api_state) : devtool :=
  render (mk_devtool st (JBool true) (JStr "events") (num 0) 0 [] []).

(** A setter of [useSignal]: [_set] stores a value that is not [===] to
    the current one and React renders again. *)
Definition set_isOpen (c : devtool) (v : jsval) : devtool :=
  if js_same v (isOpen c) then c
  else render (mk_devtool (api c) v (selectedTab c) (refreshCount c) (renders c) (events c) (signals c)).

Definition set_selectedTab (c : devtool) (v : jsval) : devtool :=
  if js_same v (selectedTab c) then c
  else render (mk_devtool (api c) (isOpen c) v (refreshCount c) (renders c) (events c) (signals c)).

Definition set_refreshCount (c : devtool) (v : jsval) : devtool :=
  if js_same v (refreshCount c) then c
  else render (mk_devtool (api c) (isOpen c) (selectedTab c) v (renders c) (events c) (signals c)).

(** What happens to the page: the buttons (lines 187-232), time passing
    (the API's timers fire), and other code calling the API. *)
Inductive ui_event : Type :=
  | ShowTool
  | HideTool
  | TabEvents
  | TabSignals
  | RefreshButton
  | ClearButton
  | Wait (ms : Z)
  | ApiCall (f : api_state -> api_state).

(** A button exists only while the tool is shown, the "Show" button only
    while it is hidden. *)
Definition step (rand : nat -> string) (c : devtool) (e : ui_event) : option devtool :=
  let open_ := truthy (isOpen c) in
  match e with
  | ShowTool => if open_ then None else Some (set_isOpen c (JBool true))
  | HideTool => if open_ then Some (set_isOpen c (JBool false)) else None
  | TabEvents => if open_ then Some (set_selectedTab c (JStr "events")) else None
  | TabSignals => if open_ then Some (set_selectedTab c (JStr "signals")) else None
  | RefreshButton => if open_ then Some (set_refreshCount c (JFun (renders c))) else None
  | ClearButton =>
      if open_ then Some (mk_devtool (clearEvents (api c)) (isOpen c) (selectedTab c) (refreshCount c)
                                      (renders c) (events c) (signals c))
      else None
  | Wait ms => Some (mk_devtool (advance rand ms (api c)) (isOpen c) (selectedTab c) (refreshCount c)
                                (renders c) (events c) (signals c))
  | ApiCall f => Some (mk_devtool (f (api c)) (isOpen c) (selectedTab c) (refreshCount c)
                                  (renders c) (events c) (signals c))
  end.

Fixpoint run (rand : nat -> string) (c : devtool) (es : list ui_event) : option devtool :=
  match es with
  | [] => Some c
  | e :: es' => c' ← step rand c e ; run rand c' es'
  end.

End DevTool.

Module ComputedDemo.

(** [a * b] on the integers the quick tests set; a product with a
    fraction is outside the numbers of the model. *)
Definition js_mul (a b : jsval) : option jsval :=
  match a, b with
  | JNum x, JNum y => if (y mod 1000000 =? 0)%Z then Some (JNum (x * (y / 1000000))) else None
  | _, _ => None
  end.

(** [result] (lines 335-342). *)
Definition result (a b operation : jsval) : option jsval :=
  if js_same operation (JStr "add") then Some (js_add a b)
  else if js_same operation (JStr "multiply") then js_mul a b
  else if js_same operation (JStr "subtract") then Some (js_add a (js_scale (-1) b))
  else Some (num 0).

(** [isEven] and [description] (lines 344-345). *)
Definition isEven (r : jsval) : bool :=
  match r with JNum m => (Z.rem m 2000000 =? 0)%Z | _ => false end.

Definition description (show : jsval -> string) (r : jsval) : string :=
  show r ++ " is " ++ (if isEven r then "even" else "odd").

(** The quick tests (lines 393-402): three writes; the last render
    shows the result. *)
Definition quick_test (a b : Z) (op : string) : option jsval := result (num a) (num b) (JStr op).

End ComputedDemo.

Module DevToolFacts.
Import DevToolApi DevTool.
Local Open Scope list_scope.

Lemma map_get_set_eq m k v : map_get (map_set m k v) k = Some v.
Proof.
  induction m as [|[k' v'] m IH]; simpl; [by rewrite String.eqb_refl|].
  destruct (String.eqb k k') eqn:E; simpl; [by rewrite String.eqb_refl | by rewrite E].
Qed.

(** A timer due no earlier than every queued one goes last. *)
Lemma insert_timer_last due op ts :
  Forall (fun x => (x.1 <= due)%Z) ts -> insert_timer due op ts = ts ++ [(due, op)].
Proof.
  induction 1 as [|[d o] ts Hd _ IH]; simpl in *; [done|].
  destruct (Z.ltb_spec due d); [lia|]. by rewrite IH.
Qed.

Lemma iter_access_state name k st :
  Forall (fun x => (x.1 <= clock st)%Z) (timers st) ->
  clock (Nat.iter k (accessSignal name) st) = clock st /\
  registry (Nat.iter k (accessSignal name) st) = registry st /\
  eventLog (Nat.iter k (accessSignal name) st) = eventLog st /\
  draws (Nat.iter k (accessSignal name) st) = draws st /\
  timers (Nat.iter k (accessSignal name) st) = timers st ++ repeat (clock st + 0, Access name)%Z k.
Proof.
  intros Hall. induction k as [|k (Hc & Hr & He & Hd & Ht)]; [simpl; by rewrite app_nil_r|].
  change (Nat.iter (S k) (accessSignal name) st) with (accessSignal name (Nat.iter k (accessSignal name) st)).
  set (X := Nat.iter k (accessSignal name) st) in *.
  unfold accessSignal, set_timeout; cbn [clock registry eventLog draws timers]. rewrite Hc, Hr, He, Hd, Ht.
  rewrite insert_timer_last.
  - rewrite <- app_assoc. repeat split. simpl. by rewrite repeat_cons.
  - apply Forall_app. split; [eapply Forall_impl; [exact Hall|]; simpl; lia|].
    apply List.Forall_forall. intros x Hx. apply repeat_spec in Hx. subst. simpl. lia.
Qed.

(** Queued accesses to a registered signal each add one to its count
    and one event. *)
Lemma fire_accesses rand t name k : forall st sg,
  map_get (registry st) name = Some sg ->
  map_get (registry (fire_due rand t (repeat (t, Access name) k) st)) name =
    Some (mk_sig_state (s_name sg) (s_value sg) (s_type sg) (s_lastUpdated sg) (s_accessCount sg + k)) /\
  length (eventLog (fire_due rand t (repeat (t, Access name) k) st)) = length (eventLog st) + k.
Proof.
  induction k as [|k IH]; intros st sg Hg; simpl.
  - rewrite Nat.add_0_r. rewrite Hg. destruct sg; auto.
  - rewrite Z.leb_refl. unfold run_op. simpl. rewrite Hg.
    match goal with |- context [fire_due rand t _ ?X] => destruct (IH X _ (map_get_set_eq _ _ _)) as [H1 H2] end.
    simpl in *.
    rewrite H1, H2, length_app. simpl. split; [do 2 f_equal; lia | lia].
Qed.

(** C34: the dev tool API runs its deferred work in call order: a signal
    registered and then accessed [k] times, with no other work queued,
    is, once the timers have fired, registered with its value and type,
    the time of the registration, and an access count of [k], and the
    log has gained one event per call. *)
Theorem access_counts rand st name v ty k :
  timers st = [] ->
  let st' := advance rand 0 (Nat.iter k (accessSignal name) (registerSignal name v ty st)) in
  map_get (registry st') name = Some (mk_sig_state name v ty (clock st) k) /\
  length (eventLog st') = length (eventLog st) + S k.
Proof.
  intros Ht. cbv zeta. set (st1 := registerSignal name v ty st).
  assert (Hts1 : timers st1 = [(clock st, Register name v ty)]).
  { unfold st1, registerSignal, set_timeout. rewrite Ht. simpl. by rewrite Z.add_0_r. }
  assert (Hall : Forall (fun x => (x.1 <= clock st1)%Z) (timers st1)).
  { rewrite Hts1. constructor; [simpl; lia | constructor]. }
  destruct (iter_access_state name k st1 Hall) as (Hc & Hr & He & Hd & Hts).
  set (X := Nat.iter k (accessSignal name) st1) in *.
  unfold advance. rewrite Hc, Hts, Hts1. simpl (clock st1). rewrite !Z.add_0_r.
  cbn [app fire_due]. rewrite Z.leb_refl, Hr, He, Hd.
  match goal with |- context [fire_due rand _ _ ?Y] =>
    destruct (fire_accesses rand (clock st) name k Y (mk_sig_state name v ty (clock st) 0)) as [H1 H2] end.
  - apply map_get_set_eq.
  - simpl in *. split; [exact H1|]. rewrite H2, length_app. simpl. lia.
Qed.

Lemma access_counts_witness :
  let st := mk_api [] [] 0 0 [] in
  timers st = [] /\
  map_get (registry (advance (fun _ => "id") 0
            (Nat.iter 2 (accessSignal "s") (registerSignal "s" (num 1) TSignal st)))) "s"
    = Some (mk_sig_state "s" (num 1) TSignal (clock st) 2) /\
  length (eventLog (advance (fun _ => "id") 0
            (Nat.iter 2 (accessSignal "s") (registerSignal "s" (num 1) TSignal st)))) = length (eventLog st) + 3.
Proof.
  simpl. split; [reflexivity|].
  exact (access_counts (fun _ => "id") (mk_api [] [] 0 0 []) "s" (num 1) TSignal 2 eq_refl).
Defined.

Lemma slice_last_length {A} n (l : list A) : length (slice_last n l) <= n.
Proof. unfold slice_last. rewrite length_skipn. lia. Qed.

(** The states of the component from its mount on. *)
Inductive reachable (rand : nat -> string) : devtool -> Prop :=
  | reach_mount st : reachable rand (mount st)
  | reach_step c e c' : reachable rand c -> step rand c e = Some c' -> reachable rand c'.

(** A step either leaves what the component shows alone or renders it. *)
Lemma step_keeps_or_renders rand c e c' :
  step rand c e = Some c' -> events c' = events c \/ exists c0, c' = render c0.
Proof.
  destruct e; simpl; intros H; repeat case_match; simplify_eq;
    unfold set_isOpen, set_selectedTab, set_refreshCount; repeat case_match; eauto.
Qed.

(** The events tab never lists more than 50 events, whatever happens
    to the page and to the module state. *)
Theorem shown_events_bounded rand c : reachable rand c -> length (events c) <= 50.
Proof.
  induction 1 as [st|c e c' _ IH Hstep]; [apply slice_last_length|].
  destruct (step_keeps_or_renders _ _ _ _ Hstep) as [->|[c0 ->]]; [done | apply slice_last_length].
Qed.

Lemma shown_events_bounded_witness :
  let c := mount (load 0) in
  reachable (fun _ => "id") c /\ length (events c) <= 50.
Proof.
  assert (H : reachable (fun _ => "id") (mount (load 0))) by apply reach_mount.
  split; [exact H | exact (shown_events_bounded _ _ H)].
Defined.

(** "Clear" empties the log but does not render the component: the
    events it showed stay on the page until a render, here the one
    "Refresh" makes.  The demo data arrives 100 ms after the module
    loads. *)
Example clear_not_shown_until_refresh :
  let rand := fun _ : nat => "id" in
  exists c1 c2, run rand (mount (load 0)) [Wait 200; RefreshButton] = Some c1 /\ length (events c1) = 1 /\
    run rand c1 [ClearButton] = Some c2 /\ length (events c2) = 1 /\ getEvents (api c2) = [] /\
    option_map (fun c => length (events c)) (run rand c2 [RefreshButton]) = Some 0.
Proof. eexists _, _. vm_compute. repeat split; reflexivity. Qed.

End DevToolFacts.

Module ComputedFacts.
Import ComputedDemo.

(** [isEven] of [ComputedSignalDemo] is the parity of the result, for
    negative results too, where JavaScript's [%] keeps the sign of the
    dividend. *)
Theorem description_parity show z :
  description show (num z) = (show (num z) ++ " is " ++ (if Z.even z then "even" else "odd"))%string.
Proof. unfold description, isEven, num. by rewrite rem_scaled. Qed.

(** The three quick-test buttons show the results their labels state:
    3 + 4 = 7, 6 x 7 = 42, 10 - 3 = 7. *)
Example quick_tests_match_labels :
  quick_test 3 4 "add" = Some (num 7) /\ quick_test 6 7 "multiply" = Some (num 42) /\
  quick_test 10 3 "subtract" = Some (num 7).
Proof. vm_compute. auto. Qed.

End ComputedFacts.
