(* ===== verification/Showcase.v ===== *)
(** * The plugin showcase and the Vue example of [src/unnamed/part_003]

    The file concatenates a TypeScript module (lines 1-280), a Vue
    single-file component (lines 281-490) and a Markdown guide (lines
    491-658, documentation only).

    - Module [ShowcasePlugins] is the TypeScript module: it builds plugin
      compositions with the plugins of [resig.js/plugins] (the package
      export of [src/plugins/index.ts], [Plugins]) when it is loaded.
      That [commonPlugins] has no [formField], so loading the module
      throws at line 31, before [ReactPluginDemo] can be called; the
      Svelte and SolidJS "implementations" of the module are template
      strings, not code.
    - Module [VueExample] is the [<script setup>] of the Vue component
      (lines 427-486) over the Vue hooks of [src/vue/hooks.ts]
      ([Vue.VueHooks]) and the handlers its template binds (lines
      299-406); its reducer, fetcher and validator are those of the Qwik
      example, written the same way, and reuse [QwikDemo]'s. *)

From Stdlib Require Import ZArith String.
From stdpp Require Import base list gmap strings.
From S2P Require Import Prelude JsValue Engine Json Signal Fetch Plugins Hooks Vue Qwik QwikDemo.

Local Open Scope resig_scope.

Module ShowcasePlugins.

(** [userInputPlugins] (lines 20-24). *)
Definition userInputPlugins : Plugins.plugin :=
  Plugins.compose [Plugins.debouncePlugin 300;
                   Plugins.validatePlugin (fun v => 0 <? String.length (match v with JStr s => s | _ => "" end))%nat None;
                   Plugins.loggerPlugin "UserInput"].

(** [apiDataPlugins] (lines 26-29). *)
Definition apiDataPlugins : Plugins.plugin :=
  Plugins.compose [Plugins.cachePlugin "user-data" 60000; Plugins.loggerPlugin "APIData"].

(** Loading the module (lines 9-37): the two compositions are
    functions, made without effect; [commonPlugins.formField] is
    [undefined], and calling it throws. *)
Definition load_module : M unit :=
  let _ := userInputPlugins in
  let _ := apiDataPlugins in
  throw_error "TypeError: commonPlugins.formField is not a function".

End ShowcasePlugins.

Module VueExample.
Import VueHooks.

Record example : Type := mk_example {
  count : M jsval;
  setCount : jsval -> M unit;
  doubled : M jsval;
  isEven : M jsval;
  state : M jsval;
  send : jsval -> M unit;
  userState : M jsval;
  refetch : M Fetch.fetch_obj;
  retry : nat -> M Fetch.fetch_obj;
  email : M jsval;
  setEmail : jsval -> M unit;
  isEmailValid : M jsval;
  search : M jsval;
  setSearch : jsval -> M unit;
  debouncedSearch : M jsval;
  theme : M jsval;
  setTheme : jsval -> M unit
}.

(** The [<script setup>] of lines 427-486, in the component instance
    [inst]. *)
Definition setup (inst : nat) : M example :=
  c <- VueHooks.useSignal (num 0) ;;
  doubled <- VueHooks.useComputed (v <- c.1 ;; cret (js_scale 2 v)) ;;
  isEven <- VueHooks.useComputed (v <- c.1 ;; cret (QwikDemo.is_even v)) ;;
  m <- VueHooks.useMachine inst (JStr "idle") QwikDemo.reducer ;;
  f <- VueHooks.useFetch inst QwikDemo.user_fetcher ;;
  e <- VueHooks.useValidatedSignal (JStr "") QwikDemo.email_valid ;;
  d <- VueHooks.useDebouncedSignal (JStr "") 300 ;;
  t <- VueHooks.usePersistentSignal "vue-theme" (JStr "light") ;;
  cret (mk_example c.1 c.2 doubled isEven m.1 m.2 f.1.1 f.1.2 f.2 e.1.1 e.1.2 e.2 d.1.1 d.1.2 d.2 t.1 t.2).

(** [handleAsync] (lines 457-469), with the outcome of [Math.random()
    > 0.5]. *)
Definition handleAsync (x : example) (lucky : bool) : M unit :=
  send x (JStr "start") ;;;
  _ <- set_timer 1000 false (body (send x (JStr (if lucky then "success" else "error")))) ;;
  cret tt.

(** The buttons [+] and [-] (template lines 299 and 305). *)
Definition increment (x : example) : M unit := v <- count x ;; setCount x (js_add v (num 1)).
Definition decrement (x : example) : M unit := v <- count x ;; setCount x (js_add v (num (-1))).

End VueExample.

Module ShowcaseScenarios.
Import VueExample.

Definition st0 : store := init_store 1000.

(** Loading the showcase module throws before anything else runs. *)
Example showcase_module_throws :
  exists s, run_script 200 [Run (body ShowcasePlugins.load_module)] st0 = Some s /\
    trace s = [OThrow "TypeError: commonPlugins.formField is not a function"].
Proof. run_script_tac. Qed.

(** The Vue example mounted in instance [0]: [+] twice, [-] once, the
    search typed ["a"] at once and ["ab"] 500 ms later, [handleAsync]
    with a lucky draw; two seconds later the counter shows 1 and 2 and
    the machine [success], but the debounced search still shows ["a"]:
    its effect tracks nothing and ran its one timer at 300 ms. *)
Example vue_example_session :
  exists s, run_script 200
    [Run (body (inst <- alloc JUndef ;; x <- setup inst ;;
                increment x ;;; increment x ;;; decrement x ;;;
                setSearch x (JStr "a") ;;;
                _ <- set_timer 500 false (body (setSearch x (JStr "ab"))) ;;
                handleAsync x true ;;;
                _ <- set_timer 2000 false (body (
                       c <- count x ;; d <- doubled x ;; st <- state x ;; ds <- debouncedSearch x ;;
                       emit (OLog "shown" (JArr 0 [c; d; st; ds])))) ;;
                cret tt));
     Wait 3000] st0 = Some s /\
    trace s = [OInvoke Fetch.window_fetch (JStr QwikDemo.user_url);
               OLog "shown" (JArr 0 [num 1; num 2; JStr "success"; JStr "a"])].
Proof. run_script_tac. Qed.

End ShowcaseScenarios.
