(* ===== verification/SvelteDemo.v ===== *)
(** * The Svelte universal plugin demo: lines 747-1198 of
    [src/examples/svelte-app/src/lib/universal-plugins.js]

    The component's [<script>] (lines 752-905) runs once, when the
    component is created: it builds four plugin compositions with the
    plugins of the library ([Plugins]) and of [universal-plugins.js]
    ([SvelteApp.UPlugins]), and calls the hooks of the [.svelte.js]
    module ([SvelteApp.SvelteHooks]).  Its template (lines 906-1043)
    binds the handlers and shows the state.

    Module [UniversalDemo] has the script as [setup], which returns the
    component's getters and setters ([demo]), its handlers, and the
    texts the template shows.  [Math.random()] is not modelled: the
    handlers that draw take the outcome of the draw ([fails]), and the
    user fetcher the outcome of its two draws.  [console.log] is a trace
    event carrying its message and value.

    The setter of the Svelte [useSignal] writes the [$state] and the
    signal the plugins returned ([coreSignal._set(value)]), not the
    signal the plugins were applied to: a plugin that derives a new
    signal ([debouncePlugin]) never sees a write of the setter, so the
    search is not debounced ([search_not_debounced]).  The suggestion
    machine has no way out of [success] ([machine_stuck_in_success]). *)

From Stdlib Require Import ZArith String.
From stdpp Require Import base list gmap strings.
From S2P Require Import Prelude JsValue Engine Json Signal StateAlg Time Fetch Plugins Vue SvelteApp Regex.

Local Open Scope resig_scope.

Module UniversalDemo.
Import SvelteRt SvelteHooks.

(** [/^[^\s@]+@[^\s@]+\.[^\s@]+$/.test(x)], which tests [String(x)]. *)
Definition is_valid_email (x : jsval) : bool := Regex.test Regex.email_re (js_string x).

(** The plugin compositions (lines 779-795 and 807-811). *)
Definition emailPlugins : Plugins.plugin :=
  Plugins.compose [Plugins.validatePlugin is_valid_email None; Plugins.loggerPlugin "Email"].
Definition searchPlugins : Plugins.plugin :=
  Plugins.compose [Plugins.debouncePlugin 300; Plugins.loggerPlugin "Search"].
Definition counterPlugins : Plugins.plugin := Plugins.loggerPlugin "Counter".
Definition persistentPlugins : Plugins.plugin :=
  Plugins.compose [Plugins.persistPlugin "demo-data"; Plugins.loggerPlugin "Persistent"].
Definition asyncPlugins : Plugins.plugin :=
  Plugins.compose [UPlugins.retryPlugin 3 1000; UPlugins.timeoutPlugin 5000; Plugins.loggerPlugin "AsyncData"].

(** The user fetcher (lines 814-819): wait a second, then fail when
    the first draw exceeds [0.7], else answer a user whose [id] is the
    second draw. *)
Definition userFetcher (fails : bool) (rid : jsval) : Fetch.async_fn := fun ok err =>
  _ <- set_timer 1000 false (body (
         if fails then i <- new_id ;; err (JErr i "Random API error")
         else o <- new_id ;;
              ok (JObj o [("name", JStr "John Doe"); ("email", JStr "john@example.com"); ("id", rid)]))) ;;
  cret tt.

(** The reducer of the suggestion machine (lines 828-841). *)
Definition reducer (state action : jsval) : jsval :=
  if js_same state (JStr "idle") then (if js_same action (JStr "fetch") then JStr "loading" else state)
  else if js_same state (JStr "loading") then
    (if js_same action (JStr "success") then JStr "success"
     else if js_same action (JStr "error") then JStr "error" else state)
  else if js_same state (JStr "success") || js_same state (JStr "error") then
    (if js_same action (JStr "reset") then JStr "idle" else state)
  else state.

Record demo : Type := mk_demo {
  email : nat;
  setEmail : jsval -> M unit;
  search : nat;
  setSearch : jsval -> M unit;
  counter : nat;
  setCounter : jsval -> M unit;
  persistentData : nat;
  setPersistentData : jsval -> M unit;
  emailValid : M jsval;
  userData : M jsval;
  refetchUser : M unit;
  setUserData : jsval -> M unit;
  suggestionState : M jsval;
  sendSuggestion : jsval -> M unit;
  suggestions : nat;
  setSuggestions : jsval -> M unit
}.

(** The effect of lines 877-883, with its cleanup. *)
Definition counter_effect (counter : nat) : M (option (M unit)) :=
  v <- read counter ;; emit (OLog "Counter changed to:" v) ;;;
  cret (Some (emit (OLog "Counter effect cleanup" JUndef))).

(** The script (lines 798-883) up to the handlers: the hooks in
    their order, with the effect of lines 877-883. *)
Definition setup (userFetch : Fetch.async_fn) : M demo :=
  e <- useSignal (JStr "") (Some emailPlugins) ;;
  s <- useSignal (JStr "") (Some searchPlugins) ;;
  c <- useSignal (num 0) (Some counterPlugins) ;;
  p <- useSignal (JStr "") (Some persistentPlugins) ;;
  emailValid <- useComputed (v <- read e.1 ;; cret (JBool (is_valid_email v))) ;;
  u <- useAsyncSignal userFetch JNull ;;
  m <- useMachine (JStr "idle") reducer ;;
  i <- new_id ;; sg <- useSignal (JArr i []) None ;;
  useEffect (counter_effect c.1) [c.1] (Some [_ <- read c.1 ;; cret tt]) [c.1] ;;;
  cret (mk_demo e.1 e.2 s.1 s.2 c.1 c.2 p.1 p.2 emailValid u.1.1 u.1.2 u.2 m.1 m.2 sg.1 sg.2).

(** [!email() || email().length < 3] (lines 849, 1011). *)
Definition too_short (v : jsval) : bool :=
  negb (truthy v) || match v with JStr t => (String.length t <? 3)%nat | _ => false end.

(** [fetchEmailSuggestions] (lines 847-874); [fails] is the outcome of
    [Math.random() > 0.8]. *)
Definition fetchEmailSuggestions (x : demo) (fails : bool) : M unit :=
  v <- read (email x) ;;
  emit (OLog "fetchEmailSuggestions: email value is:" v) ;;;
  if too_short v then emit (OLog "fetchEmailSuggestions: email too short, not fetching" JUndef)
  else
    sendSuggestion x (JStr "fetch") ;;;
    emit (OLog "fetchEmailSuggestions: starting fetch..." JUndef) ;;;
    _ <- set_timer 500 false (body (
           if fails then
             i <- new_id ;; emit (OLog "fetchEmailSuggestions: error:" (JErr i "Random API error")) ;;;
             sendSuggestion x (JStr "error")
           else
             w <- read (email x) ;; i <- new_id ;;
             let newSuggestions := JArr i [JStr (js_string w +:+ "@gmail.com");
                                          JStr (js_string w +:+ "@yahoo.com");
                                          JStr (js_string w +:+ "@outlook.com")] in
             emit (OLog "fetchEmailSuggestions: success with suggestions:" newSuggestions) ;;;
             setSuggestions x newSuggestions ;;;
             sendSuggestion x (JStr "success"))) ;;
    cret tt.

(** [incrementCounter] (lines 886-888). *)
Definition incrementCounter (x : demo) : M unit :=
  v <- read (counter x) ;; setCounter x (js_add v (num 1)).

(** [testFetchSuggestions] (lines 890-894). *)
Definition testFetchSuggestions (x : demo) (fails : bool) : M unit :=
  v <- read (email x) ;; emit (OLog "Button clicked! Email value:" v) ;;;
  st <- suggestionState x ;; emit (OLog "Current suggestion state:" st) ;;;
  fetchEmailSuggestions x fails.

(** [resetDemo] (lines 896-904): in the browser [localStorage] is
    defined. *)
Definition resetDemo (x : demo) : M unit :=
  setEmail x (JStr "") ;;; setSearch x (JStr "") ;;; setCounter x (num 0) ;;;
  setPersistentData x (JStr "") ;;; storage_del_m "demo-data".

(** The email status (lines 925-933). *)
Definition email_status (x : demo) : M string :=
  v <- read (email x) ;; ok <- emailValid x ;;
  cret (if truthy v then (if truthy ok then "Valid email format" else "Invalid email format")
        else "Type an email to see validation").

(** [{search() || 'Empty'}] (line 948). *)
Definition search_shown (x : demo) : M jsval :=
  v <- read (search x) ;; cret (if truthy v then v else JStr "Empty").

(** The suggestion button is disabled (line 1011); the Reset button is
    shown (lines 1018-1022, [{#if suggestionState() === 'error'}]). *)
Definition suggest_disabled (x : demo) : M bool :=
  v <- read (email x) ;; st <- suggestionState x ;;
  cret (too_short v || js_same st (JStr "loading")).
Definition reset_shown (x : demo) : M bool :=
  st <- suggestionState x ;; cret (js_same st (JStr "error")).

(** The user data status (lines 992-1002). *)
Definition user_status (x : demo) : M string :=
  u <- userData x ;;
  let d := get_field u "data" in
  cret (if truthy (get_field u "loading") then "Loading user data..."
        else if truthy (get_field u "error") then "Error: " +:+ js_string (get_field (get_field u "error") "message")
        else if truthy d then
          "User: " +:+ js_string (get_field d "name") +:+ " (" +:+ js_string (get_field d "email") +:+ ")"
        else "Click to fetch user data").

(** The Reset button's handler (line 1019). *)
Definition resetSuggestion (x : demo) : M unit := sendSuggestion x (JStr "reset").

End UniversalDemo.

Module SvelteDemoScenarios.
Import UniversalDemo.

Definition st0 : store := init_store 1000.

(** What the template shows of the suggestion part and the user data:
    the machine's state, whether the Reset button is shown, the
    suggestions and the user status. *)
Definition show_view (x : demo) : M unit :=
  st <- suggestionState x ;; r <- reset_shown x ;; sg <- read (suggestions x) ;; u <- user_status x ;;
  emit (OLog "view" (JArr 0 [st; JBool r; sg; JStr u])).

Definition views (s : store) : list jsval :=
  omap (fun o => match o with OLog "view" v => Some v | _ => None end) (trace s).

(** The search is not debounced: three keystrokes in the same
    millisecond are each logged by the [Search] logger and shown at
    once, because the setter writes the debounced signal itself; the
    debounce timer of [searchPlugins] never starts.  The counter effect
    runs in Svelte's flush, after the keystrokes. *)
Example search_not_debounced :
  exists s, run_script 200
    [Run (body (x <- setup (userFetcher false (num 0)) ;;
                setSearch x (JStr "a") ;;; setSearch x (JStr "ab") ;;; setSearch x (JStr "abc") ;;;
                v <- search_shown x ;; emit (OLog "shown" v)));
     Wait 1000] st0 = Some s /\
    trace s = [OLog "Search:" (JStr "a"); OLog "Search:" (JStr "ab"); OLog "Search:" (JStr "abc");
               OLog "shown" (JStr "abc"); OLog "Counter changed to:" (num 0)] /\
    timers s = [].
Proof. run_script_tac. Qed.

(** The suggestion machine has no way out of [success]: after a first
    successful fetch, the Reset button is hidden (it is shown in
    [error] only), [resetDemo] does not touch the machine, and a second
    fetch sends [fetch] and [success] to a machine that ignores both,
    while the suggestions are replaced.  The user fetch fails after a
    second and shows its error message.  [resetDemo] removes
    [demo-data], but the persist plugin stores under
    [persist_demo-data], which keeps the empty text [resetDemo] wrote. *)
Example machine_stuck_in_success :
  exists s, run_script 200
    [Run (body (x <- setup (userFetcher true (num 0)) ;;
                setEmail x (JStr "abc") ;;; setPersistentData x (JStr "hello") ;;;
                testFetchSuggestions x false ;;; refetchUser x ;;;
                _ <- set_timer 600 false (body (show_view x ;;; resetDemo x ;;; setEmail x (JStr "xyz") ;;;
                                              testFetchSuggestions x false)) ;;
                _ <- set_timer 1500 false (body (show_view x)) ;;
                cret tt));
     Wait 3000] st0 = Some s /\
    views s = [JArr 0 [JStr "success"; JBool false;
                       JArr 76 [JStr "abc@gmail.com"; JStr "abc@yahoo.com"; JStr "abc@outlook.com"];
                       JStr "Loading user data..."];
               JArr 0 [JStr "success"; JBool false;
                       JArr 91 [JStr "xyz@gmail.com"; JStr "xyz@yahoo.com"; JStr "xyz@outlook.com"];
                       JStr "Error: Random API error"]] /\
    storage s !! "persist_demo-data" = Some (Plugins.stored_text (JStr "")).
Proof. run_script_tac. Qed.

(** After a failed fetch the Reset button is shown, and it brings the
    machine back to [idle]. *)
Example reset_after_error :
  exists s, run_script 200
    [Run (body (x <- setup (userFetcher false (num 0)) ;;
                setEmail x (JStr "abc") ;;; testFetchSuggestions x true ;;;
                _ <- set_timer 600 false (body (show_view x ;;; resetSuggestion x ;;; show_view x)) ;;
                cret tt));
     Wait 1000] st0 = Some s /\
    views s = [JArr 0 [JStr "error"; JBool true; JArr 41 []; JStr "Click to fetch user data"];
               JArr 0 [JStr "idle"; JBool false; JArr 41 []; JStr "Click to fetch user data"]].
Proof. run_script_tac. Qed.

End SvelteDemoScenarios.
